(* ===== verification/_CoqProject ===== *)
-Q . S2P
Prelude.v
XXHash.v
XXHashSpec.v
XXHashStream.v
CHeap.v
PmemBuffer.v
PmemBufferSpec.v
PmemBufferLoad.v
PmemBufferSession.v
PmemBufferTests.v
PMem.v
Cuckoo.v
PmemKV.v
PmemKVList.v
PmemKVStore.v
PmemKVIndex.v
PmemKVUpdate.v
PmemKVLoops.v
PmemKVWalk.v
PmemKVSpec.v
PmemKVProps.v
PmemKVTests.v
PmemKVRace.v
Jni.v
JniProps.v
CatchString.v
CatchStringProps.v
CatchTest.v
CatchSpecProps.v
CatchRegistryProps.v
CatchResult.v
CatchTracker.v
CatchSections.v
CatchRun.v
CatchRunProps.v
CatchRunSections.v
CatchXml.v
CatchXmlProps.v
CatchText.v
CatchTextProps.v
CatchClara.v
CatchClaraProps.v
CatchStreams.v
CatchConfig.v
CatchList.v
CatchReporters.v
CatchSession.v
CatchXmlReporter.v
CatchXmlSteps.v
CatchXmlReporterProps.v
CatchRunGroups.v
CatchRunReport.v
CatchGenerators.v
CatchGeneratorsProps.v
CatchToString.v
CatchCompact.v
CatchCompactProps.v
CatchCumulative.v
CatchCumulativeProps.v
CatchCumulativeCases.v
CatchJunit.v
CatchJunitProps.v
CatchJunitRun.v
CatchConsole.v
CatchConsoleProps.v
CatchDefaultReporters.v
CatchSessionProps.v
CatchMatchers.v
CatchMatchersProps.v
CatchFloat.v
CatchFloatProps.v
CatchApprox.v
CatchCapture.v
CatchExceptions.v
CatchAssertions.v
CatchGenerate.v
CatchGenerateRun.v
CatchPlatform.v
CatchHub.v
CatchBenchmark.v
