(* ===== verification/Prelude.v ===== *)
(** * SparkNVM native library: a verification development

    SparkNVM is a shuffle plugin for Spark that keeps shuffle blocks in persistent memory.  Its
    Java and Scala half calls a native library through JNI; this development models the C++ of
    that library (native/src), with the test framework its tests are compiled with, and proves
    what the code does.

    ** The program and its model

    - xxhash.hpp hashes the keys of blocks.  XXHash has the one-shot hash and the canonical
      form, one definition for each function template, over a [width] of 32 or 64; XXHashSpec
      compares it with a reference that says by index which word each lane sees; XXHashStream has
      the class [hash_state_t] and its equivalence with the one-shot hash.
    - PmemBuffer.h is a growable byte buffer over [malloc].  CHeap is the C heap; PmemBuffer has
      the class; PmemBufferSpec, PmemBufferLoad and PmemBufferSession state it against a byte
      queue; PmemBufferTests holds the repository's tests of it and instances of the theorems.
    - pmemkv.h is an append-only block store: a list of entries in persistent memory, written
      through the functions of memory_interface.h ([TBPAlloc] and the like, PMem), and an index in
      DRAM, a [cuckoohash_map] (Cuckoo) of chains of nodes.  PmemKV has the class, one definition
      per method.  PmemKVList, PmemKVStore and PmemKVWalk carry the persistent half; PmemKVIndex,
      PmemKVUpdate and PmemKVLoops the index; PmemKVSpec relates both to an abstract log;
      PmemKVProps holds the theorems, PmemKVTests the repository's tests and the instances,
      PmemKVRace the interleaving of two puts.
    - lib_jni_pmdk.cpp is what Java calls: Jni, JniProps.  It composes PmemKV and
      PmemBuffer with the arrays and buffers of the virtual machine.
    - catch.hpp is the Catch test framework.  CatchString: strings and [StringRef].  CatchTest:
      tags, wildcard patterns, test specifications and the registry.  CatchResult: results, totals
      and string matchers.  CatchTracker: the trackers that decide which sections a cycle enters;
      CatchSections runs a tree of sections over them.  CatchRun: the run context, the assertion
      handler, [runTest] and the loop over the tests; CatchRunProps and CatchRunSections are about
      it, CatchRunGroups about the events of a whole run.  CatchGenerators: the generators of
      test values.  CatchToString: values as text.  CatchText: TextFlow.  CatchClara: the
      command-line parser; CatchConfig: the options of a test program.  CatchList and
      CatchSession: the listings, and a whole run from the arguments to the exit code.
    - The run context tells a reporter what happens as [event]s.  CatchXml: [XmlEncode] and
      [XmlWriter]; CatchXmlReporter: the base class of the streaming reporters and the XML
      reporter, CatchXmlSteps and CatchRunReport its proofs; CatchCompact, CatchConsole: the
      compact and the console reporter; CatchCumulative: the base class that keeps the sections
      of a run in nodes shared by pointers, CatchCumulativeProps and CatchCumulativeCases what
      becomes of them; CatchJunit: the JUnit reporter, CatchJunitRun from a run to its document.
      CatchReporters: a reporter as a class, the registry, the listening reporter and
      [makeReporter], which the session calls; CatchDefaultReporters: the four reporters and a
      listener as instances, in the registry as the static initialisers leave it.
    - What assertions are made of: CatchMatchers has matchers, which refer to each other by
      address, with their combinations, and the decomposition of comparisons.  CatchFloat:
      [float] and [double] as IEEE 754 numbers, their bits and their text; CatchFloatProps that
      the bits are in the order of the numbers and that rounding keeps it; CatchApprox: [Approx]
      and the matchers of numbers on top.  CatchCapture: [CAPTURE] and scoped messages, in the
      run context.  CatchStreams: the stream buffer, the pool of string streams and the
      redirection of the standard streams.  CatchExceptions: exceptions as text.
      CatchAssertions: the assertion macros over code that may throw, with the handler that
      reports what its expression came to; CatchGenerate and CatchGenerateRun: [GENERATE] in a
      test case, over the trackers and in the run context.
    - A process: CatchPlatform has what Catch asks of a POSIX system - signals, colours, the
      debugger - and CatchHub the registries, what is registered before [main], and [main] itself,
      which starts the session of CatchSession.
    - CatchBenchmark: how a benchmark is measured and what is made of its samples, in the
      arithmetic of CatchFloat.  The build does not enable benchmarks, so it stands apart.
    - A file X models, a file XProps proves (most X without one have their theorems at the end);
      the witnesses, runs on concrete data and outputs in full stand behind the theorems, or in a
      file XTests.

    ** How the code is modelled

    Code that may fail is of type [outcome]: a result, a failed [assert], or undefined behaviour;
    a memory access outside a live allocation, an indeterminate value or a null pointer used is
    the latter.  Code with state is state passing over [outcome] ([st]); Catch's exceptions are a
    sum under it ([throwing], [ex]).  Machine integers are [Z], wrapped where the code computes
    ([u32], [u64], [i32], [i64]; the library is built with [-fwrapv]).  Structures are records,
    structures behind pointers live in a heap at the code's offsets.  A method that holds the
    object's lock for its whole body is one step; the puts of pmemkv, which do not, are steps of
    single calls in PmemKVRace.

    Code that is not in the repository is a parameter: persistent memory ([PMem], [PMemSpec]), the
    hash map ([CuckooMap], [CuckooSpec]), the allocator's decisions ([Allocator]), the virtual
    machine's byte arrays ([JavaArrays], [JavaArraysSpec]), the value of a decimal fraction, files, clocks and
    durations.  Each class has an instance, and the theorems are applied to it.

    ** What is shown

    - Hashing: the pointer loops compute the reference hash for every input, seed, byte order and
      alignment; every hash fits its width; a stream gives the one-shot hash however it is cut,
      unless it is exactly one stripe long, where the two differ.
    - The buffer: where [malloc] serves every request, sessions refine a byte queue, without
      undefined behaviour, and leave the heap as it was, as long as their writes and what is unread stay small and
      nothing is loaded behind bytes of which some have been read.  [write] and [load] are specified on every
      branch: appended, replayed, beyond the block, and silently dropped where [malloc] refuses.
    - The store: whatever calls were made, in DRAM or in persistent memory refused ones as well
      ([kv_run]), the store represents a log; [put], [get], [get_meta], [dump_all], [free_all] and
      the destructor are specified on the log.  A put whose data the persistent allocator refused returns 0,
      and a get of it reads through null; one whose entry is refused does so itself.  A store does not find what an
      earlier process wrote; two puts whose linking overlaps lose a block, in any store.
    - JNI: array round trips, of at most twice [DEFAULT_BUFSIZE] bytes, and the block index; the
      elements of a machine that copies none are never given back.
    - Catch: a test case of sections whose siblings are distinct runs each leaf once and ends, its assertions are
      counted once - also where it is expected to fail - its events are nested, and the XML and the JUnit reporter make one well-formed
      document each of them, the console reporter only the totals if all passes;
      specifications, tags and patterns mean what they print as; XML escapes lose and leak
      nothing; wrapped text fits its column; command lines are parsed to an end and carried out in
      order; the exit code is the number of failures, 255 at most, and 255 where no reporter can
      be made or the output file cannot be opened; generators over generators enumerate what they
      should, and a test case that takes values from generators is run once for each combination
      of them and counted as its checks say.
    - Reporters: the compact reporter's line for an assertion, and the warnings on which it never
      ends; headers on the console once for each section, and the names on which wrapping them
      aborts; the divider always full, with a share for every kind of result; the count of
      failures in the JUnit report, and where it wraps around; silent listeners change nothing.
    - Assertions: a combination of matchers, temporaries or in variables, means and says what it is
      written as, and what goes wrong where [&&] or [||] changes one in a variable; a margin accepts what is no farther off, and never a NaN;
      the matcher of ULPs accepts the interval it prints, on the target's side of zero; CAPTURE
      tells its expressions apart, but for commas of template arguments, and leaves the messages as they were; redirected output is
      given back in order and the streams are put back; the last translator that knows an
      exception speaks for it; each assertion macro settles one assertion, with the result that
      the end of its expression asks for, also where that is an exception.
    - The process: every object that registers something is accounted for; what is thrown before
      [main] is told in full and no test is run; a fatal signal is told the reporter once and the
      signals do again what they did before the test; a debugger is seen by the first digit of its
      number, and [errno] is left alone.
    - Benchmarks: a measurement is repeated with twice the iterations until it is long enough, or
      31 times; the jackknife leaves out each sample once; an analysis that is defined is one of
      all the samples, in whatever order it leaves them - it is not defined where all are zero.

    ** Fuel and bounds

    Loops that are not structural take fuel, and a theorem says how much is enough, or that the
    code ends: the loops of the hash and of [encodeTo] take the length of the input, each round
    consuming at least one byte; walks over index chains take one more than the number of live
    nodes ([chain_fuel]), walks over the persistent list one for each entry; [replaceInPlace] one
    round for each character; parsing arguments one for each token; a test case as many cycles as
    its tree has leaves; a column one line for each character; a filter over a generator one round
    for each value left; the remaining messages of the compact reporter one each; the divider of
    the totals three rounds; a matcher one more than it refers deep to others; CAPTURE one for each character
    of its arguments.  Numbers of 64 bits have at most 64 digits.  The trackers' [depth] bounds
    how far they climb and close; 2 is enough for any tree of sections, and for generators one
    more than they are nested; a test case with generators takes as many cycles as there are
    combinations of values.  A signal is handled once and then raised for the system: 2 for
    [raise].  The section depth of the reporter is an [int]: fewer than [2 ^ 31] events.

    ** Not modelled

    libfs and libcuckoo are submodules without sources here, lib_jni_pmdk.h is generated, and the
    Java and Scala half is another language.  Of catch.hpp: the detection templates of
    stringification with pairs, tuples and durations (instances that the compiler chooses),
    regular expressions and the random generators (the standard library's), what reporters show of
    benchmarks (not compiled in), redirection of file descriptors (not enabled), timers and time
    stamps, and what is compiled on Windows only.

    Where the components meet, three things are kept apart.  The session and the reporters write
    lists of bytes; the streams are modelled on their own, and the session only opens the one of
    its configuration.  An exception out of a test's function comes to the run context as its
    text, which CatchAssertions and CatchExceptions account for.  The events of a run are given to
    a reporter after the run, and so an exception out of a reporter does not end the run early.
    Concurrency is modelled where the code has a race; elsewhere the locks make a method one step. *)
From Stdlib Require Export ZArith Lia.
From Stdlib Require Export Init.Byte Strings.Byte.
From stdpp Require Export base numbers list gmap option.

#[global] Open Scope Z_scope.

(** ** Outcomes of C++ code

    [Done] is a normal return, [Assert_failed] a failing [assert], and
    [Undefined] any access the C++ standard gives no meaning to: a memory access
    outside a live allocation, the use of a null pointer, the use of an
    indeterminate value, or flowing off the end of a value-returning function. *)

Inductive outcome (A : Type) : Type :=
| Done (a : A)
| Assert_failed
| Undefined.
Arguments Done {A} a.
Arguments Assert_failed {A}.
Arguments Undefined {A}.

#[export] Instance outcome_ret : MRet outcome := λ A a, Done a.
#[export] Instance outcome_bind : MBind outcome := λ A B f m,
  match m with
  | Done a => f a
  | Assert_failed => Assert_failed
  | Undefined => Undefined
  end.

Definition is_done {A} (m : outcome A) : bool :=
  match m with Done _ => true | _ => false end.

(** A null or otherwise absent value where the code needs one. *)
Definition or_undefined {A} (o : option A) : outcome A :=
  match o with Some a => Done a | None => Undefined end.

Lemma bind_Done {A B} (m : outcome A) (f : A → outcome B) b :
  (m ≫= f) = Done b ↔ ∃ a, m = Done a ∧ f a = Done b.
Proof.
  destruct m; cbn; split; intros E; try (destruct E as (? & ? & ?)); simplify_eq; eauto.
Qed.

(** State passing over [outcome]. *)
Definition st (S A : Type) : Type := S → outcome (A * S).
#[export] Instance st_ret S : MRet (st S) := λ A a s, Done (a, s).
#[export] Instance st_bind S : MBind (st S) := λ A B f m s,
  match m s with
  | Done (a, s') => f a s'
  | Assert_failed => Assert_failed
  | Undefined => Undefined
  end.

Definition st_lift {S A} (m : outcome A) : st S A := λ s,
  match m with
  | Done a => Done (a, s)
  | Assert_failed => Assert_failed
  | Undefined => Undefined
  end.
Definition st_assert {S} (b : bool) : st S unit := λ s,
  if b then Done (tt, s) else Assert_failed.
Definition st_undefined {S A} : st S A := λ _, Undefined.
Definition st_get {S} : st S S := λ s, Done (s, s).
Definition st_put {S} (s : S) : st S unit := λ _, Done (tt, s).
Definition st_modify {S} (f : S → S) : st S unit := λ s, Done (tt, f s).

Lemma bind_step {S A B} (m : st S A) (f : A → st S B) s a s' r :
  m s = Done (a, s') → f a s' = r → (m ≫= f) s = r.
Proof. intros E. unfold mbind, st_bind. by rewrite E. Qed.

Lemma bind_undefined {S A B} (m : st S A) (f : A → st S B) s :
  m s = Undefined → (m ≫= f) s = Undefined.
Proof. intros E. unfold mbind, st_bind. by rewrite E. Qed.

Lemma st_bind_assoc {S A B C} (m : st S A) (f : A → st S B) (g : B → st S C) s :
  (x ← m; y ← f x; g y) s = (y ← (x ← m; f x); g y) s.
Proof. unfold mbind, st_bind. by destruct (m s) as [[]| |]. Qed.

Lemma st_bind_inv {S A B} (m : st S A) (f : A → st S B) s r :
  (m ≫= f) s = Done r ↔ ∃ a s', m s = Done (a, s') ∧ f a s' = Done r.
Proof.
  unfold mbind, st_bind.
  destruct (m s) as [[a s']| |]; split; intros E; try (destruct E as (? & ? & ? & ?));
    simplify_eq; eauto.
Qed.

(** ** Machine integers *)

Definition u8_modulus : Z := 256.
Definition u32_modulus : Z := 4294967296.
Definition u64_modulus : Z := 18446744073709551616.

Definition u32 (z : Z) : Z := z mod u32_modulus.
Definition u64 (z : Z) : Z := z mod u64_modulus.
(** Two's complement [int] and [long]: the library is built with [-fwrapv], so
    signed overflow wraps around. *)
Definition i32 (z : Z) : Z := (z + 2147483648) mod u32_modulus - 2147483648.
Definition i64 (z : Z) : Z := (z + 9223372036854775808) mod u64_modulus - 9223372036854775808.

Definition is_u32 (z : Z) : Prop := 0 ≤ z < u32_modulus.
Definition is_u64 (z : Z) : Prop := 0 ≤ z < u64_modulus.
Definition is_i32 (z : Z) : Prop := -2147483648 ≤ z < 2147483648.

#[export] Instance is_u64_dec z : Decision (is_u64 z).
Proof. unfold is_u64. apply _. Defined.

(** Arithmetic goals that mention the machine-integer functions. *)
Ltac unfold_words :=
  unfold is_u32, is_u64, is_i32, u32, u64, i32, i64,
    u8_modulus, u32_modulus, u64_modulus in *.
Ltac word_lia := unfold_words; Z.div_mod_to_equations; lia.

Lemma u64_range z : is_u64 (u64 z).
Proof. word_lia. Qed.
Lemma u32_range z : is_u32 (u32 z).
Proof. word_lia. Qed.
Lemma u64_id z : is_u64 z → u64 z = z.
Proof. word_lia. Qed.
Lemma u32_id z : is_u32 z → u32 z = z.
Proof. word_lia. Qed.
Lemma i32_id z : is_i32 z → i32 z = z.
Proof. word_lia. Qed.
Lemma i32_range z : is_i32 (i32 z).
Proof. word_lia. Qed.

Create HintDb words.
Create Rewrite HintDb words.
#[export] Hint Resolve u64_range u32_range i32_range : words.
#[export] Hint Rewrite u64_id u32_id i32_id using (unfold_words; lia) : words.

(** ** Bytes *)

Definition b2z (b : byte) : Z := Z.of_N (Byte.to_N b).
Definition z2b (z : Z) : byte :=
  match Byte.of_N (Z.to_N (z mod 256)) with Some b => b | None => x00 end.

(** Bytes from their numeric values. *)
Definition ascii_bytes (l : list Z) : list byte := z2b <$> l.

Lemma b2z_range b : 0 ≤ b2z b < 256.
Proof. unfold b2z. pose proof (Byte.to_N_bounded b). lia. Qed.

Lemma z2b_b2z b : z2b (b2z b) = b.
Proof.
  unfold z2b. rewrite Z.mod_small by apply b2z_range.
  unfold b2z. rewrite N2Z.id. by rewrite Byte.of_to_N.
Qed.

Lemma b2z_z2b z : b2z (z2b z) = z mod 256.
Proof.
  unfold z2b, b2z.
  destruct (Byte.of_N _) eqn:E.
  - apply Byte.to_of_N in E. rewrite E.
    rewrite Z2N.id; [done|]. apply Z.mod_pos_bound. lia.
  - apply Byte.of_N_None_iff in E.
    pose proof (Z.mod_pos_bound z 256). lia.
Qed.

Lemma b2z_inj b1 b2 : b2z b1 = b2z b2 → b1 = b2.
Proof. intros E. by rewrite <-(z2b_b2z b1), E, z2b_b2z. Qed.

#[export] Instance byte_eq_dec : EqDecision byte := Byte.byte_eq_dec.
#[export] Instance byte_inhabited : Inhabited byte := populate x00.

(** Little-endian object representation of an unsigned integer of [n] bytes. *)
Fixpoint le_encode (n : nat) (z : Z) : list byte :=
  match n with
  | O => []
  | S n => z2b z :: le_encode n (z / 256)
  end.

Fixpoint le_decode (l : list byte) : Z :=
  match l with
  | [] => 0
  | b :: l => b2z b + 256 * le_decode l
  end.

Lemma length_le_encode n z : length (le_encode n z) = n.
Proof. revert z. induction n; intros z; simpl; auto. Qed.

Lemma le_decode_range l : 0 ≤ le_decode l < 256 ^ Z.of_nat (length l).
Proof.
  induction l as [|b l IH]; [done|].
  cbn [le_decode length]. rewrite Nat2Z.inj_succ, Z.pow_succ_r by lia.
  pose proof (b2z_range b). lia.
Qed.

Lemma le_encode_decode l : le_encode (length l) (le_decode l) = l.
Proof.
  induction l as [|b l IH]; [done|]. cbn [le_decode length le_encode].
  pose proof (b2z_range b) as Hb.
  assert ((b2z b + 256 * le_decode l) mod 256 = b2z b mod 256) as Hm
    by (Z.div_mod_to_equations; lia).
  assert ((b2z b + 256 * le_decode l) / 256 = le_decode l) as Hd
    by (Z.div_mod_to_equations; lia).
  rewrite Hd, IH. f_equal. unfold z2b. rewrite Hm. apply z2b_b2z.
Qed.

Lemma le_decode_encode n z : le_decode (le_encode n z) = z mod 256 ^ Z.of_nat n.
Proof.
  revert z. induction n as [|n IH]; intros z.
  { simpl. by rewrite Z.mod_1_r. }
  cbn [le_decode le_encode]. rewrite IH, b2z_z2b, Nat2Z.inj_succ, Z.pow_succ_r by lia.
  rewrite Z.rem_mul_r by lia. lia.
Qed.

Lemma le_decode_encode_u64 z : is_u64 z → le_decode (le_encode 8 z) = z.
Proof. intros Hz. rewrite le_decode_encode. apply Z.mod_small. exact Hz. Qed.

Lemma le_decode_app l1 l2 :
  le_decode (l1 ++ l2) = le_decode l1 + 256 ^ Z.of_nat (length l1) * le_decode l2.
Proof.
  induction l1 as [|b l1 IH]; [simpl; lia|].
  cbn [le_decode length app]. rewrite IH, Nat2Z.inj_succ, Z.pow_succ_r by lia. lia.
Qed.

#[export] Hint Rewrite length_le_encode : words.

Lemma testbit_byte_cons b x i : 0 ≤ x → 0 ≤ i →
  Z.testbit (b2z b + 256 * x) i =
    if decide (i < 8) then Z.testbit (b2z b) i else Z.testbit x (i - 8).
Proof.
  intros Hx Hi. pose proof (b2z_range b).
  case_decide.
  - rewrite <-(Z.mod_pow2_bits_low _ 8) by lia.
    change (2 ^ 8) with 256. f_equal. Z.div_mod_to_equations; lia.
  - replace i with ((i - 8) + 8) at 1 by lia.
    rewrite <-Z.div_pow2_bits by lia. f_equal. change (2 ^ 8) with 256.
    Z.div_mod_to_equations; lia.
Qed.

(** A property of the integers below a literal bound, one goal for each. *)
Lemma Z_below_forall (P : Z → Prop) n :
  Forall P (seqZ 0 n) → ∀ i, 0 ≤ i < n → P i.
Proof. rewrite Forall_forall. intros HP i Hi. apply HP, list_elem_of_In, elem_of_seqZ. lia. Qed.

(** ** Folds over the fixed-size pieces of a list

    [pieces n g a p] runs [g] at the start of every complete [n]-byte piece of
    [p], by index: piece [k] starts at [k * n]. *)
Section pieces.
Context {A B : Type} (n : nat) (g : A → list B → A).
Implicit Types (p : list B) (a : A).

Definition pieces (a : A) (p : list B) : A :=
  fold_left (λ a k, g a (drop (k * n) p)) (seq 0 (length p / n)) a.
Definition pieces_rest (p : list B) : list B := drop (length p / n * n) p.

Hypothesis Hn : (0 < n)%nat.

Lemma pieces_short a p : (length p < n)%nat → pieces a p = a.
Proof. intros. unfold pieces. by rewrite Nat.div_small. Qed.
Lemma pieces_rest_short p : (length p < n)%nat → pieces_rest p = p.
Proof. intros. unfold pieces_rest. by rewrite Nat.div_small. Qed.

Lemma pieces_count p : (n ≤ length p)%nat →
  (length p / n = S (length (drop n p) / n))%nat.
Proof.
  intros. rewrite length_drop.
  replace (length p) with (length p - n + 1 * n)%nat at 1 by lia.
  rewrite Nat.div_add by lia. lia.
Qed.

Lemma pieces_long a p : (n ≤ length p)%nat → pieces a p = pieces (g a p) (drop n p).
Proof.
  intros Hl. unfold pieces. rewrite pieces_count by done. cbn [seq fold_left].
  rewrite drop_0, <-seq_shift.
  generalize (seq 0 (length (drop n p) / n)) as l, (g a p) as a'.
  induction l as [|k l IH]; intros a'; [done|]. cbn [map fold_left].
  rewrite IH, drop_drop. repeat f_equal; lia.
Qed.
Lemma pieces_rest_long p : (n ≤ length p)%nat → pieces_rest p = pieces_rest (drop n p).
Proof.
  intros Hl. unfold pieces_rest. rewrite pieces_count by done. rewrite drop_drop. f_equal; lia.
Qed.

Lemma pieces_ind (P : list B → Prop) :
  (∀ p, (length p < n)%nat → P p) →
  (∀ p, (n ≤ length p)%nat → P (drop n p) → P p) → ∀ p, P p.
Proof.
  intros Hs Hl p. remember (length p) as m eqn:Em. revert p Em.
  induction m as [m IH] using lt_wf_ind. intros p ->.
  destruct (decide (length p < n)%nat) as [|Hge]; [by apply Hs|].
  apply Hl; [lia|]. eapply IH; [|done]. rewrite length_drop. lia.
Qed.
End pieces.

(** ** Raw memory

    [memcpy dst off src n] copies the first [n] elements of [src] to offset [off]
    of the allocation [dst].  A copy that reads past [src], writes outside [dst],
    or has a negative size (a huge [size_t]) is undefined. *)
Definition memcpy {A} (dst : list A) (off : Z) (src : list A) (n : Z) : outcome (list A) :=
  if decide (0 ≤ n ≤ Z.of_nat (length src) ∧ 0 ≤ off ∧ off + n ≤ Z.of_nat (length dst))
  then Done (take (Z.to_nat off) dst ++ take (Z.to_nat n) src
             ++ drop (Z.to_nat (off + n)) dst)
  else Undefined.

Lemma memcpy_done {A} (dst : list A) off src n dst' :
  memcpy dst off src n = Done dst' ↔
    (0 ≤ n ≤ Z.of_nat (length src) ∧ 0 ≤ off ∧ off + n ≤ Z.of_nat (length dst)) ∧
    dst' = take (Z.to_nat off) dst ++ take (Z.to_nat n) src ++ drop (Z.to_nat (off + n)) dst.
Proof.
  unfold memcpy. case_decide as Hd.
  - split; [by intros [= <-] | by intros [_ ->]].
  - split; [done | by intros [? _]].
Qed.

Lemma memcpy_ok {A} (dst : list A) off src n :
  0 ≤ n ≤ Z.of_nat (length src) → 0 ≤ off → off + n ≤ Z.of_nat (length dst) →
  memcpy dst off src n =
    Done (take (Z.to_nat off) dst ++ take (Z.to_nat n) src ++ drop (Z.to_nat (off + n)) dst).
Proof. intros. apply memcpy_done. auto. Qed.

Lemma memcpy_exists {A} (dst : list A) off src n :
  0 ≤ n ≤ Z.of_nat (length src) → 0 ≤ off → off + n ≤ Z.of_nat (length dst) →
  ∃ dst', memcpy dst off src n = Done dst'.
Proof. intros. eexists. by apply memcpy_ok. Qed.

(** After an in-bounds copy the destination has the same size and holds the copied
    elements behind its untouched first [off] elements. *)
Lemma memcpy_prefix {A} (dst : list A) off src n dst' :
  memcpy dst off src n = Done dst' →
  length dst' = length dst ∧
  take (Z.to_nat (off + n)) dst' = take (Z.to_nat off) dst ++ take (Z.to_nat n) src.
Proof.
  intros [(? & ? & ?) ->]%memcpy_done. split.
  - rewrite !length_app, !length_take, length_drop. lia.
  - rewrite app_assoc, take_app_le by (rewrite length_app, !length_take; lia).
    apply take_ge. rewrite length_app, !length_take. lia.
Qed.

(** What a window that ends behind the copied elements shows. *)
Lemma memcpy_window {A} (dst : list A) off src n dst' a :
  memcpy dst off src n = Done dst' → (a ≤ Z.to_nat off)%nat →
  take (Z.to_nat (off + n) - a) (drop a dst') =
    take (Z.to_nat off - a) (drop a dst) ++ take (Z.to_nat n) src.
Proof.
  intros Hm Ha. pose proof Hm as [(? & ? & ?) _]%memcpy_done.
  apply memcpy_prefix in Hm as [_ Hp].
  rewrite !take_drop_commute.
  replace (a + (Z.to_nat (off + n) - a))%nat with (Z.to_nat (off + n)) by lia.
  replace (a + (Z.to_nat off - a))%nat with (Z.to_nat off) by lia.
  rewrite Hp, drop_app_le by (rewrite length_take; lia). done.
Qed.

(** A whole source copied right behind a known prefix. *)
Lemma memcpy_middle {A} (acc rest src : list A) off n :
  off = Z.of_nat (length acc) → n = Z.of_nat (length src) → (length src ≤ length rest)%nat →
  memcpy (acc ++ rest) off src n = Done (acc ++ src ++ drop (length src) rest).
Proof.
  intros -> -> Hl. rewrite memcpy_ok; [|lia|lia|rewrite length_app; lia]. f_equal. f_equal.
  - rewrite Nat2Z.id. by rewrite take_app_length.
  - f_equal; [by rewrite Nat2Z.id, take_ge|].
    replace (Z.to_nat (_ + _)) with (length acc + length src)%nat by lia.
    rewrite <-drop_drop. by rewrite drop_app_length.
Qed.
