(* ===== verification/XXHash.v ===== *)
(** * xxHash (native/src/xxhash.hpp), one-shot hashing and canonical form

    The templates over [N = 32, 64] are functions of a [width]; a [hash_t<N>] is a
    [Z] kept below [2^N] by [wrap].  A pair of pointers [(p, bEnd)] is the list of
    bytes between them: [p += k] is [drop k] and [p + k <= bEnd] compares [k] with
    the length.  The host is little-endian (the library is built for x86-64 Linux
    only), so [XXH_CPU_LITTLE_ENDIAN] is 1 and [XXH_FORCE_ALIGN_CHECK] is 0. *)
From S2P Require Import Prelude.

Inductive width := W32 | W64.
#[export] Instance width_eq_dec : EqDecision width.
Proof. solve_decision. Defined.

Definition bits (w : width) : Z := match w with W32 => 32 | W64 => 64 end.
Definition modulus (w : width) : Z :=
  match w with W32 => u32_modulus | W64 => u64_modulus end.
(** Bytes in a [hash_t<N>] (N / 8) and in one stripe (N / 2). *)
Definition lane_bytes (w : width) : nat := match w with W32 => 4 | W64 => 8 end.
Definition stripe_bytes (w : width) : nat := match w with W32 => 16 | W64 => 32 end.

(** Assignment to a [hash_t<N>]: unsigned arithmetic wraps. *)
Definition wrap (w : width) (z : Z) : Z := z mod modulus w.
Definition in_width (w : width) (z : Z) : Prop := 0 ≤ z < modulus w.

(** ** Namespace bit_ops *)
Module bit_ops.

Definition rotl32 (x r : Z) : Z := Z.lor (wrap W32 (Z.shiftl x r)) (Z.shiftr x (32 - r)).
Definition rotl64 (x r : Z) : Z := Z.lor (wrap W64 (Z.shiftl x r)) (Z.shiftr x (64 - r)).

Definition swap32 (x : Z) : Z :=
  Z.lor (Z.lor (Z.lor
    (Z.land (wrap W32 (Z.shiftl x 24)) 0xff000000)
    (Z.land (wrap W32 (Z.shiftl x 8)) 0x00ff0000))
    (Z.land (Z.shiftr x 8) 0x0000ff00))
    (Z.land (Z.shiftr x 24) 0x000000ff).

Definition swap64 (x : Z) : Z :=
  Z.lor (Z.lor (Z.lor (Z.lor (Z.lor (Z.lor (Z.lor
    (Z.land (wrap W64 (Z.shiftl x 56)) 0xff00000000000000)
    (Z.land (wrap W64 (Z.shiftl x 40)) 0x00ff000000000000))
    (Z.land (wrap W64 (Z.shiftl x 24)) 0x0000ff0000000000))
    (Z.land (wrap W64 (Z.shiftl x 8)) 0x000000ff00000000))
    (Z.land (Z.shiftr x 8) 0x00000000ff000000))
    (Z.land (Z.shiftr x 24) 0x0000000000ff0000))
    (Z.land (Z.shiftr x 40) 0x000000000000ff00))
    (Z.land (Z.shiftr x 56) 0x00000000000000ff).

Definition rotl (w : width) (n r : Z) : Z :=
  match w with W32 => rotl32 n r | W64 => rotl64 n r end.

Definition swap (w : width) (n : Z) : Z :=
  match w with W32 => swap32 n | W64 => swap64 n end.

End bit_ops.

Inductive alignment := aligned | unaligned.
Inductive endianness := big_endian | little_endian | unspecified.
#[export] Instance alignment_eq_dec : EqDecision alignment.
Proof. solve_decision. Defined.
#[export] Instance endianness_eq_dec : EqDecision endianness.
Proof. solve_decision. Defined.

(** ** Namespace mem_ops *)
Module mem_ops.

(** [memcpy] of [sizeof(hash_t<N>)] bytes into a [hash_t<N>] of the host. *)
Definition read_unaligned (w : width) (memPtr : list byte) : Z :=
  le_decode (take (lane_bytes w) memPtr).
Definition read32 (memPtr : list byte) : Z := read_unaligned W32 memPtr.
Definition read64 (memPtr : list byte) : Z := read_unaligned W64 memPtr.

(** The branch under [XXH_CPU_LITTLE_ENDIAN]: entry [endian] of the lookup array. *)
Definition get_endian (endian : endianness) : endianness :=
  match endian with
  | big_endian => big_endian
  | little_endian => little_endian
  | unspecified => little_endian
  end.
Definition is_little_endian : bool := bool_decide (get_endian unspecified = little_endian).

Definition readLE_align (w : width) (ptr : list byte) (endian : endianness)
    (align : alignment) : Z :=
  if decide (align = unaligned) then
    if decide (endian = little_endian) then read_unaligned w ptr
    else bit_ops.swap w (read_unaligned w ptr)
  else
    (* a dereference of a pointer to [hash_t<N>] reads the same bytes *)
    if decide (endian = little_endian) then le_decode (take (lane_bytes w) ptr)
    else bit_ops.swap w (le_decode (take (lane_bytes w) ptr)).

Definition readLE (w : width) (ptr : list byte) (endian : endianness) : Z :=
  readLE_align w ptr endian unaligned.

Definition readBE (w : width) (ptr : list byte) : Z :=
  if is_little_endian then bit_ops.swap w (read_unaligned w ptr)
  else read_unaligned w ptr.

Definition XXH_FORCE_ALIGN_CHECK : bool := false.

Definition get_alignment (w : width) (input_address : Z) : alignment :=
  if XXH_FORCE_ALIGN_CHECK
     && (Z.land input_address (Z.of_nat (lane_bytes w) - 1) =? 0)
  then aligned else unaligned.

End mem_ops.

(** ** Namespace detail *)
Module detail.
Import bit_ops mem_ops.

Definition primes32 : list Z :=
  [2654435761; 2246822519; 3266489917; 668265263; 374761393].
Definition primes64 : list Z :=
  [11400714785074694791; 14029467366897019727; 1609587929392839161;
   9650029242287828579; 2870177450012600261].

Definition PRIME (w : width) (n : nat) : Z :=
  nth (n - 1) (match w with W32 => primes32 | W64 => primes64 end) 0.

Definition round (w : width) (seed input : Z) : Z :=
  let seed := wrap w (seed + wrap w (input * PRIME w 2)) in
  let seed := rotl w seed (match w with W32 => 13 | W64 => 31 end) in
  wrap w (seed * PRIME w 1).

Definition mergeRound64 (acc val : Z) : Z :=
  let val := round W64 0 val in
  let acc := Z.lxor acc val in
  wrap W64 (wrap W64 (acc * PRIME W64 1) + PRIME W64 4).

(** The four accumulators. *)
Record lanes := mk_lanes { v1 : Z; v2 : Z; v3 : Z; v4 : Z }.

(** Nothing to merge for [N = 32]. *)
Definition endian_align_sub_mergeround (w : width) (hash_ret : Z) (v : lanes) : Z :=
  match w with
  | W32 => hash_ret
  | W64 =>
      let hash_ret := mergeRound64 hash_ret (v1 v) in
      let hash_ret := mergeRound64 hash_ret (v2 v) in
      let hash_ret := mergeRound64 hash_ret (v3 v) in
      mergeRound64 hash_ret (v4 v)
  end.

(** [while ((p + 4) <= bEnd)], with fuel: the length of the input is enough. *)
Fixpoint ending32_words (fuel : nat) (hash_ret : Z) (p : list byte)
    (endian : endianness) (align : alignment) : Z * list byte :=
  match fuel with
  | O => (hash_ret, p)
  | S fuel =>
      if decide (4 ≤ length p)%nat then
        let hash_ret := wrap W32 (hash_ret
          + wrap W32 (readLE_align W32 p endian align * PRIME W32 3)) in
        let hash_ret := wrap W32 (rotl32 hash_ret 17 * PRIME W32 4) in
        ending32_words fuel hash_ret (drop 4 p) endian align
      else (hash_ret, p)
  end.

(** [while (p < bEnd)], a byte at a time. *)
Fixpoint ending32_bytes (hash_ret : Z) (p : list byte) : Z :=
  match p with
  | [] => hash_ret
  | b :: p =>
      let hash_ret := wrap W32 (hash_ret + wrap W32 (b2z b * PRIME W32 5)) in
      let hash_ret := wrap W32 (rotl32 hash_ret 11 * PRIME W32 1) in
      ending32_bytes hash_ret p
  end.

Definition endian_align_sub_ending32 (hash_ret : Z) (p : list byte)
    (endian : endianness) (align : alignment) : Z :=
  let '(hash_ret, p) := ending32_words (length p) hash_ret p endian align in
  let hash_ret := ending32_bytes hash_ret p in
  let hash_ret := Z.lxor hash_ret (Z.shiftr hash_ret 15) in
  let hash_ret := wrap W32 (hash_ret * PRIME W32 2) in
  let hash_ret := Z.lxor hash_ret (Z.shiftr hash_ret 13) in
  let hash_ret := wrap W32 (hash_ret * PRIME W32 3) in
  Z.lxor hash_ret (Z.shiftr hash_ret 16).

Fixpoint ending64_words (fuel : nat) (hash_ret : Z) (p : list byte)
    (endian : endianness) (align : alignment) : Z * list byte :=
  match fuel with
  | O => (hash_ret, p)
  | S fuel =>
      if decide (8 ≤ length p)%nat then
        let k1 := round W64 0 (readLE_align W64 p endian align) in
        let hash_ret := Z.lxor hash_ret k1 in
        let hash_ret := wrap W64 (wrap W64 (rotl64 hash_ret 27 * PRIME W64 1)
                                  + PRIME W64 4) in
        ending64_words fuel hash_ret (drop 8 p) endian align
      else (hash_ret, p)
  end.

Definition ending64_half (hash_ret : Z) (p : list byte)
    (endian : endianness) (align : alignment) : Z * list byte :=
  if decide (4 ≤ length p)%nat then
    let hash_ret := Z.lxor hash_ret
      (wrap W64 (readLE_align W32 p endian align * PRIME W64 1)) in
    let hash_ret := wrap W64 (wrap W64 (rotl64 hash_ret 23 * PRIME W64 2)
                              + PRIME W64 3) in
    (hash_ret, drop 4 p)
  else (hash_ret, p).

Fixpoint ending64_bytes (hash_ret : Z) (p : list byte) : Z :=
  match p with
  | [] => hash_ret
  | b :: p =>
      let hash_ret := Z.lxor hash_ret (wrap W64 (b2z b * PRIME W64 5)) in
      let hash_ret := wrap W64 (rotl64 hash_ret 11 * PRIME W64 1) in
      ending64_bytes hash_ret p
  end.

Definition endian_align_sub_ending64 (hash_ret : Z) (p : list byte)
    (endian : endianness) (align : alignment) : Z :=
  let '(hash_ret, p) := ending64_words (length p) hash_ret p endian align in
  let '(hash_ret, p) := ending64_half hash_ret p endian align in
  let hash_ret := ending64_bytes hash_ret p in
  let hash_ret := Z.lxor hash_ret (Z.shiftr hash_ret 33) in
  let hash_ret := wrap W64 (hash_ret * PRIME W64 2) in
  let hash_ret := Z.lxor hash_ret (Z.shiftr hash_ret 29) in
  let hash_ret := wrap W64 (hash_ret * PRIME W64 3) in
  Z.lxor hash_ret (Z.shiftr hash_ret 32).

Definition endian_align_sub_ending (w : width) (hash_ret : Z) (p : list byte)
    (endian : endianness) (align : alignment) : Z :=
  match w with
  | W32 => endian_align_sub_ending32 hash_ret p endian align
  | W64 => endian_align_sub_ending64 hash_ret p endian align
  end.

Definition init_lanes (w : width) (seed : Z) : lanes :=
  mk_lanes (wrap w (wrap w (seed + PRIME w 1) + PRIME w 2))
           (wrap w (seed + PRIME w 2))
           (wrap w (seed + 0))
           (wrap w (seed - PRIME w 1)).

(** The body of the stripe loop: four lanes read one word each. *)
Definition stripe_step (w : width) (v : lanes) (p : list byte)
    (endian : endianness) (align : alignment) : lanes * list byte :=
  let n := lane_bytes w in
  let w1 := round w (v1 v) (readLE_align w p endian align) in
  let p := drop n p in
  let w2 := round w (v2 v) (readLE_align w p endian align) in
  let p := drop n p in
  let w3 := round w (v3 v) (readLE_align w p endian align) in
  let p := drop n p in
  let w4 := round w (v4 v) (readLE_align w p endian align) in
  let p := drop n p in
  (mk_lanes w1 w2 w3 w4, p).

(** [do { ... } while (p <= limit)], with fuel: the length of the input is enough. *)
Fixpoint stripe_loop (fuel : nat) (w : width) (v : lanes) (p : list byte)
    (endian : endianness) (align : alignment) : lanes * list byte :=
  match fuel with
  | O => (v, p)
  | S fuel =>
      let '(v, p) := stripe_step w v p endian align in
      if decide (stripe_bytes w ≤ length p)%nat
      then stripe_loop fuel w v p endian align
      else (v, p)
  end.

(** [rotl(v1, 1) + rotl(v2, 7) + rotl(v3, 12) + rotl(v4, 18)], then the merge. *)
Definition converge (w : width) (v : lanes) : Z :=
  let hash_ret := wrap w (wrap w (wrap w
    (rotl w (v1 v) 1 + rotl w (v2 v) 7) + rotl w (v3 v) 12) + rotl w (v4 v) 18) in
  endian_align_sub_mergeround w hash_ret v.

Definition endian_align (w : width) (input : list byte) (seed : Z)
    (endian : endianness) (align : alignment) : Z :=
  let len := Z.of_nat (length input) in
  let '(hash_ret, p) :=
    if decide (stripe_bytes w ≤ length input)%nat then
      let '(v, p) := stripe_loop (length input) w (init_lanes w seed) input endian align in
      (converge w v, p)
    else (wrap w (seed + PRIME w 5), input) in
  let hash_ret := wrap w (hash_ret + wrap w len) in
  endian_align_sub_ending w hash_ret p endian align.

End detail.

(** ** The public overloads of [xxhash] *)

(** A contiguous buffer: where it lies and what it holds. *)
Record buffer := mk_buffer { data_ptr : Z; contents : list byte }.

Definition xxhash (w : width) (input : buffer) (seed : Z) (endian : endianness) : Z :=
  detail.endian_align w (contents input) seed (mem_ops.get_endian endian)
    (mem_ops.get_alignment w (data_ptr input)).

(** [std::basic_string<char>]: [sizeof(T)] is 1. *)
Definition xxhash_string (w : width) (input : buffer) (seed : Z) (endian : endianness) : Z :=
  detail.endian_align w (contents input) seed (mem_ops.get_endian endian)
    (mem_ops.get_alignment w (data_ptr input)).

(** Iterator ranges, [std::vector], [std::array] and [std::initializer_list] of
    elements whose object representation is [repr]. *)
Definition xxhash_elements {T} (repr : T → list byte) (w : width) (ptr : Z) (input : list T)
    (seed : Z) (endian : endianness) : Z :=
  detail.endian_align w (mjoin (repr <$> input)) seed (mem_ops.get_endian endian)
    (mem_ops.get_alignment w ptr).

(** ** Canonical form *)
Module canonical.
(** [digest] after the constructor. *)
Definition canonical_t (w : width) (hash : Z) : list byte :=
  let hash := if mem_ops.is_little_endian then bit_ops.swap w hash else hash in
  le_encode (lane_bytes w) hash.

Definition get_hash (w : width) (digest : list byte) : Z := mem_ops.readBE w digest.
End canonical.

(** ** Memory reads and bit operations *)

Lemma modulus_pow w : modulus w = 2 ^ bits w.
Proof. by destruct w. Qed.
Lemma modulus_bytes w : modulus w = 256 ^ Z.of_nat (lane_bytes w).
Proof. by destruct w. Qed.
Lemma modulus_pos w : 0 < modulus w.
Proof. by destruct w. Qed.
Lemma stripe_lanes w : stripe_bytes w = (4 * lane_bytes w)%nat.
Proof. by destruct w. Qed.
Lemma stripe_pos w : (0 < stripe_bytes w)%nat.
Proof. destruct w; simpl; lia. Qed.

Lemma wrap_range w z : in_width w (wrap w z).
Proof. apply Z.mod_pos_bound, modulus_pos. Qed.
Lemma wrap_id w z : in_width w z → wrap w z = z.
Proof. apply Z.mod_small. Qed.

(** A number below a power of two is one whose high bits are all clear. *)
Lemma below_pow2_bits n x : 0 ≤ n →
  0 ≤ x < 2 ^ n ↔ 0 ≤ x ∧ ∀ i, n ≤ i → Z.testbit x i = false.
Proof.
  intros Hn. split.
  - intros Hx. split; [lia|]. intros i Hi.
    rewrite <-(Z.mod_small x (2 ^ n)) by lia. apply Z.mod_pow2_bits_high. lia.
  - intros [Hx Hb]. split; [done|].
    assert (x = x mod 2 ^ n) as ->; [|apply Z.mod_pos_bound; lia].
    apply Z.bits_inj_iff'. intros i Hi. destruct (decide (i < n)).
    + by rewrite Z.mod_pow2_bits_low.
    + rewrite Z.mod_pow2_bits_high by lia. apply Hb. lia.
Qed.

Lemma lxor_width w x y : in_width w x → in_width w y → in_width w (Z.lxor x y).
Proof.
  unfold in_width. rewrite modulus_pow.
  assert (0 ≤ bits w) by (destruct w; done).
  rewrite !below_pow2_bits by done. intros [? Hx] [? Hy]. split.
  - by apply Z.lxor_nonneg.
  - intros i Hi. by rewrite Z.lxor_spec, Hx, Hy.
Qed.

Lemma lor_width w x y : in_width w x → in_width w y → in_width w (Z.lor x y).
Proof.
  unfold in_width. rewrite modulus_pow.
  assert (0 ≤ bits w) by (destruct w; done).
  rewrite !below_pow2_bits by done. intros [? Hx] [? Hy]. split.
  - by apply Z.lor_nonneg.
  - intros i Hi. by rewrite Z.lor_spec, Hx, Hy.
Qed.

Lemma shiftr_width w x n : 0 ≤ n → in_width w x → in_width w (Z.shiftr x n).
Proof.
  unfold in_width. intros Hn Hx. rewrite Z.shiftr_div_pow2 by done.
  assert (0 < 2 ^ n) by lia. split; [apply Z.div_pos; lia|].
  apply Z.le_lt_trans with x; [|lia]. apply Z.div_le_upper_bound; nia.
Qed.

Lemma rotl_width w x r : 0 ≤ r ≤ bits w → in_width w x → in_width w (bit_ops.rotl w x r).
Proof.
  destruct w; intros; apply lor_width;
    solve [apply wrap_range | apply shiftr_width; [simpl in *; lia|done]].
Qed.

Lemma land_width w x y : in_width w y → in_width w (Z.land x y).
Proof.
  unfold in_width. rewrite modulus_pow.
  assert (0 ≤ bits w) by (destruct w; done).
  rewrite !below_pow2_bits by done. intros [? Hy]. split.
  - apply Z.land_nonneg. auto.
  - intros i Hi. by rewrite Z.land_spec, Hy, andb_false_r.
Qed.

Lemma testbit_wrap w z i : 0 ≤ i < bits w → Z.testbit (wrap w z) i = Z.testbit z i.
Proof. intros. unfold wrap. rewrite modulus_pow. apply Z.mod_pow2_bits_low. lia. Qed.

(** Two [hash_t<N>] are equal when their [N] bits are. *)
Lemma in_width_bits_eq w x y : in_width w x → in_width w y →
  Forall (λ i, Z.testbit x i = Z.testbit y i) (seqZ 0 (bits w)) → x = y.
Proof.
  unfold in_width. rewrite modulus_pow.
  assert (0 ≤ bits w) by (destruct w; done).
  rewrite !below_pow2_bits by done. intros [_ Hx] [_ Hy] HF.
  apply Z.bits_inj_iff'. intros i Hi.
  destruct (decide (i < bits w)) as [Hlt|]; [|by rewrite Hx, Hy by lia].
  apply (Z_below_forall _ _ HF). lia.
Qed.

Lemma testbit_le_decode l i : 0 ≤ i →
  Z.testbit (le_decode l) i =
    match l !! Z.to_nat (i / 8) with
    | Some b => Z.testbit (b2z b) (i mod 8)
    | None => false
    end.
Proof.
  revert i. induction l as [|b l IH]; intros i Hi; [apply Z.bits_0|].
  cbn [le_decode]. pose proof (le_decode_range l). rewrite testbit_byte_cons by lia.
  case_decide.
  - rewrite Z.div_small, Z.mod_small by lia. done.
  - rewrite IH by lia.
    replace (Z.to_nat (i / 8)) with (S (Z.to_nat ((i - 8) / 8)))
      by (Z.div_mod_to_equations; lia).
    replace (i mod 8) with ((i - 8) mod 8) by (Z.div_mod_to_equations; lia). done.
Qed.

(** Evaluates the bits of literals, leaving those of variables. *)
Ltac compute_testbits :=
  repeat match goal with
  | |- context [Z.testbit (Z.pos ?c) ?i] =>
      let r := eval vm_compute in (Z.testbit (Z.pos c) i) in
      change (Z.testbit (Z.pos c) i) with r
  end.

(** Solves [Forall (λ i, testbit (masks and shifts) i = testbit (le_decode _) i) _]. *)
Ltac swap_bits :=
  match goal with
  | |- Forall _ ?l => let l' := eval vm_compute in l in change l with l'
  end;
  repeat constructor;
  rewrite ?Z.lor_spec, ?Z.land_spec; compute_testbits;
  rewrite ?andb_false_r, ?orb_false_r, ?orb_false_l, ?andb_true_r;
  rewrite ?testbit_wrap by (simpl; lia);
  rewrite ?Z.shiftr_spec, ?Z.shiftl_spec by lia;
  rewrite !testbit_le_decode by lia; reflexivity.

Lemma swap_width w x : in_width w (bit_ops.swap w x).
Proof.
  destruct w; cbn [bit_ops.swap]; unfold bit_ops.swap32, bit_ops.swap64;
    repeat apply lor_width; apply land_width; done.
Qed.

(** The shift-and-mask formulas reverse the bytes of the object representation. *)
Lemma swap_bytes w l : length l = lane_bytes w →
  bit_ops.swap w (le_decode l) = le_decode (rev l).
Proof.
  intros Hl. apply (in_width_bits_eq w).
  - apply swap_width.
  - unfold in_width. rewrite modulus_bytes, <-Hl, <-length_rev. apply le_decode_range.
  - destruct w; cbn [bit_ops.swap lane_bytes bits] in *;
      unfold bit_ops.swap32, bit_ops.swap64;
      repeat (destruct l as [|? l]; [discriminate|]; cbn [length] in Hl);
      (destruct l; [|discriminate]); cbn [rev app]; swap_bits.
Qed.

#[export] Hint Resolve wrap_range lxor_width lor_width land_width swap_width : words.
#[export] Hint Extern 4 (in_width _ (Z.shiftr _ _)) => apply shiftr_width; [lia|] : words.

Lemma read_width w p : in_width w (mem_ops.read_unaligned w p).
Proof.
  unfold mem_ops.read_unaligned, in_width. rewrite modulus_bytes.
  pose proof (le_decode_range (take (lane_bytes w) p)) as [? Hub]. split; [done|].
  eapply Z.lt_le_trans; [exact Hub|]. apply Z.pow_le_mono_r; [lia|].
  rewrite length_take. lia.
Qed.

(** The alignment argument only chooses the instruction, never the value. *)
Lemma readLE_align_irrelevant w p e a :
  mem_ops.readLE_align w p e a = mem_ops.readLE w p e.
Proof. by destruct a. Qed.

(** A read looks at the first [N / 8] bytes only. *)
Lemma readLE_app w p q e : (lane_bytes w ≤ length p)%nat →
  mem_ops.readLE w (p ++ q) e = mem_ops.readLE w p e.
Proof.
  intros. unfold mem_ops.readLE, mem_ops.readLE_align, mem_ops.read_unaligned.
  by rewrite take_app_le.
Qed.

(** ** Stripe absorption *)
Section absorb.
Import detail.
Context (w : width) (e : endianness).

(** Every complete stripe of [p] absorbed: the lanes, and what is left of [p]. *)
Definition absorb (v : lanes) (p : list byte) : lanes * list byte :=
  if decide (stripe_bytes w ≤ length p)%nat
  then stripe_loop (length p) w v p e unaligned else (v, p).

Lemma stripe_step_align v p a :
  stripe_step w v p e a = stripe_step w v p e unaligned.
Proof. unfold stripe_step. by rewrite !readLE_align_irrelevant. Qed.

Lemma stripe_loop_align n v p a :
  stripe_loop n w v p e a = stripe_loop n w v p e unaligned.
Proof.
  revert v p. induction n as [|n IH]; intros v p; [done|]. cbn [stripe_loop].
  rewrite stripe_step_align. destruct (stripe_step w v p e unaligned) as [v' p'].
  case_decide; auto.
Qed.

Lemma stripe_step_rest v p a : (stripe_step w v p e a).2 = drop (stripe_bytes w) p.
Proof. unfold stripe_step. cbn. rewrite !drop_drop. f_equal. rewrite stripe_lanes. lia. Qed.

Lemma stripe_loop_fuel n m v p :
  (0 < length p ≤ n)%nat → (length p ≤ m)%nat →
  stripe_loop n w v p e unaligned = stripe_loop m w v p e unaligned.
Proof.
  pose proof (stripe_pos w).
  revert m v p. induction n as [|n IH]; intros [|m] v p Hn Hm; try lia. cbn [stripe_loop].
  pose proof (stripe_step_rest v p unaligned) as Hr.
  destruct (stripe_step w v p e unaligned) as [v' p']. cbn in Hr. subst p'.
  case_decide as Hd; [|done]. rewrite length_drop in Hd.
  apply IH; rewrite length_drop; lia.
Qed.

Lemma absorb_short v p : (length p < stripe_bytes w)%nat → absorb v p = (v, p).
Proof. intros. unfold absorb. by rewrite decide_False by lia. Qed.

Lemma absorb_long v p : (stripe_bytes w ≤ length p)%nat →
  absorb v p = absorb (stripe_step w v p e unaligned).1 (drop (stripe_bytes w) p).
Proof.
  intros Hl. pose proof (stripe_pos w). unfold absorb at 1. rewrite decide_True by done.
  destruct (length p) as [|n] eqn:El; [lia|]. cbn [stripe_loop].
  pose proof (stripe_step_rest v p unaligned) as Hr.
  destruct (stripe_step w v p e unaligned) as [v' p']. cbn in Hr |- *. subst p'.
  unfold absorb. case_decide as Hd; [|done].
  apply stripe_loop_fuel; rewrite length_drop in *; lia.
Qed.

Lemma stripe_step_app v p q : (stripe_bytes w ≤ length p)%nat →
  (stripe_step w v (p ++ q) e unaligned).1 = (stripe_step w v p e unaligned).1.
Proof.
  rewrite stripe_lanes. intros Hl. unfold stripe_step. cbn.
  rewrite !readLE_align_irrelevant, !drop_drop.
  rewrite !drop_app_le by lia.
  by rewrite !readLE_app by (rewrite ?length_drop; lia).
Qed.

(** Absorbing in two steps, the remainder carried over, is absorbing at once. *)
Lemma absorb_app v p q :
  absorb v (p ++ q) = let '(v', r) := absorb v p in absorb v' (r ++ q).
Proof.
  revert v. induction p as [p Hs|p Hl IH] using (pieces_ind _ (stripe_pos w)); intros v.
  - by rewrite (absorb_short v p).
  - rewrite (absorb_long v p), (absorb_long v (p ++ q)) by (rewrite ?length_app; lia).
    rewrite stripe_step_app, drop_app_le by lia. apply IH.
Qed.

Lemma absorb_rest_short v p : (length (absorb v p).2 < stripe_bytes w)%nat.
Proof.
  revert v. induction p as [p Hs|p Hl IH] using (pieces_ind _ (stripe_pos w)); intros v.
  - by rewrite absorb_short.
  - by rewrite absorb_long.
Qed.

(** One-shot hashing in terms of [absorb]. *)
Lemma endian_align_absorb p seed a :
  endian_align w p seed e a =
    let '(v, r) := absorb (init_lanes w seed) p in
    endian_align_sub_ending w
      (wrap w ((if decide (stripe_bytes w ≤ length p)%nat then converge w v
                else wrap w (seed + PRIME w 5)) + wrap w (Z.of_nat (length p)))) r e a.
Proof.
  unfold endian_align, absorb. case_decide as Hd; [|done].
  rewrite stripe_loop_align. by destruct (stripe_loop _ _ _ _ _ _).
Qed.

End absorb.

