(* ===== verification/XXHashSpec.v ===== *)
(** * xxHash against a reference definition

    The loops of xxhash.hpp walk a pointer over the input.  The reference says by
    index which word every accumulator sees: word [4 * k + i] goes to lane [i]. *)
From S2P Require Import Prelude XXHash.
Import bit_ops mem_ops detail canonical.

(** ** The reference *)
Section reference.
Context (w : width) (e : endianness).

(** Accumulator [i] of the stripes of [p]. *)
Definition ref_lane (i : nat) (init : Z) (p : list byte) : Z :=
  fold_left (λ acc k, round w acc (readLE w (drop ((4 * k + i) * lane_bytes w) p) e))
    (seq 0 (length p / stripe_bytes w)) init.

Definition ref_lanes (v : lanes) (p : list byte) : lanes :=
  mk_lanes (ref_lane 0 (v1 v) p) (ref_lane 1 (v2 v) p)
           (ref_lane 2 (v3 v) p) (ref_lane 3 (v4 v) p).

(** One word, and one byte, of the tail. *)
Definition ref_word (h : Z) (p : list byte) : Z :=
  match w with
  | W32 => wrap W32 (rotl32 (wrap W32 (h + wrap W32 (readLE W32 p e * PRIME W32 3))) 17
                     * PRIME W32 4)
  | W64 => wrap W64 (wrap W64 (rotl64 (Z.lxor h (round W64 0 (readLE W64 p e))) 27
                     * PRIME W64 1) + PRIME W64 4)
  end.
Definition ref_byte (h : Z) (b : byte) : Z :=
  match w with
  | W32 => wrap W32 (rotl32 (wrap W32 (h + wrap W32 (b2z b * PRIME W32 5))) 11 * PRIME W32 1)
  | W64 => wrap W64 (rotl64 (Z.lxor h (wrap W64 (b2z b * PRIME W64 5))) 11 * PRIME W64 1)
  end.

Definition ref_avalanche (h : Z) : Z :=
  match w with
  | W32 => let h := wrap W32 (Z.lxor h (Z.shiftr h 15) * PRIME W32 2) in
           let h := wrap W32 (Z.lxor h (Z.shiftr h 13) * PRIME W32 3) in
           Z.lxor h (Z.shiftr h 16)
  | W64 => let h := wrap W64 (Z.lxor h (Z.shiftr h 33) * PRIME W64 2) in
           let h := wrap W64 (Z.lxor h (Z.shiftr h 29) * PRIME W64 3) in
           Z.lxor h (Z.shiftr h 32)
  end.

(** Whole words, then for 64 bits at most one half word, then bytes. *)
Definition ref_tail (h : Z) (p : list byte) : Z :=
  let h := pieces (lane_bytes w) ref_word h p in
  let p := pieces_rest (lane_bytes w) p in
  let '(h, p) := match w with W32 => (h, p) | W64 => ending64_half h p e unaligned end in
  ref_avalanche (fold_left ref_byte p h).

Definition ref_hash (seed : Z) (p : list byte) : Z :=
  let acc :=
    if decide (stripe_bytes w ≤ length p)%nat
    then converge w (ref_lanes (init_lanes w seed) p)
    else wrap w (seed + PRIME w 5) in
  ref_tail (wrap w (acc + wrap w (Z.of_nat (length p)))) (pieces_rest (stripe_bytes w) p).

Definition stripe_acc (v : lanes) (p : list byte) : lanes := (stripe_step w v p e unaligned).1.

Lemma absorb_pieces v p :
  absorb w e v p = (pieces (stripe_bytes w) stripe_acc v p, pieces_rest (stripe_bytes w) p).
Proof.
  pose proof (stripe_pos w).
  revert v. induction p as [p Hs|p Hl IH] using (pieces_ind _ (stripe_pos w)); intros v.
  - by rewrite absorb_short, pieces_short, pieces_rest_short.
  - rewrite absorb_long, IH by done.
    by rewrite (pieces_long _ _ (stripe_pos w) v p), (pieces_rest_long _ (stripe_pos w) p).
Qed.

Lemma pieces_lanes v p : pieces (stripe_bytes w) stripe_acc v p = ref_lanes v p.
Proof.
  unfold pieces, ref_lanes, ref_lane.
  generalize (seq 0 (length p / stripe_bytes w)) as l. intros l.
  revert v. induction l as [|k l IH]; intros v; [by destruct v|].
  cbn [fold_left]. rewrite IH. unfold stripe_acc, stripe_step. cbn.
  rewrite !readLE_align_irrelevant, !drop_drop, !stripe_lanes.
  repeat match goal with
  | |- drop ?a _ = drop ?b _ => replace a with b by lia; reflexivity
  | |- _ => progress f_equal
  end.
Qed.
End reference.

(** ** The tail loops *)
Lemma ending32_words_pieces n h p e a : (length p ≤ n)%nat →
  ending32_words n h p e a = (pieces 4 (ref_word W32 e) h p, pieces_rest 4 p).
Proof.
  revert h p. induction n as [|n IH]; intros h p Hn.
  { by rewrite pieces_short, pieces_rest_short by lia. }
  cbn [ending32_words]. case_decide.
  - rewrite IH by (rewrite length_drop; lia).
    rewrite readLE_align_irrelevant.
    by rewrite (pieces_long 4 _ ltac:(lia) h p), (pieces_rest_long 4 ltac:(lia) p) by done.
  - by rewrite pieces_short, pieces_rest_short by lia.
Qed.

Lemma ending64_words_pieces n h p e a : (length p ≤ n)%nat →
  ending64_words n h p e a = (pieces 8 (ref_word W64 e) h p, pieces_rest 8 p).
Proof.
  revert h p. induction n as [|n IH]; intros h p Hn.
  { by rewrite pieces_short, pieces_rest_short by lia. }
  cbn [ending64_words]. case_decide.
  - rewrite IH by (rewrite length_drop; lia).
    rewrite readLE_align_irrelevant.
    by rewrite (pieces_long 8 _ ltac:(lia) h p), (pieces_rest_long 8 ltac:(lia) p) by done.
  - by rewrite pieces_short, pieces_rest_short by lia.
Qed.

Lemma ending32_bytes_fold h p : ending32_bytes h p = fold_left (ref_byte W32) p h.
Proof. revert h. induction p as [|b p IH]; intros h; [done|]. apply IH. Qed.
Lemma ending64_bytes_fold h p : ending64_bytes h p = fold_left (ref_byte W64) p h.
Proof. revert h. induction p as [|b p IH]; intros h; [done|]. apply IH. Qed.

Lemma ending64_half_align h p e a : ending64_half h p e a = ending64_half h p e unaligned.
Proof. unfold ending64_half. by rewrite !readLE_align_irrelevant. Qed.

Lemma ending_ref w h p e a : endian_align_sub_ending w h p e a = ref_tail w e h p.
Proof.
  destruct w; cbn [endian_align_sub_ending]; unfold ref_tail, ref_avalanche;
    cbn [lane_bytes].
  - unfold endian_align_sub_ending32.
    by rewrite ending32_words_pieces, ending32_bytes_fold.
  - unfold endian_align_sub_ending64.
    rewrite ending64_words_pieces, ending64_half_align by done.
    destruct (ending64_half _ _ _ _). by rewrite ending64_bytes_fold.
Qed.

Lemma endian_align_ref w p seed e a : endian_align w p seed e a = ref_hash w e seed p.
Proof. by rewrite endian_align_absorb, absorb_pieces, pieces_lanes, ending_ref. Qed.

(** The hash of a buffer does not depend on where the buffer lies. *)
Lemma xxhash_address w addr1 addr2 p seed e :
  xxhash w (mk_buffer addr1 p) seed e = xxhash w (mk_buffer addr2 p) seed e.
Proof. unfold xxhash. by rewrite !endian_align_ref. Qed.

Lemma ref_hash_width w e seed p : in_width w (ref_hash w e seed p).
Proof.
  unfold ref_hash, ref_tail. destruct w; cbn zeta;
    repeat match goal with |- context [let '(_, _) := ?x in _] => destruct x end;
    unfold ref_avalanche; auto 6 with words.
Qed.

Lemma xxhash_width w b seed e : in_width w (xxhash w b seed e).
Proof. unfold xxhash. rewrite endian_align_ref. apply ref_hash_width. Qed.

(** ** Properties *)

(** C1 (equivalence): for every input, seed, byte order and alignment, [endian_align]
    - the pointer-walking loops of xxhash.hpp - computes the reference hash, in
    which word [4 * k + i] goes to lane [i] and the tail is cut by index; the fuel of
    the three loops is therefore always enough. *)
Theorem endian_align_reference w p seed e a :
  endian_align w p seed e a = ref_hash w e seed p.
Proof. apply endian_align_ref. Qed.

(** The hash is a number of its width: the modular arithmetic of the model never leaves it. *)
Theorem xxhash_in_width w b seed e : in_width w (xxhash w b seed e).
Proof. apply xxhash_width. Qed.

(** Property (functional): [rotl] is the rotation of the [N]-bit word: bit [i] of the result is
    bit [i - r] of the argument, the bits that leave at the top entering below. *)
Theorem rotl_rotates w x r i :
  in_width w x → 0 < r < bits w → 0 ≤ i < bits w →
  Z.testbit (rotl w x r) i = Z.testbit x ((i - r) mod bits w).
Proof.
  intros Hx Hr Hi. unfold in_width in Hx. rewrite modulus_pow in Hx.
  apply (below_pow2_bits (bits w)) in Hx as [_ Hx]; [|destruct w; done].
  assert (rotl w x r = Z.lor (wrap w (Z.shiftl x r)) (Z.shiftr x (bits w - r))) as ->
    by (by destruct w).
  rewrite Z.lor_spec, testbit_wrap, Z.shiftl_spec, Z.shiftr_spec by lia.
  destruct (decide (r ≤ i)).
  - rewrite Z.mod_small, (Hx (i + (bits w - r))), orb_false_r by lia. done.
  - rewrite Z.testbit_neg_r by lia. cbn [orb]. f_equal.
    replace (i - r) with (i - r + bits w - 1 * bits w) by lia.
    rewrite Zminus_mod, Z.mod_mul, Z.sub_0_r, Zmod_mod by lia.
    rewrite Z.mod_small; lia.
Qed.
Lemma rotl_rotates_witness :
  Z.testbit (rotl W64 0x8000000000000001 7) 6 = Z.testbit 0x8000000000000001 63.
Proof.
  apply (rotl_rotates W64 0x8000000000000001 7 6);
    [vm_compute; split; [discriminate | reflexivity] | |]; simpl; lia.
Defined.

(** Property (roundtrip): the canonical form is the big-endian digest; reading it back gives the
    hash, and every digest of the right size is the canonical form of what it reads as. *)
Theorem canonical_roundtrip w :
  (∀ hash, in_width w hash →
     canonical_t w hash = rev (le_encode (lane_bytes w) hash) ∧
     get_hash w (canonical_t w hash) = hash) ∧
  (∀ digest, length digest = lane_bytes w → canonical_t w (get_hash w digest) = digest).
Proof.
  assert (∀ h, in_width w h → h = le_decode (le_encode (lane_bytes w) h)) as Hdec.
  { intros h Hh. rewrite le_decode_encode, <-modulus_bytes. symmetry. by apply wrap_id. }
  assert (∀ h, in_width w h → canonical_t w h = rev (le_encode (lane_bytes w) h)) as Hcan.
  { intros h Hh. unfold canonical_t. cbn. rewrite (Hdec h Hh) at 1.
    rewrite swap_bytes by apply length_le_encode.
    rewrite <-(length_le_encode (lane_bytes w) h) at 1.
    by rewrite <-length_rev, le_encode_decode. }
  split.
  - intros h Hh. split; [by apply Hcan|]. rewrite Hcan by done.
    unfold get_hash, readBE, read_unaligned. cbn.
    rewrite take_ge, swap_bytes, rev_involutive by (by rewrite length_rev, length_le_encode).
    by rewrite <-Hdec.
  - intros d Hd. unfold get_hash, readBE, read_unaligned. cbn.
    rewrite take_ge, swap_bytes by lia.
    rewrite Hcan, <-Hd, <-length_rev, le_encode_decode; [apply rev_involutive|].
    unfold in_width. rewrite modulus_bytes, <-Hd, <-length_rev. apply le_decode_range.
Qed.

(** Published test vectors of xxHash. *)
Example xxh32_empty : xxhash W32 (mk_buffer 0 []) 0 unspecified = 0x02CC5D05.
Proof. vm_compute. reflexivity. Qed.
Example xxh64_empty : xxhash W64 (mk_buffer 0 []) 0 unspecified = 0xEF46DB3751D8E999.
Proof. vm_compute. reflexivity. Qed.
Example xxh64_a : xxhash W64 (mk_buffer 0 (ascii_bytes [97])) 0 unspecified = 0xD24EC4F1A98C6E5B.
Proof. vm_compute. reflexivity. Qed.
Example xxh64_abc : xxhash W64 (mk_buffer 0 (ascii_bytes [97;98;99])) 0 unspecified = 0x44BC2CF5AD770999.
Proof. vm_compute. reflexivity. Qed.
