(* ===== verification/XXHashStream.v ===== *)
(** * xxHash streaming state (class [hash_state_t] of native/src/xxhash.hpp)

    The array [mem] of four words is its object representation, [N / 2] bytes.  A
    null input pointer is [None]. *)
From S2P Require Import Prelude XXHash XXHashSpec.
Import bit_ops mem_ops detail.

Inductive error_code := ok | error.

Record hash_state := mk_hash_state {
  total_len : Z;
  vs : lanes;
  mem : list byte;
  memsize : Z
}.

(** The constructor, and the values the members have before it runs. *)
Definition hash_state_t (w : width) (seed : Z) : hash_state :=
  {| total_len := 0; vs := init_lanes w seed;
     mem := replicate (stripe_bytes w) x00; memsize := 0 |}.

Definition reset (w : width) (s : hash_state) (seed : Z) : error_code * hash_state :=
  let s := {| total_len := 0; vs := mk_lanes 0 0 0 0;
              mem := replicate (length (mem s)) x00; memsize := 0 |} in
  (ok, {| total_len := total_len s; vs := init_lanes w seed;
          mem := mem s; memsize := memsize s |}).

(** Completing the stripe a previous update left in [mem]. *)
Definition flush_mem (w : width) (s : hash_state) (p : list byte) (endian : endianness)
    : outcome (hash_state * list byte) :=
  let half := Z.of_nat (stripe_bytes w) in
  if decide (memsize s ≠ 0) then
    m ← memcpy (mem s) (memsize s) p (half - memsize s);
    let v := (stripe_step w (vs s) m endian unaligned).1 in
    mret ({| total_len := total_len s; vs := v; mem := m; memsize := 0 |},
          drop (Z.to_nat (half - memsize s)) p)
  else mret (s, p).

Definition _update_impl (w : width) (s : hash_state) (input : option (list byte))
    (endian : endianness) : outcome (error_code * hash_state) :=
  match input with
  | None => mret (error, s)
  | Some p =>
      let half := Z.of_nat (stripe_bytes w) in
      let len := Z.of_nat (length p) in
      let s := {| total_len := u64 (total_len s + len); vs := vs s;
                  mem := mem s; memsize := memsize s |} in
      if decide (u64 (memsize s + len) < half) then
        m ← memcpy (mem s) (memsize s) p len;
        mret (ok, {| total_len := total_len s; vs := vs s; mem := m;
                     memsize := u32 (memsize s + u32 len) |})
      else
        '(s, p) ← flush_mem w s p endian;
        let '(v, p) :=
          if decide (stripe_bytes w ≤ length p)%nat
          then stripe_loop (length p) w (vs s) p endian unaligned else (vs s, p) in
        if decide (0 < length p)%nat then
          m ← memcpy (mem s) 0 p (Z.of_nat (length p));
          mret (ok, {| total_len := total_len s; vs := v; mem := m;
                       memsize := u32 (Z.of_nat (length p)) |})
        else
          mret (ok, {| total_len := total_len s; vs := v; mem := mem s;
                       memsize := memsize s |})
  end.

Definition _digest_impl (w : width) (s : hash_state) (endian : endianness) : Z :=
  let p := take (Z.to_nat (memsize s)) (mem s) in
  let hash_ret :=
    if decide (total_len s > Z.of_nat (stripe_bytes w)) then converge w (vs s)
    else wrap w (v3 (vs s) + PRIME w 5) in
  let hash_ret := wrap w (hash_ret + wrap w (total_len s)) in
  endian_align_sub_ending w hash_ret p endian unaligned.

Definition update (w : width) (s : hash_state) (input : option (list byte))
    (endian : endianness) : outcome (error_code * hash_state) :=
  _update_impl w s input (get_endian endian).

(** Strings, iterator ranges, vectors, arrays and initializer lists whose elements
    have the object representation [repr].  [None] is an empty container whose data pointer is null,
    as [data()] of a vector without elements and [begin()] of an empty initializer list may be. *)
Definition update_elements {T} (repr : T → list byte) (w : width) (s : hash_state)
    (input : option (list T)) (endian : endianness) : outcome (error_code * hash_state) :=
  _update_impl w s ((λ l, mjoin (repr <$> l)) <$> input) (get_endian endian).

Definition digest (w : width) (s : hash_state) (endian : endianness) : Z :=
  _digest_impl w s (get_endian endian).

(** A client that feeds [chunks] to a fresh state and asks for the digest. *)
Fixpoint update_all (w : width) (s : hash_state) (chunks : list (list byte))
    (endian : endianness) : outcome hash_state :=
  match chunks with
  | [] => mret s
  | p :: chunks =>
      '(_, s) ← update w s (Some p) endian;
      update_all w s chunks endian
  end.

Definition stream_hash (w : width) (seed : Z) (chunks : list (list byte))
    (endian : endianness) : outcome Z :=
  s ← update_all w (hash_state_t w seed) chunks endian;
  mret (digest w s endian).

(** ** The state as a function of the bytes fed so far *)
Section absorbed.
Context (w : width) (e : endianness) (seed : Z).

Record absorbed (xs : list byte) (s : hash_state) : Prop := {
  absorbed_total : total_len s = u64 (Z.of_nat (length xs));
  absorbed_mem : length (mem s) = stripe_bytes w;
  absorbed_memsize : 0 ≤ memsize s < Z.of_nat (stripe_bytes w);
  absorbed_lanes :
    absorb w e (init_lanes w seed) xs = (vs s, take (Z.to_nat (memsize s)) (mem s))
}.

Lemma absorbed_init : absorbed [] (hash_state_t w seed).
Proof.
  pose proof (stripe_pos w). split; cbn; [done|apply length_replicate|lia|].
  by rewrite absorb_short by (cbn; lia).
Qed.

Lemma stripe_small : Z.of_nat (stripe_bytes w) < u32_modulus.
Proof. by destruct w. Qed.

Lemma absorbed_rest xs s : absorbed xs s →
  length (take (Z.to_nat (memsize s)) (mem s)) = Z.to_nat (memsize s).
Proof. intros [_ Hm Hs _]. rewrite length_take. lia. Qed.

(** What is held back is never longer than what was fed. *)
Lemma absorbed_memsize_le xs s : absorbed xs s → memsize s ≤ Z.of_nat (length xs).
Proof.
  intros Ha. pose proof (absorbed_rest xs s Ha) as Hr. destruct Ha as [_ _ Hs Hl].
  rewrite absorb_pieces in Hl. injection Hl as _ Hl. rewrite <-Hl in Hr.
  unfold pieces_rest in Hr. rewrite length_drop in Hr. lia.
Qed.

Lemma absorbed_app xs ys s : absorbed xs s →
  absorb w e (init_lanes w seed) (xs ++ ys) =
    absorb w e (vs s) (take (Z.to_nat (memsize s)) (mem s) ++ ys).
Proof. intros Ha. by rewrite absorb_app, (absorbed_lanes _ _ Ha). Qed.

(** The state that stores lanes [v] and a remainder [p] in front of [m]. *)
Lemma absorbed_store xs v p m k :
  absorb w e (init_lanes w seed) xs = (v, p) →
  length m = stripe_bytes w → take (length p) m = p → k = Z.of_nat (length p) →
  absorbed xs {| total_len := u64 (Z.of_nat (length xs)); vs := v; mem := m; memsize := k |}.
Proof.
  intros Ha Hm Hp ->. pose proof (absorb_rest_short w e (init_lanes w seed) xs) as Hs.
  rewrite Ha in Hs. cbn in Hs. split; cbn; [done|done|lia|]. by rewrite Nat2Z.id, Hp, Ha.
Qed.

(** [flush_mem] turns the held-back bytes and the input into an input that continues a
    stripe boundary. *)
Lemma flush_mem_spec s p : length (mem s) = stripe_bytes w →
  0 ≤ memsize s < Z.of_nat (stripe_bytes w) →
  Z.of_nat (stripe_bytes w) ≤ memsize s + Z.of_nat (length p) →
  ∃ s' p', flush_mem w s p e = Done (s', p') ∧
    total_len s' = total_len s ∧ length (mem s') = stripe_bytes w ∧ memsize s' = 0 ∧
    absorb w e (vs s) (take (Z.to_nat (memsize s)) (mem s) ++ p) = absorb w e (vs s') p'.
Proof.
  intros Hm Hs Hp. unfold flush_mem. case_decide as Hz.
  2:{ exists s, p. replace (memsize s) with 0 by lia. by rewrite take_0. }
  set (k := Z.of_nat (stripe_bytes w) - memsize s).
  destruct (memcpy_exists (mem s) (memsize s) p k) as [m Ec]; [lia..|]. rewrite Ec.
  apply memcpy_prefix in Ec as [Hlm Hpre].
  assert (m = take (Z.to_nat (memsize s)) (mem s) ++ take (Z.to_nat k) p) as Em.
  { rewrite <-Hpre. symmetry. apply take_ge. lia. }
  cbn. eexists _, _. split; [done|]. cbn. split_and!; [done|congruence|done|].
  rewrite <-(take_drop (Z.to_nat k) p) at 1. rewrite app_assoc, <-Em.
  rewrite absorb_long by (rewrite length_app; lia).
  rewrite stripe_step_app by lia. f_equal. rewrite drop_app_le, drop_ge by lia. done.
Qed.

Lemma update_impl_absorbed xs ys s :
  absorbed xs s → Z.of_nat (length (xs ++ ys)) < u64_modulus →
  ∃ s', _update_impl w s (Some ys) e = Done (ok, s') ∧ absorbed (xs ++ ys) s'.
Proof.
  intros Ha Hlen. pose proof (absorbed_memsize_le _ _ Ha) as Hle.
  pose proof (absorbed_app xs ys s Ha) as Happ. pose proof (absorbed_rest _ _ Ha) as Hr.
  destruct Ha as [Ht Hm Hs _]. pose proof stripe_small. rewrite length_app in Hlen.
  assert (u64 (total_len s + Z.of_nat (length ys)) = u64 (Z.of_nat (length (xs ++ ys)))) as Htot.
  { rewrite Ht, length_app. unfold_words. rewrite Zplus_mod_idemp_l. f_equal. lia. }
  unfold _update_impl. cbn [memsize total_len vs mem].
  rewrite (u64_id (memsize s + _)) by (unfold_words; lia). case_decide as Hshort.
  - (* everything fits in the buffer *)
    rewrite memcpy_ok by lia. cbn. eexists. split; [done|].
    rewrite Htot. rewrite (absorb_short w e (vs s)) in Happ by (rewrite length_app; lia).
    apply (absorbed_store _ _ _ _ _ Happ).
    + rewrite !length_app, !length_take, length_drop. lia.
    + rewrite length_app, Hr, app_assoc, take_app_le by (rewrite length_app, !length_take; lia).
      rewrite (take_ge ys), take_ge by (rewrite ?length_app; lia). done.
    + rewrite length_app, Hr. unfold_words. Z.div_mod_to_equations; lia.
  - destruct (flush_mem_spec {| total_len := u64 (total_len s + Z.of_nat (length ys));
                vs := vs s; mem := mem s; memsize := memsize s |} ys)
      as (s' & p' & -> & Ht' & Hm' & Hz' & Hab); [done|done|cbn; lia|].
    cbn in Ht', Hab |- *. rewrite Hab in Happ.
    change (if decide _ then _ else _) with (absorb w e (vs s') p') at 1.
    pose proof (absorb_rest_short w e (vs s') p') as Hsh.
    destruct (absorb w e (vs s') p') as [v r]. cbn in Hsh.
    rewrite Ht', Htot. case_decide.
    + rewrite memcpy_ok by lia. cbn. eexists. split; [done|].
      apply (absorbed_store _ _ _ _ _ Happ).
      * rewrite !length_app, !length_take, length_drop. cbn. lia.
      * rewrite Z.add_0_l.
        change (Z.to_nat 0) with 0%nat.
        by rewrite take_0, app_nil_l, Nat2Z.id, (take_ge r), take_app_length by lia.
      * apply u32_id. unfold_words. lia.
    + assert (r = []) as -> by (destruct r; [done|cbn in *; lia]).
      eexists. split; [done|]. rewrite Hz'. by apply (absorbed_store _ _ _ _ _ Happ).
Qed.

(** The digest of a state that has absorbed [xs]. *)
Lemma digest_absorbed xs s : absorbed xs s → Z.of_nat (length xs) < u64_modulus →
  length xs ≠ stripe_bytes w → _digest_impl w s e = ref_hash w e seed xs.
Proof.
  intros [Ht Hm Hs Hl] Hlen Hne. rewrite u64_id in Ht by (unfold_words; lia).
  unfold _digest_impl, ref_hash. rewrite ending_ref, Ht.
  assert (take (Z.to_nat (memsize s)) (mem s) = pieces_rest (stripe_bytes w) xs ∧
          vs s = ref_lanes w e (init_lanes w seed) xs) as [-> ->].
  { rewrite absorb_pieces, pieces_lanes in Hl. by simplify_eq. }
  destruct (decide (stripe_bytes w ≤ length xs)%nat).
  - by rewrite decide_True by lia.
  - rewrite decide_False by lia. unfold ref_lanes, ref_lane. cbn [v3].
    rewrite (Nat.div_small (length xs)) by lia. cbn [seq fold_left init_lanes v3].
    rewrite Z.add_0_r.
    assert (wrap w (wrap w seed + PRIME w 5) = wrap w (seed + PRIME w 5)) as ->
      by (unfold wrap; by rewrite Zplus_mod_idemp_l).
    done.
Qed.

End absorbed.

Lemma update_all_absorbed w e seed xs s chunks :
  absorbed w (get_endian e) seed xs s →
  Z.of_nat (length (xs ++ mjoin chunks)) < u64_modulus →
  ∃ s', update_all w s chunks e = Done s' ∧
        absorbed w (get_endian e) seed (xs ++ mjoin chunks) s'.
Proof.
  revert xs s. induction chunks as [|p chunks IH]; intros xs s Ha Hlen;
    cbn [update_all mjoin list_join] in *.
  { exists s. by rewrite app_nil_r. }
  rewrite app_assoc in Hlen.
  destruct (update_impl_absorbed w (get_endian e) seed xs p s) as (s1 & E1 & Ha1);
    [done|rewrite length_app in Hlen; lia|].
  unfold update. rewrite E1, app_assoc. by apply IH.
Qed.

(** ** Properties *)

(** C7 (equivalence): however the input is cut into [update] calls, the streaming digest is
    the one-shot hash of the concatenation, unless that is exactly one stripe long;
    in particular no [update] ever copies outside [mem] or past its input. *)
Theorem stream_one_shot w seed chunks e addr :
  Z.of_nat (length (mjoin chunks)) < u64_modulus →
  length (mjoin chunks) ≠ stripe_bytes w →
  stream_hash w seed chunks e = Done (xxhash w (mk_buffer addr (mjoin chunks)) seed e).
Proof.
  intros Hlen Hne. unfold stream_hash.
  destruct (update_all_absorbed w e seed [] (hash_state_t w seed) chunks) as (s & -> & Ha).
  { apply absorbed_init. } { done. }
  cbn. unfold digest, xxhash. rewrite (digest_absorbed w _ seed (mjoin chunks)) by done.
  by rewrite endian_align_ref.
Qed.
Lemma stream_one_shot_witness :
  stream_hash W32 7 [ascii_bytes [1;2;3]; ascii_bytes [4;5;6;7;8;9;10;11;12;13;14;15;16;17]]
    unspecified =
  Done (xxhash W32 (mk_buffer 0 (ascii_bytes [1;2;3;4;5;6;7;8;9;10;11;12;13;14;15;16;17]))
          7 unspecified).
Proof.
  apply (stream_one_shot W32 7
    [ascii_bytes [1;2;3]; ascii_bytes [4;5;6;7;8;9;10;11;12;13;14;15;16;17]]).
  - vm_compute. reflexivity.
  - vm_compute. discriminate.
Defined.

(** Property (functional): when the total is exactly one stripe ([N / 2] bytes), the test
    [total_len > N / 2] of [_digest_impl] skips the convergence of the four lanes: the digest
    depends on the third word of the input only, and for both widths there is an input whose
    streamed digest is not its one-shot hash. *)
Theorem stream_exact_stripe_differs w :
  (∀ seed p e, length p = stripe_bytes w →
     stream_hash w seed [p] e =
       Done (ref_tail w (get_endian e)
         (wrap w (wrap w (round w (wrap w seed)
                            (readLE w (drop (2 * lane_bytes w) p) (get_endian e)) + PRIME w 5)
                  + Z.of_nat (stripe_bytes w))) [])) ∧
  ∃ p, length p = stripe_bytes w ∧
    stream_hash w 0 [p] unspecified ≠ Done (xxhash w (mk_buffer 0 p) 0 unspecified).
Proof.
  split.
  - intros seed p e Hp. unfold stream_hash.
    destruct (update_all_absorbed w e seed [] (hash_state_t w seed) [p]) as (s & -> & Ha).
    { apply absorbed_init. }
    { cbn. rewrite app_nil_r, Hp. by destruct w. }
    cbn in *. rewrite app_nil_r in Ha. destruct Ha as [Ht _ _ Hl].
    rewrite absorb_pieces, pieces_lanes in Hl.
    injection Hl as Hv Hr. unfold digest, _digest_impl. rewrite ending_ref, <-Hr, <-Hv, Ht, Hp.
    rewrite u64_id by (by destruct w). rewrite decide_False by lia.
    unfold pieces_rest, ref_lanes, ref_lane. rewrite Hp, Nat.div_same by (destruct w; done).
    rewrite drop_ge by lia. cbn [v3 seq fold_left init_lanes]. rewrite Z.add_0_r.
    rewrite (wrap_id w (Z.of_nat _)) by (destruct w; done). done.
  - exists (replicate (stripe_bytes w) x61). split; [by destruct w|].
    destruct w; vm_compute; discriminate.
Qed.

(** Property (error): an [update] with a null pointer reports [error] and changes nothing, and
    [reset] of any state whose [mem] has its declared size gives a freshly constructed one. *)
Theorem update_null_reset w s e :
  update w s None e = Done (error, s) ∧
  (∀ seed, length (mem s) = stripe_bytes w → reset w s seed = (ok, hash_state_t w seed)).
Proof. split; [done|]. intros seed Hm. unfold reset. cbn. by rewrite Hm. Qed.
