(* ===== verification/CHeap.v ===== *)
(** * The C heap: [malloc], [free], and copies in and out of allocated blocks

    A block is a list of cells; a cell no store has reached is indeterminate ([None]).
    Pointers to blocks are block numbers, the null pointer is [None].  The allocator's
    decisions are a parameter: [can_alloc k sz] says whether the [k]-th call of the
    run, asking for [sz] bytes, succeeds. *)
From S2P Require Import Prelude.

Abbreviation cell := (option byte).

Record heap := mk_heap { blocks : gmap nat (list cell); mallocs : nat }.

Definition empty_heap : heap := mk_heap ∅ 0.

Class Allocator := can_alloc : nat → Z → bool.

Section operations.
Context `{Allocator}.

Definition malloc (sz : Z) : st heap (option nat) := λ h,
  let k := mallocs h in
  if can_alloc k sz
  then Done (Some k, mk_heap (<[k := replicate (Z.to_nat sz) None]> (blocks h)) (S k))
  else Done (None, mk_heap (blocks h) (S k)).

Definition free (p : option nat) : st heap unit := λ h,
  match p with
  | None => Done (tt, h)
  | Some k =>
      match blocks h !! k with
      | Some _ => Done (tt, mk_heap (delete k (blocks h)) (mallocs h))
      | None => Undefined
      end
  end.

(** The cells of a live block; dereferencing null or a dead block is undefined. *)
Definition deref (p : option nat) : st heap (list cell) := λ h,
  match p ≫= λ k, blocks h !! k with
  | Some cells => Done (cells, h)
  | None => Undefined
  end.

(** [memcpy(p + off, src, n)] *)
Definition copy_in (p : option nat) (off : Z) (src : list cell) (n : Z) : st heap unit := λ h,
  match p with
  | None => Undefined
  | Some k =>
      match blocks h !! k with
      | None => Undefined
      | Some cells =>
          match memcpy cells off src n with
          | Done cells' => Done (tt, mk_heap (<[k := cells']> (blocks h)) (mallocs h))
          | Assert_failed => Assert_failed
          | Undefined => Undefined
          end
      end
  end.

(** What [p + off] points to; a pointer outside its block is undefined. *)
Definition cells_at (p : option nat) (off : Z) : st heap (list cell) :=
  cells ← deref p;
  if decide (0 ≤ off ≤ Z.of_nat (length cells))
  then mret (drop (Z.to_nat off) cells) else st_undefined.

End operations.

(** An allocator that never refuses an [int]-sized request. *)
Class TotalAllocator `{Allocator} : Prop :=
  total_alloc : ∀ k sz, 0 ≤ sz < 2147483648 → can_alloc k sz = true.

#[export] Instance int_allocator : Allocator | 10 := λ _ sz, (0 <=? sz) && (sz <? 2147483648).
#[export] Instance int_allocator_total : @TotalAllocator int_allocator.
Proof. intros k sz ?. unfold can_alloc, int_allocator. lia. Qed.

(** ** Ownership

    [owns h0 h p cells]: the heap is [h0] plus the block [p], which holds [cells];
    when [p] is null it is [h0] alone.  The freshness of the next block is part of it. *)
Definition fresh_from (m : gmap nat (list cell)) (k : nat) : Prop :=
  ∀ j, (k ≤ j)%nat → m !! j = None.

Record owns (h0 : gmap nat (list cell)) (h : heap) (p : option nat) (cells : list cell)
    : Prop := {
  owns_blocks : blocks h = match p with Some k => <[k := cells]> h0 | None => h0 end;
  owns_new : ∀ k, p = Some k → h0 !! k = None;
  owns_null : p = None → cells = [];
  owns_fresh : fresh_from (blocks h) (mallocs h)
}.

Section lemmas.
Context `{Allocator}.

Lemma owns_lookup h0 h k cells : owns h0 h (Some k) cells → blocks h !! k = Some cells.
Proof. intros [-> _ _ _]. apply lookup_insert_eq. Qed.

Lemma deref_owned h0 h k cells :
  owns h0 h (Some k) cells → deref (Some k) h = Done (cells, h).
Proof. intros Ho. unfold deref. cbn. by rewrite (owns_lookup _ _ _ _ Ho). Qed.

Lemma cells_at_owned h0 h k cells off : owns h0 h (Some k) cells →
  0 ≤ off ≤ Z.of_nat (length cells) →
  cells_at (Some k) off h = Done (drop (Z.to_nat off) cells, h).
Proof.
  intros Ho Hoff. unfold cells_at, mbind, st_bind. rewrite (deref_owned _ _ _ _ Ho).
  by rewrite decide_True.
Qed.

(** An in-bounds copy replaces the owned cells and touches no other block. *)
Lemma copy_in_owned h0 h k cells off src n cells' :
  owns h0 h (Some k) cells → memcpy cells off src n = Done cells' →
  ∃ h', copy_in (Some k) off src n h = Done (tt, h') ∧ owns h0 h' (Some k) cells'.
Proof.
  intros Ho Hm. unfold copy_in. rewrite (owns_lookup _ _ _ _ Ho), Hm.
  eexists. split; [done|]. destruct Ho as [Hb Hn _ Hf]. split; cbn; [|done|done|].
  - by rewrite Hb, insert_insert_eq.
  - intros j Hj. specialize (Hf j Hj). rewrite Hb in Hf |- *. rewrite insert_insert_eq.
    apply lookup_insert_None in Hf as [Hf Hne]. by apply lookup_insert_None.
Qed.

Lemma copy_in_overflow h0 h k cells off src n :
  owns h0 h (Some k) cells → memcpy cells off src n = Undefined →
  copy_in (Some k) off src n h = Undefined.
Proof. intros Ho Hm. unfold copy_in. by rewrite (owns_lookup _ _ _ _ Ho), Hm. Qed.

Lemma free_owned h0 h p cells : owns h0 h p cells →
  ∃ h', free p h = Done (tt, h') ∧ owns h0 h' None [].
Proof.
  intros Ho. destruct p as [k|].
  - unfold free. rewrite (owns_lookup _ _ _ _ Ho). eexists. split; [done|].
    destruct Ho as [Hb Hn _ Hf]. rewrite Hb in Hf |- *. split; cbn; [|done|done|].
    + by rewrite delete_insert_id by (by apply Hn).
    + intros j Hj. specialize (Hf j Hj). by rewrite lookup_delete_None, Hf; right.
  - exists h. split; [done|]. destruct Ho as [Hb ? Hz ?]. by split.
Qed.

(** A successful [malloc] gives a block of its own with indeterminate cells. *)
Lemma malloc_new h0 h sz : TotalAllocator → owns h0 h None [] → 0 ≤ sz < 2147483648 →
  ∃ h', malloc sz h = Done (Some (mallocs h), h') ∧
        owns h0 h' (Some (mallocs h)) (replicate (Z.to_nat sz) None).
Proof.
  intros Ht [Hb _ _ Hf] Hsz. unfold malloc. rewrite Ht by done.
  eexists. split; [done|]. rewrite Hb in Hf |- *. split; cbn; [done| |done|].
  - intros k [= <-]. by apply Hf.
  - intros j Hj. apply lookup_insert_None. split; [apply Hf; lia|lia].
Qed.

(** A second block while the first is still owned: the first moves to the frame. *)
Lemma owns_frame h0 h k cells : owns h0 h (Some k) cells →
  owns (<[k := cells]> h0) h None [].
Proof. intros [Hb Hn _ Hf]. by split. Qed.

(** Giving back a block that was moved to the frame. *)
Lemma owns_free_frame h0 h k cells p cells' :
  h0 !! k = None → owns (<[k := cells]> h0) h (Some p) cells' →
  ∃ h', free (Some k) h = Done (tt, h') ∧ owns h0 h' (Some p) cells'.
Proof.
  intros Hk [Hb Hn _ Hf]. pose proof (Hn p eq_refl) as Hp.
  apply lookup_insert_None in Hp as [Hp Hne].
  unfold free. rewrite Hb, lookup_insert_ne, lookup_insert_eq by done.
  eexists. split; [done|]. split; cbn.
  - rewrite insert_insert_ne by done. rewrite delete_insert_id; [done|].
    by rewrite lookup_insert_ne.
  - intros ? [= <-]. done.
  - done.
  - intros j Hj. specialize (Hf j Hj). rewrite Hb in Hf.
    apply lookup_delete_None. by right.
Qed.

End lemmas.

Create HintDb heap.
#[export] Hint Resolve owns_lookup owns_frame : heap.
