(* ===== verification/PmemBuffer.v ===== *)
(** * PmemBuffer (native/src/PmemBuffer.h): a growable byte buffer

    The object's [int] fields wrap around at 32 bits ([-fwrapv]).  A pointer argument is
    the region it points to ([None] for null): the cells it may read, or the cells
    it may overwrite.  Every method but [getDataAddr] holds [buffer_mtx] for its
    whole body, so a method is one step. *)
From S2P Require Import Prelude CHeap.

Definition DEFAULT_BUFSIZE : Z := 4096 * 1024 + 512.

Record pmem_buffer := mk_pmem_buffer {
  buf_data : option nat;
  buf_data_capacity : Z;
  pos : Z;
  remaining : Z;
  pos_dirty : Z;
  remaining_dirty : Z
}.

Definition set_buf_data p b := mk_pmem_buffer p (buf_data_capacity b) (pos b)
  (remaining b) (pos_dirty b) (remaining_dirty b).
Definition set_capacity c b := mk_pmem_buffer (buf_data b) c (pos b)
  (remaining b) (pos_dirty b) (remaining_dirty b).
Definition set_pos n b := mk_pmem_buffer (buf_data b) (buf_data_capacity b) n
  (remaining b) (pos_dirty b) (remaining_dirty b).
Definition set_remaining n b := mk_pmem_buffer (buf_data b) (buf_data_capacity b) (pos b)
  n (pos_dirty b) (remaining_dirty b).
Definition set_pos_dirty n b := mk_pmem_buffer (buf_data b) (buf_data_capacity b) (pos b)
  (remaining b) n (remaining_dirty b).
Definition set_remaining_dirty n b := mk_pmem_buffer (buf_data b) (buf_data_capacity b) (pos b)
  (remaining b) (pos_dirty b) n.

Section methods.
Context `{Allocator}.

(** [buf_data = (char* )malloc(sizeof(char) * n)]: an [int] becomes a [size_t]. *)
Definition alloc_buf (n : Z) (b : pmem_buffer) : st heap pmem_buffer :=
  p ← malloc (u64 n); mret (set_buf_data p b).

Definition PmemBuffer : st heap pmem_buffer := mret (mk_pmem_buffer None 0 0 0 0 0).

Definition PmemBuffer_sized (initial_buf_data_capacity : Z) : st heap pmem_buffer :=
  let c := i32 initial_buf_data_capacity in
  alloc_buf c (mk_pmem_buffer None c 0 0 0 0).

Definition PmemBuffer_delete (b : pmem_buffer) : st heap unit := free (buf_data b).

(** The move to a new block that [load] and [write] share: allocate, copy the unread bytes
    to the front, release the old block. *)
Definition realloc_move (b : pmem_buffer) : st heap pmem_buffer :=
  let tmp_buf_data := buf_data b in
  b ← alloc_buf (buf_data_capacity b) b;
  _ ← (match buf_data b, tmp_buf_data with
       | Some _, Some _ =>
           old ← cells_at tmp_buf_data (pos b);
           copy_in (buf_data b) 0 old (remaining b)
       | _, _ => mret tt
       end);
  _ ← free tmp_buf_data;
  mret b.

(** [load], lines 45-56: unread data is kept, and moved only if the buffer grows. *)
Definition load_append (b : pmem_buffer) (src : list cell) (pmem_data_len : Z)
    : st heap pmem_buffer :=
  b ← (if decide (buf_data_capacity b < i32 (remaining b + pmem_data_len))
       then realloc_move (set_capacity (i32 (remaining b + pmem_data_len)) b)
       else mret b);
  let b := set_pos (remaining b) b in
  _ ← copy_in (buf_data b) (pos b) src pmem_data_len;
  mret b.

(** [load], lines 57-65: nothing is unread. *)
Definition load_fresh (b : pmem_buffer) (src : list cell) (pmem_data_len : Z)
    : st heap pmem_buffer :=
  b ← (if decide (buf_data_capacity b < pmem_data_len) then
         _ ← free (buf_data b);
         let b := set_capacity pmem_data_len b in
         alloc_buf (buf_data_capacity b) b
       else mret b);
  _ ← (match buf_data b with
       | Some _ => copy_in (buf_data b) 0 src pmem_data_len
       | None => mret tt
       end);
  mret b.

(** [load], lines 40-43: the first block is as large as the data. *)
Definition load_first_alloc (b : pmem_buffer) (pmem_data_len : Z) : st heap pmem_buffer :=
  if decide (buf_data_capacity b = 0 ∧ pmem_data_len > 0)
  then alloc_buf pmem_data_len (set_capacity pmem_data_len b)
  else mret b.

(** [load], lines 45-68. *)
Definition load_data (b : pmem_buffer) (src : list cell) (pmem_data_len : Z)
    : st heap pmem_buffer :=
  if decide (remaining b > 0) then load_append b src pmem_data_len
  else if decide (remaining b = 0) then load_fresh b src pmem_data_len
  else mret b.

Definition load (b : pmem_buffer) (pmem_data_addr : option (list cell)) (pmem_data_len : Z)
    : st heap (Z * pmem_buffer) :=
  match pmem_data_addr with
  | None => mret (0, b)
  | Some src =>
      if decide (pmem_data_len = 0) then mret (0, b) else
      b ← load_first_alloc b pmem_data_len;
      b ← load_data b src pmem_data_len;
      let b := set_remaining (i32 (remaining b + pmem_data_len)) b in
      let b := set_pos 0 b in
      let b := set_pos_dirty (i32 (pos b + remaining b)) b in
      let b := set_remaining_dirty 0 b in
      mret (pmem_data_len, b)
  end.

Definition getRemaining (b : pmem_buffer) : Z := remaining b.

Definition clean (b : pmem_buffer) : st heap pmem_buffer :=
  let b := set_capacity 0 b in
  let b := set_remaining 0 b in
  let b := set_pos 0 b in
  let b := set_remaining_dirty 0 b in
  let b := set_pos_dirty 0 b in
  match buf_data b with
  | Some _ => _ ← free (buf_data b); mret (set_buf_data None b)
  | None => mret b
  end.

(** The result is null or [buf_data + orig_pos]. *)
Definition getDataForFlush (b : pmem_buffer) (size : Z) : option (option nat * Z) * pmem_buffer :=
  if decide (remaining_dirty b < size ∨ remaining_dirty b = 0) then (None, b)
  else
    let orig_pos := pos_dirty b in
    let b := set_pos_dirty (i32 (pos_dirty b + size)) b in
    let b := set_remaining_dirty (i32 (remaining_dirty b - size)) b in
    (Some (buf_data b, orig_pos), b).

Definition min (x y : Z) : Z := if decide (x > y) then y else x.

(** [read] returns its result, the caller's region after the copy, and the object. *)
Definition read (b : pmem_buffer) (ret_data : option (list cell)) (len : Z)
    : st heap (Z * option (list cell) * pmem_buffer) :=
  let read_len := min len (remaining b) in
  ret_data ← (match ret_data, buf_data b with
              | Some dst, Some _ =>
                  src ← cells_at (buf_data b) (pos b);
                  dst ← st_lift (memcpy dst 0 src read_len);
                  mret (Some dst)
              | _, _ => mret ret_data
              end);
  let b :=
    if decide (i32 (pos b + read_len) > pos_dirty b) then
      let b := set_remaining_dirty
        (i32 (remaining_dirty b - i32 (i32 (pos b + read_len) - pos_dirty b))) b in
      set_pos_dirty (i32 (pos b + read_len)) b
    else b in
  let b := set_pos (i32 (pos b + read_len)) b in
  let b := set_remaining (i32 (remaining b - read_len)) b in
  mret (read_len, ret_data, b).

(** [write], lines 133-142: the unread bytes move to the front of a new block. *)
Definition write_compact (b : pmem_buffer) : st heap pmem_buffer :=
  if decide (buf_data_capacity b > 0) then
    b ← realloc_move b;
    mret (set_pos_dirty 0 (set_pos 0 b))
  else mret b.

(** [write], lines 123-128: the first block. *)
Definition write_first_alloc (b : pmem_buffer) : st heap pmem_buffer :=
  if decide (buf_data_capacity b = 0) then
    let b := set_capacity DEFAULT_BUFSIZE b in
    if decide (buf_data_capacity b > 0) then alloc_buf (buf_data_capacity b) b else mret b
  else mret b.

(** [write], lines 129-143: at most one growth step, and a compaction. *)
Definition write_make_room (b : pmem_buffer) (len : Z) : st heap pmem_buffer :=
  if decide (i32 (i32 (pos b + remaining b) + len) > buf_data_capacity b) then
    let b := if decide (i32 (remaining b + len) > buf_data_capacity b)
             then set_capacity (i32 (buf_data_capacity b + DEFAULT_BUFSIZE)) b else b in
    write_compact b
  else mret b.

Definition write (b : pmem_buffer) (data : option (list cell)) (len : Z)
    : st heap (Z * pmem_buffer) :=
  b ← write_first_alloc b;
  b ← write_make_room b len;
  _ ← (match buf_data b, data with
       | Some _, Some src => copy_in (buf_data b) (pos b + remaining b) src len
       | _, _ => mret tt
       end);
  let b := set_remaining (i32 (remaining b + len)) b in
  let b := set_remaining_dirty (i32 (remaining_dirty b + len)) b in
  mret (0, b).

Definition getDataAddr (b : pmem_buffer) : option nat := buf_data b.

End methods.

(** ** What the buffer holds *)

Definition bytes_of (l : list byte) : list cell := Some <$> l.

(** The bytes written and not yet read. *)
Definition unread (b : pmem_buffer) (cells : list cell) : list cell :=
  take (Z.to_nat (remaining b)) (drop (Z.to_nat (pos b)) cells).
(** The bytes written and neither read nor flushed. *)
Definition unflushed (b : pmem_buffer) (cells : list cell) : list cell :=
  take (Z.to_nat (remaining_dirty b)) (drop (Z.to_nat (pos_dirty b)) cells).

(** The object owns exactly one block, of its declared capacity, beside [h0]. *)
Record wf (h0 : gmap nat (list cell)) (h : heap) (b : pmem_buffer) (cells : list cell)
    : Prop := {
  wf_owns : owns h0 h (buf_data b) cells;
  wf_cap : Z.of_nat (length cells) = buf_data_capacity b;
  wf_cap_int : buf_data_capacity b < 2147483648;
  wf_alloc : buf_data_capacity b = 0 → buf_data b = None;
  wf_pos : 0 ≤ pos b;
  wf_rem : 0 ≤ remaining b;
  wf_end : pos b + remaining b ≤ buf_data_capacity b
}.

(** The dirty region is the end of the unread region. *)
Record dirty_ok (b : pmem_buffer) : Prop := {
  dirty_pos : pos b ≤ pos_dirty b;
  dirty_rem : 0 ≤ remaining_dirty b;
  dirty_end : pos_dirty b + remaining_dirty b = pos b + remaining b
}.
