(* ===== verification/PmemBufferSpec.v ===== *)
(** * PmemBuffer as a byte queue

    The contract of the buffer: [write] appends to the unread bytes, [read] removes a
    prefix of them, [load] appends the loaded bytes, [getDataForFlush] walks over
    the bytes that were written and not flushed.  The theorems say when the code keeps
    the contract, and where it does not. *)
From S2P Require Import Prelude CHeap PmemBuffer.

Section spec.
Context `{TotalAllocator}.

Lemma length_unread b cells :
  0 ≤ pos b → 0 ≤ remaining b → pos b + remaining b ≤ Z.of_nat (length cells) →
  length (unread b cells) = Z.to_nat (remaining b).
Proof. intros. unfold unread. rewrite length_take, length_drop. lia. Qed.

Lemma alloc_buf_ok h0 h n b : 0 ≤ n < 2147483648 → owns h0 h None [] →
  ∃ h', alloc_buf n b h = Done (set_buf_data (Some (mallocs h)) b, h') ∧
        owns h0 h' (Some (mallocs h)) (replicate (Z.to_nat n) None).
Proof.
  intros Hn Ho. unfold alloc_buf.
  destruct (malloc_new h0 h n) as (h' & E & Ho'); [done|done|done|].
  exists h'. split; [|done]. eapply bind_step; [|done].
  by rewrite u64_id by (unfold_words; lia).
Qed.

(** [realloc_move] keeps exactly the unread bytes, at the front of a fresh block, and
    gives the old block back. *)
Lemma realloc_move_ok h0 h b k cells :
  buf_data b = Some k → owns h0 h (Some k) cells →
  0 ≤ pos b → 0 ≤ remaining b → pos b + remaining b ≤ Z.of_nat (length cells) →
  remaining b ≤ buf_data_capacity b < 2147483648 →
  ∃ h' k' cells', realloc_move b h = Done (set_buf_data (Some k') b, h') ∧
    owns h0 h' (Some k') cells' ∧ Z.of_nat (length cells') = buf_data_capacity b ∧
    take (Z.to_nat (remaining b)) cells' = unread b cells.
Proof.
  intros Hb Ho Hp Hr Hend Hcap. unfold realloc_move. rewrite Hb.
  destruct (alloc_buf_ok (<[k := cells]> h0) h (buf_data_capacity b) b)
    as (h1 & E1 & Ho1); [lia|by apply owns_frame|].
  pose proof (owns_new _ _ _ _ Ho k eq_refl) as Hk0.
  pose proof (owns_new _ _ _ _ Ho1 _ eq_refl) as Hk1.
  apply lookup_insert_None in Hk1 as [Hk1 Hne].
  destruct (memcpy_exists (replicate (Z.to_nat (buf_data_capacity b)) None) 0
              (drop (Z.to_nat (pos b)) cells) (remaining b)) as [cells' Em];
    [rewrite ?length_drop, ?length_replicate; lia..|].
  destruct (copy_in_owned _ _ _ _ _ _ _ _ Ho1 Em) as (h2 & E2 & Ho2).
  destruct (owns_free_frame h0 h2 k cells _ _ Hk0 Ho2) as (h3 & E3 & Ho3).
  exists h3, (mallocs h), cells'. split_and!; [|done| |].
  - eapply bind_step; [exact E1|]. cbn [set_buf_data buf_data pos remaining].
    eapply bind_step.
    { eapply bind_step; [|exact E2]. unfold cells_at, deref. cbn.
      unfold mbind, st_bind. cbn. rewrite (owns_blocks _ _ _ _ Ho1).
      rewrite lookup_insert_ne, lookup_insert_eq by done.
      by rewrite decide_True by lia. }
    eapply bind_step; [exact E3|done].
  - apply memcpy_prefix in Em as [-> _]. rewrite length_replicate. lia.
  - apply memcpy_prefix in Em as [_ Em]. exact Em.
Qed.

(** ** write *)

(** The capacity after the first allocation. *)
Definition write_cap0 (b : pmem_buffer) : Z :=
  if decide (buf_data_capacity b = 0) then DEFAULT_BUFSIZE else buf_data_capacity b.
(** Whether the bytes have to move, and the capacity they then get. *)
Definition write_moves (b : pmem_buffer) (len : Z) : bool :=
  bool_decide (pos b + remaining b + len > write_cap0 b).
Definition write_cap (b : pmem_buffer) (len : Z) : Z :=
  if decide (remaining b + len > write_cap0 b)
  then write_cap0 b + DEFAULT_BUFSIZE else write_cap0 b.

Lemma write_cap_cases b len :
  (remaining b + len > write_cap0 b ∧ write_cap b len = write_cap0 b + DEFAULT_BUFSIZE) ∨
  (remaining b + len ≤ write_cap0 b ∧ write_cap b len = write_cap0 b).
Proof. unfold write_cap. case_decide; [by left|right]. lia. Qed.

(** No [int] of the call overflows. *)
Definition write_no_wrap (b : pmem_buffer) (len : Z) : Prop :=
  0 ≤ len ∧ pos b + remaining b + len < 2147483648 ∧ write_cap b len < 2147483648.

(** The object just before the copy of [write]: room has been made, nothing is lost. *)
Definition write_room (b : pmem_buffer) (len : Z) (k : nat) : pmem_buffer :=
  if write_moves b len
  then mk_pmem_buffer (Some k) (write_cap b len) 0 (remaining b) 0 (remaining_dirty b)
  else mk_pmem_buffer (Some k) (write_cap0 b) (pos b) (remaining b) (pos_dirty b)
         (remaining_dirty b).

Lemma write_cap0_range h0 h b cells : wf h0 h b cells → 0 < write_cap0 b < 2147483648.
Proof. intros []. unfold write_cap0. case_decide; [done|lia]. Qed.

Lemma write_first_alloc_ok h0 h b cells : wf h0 h b cells →
  ∃ h1 k1 cells1,
    write_first_alloc b h = Done (set_buf_data (Some k1) (set_capacity (write_cap0 b) b), h1) ∧
    owns h0 h1 (Some k1) cells1 ∧ Z.of_nat (length cells1) = write_cap0 b ∧
    pos b + remaining b ≤ write_cap0 b ∧ unread b cells1 = unread b cells.
Proof.
  intros [Ho Hc Hci Ha Hp Hr He]. unfold write_first_alloc, write_cap0. case_decide as Hz.
  - rewrite (Ha Hz) in Ho. pose proof (owns_null _ _ _ _ Ho eq_refl) as ->.
    destruct (alloc_buf_ok h0 h DEFAULT_BUFSIZE (set_capacity DEFAULT_BUFSIZE b))
      as (h1 & E1 & Ho1); [done|done|].
    exists h1, (mallocs h), (replicate (Z.to_nat DEFAULT_BUFSIZE) None).
    split_and!; [exact E1|done| |unfold DEFAULT_BUFSIZE; lia|].
    + rewrite length_replicate, Z2Nat.id; [reflexivity|unfold DEFAULT_BUFSIZE; lia].
    + unfold unread. replace (remaining b) with 0 by lia. done.
  - destruct (buf_data b) as [k|] eqn:Eb.
    2:{ pose proof (owns_null _ _ _ _ Ho eq_refl) as ->. cbn in Hc. lia. }
    exists h, k, cells. split_and!; [|done|done|done|done].
    destruct b; cbn in *; by subst.
Qed.

Lemma write_make_room_ok h0 h b cells len :
  wf h0 h b cells → write_no_wrap b len →
  ∃ h1 k1 cells1,
    (b ← write_first_alloc b; write_make_room b len) h = Done (write_room b len k1, h1) ∧
    owns h0 h1 (Some k1) cells1 ∧
    Z.of_nat (length cells1) = buf_data_capacity (write_room b len k1) ∧
    unread (write_room b len k1) cells1 = unread b cells.
Proof.
  intros Hwf (Hlen & Hsum & Hcap).
  destruct (write_first_alloc_ok h0 h b cells Hwf) as (h1 & k1 & c1 & E1 & Ho1 & Hl1 & He1 & Hu1).
  pose proof (write_cap0_range _ _ _ _ Hwf) as Hpos.
  destruct Hwf as [_ _ _ _ Hp Hr _].
  assert (∀ r, write_make_room (set_buf_data (Some k1) (set_capacity (write_cap0 b) b)) len h1 = r →
          (b ← write_first_alloc b; write_make_room b len) h = r) as Hbind.
  { intros r Er. eapply bind_step; [exact E1|exact Er]. }
  unfold write_room, write_moves. case_bool_decide as Hm.
  - destruct (realloc_move_ok h0 h1
      (set_buf_data (Some k1) (set_capacity (write_cap b len) b)) k1 c1)
      as (h2 & k2 & c2 & E2 & Ho2 & Hl2 & Hu2); try done; cbn; try lia.
    { pose proof (write_cap_cases b len). unfold DEFAULT_BUFSIZE in *. lia. }
    exists h2, k2, c2. split_and!; [|done|exact Hl2|exact (eq_trans Hu2 Hu1)].
    apply Hbind. unfold write_make_room. cbn [pos remaining set_buf_data set_capacity buf_data_capacity].
    rewrite (i32_id (pos b + remaining b)), i32_id by (unfold_words; lia).
    rewrite decide_True by done. rewrite (i32_id (remaining b + len)) by (unfold_words; lia).
    assert ((if decide (remaining b + len > write_cap0 b) then
               set_capacity (i32 (write_cap0 b + DEFAULT_BUFSIZE))
                 (set_buf_data (Some k1) (set_capacity (write_cap0 b) b))
             else set_buf_data (Some k1) (set_capacity (write_cap0 b) b))
            = set_buf_data (Some k1) (set_capacity (write_cap b len) b)) as ->.
    { destruct (write_cap_cases b len) as [[Hg Hw]|[Hg Hw]]; rewrite Hw in *.
      - rewrite decide_True, i32_id by (unfold_words; unfold DEFAULT_BUFSIZE in *; lia). done.
      - by rewrite decide_False by lia. }
    unfold write_compact. cbn [set_buf_data set_capacity buf_data_capacity].
    rewrite decide_True
      by (pose proof (write_cap_cases b len); unfold DEFAULT_BUFSIZE in *; lia).
    eapply bind_step; [exact E2|done].
  - exists h1, k1, c1. split_and!; [|done|exact Hl1|exact Hu1].
    apply Hbind. unfold write_make_room. cbn [pos remaining set_buf_data set_capacity buf_data_capacity].
    rewrite (i32_id (pos b + remaining b)), i32_id by (unfold_words; lia).
    by rewrite decide_False.
Qed.


Lemma unread_copy (cells : list cell) p r src len cells' : 0 ≤ p → 0 ≤ r → 0 ≤ len →
  memcpy cells (p + r) src len = Done cells' →
  take (Z.to_nat (r + len)) (drop (Z.to_nat p) cells') =
    take (Z.to_nat r) (drop (Z.to_nat p) cells) ++ take (Z.to_nat len) src.
Proof.
  intros ? ? ? Hm. pose proof (memcpy_window _ _ _ _ _ (Z.to_nat p) Hm) as Hw.
  replace (Z.to_nat (p + r) - Z.to_nat p)%nat with (Z.to_nat r) in Hw by lia.
  replace (Z.to_nat (p + r + len) - Z.to_nat p)%nat with (Z.to_nat (r + len)) in Hw by lia.
  apply Hw. lia.
Qed.

(** The object after a [write] that found room in block [k]. *)
Definition write_end (b : pmem_buffer) (len : Z) (k : nat) : pmem_buffer :=
  set_remaining_dirty (i32 (remaining_dirty b + len))
    (set_remaining (remaining b + len) (write_room b len k)).

Lemma write_room_pos b len k : 0 ≤ pos b → 0 ≤ remaining b →
  0 ≤ pos (write_room b len k) ∧ remaining (write_room b len k) = remaining b.
Proof. unfold write_room. intros. case_match; cbn; lia. Qed.

(** Whether the copy of [write] stays inside the block. *)
Lemma write_room_fits b len k : 0 ≤ pos b →
  pos (write_room b len k) + remaining b + len ≤ buf_data_capacity (write_room b len k) ↔
  remaining b + len ≤ write_cap b len.
Proof.
  intros Hp. unfold write_room, write_moves. case_bool_decide; cbn.
  - lia.
  - destruct (write_cap_cases b len) as [[? ->]|[? ->]]; lia.
Qed.

(** Everything [write] does before its copy, and what is left to do. *)
Lemma write_copy h0 h b cells len (src : list cell) :
  wf h0 h b cells → write_no_wrap b len → len ≤ Z.of_nat (length src) →
  ∃ h1 k c1,
    write b (Some src) len h =
      (_ ← copy_in (Some k) (pos (write_room b len k) + remaining b) src len;
       mret (0, write_end b len k)) h1 ∧
    owns h0 h1 (Some k) c1 ∧
    Z.of_nat (length c1) = buf_data_capacity (write_room b len k) ∧
    unread (write_room b len k) c1 = unread b cells.
Proof.
  intros Hwf Hnw Hsrc. pose proof Hnw as (Hlen & Hsum & Hcap).
  destruct (write_make_room_ok h0 h b cells len Hwf Hnw) as (h1 & k & c1 & E1 & Ho1 & Hl1 & Hu1).
  destruct Hwf as [_ _ _ _ Hp Hr _].
  destruct (write_room_pos b len k Hp Hr) as [Hp1 Hr1].
  assert (buf_data (write_room b len k) = Some k) as Hk by (unfold write_room; by case_match).
  exists h1, k, c1. split_and!; [|done|done|done].
  unfold write. rewrite st_bind_assoc. eapply bind_step; [exact E1|].
  rewrite Hk, Hr1. unfold write_end.
  cbn [remaining_dirty set_remaining]. replace (remaining_dirty (write_room b len k))
    with (remaining_dirty b) by (unfold write_room; by case_match).
  by rewrite (i32_id (remaining b + len)) by (unfold_words; lia).
Qed.

Lemma write_room_cap h0 h b cells len k :
  wf h0 h b cells → write_no_wrap b len →
  0 < buf_data_capacity (write_room b len k) < 2147483648.
Proof.
  intros Hwf (? & ? & ?). pose proof (write_cap0_range _ _ _ _ Hwf).
  unfold write_room, write_moves. pose proof (write_cap_cases b len).
  unfold DEFAULT_BUFSIZE in *. case_bool_decide; cbn; lia.
Qed.

Lemma write_ok h0 h b cells src len :
  wf h0 h b cells → write_no_wrap b len → len ≤ Z.of_nat (length src) →
  remaining b + len ≤ write_cap b len →
  ∃ h' k cells', write b (Some src) len h = Done ((0, write_end b len k), h') ∧
    wf h0 h' (write_end b len k) cells' ∧
    unread (write_end b len k) cells' = unread b cells ++ take (Z.to_nat len) src.
Proof.
  intros Hwf Hnw Hsrc Hfit.
  destruct (write_copy h0 h b cells len src Hwf Hnw Hsrc) as (h1 & k & c1 & E1 & Ho1 & Hl1 & Hu1).
  pose proof (write_room_cap _ _ _ _ _ k Hwf Hnw) as Hc1.
  pose proof Hnw as (Hlen & _ & _). destruct Hwf as [_ _ _ _ Hp Hr _].
  destruct (write_room_pos b len k Hp Hr) as [Hp1 Hr1].
  apply (write_room_fits b len k Hp) in Hfit.
  assert (buf_data (write_room b len k) = Some k) as Hk by (unfold write_room; by case_match).
  destruct (memcpy_exists c1 (pos (write_room b len k) + remaining b) src len) as [c2 Em];
    [lia..|].
  destruct (copy_in_owned _ _ _ _ _ _ _ _ Ho1 Em) as (h2 & E2 & Ho2).
  exists h2, k, c2. split_and!.
  - rewrite E1. eapply bind_step; [exact E2|done].
  - pose proof (memcpy_prefix _ _ _ _ _ Em) as [Hlc _].
    unfold write_end. split; cbn; rewrite ?Hk, ?Hr1; try done; try lia.
  - rewrite <-Hu1. unfold unread, write_end. cbn. rewrite Hr1. by apply unread_copy.
Qed.

Lemma write_overflow h0 h b cells src len :
  wf h0 h b cells → write_no_wrap b len → len ≤ Z.of_nat (length src) →
  remaining b + len > write_cap b len → write b (Some src) len h = Undefined.
Proof.
  intros Hwf Hnw Hsrc Hfit.
  destruct (write_copy h0 h b cells len src Hwf Hnw Hsrc) as (h1 & k & c1 & E1 & Ho1 & Hl1 & _).
  pose proof (write_room_fits b len k (wf_pos _ _ _ _ Hwf)) as Hfits.
  rewrite E1. eapply bind_undefined. apply (copy_in_overflow _ _ _ _ _ _ _ Ho1).
  unfold memcpy. rewrite decide_False; [done|]. lia.
Qed.

(** One growth step gives enough room, and no [int] of the call overflows. *)
Definition write_fits (b : pmem_buffer) (len : Z) : Prop :=
  pos b + remaining b + len < 2147483648 ∧ write_cap b len < 2147483648 ∧
  remaining b + len ≤ write_cap b len.

Lemma write_fits_no_wrap b len : 0 ≤ len → write_fits b len → write_no_wrap b len.
Proof. intros Hl (? & ? & ?). by split_and!. Qed.

(** No room is made if a sum of the call overflows, and the copy leaves the block. *)
Lemma write_wraps h0 h b cells src len :
  wf h0 h b cells → 0 ≤ len < 2147483648 → len ≤ Z.of_nat (length src) →
  2147483648 ≤ pos b + remaining b + len ∨ 2147483648 ≤ write_cap b len →
  write b (Some src) len h = Undefined.
Proof.
  intros Hwf Hlen Hsrc Hwrap.
  destruct (write_first_alloc_ok h0 h b cells Hwf) as (h1 & k1 & c1 & E1 & Ho1 & Hl1 & He1 & _).
  pose proof (write_cap0_range _ _ _ _ Hwf) as Hc0. destruct Hwf as [_ _ _ _ Hp Hr _].
  pose proof (write_cap_cases b len) as Hcases.
  set (b1 := set_buf_data (Some k1) (set_capacity (write_cap0 b) b)) in *.
  assert (∃ c, write_make_room b1 len h1 = Done (set_capacity c b1, h1)) as [c E2].
  { unfold write_make_room, b1. cbn [pos remaining set_buf_data set_capacity buf_data_capacity].
    rewrite (i32_id (pos b + remaining b)) by (unfold_words; lia).
    destruct (decide (2147483648 ≤ pos b + remaining b + len)) as [Hs|Hs].
    - exists (write_cap0 b). rewrite decide_False by word_lia. by destruct b.
    - destruct Hcases as [[Hg Hw]|[_ Hw]]; [|lia].
      exists (i32 (write_cap0 b + DEFAULT_BUFSIZE)).
      rewrite (i32_id (pos b + remaining b + len)) by (unfold_words; lia).
      rewrite (i32_id (remaining b + len)) by (unfold_words; lia).
      rewrite !decide_True by lia. unfold write_compact. cbn [buf_data_capacity set_capacity].
      rewrite decide_False by (unfold DEFAULT_BUFSIZE in *; word_lia). by destruct b. }
  unfold write. eapply bind_step; [exact E1|]. eapply bind_step; [exact E2|].
  change (buf_data (set_capacity c b1)) with (Some k1). eapply bind_undefined.
  apply (copy_in_overflow _ _ _ _ _ _ _ Ho1). unfold memcpy. rewrite decide_False; [done|].
  unfold b1. cbn [pos remaining set_buf_data set_capacity]. lia.
Qed.

Lemma write_not_fits h0 h b cells src len :
  wf h0 h b cells → 0 ≤ len < 2147483648 → len ≤ Z.of_nat (length src) →
  ¬ write_fits b len → write b (Some src) len h = Undefined.
Proof.
  intros Hwf Hlen Hsrc Hfit. unfold write_fits in Hfit.
  destruct (decide (pos b + remaining b + len < 2147483648 ∧ write_cap b len < 2147483648))
    as [[H1 H2]|Hno].
  - eapply write_overflow; [done| |done|lia]. unfold write_no_wrap. lia.
  - eapply write_wraps; [done..|]. lia.
Qed.

(** ** read *)

Lemma min_spec x y : min x y = Z.min x y.
Proof. unfold min. case_decide; lia. Qed.

(** The object after a [read] that returned [r]. *)
Definition read_end (b : pmem_buffer) (r : Z) : pmem_buffer :=
  mk_pmem_buffer (buf_data b) (buf_data_capacity b) (pos b + r) (remaining b - r)
    (Z.max (pos_dirty b) (pos b + r))
    (if decide (pos b + r > pos_dirty b)
     then i32 (remaining_dirty b - i32 (pos b + r - pos_dirty b)) else remaining_dirty b).

Lemma read_end_wf h0 h b cells r : wf h0 h b cells → 0 ≤ r ≤ remaining b →
  wf h0 h (read_end b r) cells ∧ unread (read_end b r) cells = drop (Z.to_nat r) (unread b cells).
Proof.
  intros [] Hr. split; [split; cbn; auto; lia|].
  unfold unread, read_end. cbn. rewrite !take_drop_commute, drop_drop.
  replace (Z.to_nat (pos b) + Z.to_nat (remaining b))%nat
    with (Z.to_nat (pos b + r) + Z.to_nat (remaining b - r))%nat by lia.
  f_equal. lia.
Qed.

Lemma read_ok h0 h b cells dst len :
  wf h0 h b cells → 0 ≤ len ≤ Z.of_nat (length dst) →
  let r := Z.min len (remaining b) in
  read b (Some dst) len h =
    Done ((r, Some (take (Z.to_nat r) (unread b cells) ++ drop (Z.to_nat r) dst),
           read_end b r), h) ∧
  wf h0 h (read_end b r) cells ∧
  unread (read_end b r) cells = drop (Z.to_nat r) (unread b cells).
Proof.
  intros Hwf Hlen r. assert (0 ≤ r ≤ remaining b) as Hr by (destruct Hwf; lia).
  split; [|by apply (read_end_wf h0 h)]. destruct Hwf as [Ho Hc Hci Ha Hp Hrem He].
  unfold read. rewrite min_spec. fold r.
  assert ((match Some dst, buf_data b with
           | Some dst, Some _ =>
               src ← cells_at (buf_data b) (pos b);
               dst ← st_lift (memcpy dst 0 src r); mret (Some dst)
           | _, _ => mret (Some dst)
           end) h = Done (Some (take (Z.to_nat r) (unread b cells) ++ drop (Z.to_nat r) dst), h))
    as Em.
  { destruct (buf_data b) as [k|] eqn:Eb.
    - eapply bind_step; [apply (cells_at_owned _ _ _ _ _ Ho); lia|].
      eapply bind_step.
      { unfold st_lift. rewrite memcpy_ok by (rewrite ?length_drop; lia). reflexivity. }
      unfold unread. rewrite take_take, Nat.min_l by lia. done.
    - pose proof (owns_null _ _ _ _ Ho eq_refl) as ->. cbn in Hc.
      replace r with 0 by lia. done. }
  eapply bind_step; [exact Em|]. unfold read_end.
  rewrite !(i32_id (pos b + r)) by (unfold_words; lia).
  unfold mret, st_ret. destruct b; cbn in *.
  case_decide; cbn; rewrite !(i32_id (_ + r)), (i32_id (_ - r)) by (unfold_words; lia);
    unfold set_remaining, set_pos, set_pos_dirty, set_remaining_dirty; cbn;
    repeat first [reflexivity | lia | progress f_equal].
Qed.

(** Property (functional): a [read] of [len] bytes into a region at least that large returns
    [min len remaining], stores exactly the oldest unread bytes at the front of the region and
    leaves the rest of it alone, and removes them from the buffer. *)
Theorem read_pops_prefix h0 h b cells dst len :
  wf h0 h b cells → 0 ≤ len ≤ Z.of_nat (length dst) →
  let r := Z.min len (remaining b) in
  read b (Some dst) len h =
    Done ((r, Some (take (Z.to_nat r) (unread b cells) ++ drop (Z.to_nat r) dst),
           read_end b r), h) ∧
  wf h0 h (read_end b r) cells ∧
  unread (read_end b r) cells = drop (Z.to_nat r) (unread b cells).
Proof. apply read_ok. Qed.

(** ** Dirty bytes *)

Lemma unflushed_suffix b cells : dirty_ok b → 0 ≤ pos b →
  unflushed b cells = drop (Z.to_nat (pos_dirty b - pos b)) (unread b cells).
Proof.
  intros [] Hp. unfold unflushed, unread. rewrite !take_drop_commute, drop_drop.
  replace (Z.to_nat (pos_dirty b) + Z.to_nat (remaining_dirty b))%nat
    with (Z.to_nat (pos b) + Z.to_nat (remaining b))%nat by lia.
  f_equal. lia.
Qed.

(** The object after a [getDataForFlush] that returned a pointer. *)
Definition flush_end (b : pmem_buffer) (size : Z) : pmem_buffer :=
  mk_pmem_buffer (buf_data b) (buf_data_capacity b) (pos b) (remaining b)
    (pos_dirty b + size) (remaining_dirty b - size).

Lemma flush_ok h0 h b cells size :
  wf h0 h b cells → dirty_ok b → 0 < size ≤ remaining_dirty b →
  getDataForFlush b size = (Some (buf_data b, pos_dirty b), flush_end b size) ∧
  wf h0 h (flush_end b size) cells ∧ dirty_ok (flush_end b size) ∧
  unflushed (flush_end b size) cells = drop (Z.to_nat size) (unflushed b cells).
Proof.
  intros [Ho Hc Hci Ha Hp Hr He] Hd Hs. pose proof Hd as [Hdp Hdr Hde].
  assert (dirty_ok (flush_end b size)) as Hd' by (split; cbn; lia).
  unfold getDataForFlush. rewrite decide_False by lia. cbn. rewrite !i32_id by (unfold_words; lia).
  split_and!; [done|split; cbn; auto|done|].
  rewrite !unflushed_suffix by first [done | cbn; lia]. cbn. rewrite drop_drop.
  unfold unread. cbn. f_equal. lia.
Qed.

Lemma read_end_dirty h0 h b cells r :
  wf h0 h b cells → dirty_ok b → 0 ≤ r ≤ remaining b →
  dirty_ok (read_end b r) ∧
  unflushed (read_end b r) cells =
    drop (Z.to_nat (pos b + r - pos_dirty b)) (unflushed b cells).
Proof.
  intros Hwf Hd Hr. pose proof Hd as [Hdp Hdr Hde].
  destruct (read_end_wf h0 h b cells r Hwf Hr) as [Hwf' Hu].
  pose proof Hwf as [Ho Hc Hci Ha Hp Hrem He].
  assert (dirty_ok (read_end b r)) as Hd'.
  { split; cbn; try case_decide; rewrite ?(i32_id (_ - pos_dirty b)) by (unfold_words; lia);
      rewrite ?i32_id by (unfold_words; lia); lia. }
  split; [done|]. rewrite !unflushed_suffix by first [done | cbn; lia].
  rewrite Hu, !drop_drop. cbn. f_equal. lia.
Qed.

Lemma write_end_dirty h0 h' b cells cells' src len k :
  wf h0 h' (write_end b len k) cells' → write_no_wrap b len →
  0 ≤ pos b → 0 ≤ remaining b → pos b + remaining b ≤ Z.of_nat (length cells) →
  dirty_ok b → (write_moves b len = false ∨ pos_dirty b = pos b) →
  unread (write_end b len k) cells' = unread b cells ++ take (Z.to_nat len) src →
  dirty_ok (write_end b len k) ∧
  unflushed (write_end b len k) cells' = unflushed b cells ++ take (Z.to_nat len) src.
Proof.
  intros Hwf' (Hlen & Hsum & _) Hp Hr He Hd Hm Hu. pose proof Hd as [Hdp Hdr Hde].
  assert (remaining_dirty (write_end b len k) = remaining_dirty b + len) as Hrd.
  { cbn. apply i32_id. unfold_words. lia. }
  assert (remaining (write_end b len k) = remaining b + len) as Hrr by done.
  assert (pos (write_end b len k) + (pos_dirty b - pos b) = pos_dirty (write_end b len k))
    as Hpp.
  { unfold write_end, write_room. destruct Hm as [->|Hm]; cbn; [lia|]. case_match; cbn; lia. }
  destruct Hwf' as [_ _ _ _ Hp' _ _].
  assert (dirty_ok (write_end b len k)) as Hd' by (split; lia).
  split; [done|]. rewrite !unflushed_suffix, Hu by done.
  replace (pos_dirty (write_end b len k) - pos (write_end b len k))
    with (pos_dirty b - pos b) by lia.
  apply drop_app_le. rewrite length_unread by lia. lia.
Qed.

(** C18 (invariant): take a buffer whose dirty region is the end of its unread bytes.
    [getDataForFlush size] gives a pointer to the oldest [size] unflushed bytes and marks
    exactly them flushed, or null, changing nothing, when there are fewer; a [read] keeps the
    dirty region consistent and only takes from it what it consumed.  A [write] adds to it
    exactly what it wrote if [malloc] serves its request, one growth step makes enough room
    without overflowing an [int], and the bytes do not move, or move while nothing unread
    has been flushed. *)
Theorem dirty_region_tracked h0 h b cells :
  wf h0 h b cells → dirty_ok b →
  (∀ size, 0 < size →
     (size ≤ remaining_dirty b →
        getDataForFlush b size = (Some (buf_data b, pos_dirty b), flush_end b size) ∧
        dirty_ok (flush_end b size) ∧
        unflushed (flush_end b size) cells = drop (Z.to_nat size) (unflushed b cells)) ∧
     (remaining_dirty b < size → getDataForFlush b size = (None, b))) ∧
  (∀ dst len, 0 ≤ len ≤ Z.of_nat (length dst) →
     ∃ out b', read b (Some dst) len h = Done (out, b', h) ∧ dirty_ok b' ∧
       unflushed b' cells =
         drop (Z.to_nat (pos b + Z.min len (remaining b) - pos_dirty b)) (unflushed b cells)) ∧
  (∀ src len, 0 ≤ len ≤ Z.of_nat (length src) → write_fits b len →
     (write_moves b len = false ∨ pos_dirty b = pos b) →
     ∃ h' b' cells', write b (Some src) len h = Done ((0, b'), h') ∧
       wf h0 h' b' cells' ∧ dirty_ok b' ∧
       unflushed b' cells' = unflushed b cells ++ take (Z.to_nat len) src).
Proof.
  intros Hwf Hd. split_and!.
  - intros size Hs. split; intros Hsz.
    + by destruct (flush_ok h0 h b cells size) as (? & ? & ? & ?).
    + unfold getDataForFlush. by rewrite decide_True by lia.
  - intros dst len Hlen. destruct (read_ok h0 h b cells dst len Hwf Hlen) as (-> & _).
    eexists _, _. split; [done|]. apply (read_end_dirty h0 h); [done|done|].
    pose proof (wf_rem _ _ _ _ Hwf). lia.
  - intros src len [Hlen Hsrc] Hf Hm. pose proof Hf as (_ & _ & Hfit).
    pose proof (write_fits_no_wrap b len Hlen Hf) as Hnw.
    destruct (write_ok h0 h b cells src len Hwf Hnw Hsrc Hfit) as (h' & k & cells' & E & Hwf' & Hu).
    exists h', (write_end b len k), cells'. split_and!; [done|done|..];
      pose proof Hwf as [_ Hc _ _ Hp Hr He];
      apply (write_end_dirty h0 h' b cells cells' src len k); (done || lia).
Qed.

Lemma wf_initial h : fresh_from (blocks h) (mallocs h) →
  wf (blocks h) h (mk_pmem_buffer None 0 0 0 0 0) [].
Proof. intros Hf. by split. Qed.

(** A new buffer takes at most two growth units at a time. *)
Lemma initial_fits n : 0 ≤ n →
  write_fits (mk_pmem_buffer None 0 0 0 0 0) n ↔ n ≤ 2 * DEFAULT_BUFSIZE.
Proof.
  intros Hn. unfold write_fits. cbn [pos remaining].
  assert (write_cap0 (mk_pmem_buffer None 0 0 0 0 0) = DEFAULT_BUFSIZE) as Hc0 by reflexivity.
  destruct (write_cap_cases (mk_pmem_buffer None 0 0 0 0 0) n) as [[H1 ->]|[H1 ->]];
    rewrite Hc0 in *; cbn in H1; unfold DEFAULT_BUFSIZE in *; lia.
Qed.

(** Writing [n] bytes into a new buffer. *)
Lemma write_initial_two h src (n : Z) :
  fresh_from (blocks h) (mallocs h) → 0 ≤ n ≤ 2 * DEFAULT_BUFSIZE → n ≤ Z.of_nat (length src) →
  ∃ h' b cells, write (mk_pmem_buffer None 0 0 0 0 0) (Some src) n h = Done ((0, b), h') ∧
    wf (blocks h) h' b cells ∧ remaining b = n ∧ unread b cells = take (Z.to_nat n) src.
Proof.
  intros Hf Hn Hl. set (b := mk_pmem_buffer None 0 0 0 0 0).
  assert (write_fits b n) as Hfit by (apply initial_fits; lia).
  destruct (write_ok (blocks h) h b [] src n (wf_initial h Hf)) as (h' & k & cells & E & Hwf & Hu);
    [by apply write_fits_no_wrap; [lia|]|done|by destruct Hfit as (_ & _ & ?)|].
  exists h', (write_end b n k), cells. by split_and!.
Qed.

Lemma write_initial_overflow h src (n : Z) :
  fresh_from (blocks h) (mallocs h) → 2 * DEFAULT_BUFSIZE < n < 2147483648 →
  n ≤ Z.of_nat (length src) →
  write (mk_pmem_buffer None 0 0 0 0 0) (Some src) n h = Undefined.
Proof.
  intros Hf Hn Hl. assert (0 ≤ n) by (unfold DEFAULT_BUFSIZE in *; lia).
  apply (write_not_fits (blocks h) h _ [] _ _ (wf_initial h Hf)); [lia|done|].
  rewrite initial_fits by done. lia.
Qed.

(** Writing [n] bytes, at most [DEFAULT_BUFSIZE], into a new buffer. *)
Lemma write_initial h src (n : Z) :
  fresh_from (blocks h) (mallocs h) → 0 ≤ n ≤ DEFAULT_BUFSIZE → n ≤ Z.of_nat (length src) →
  ∃ h' k cells, write (mk_pmem_buffer None 0 0 0 0 0) (Some src) n h
      = Done ((0, mk_pmem_buffer (Some k) DEFAULT_BUFSIZE 0 n 0 n), h') ∧
    wf (blocks h) h' (mk_pmem_buffer (Some k) DEFAULT_BUFSIZE 0 n 0 n) cells ∧
    take (Z.to_nat n) cells = take (Z.to_nat n) src.
Proof.
  intros Hf Hn Hl. set (b := mk_pmem_buffer None 0 0 0 0 0).
  assert (write_cap0 b = DEFAULT_BUFSIZE) as Hc0 by reflexivity.
  assert (remaining b = 0 ∧ pos b = 0) as [Hr Hp] by done.
  assert (write_cap b n = DEFAULT_BUFSIZE) as Hc
    by (destruct (write_cap_cases b n) as [[? ->]|[? ->]]; lia).
  assert (write_moves b n = false) as Hm by (apply bool_decide_eq_false; lia).
  destruct (write_ok (blocks h) h b [] src n (wf_initial h Hf))
    as (h' & k & cells & E & Hwf & Hu); [|done|rewrite Hc; cbn; lia|].
  { unfold write_no_wrap. rewrite Hc. unfold DEFAULT_BUFSIZE in *. cbn. lia. }
  assert (write_end b n k = mk_pmem_buffer (Some k) DEFAULT_BUFSIZE 0 n 0 n) as Ee.
  { unfold write_end, write_room. rewrite Hm. cbn. unfold set_remaining_dirty. cbn.
    rewrite i32_id; [done|]. unfold_words. unfold DEFAULT_BUFSIZE in *. lia. }
  rewrite Ee in *. exists h', k, cells. split_and!; [done|done|exact Hu].
Qed.

End spec.

(** ** Refused requests *)
Section refused.
Context `{Allocator}.

(** From call [k] on, every request is refused. *)
Definition refuses_from (k : nat) : Prop := ∀ j sz, (k ≤ j)%nat → can_alloc j sz = false.

Lemma alloc_buf_refused h n b : refuses_from (mallocs h) →
  alloc_buf n b h = Done (set_buf_data None b, mk_heap (blocks h) (S (mallocs h))).
Proof.
  intros Hr. unfold alloc_buf. eapply bind_step; [|done]. unfold malloc. by rewrite Hr.
Qed.

(** The old block is released all the same. *)
Lemma realloc_move_refused h0 h b cells : refuses_from (mallocs h) →
  owns h0 h (buf_data b) cells →
  ∃ h', realloc_move b h = Done (set_buf_data None b, h') ∧ blocks h' = h0.
Proof.
  intros Hr Ho. set (h1 := mk_heap (blocks h) (S (mallocs h))).
  assert (owns h0 h1 (buf_data b) cells) as Ho1.
  { destruct Ho as [Hb Hn Hz Hf]. split; cbn; try done. intros j Hj. apply Hf. lia. }
  destruct (free_owned _ _ _ _ Ho1) as (h2 & E2 & Ho2). exists h2.
  split; [|exact (owns_blocks _ _ _ _ Ho2)].
  unfold realloc_move. eapply bind_step; [by apply alloc_buf_refused|].
  eapply bind_step; [reflexivity|]. eapply bind_step; [exact E2|done].
Qed.

(** A buffer without a block that needs room. *)
Lemma write_make_room_none h b len : refuses_from (mallocs h) → buf_data b = None →
  ∃ h' b', write_make_room b len h = Done (b', h') ∧ buf_data b' = None ∧
    remaining b' = remaining b ∧ blocks h' = blocks h.
Proof.
  intros Hr Hb. unfold write_make_room, write_compact.
  destruct (decide _); [|by exists h, b].
  set (b1 := if decide (i32 (remaining b + len) > buf_data_capacity b) then _ else _).
  assert (buf_data b1 = None ∧ remaining b1 = remaining b) as [Hb1 Hr1]
    by (unfold b1; by case_decide).
  clearbody b1. destruct (decide _); [|by exists h, b1].
  assert (realloc_move b1 h = Done (set_buf_data None b1, mk_heap (blocks h) (S (mallocs h)))) as E.
  { unfold realloc_move. eapply bind_step; [by apply alloc_buf_refused|].
    rewrite Hb1. eapply bind_step; [reflexivity|]. eapply bind_step; [reflexivity|done]. }
  eexists _, _. split; [eapply bind_step; [exact E|done]|]. done.
Qed.

Lemma write_without_block b src len h : buf_data b = None →
  (_ ← (match buf_data b, Some src with
        | Some _, Some src => copy_in (buf_data b) (pos b + remaining b) src len
        | _, _ => mret tt
        end);
   let b := set_remaining (i32 (remaining b + len)) b in
   let b := set_remaining_dirty (i32 (remaining_dirty b + len)) b in
   mret (0, b)) h =
  Done ((0, set_remaining_dirty (i32 (remaining_dirty b + len))
              (set_remaining (i32 (remaining b + len)) b)), h).
Proof. intros ->. done. Qed.

(** A [write] that needs a block and gets none. *)
Lemma write_refused h0 h b cells src len : refuses_from (mallocs h) → wf h0 h b cells →
  write_no_wrap b len → buf_data_capacity b = 0 ∨ write_moves b len = true →
  ∃ h' b', write b (Some src) len h = Done ((0, b'), h') ∧ buf_data b' = None ∧
    blocks h' = h0 ∧ remaining b' = remaining b + len.
Proof.
  intros Hr [Ho Hc Hci Ha Hp Hrm He] (Hlen & Hsum & Hcap) Hneed.
  assert (∃ h1 b1, (b ← write_first_alloc b; write_make_room b len) h = Done (b1, h1) ∧
    buf_data b1 = None ∧ remaining b1 = remaining b ∧ blocks h1 = h0) as (h1 & b1 & E & Hn & Hr1 & Hh).
  { destruct (decide (buf_data_capacity b = 0)) as [Hz|Hz].
    - rewrite (Ha Hz) in Ho.
      destruct (write_make_room_none (mk_heap (blocks h) (S (mallocs h)))
        (set_buf_data None (set_capacity DEFAULT_BUFSIZE b)) len) as (h1 & b1 & E & Hn & Hr1 & Hh);
        [intros j sz ?; apply Hr; cbn in *; lia|done|].
      exists h1, b1. split_and!; [|done|done|rewrite Hh; exact (owns_blocks _ _ _ _ Ho)].
      eapply bind_step; [|exact E]. unfold write_first_alloc. rewrite decide_True by done.
      cbn [buf_data_capacity set_capacity]. rewrite decide_True by (unfold DEFAULT_BUFSIZE; lia).
      by apply alloc_buf_refused.
    - destruct Hneed as [?|Hm%bool_decide_eq_true]; [done|].
      assert (write_cap0 b = buf_data_capacity b) as Hc0 by (unfold write_cap0; by case_decide).
      set (b1 := set_capacity (write_cap b len) b).
      destruct (realloc_move_refused h0 h b1 cells Hr Ho) as (h1 & E1 & Hh1).
      exists h1, (set_pos_dirty 0 (set_pos 0 (set_buf_data None b1))).
      split_and!; [|done|done|done].
      eapply bind_step; [unfold write_first_alloc; by rewrite decide_False|].
      unfold write_make_room. rewrite (i32_id (pos b + remaining b)), i32_id by (unfold_words; lia).
      rewrite decide_True by lia. rewrite (i32_id (remaining b + len)) by (unfold_words; lia).
      assert ((if decide (remaining b + len > buf_data_capacity b)
               then set_capacity (i32 (buf_data_capacity b + DEFAULT_BUFSIZE)) b else b) = b1) as ->.
      { unfold b1. destruct (write_cap_cases b len) as [[Hg Hw]|[Hg Hw]]; rewrite Hw in *;
          rewrite Hc0 in *.
        - rewrite decide_True, i32_id by (unfold_words; unfold DEFAULT_BUFSIZE in *; lia). done.
        - rewrite decide_False by lia. by destruct b. }
      unfold write_compact. rewrite decide_True; [eapply bind_step; [exact E1|done]|].
      unfold b1. cbn. pose proof (write_cap_cases b len). unfold DEFAULT_BUFSIZE in *. lia. }
  eexists h1, _. split; [unfold write; rewrite st_bind_assoc; eapply bind_step; [exact E|];
    by apply write_without_block|].
  split_and!; [done|done|]. cbn. rewrite Hr1. apply i32_id. unfold_words. lia.
Qed.

(** C16 (functional): a [write] of [len] bytes from a readable region into a buffer.  If
    [malloc] serves every request, it appends exactly those bytes to the unread ones and
    returns 0, growing and compacting as needed, when one growth step of [DEFAULT_BUFSIZE]
    makes enough room and no [int] of the call overflows; in all other cases the copy
    runs past the end of the block (undefined behaviour).  If [malloc] refuses when the call
    needs a block, and no [int] overflows, it returns 0 as well, with [remaining] raised, but the buffer has no block
    any more: the bytes, and the unread ones before them, are gone. *)
Theorem write_appends_or_overflows h0 h b cells src len :
  wf h0 h b cells → 0 ≤ len < 2147483648 → len ≤ Z.of_nat (length src) →
  (TotalAllocator → write_fits b len →
     ∃ h' k cells', write b (Some src) len h = Done ((0, write_end b len k), h') ∧
       wf h0 h' (write_end b len k) cells' ∧
       unread (write_end b len k) cells' = unread b cells ++ take (Z.to_nat len) src) ∧
  (TotalAllocator → ¬ write_fits b len → write b (Some src) len h = Undefined) ∧
  (refuses_from (mallocs h) → write_no_wrap b len →
   buf_data_capacity b = 0 ∨ write_moves b len = true →
     ∃ h' b', write b (Some src) len h = Done ((0, b'), h') ∧ buf_data b' = None ∧
       blocks h' = h0 ∧ remaining b' = remaining b + len).
Proof.
  intros Hwf Hlen Hsrc. split_and!.
  - intros Ht Hf. apply write_ok; [done| |done|by destruct Hf as (_ & _ & ?)].
    by apply write_fits_no_wrap; [lia|].
  - intros Ht. by eapply write_not_fits.
  - intros Hr. by apply (write_refused h0 h b cells).
Qed.

End refused.
