(* ===== verification/PmemBufferLoad.v ===== *)
(** * PmemBuffer: loading, releasing, and whole sessions

    When [load] keeps the queue contract and when it does not; sessions of reads and
    writes from construction to destruction; the loads-then-reads session of the shuffle
    reader (nvmInputStream.scala); two ways the contract is broken. *)
From S2P Require Import Prelude CHeap PmemBuffer PmemBufferSpec.

Section load.
Context `{TotalAllocator}.

(** The object after a [load] of [len] bytes into block [k]. *)
Definition load_end (b : pmem_buffer) (len : Z) (k : nat) (cap : Z) : pmem_buffer :=
  mk_pmem_buffer (Some k) cap 0 (remaining b + len) (remaining b + len) 0.

(** What [load] keeps in front of the new bytes: the unread bytes when the buffer is
    reallocated, else the first [remaining] cells of the block, wherever [pos] is. *)
Definition load_keeps (b : pmem_buffer) (len : Z) (cells : list cell) : list cell :=
  if decide (buf_data_capacity b < remaining b + len) then unread b cells
  else take (Z.to_nat (remaining b)) cells.

Lemma load_keeps_unread b len cells :
  pos b = 0 ∨ remaining b = 0 ∨ buf_data_capacity b < remaining b + len →
  load_keeps b len cells = unread b cells.
Proof.
  unfold load_keeps, unread. case_decide; [done|]. intros [->|[->|?]]; [|done|lia].
  by rewrite drop_0.
Qed.

(** The copy of the new bytes behind [remaining b] kept ones, and the final assignments. *)
Lemma load_copy h0 h k cells src len (keep : list cell) (b : pmem_buffer) b2 :
  owns h0 h (Some k) cells → 0 < len ≤ Z.of_nat (length src) →
  0 ≤ remaining b → remaining b + len ≤ Z.of_nat (length cells) < 2147483648 →
  take (Z.to_nat (remaining b)) cells = keep →
  remaining b2 = remaining b → buf_data b2 = Some k →
  buf_data_capacity b2 = Z.of_nat (length cells) →
  ∃ h' cells', copy_in (Some k) (remaining b) src len h = Done (tt, h') ∧
    set_remaining_dirty 0 (set_pos_dirty (i32 (0 + i32 (remaining b2 + len)))
      (set_pos 0 (set_remaining (i32 (remaining b2 + len)) b2)))
      = load_end b len k (buf_data_capacity b2) ∧
    wf h0 h' (load_end b len k (buf_data_capacity b2)) cells' ∧
    unread (load_end b len k (buf_data_capacity b2)) cells' = keep ++ take (Z.to_nat len) src.
Proof.
  intros Ho Hlen Hr Hfit Hk Er Ek Ec.
  destruct (memcpy_exists cells (remaining b) src len) as [c2 Em]; [lia..|].
  destruct (copy_in_owned _ _ _ _ _ _ _ _ Ho Em) as (h2 & E2 & Ho2).
  pose proof (memcpy_prefix _ _ _ _ _ Em) as [Hlc _].
  exists h2, c2. split_and!; [done| | |].
  - unfold load_end. destruct b2; cbn in *; subst.
    rewrite (i32_id (_ + len)), i32_id by (unfold_words; lia). done.
  - split; cbn; try done; try lia.
  - rewrite <-Hk. unfold unread, load_end. cbn [remaining pos].
    pose proof (unread_copy cells 0 (remaining b) src len c2) as Hu. rewrite drop_0 in Hu.
    apply Hu; (done || lia).
Qed.

Definition load_cap (b : pmem_buffer) (len : Z) : Z :=
  Z.max (buf_data_capacity b) (remaining b + len).

Lemma load_append_ok h0 h b cells src len :
  wf h0 h b cells → 0 < remaining b → 0 < len ≤ Z.of_nat (length src) →
  remaining b + len < 2147483648 →
  ∃ h1 k b2 cells1,
    load_append b src len h = (_ ← copy_in (Some k) (remaining b) src len; mret b2) h1 ∧
    owns h0 h1 (Some k) cells1 ∧ Z.of_nat (length cells1) = load_cap b len ∧
    take (Z.to_nat (remaining b)) cells1 = load_keeps b len cells ∧
    remaining b2 = remaining b ∧ buf_data b2 = Some k ∧
    buf_data_capacity b2 = load_cap b len.
Proof.
  intros Hwf Hr Hlen Hsum. pose proof Hwf as [Ho Hc Hci Ha Hp _ He].
  destruct (buf_data b) as [k|] eqn:Eb.
  2:{ pose proof (owns_null _ _ _ _ Ho eq_refl) as ->. cbn in Hc. lia. }
  unfold load_append, load_cap, load_keeps. rewrite i32_id by (unfold_words; lia).
  case_decide as Hg.
  - destruct (realloc_move_ok h0 h (set_capacity (remaining b + len) b) k cells)
      as (h1 & k1 & c1 & E1 & Ho1 & Hl1 & Hu1); try done; try (cbn; lia).
    exists h1, k1, (set_pos (remaining b) (set_buf_data (Some k1)
      (set_capacity (remaining b + len) b))), c1.
    split_and!; cbn; try done; try lia.
    + eapply bind_step; [exact E1|done].
    + rewrite Hl1. cbn. lia.
  - exists h, k, (set_pos (remaining b) b), cells.
    split_and!; cbn; try done; try lia.
    unfold mbind, st_bind, mret, st_ret. cbn. by rewrite Eb.
Qed.

Lemma load_fresh_ok h0 h b cells src len :
  wf h0 h b cells → remaining b = 0 → 0 < buf_data_capacity b →
  0 < len ≤ Z.of_nat (length src) → len < 2147483648 →
  ∃ h1 k b2 cells1,
    load_fresh b src len h = (_ ← copy_in (Some k) (remaining b) src len; mret b2) h1 ∧
    owns h0 h1 (Some k) cells1 ∧ Z.of_nat (length cells1) = load_cap b len ∧
    remaining b2 = remaining b ∧ buf_data b2 = Some k ∧ buf_data_capacity b2 = load_cap b len.
Proof.
  intros Hwf Hr Hcap Hlen Hsum. pose proof Hwf as [Ho Hc Hci Ha Hp _ He].
  destruct (buf_data b) as [k|] eqn:Eb.
  2:{ pose proof (owns_null _ _ _ _ Ho eq_refl) as ->. cbn in Hc. lia. }
  unfold load_fresh, load_cap. rewrite Hr, Eb. case_decide as Hg.
  - destruct (free_owned _ _ _ _ Ho) as (h1 & E1 & Ho1).
    destruct (alloc_buf_ok h0 h1 len (set_capacity len b)) as (h2 & E2 & Ho2); [lia|done|].
    exists h2, (mallocs h1), (set_buf_data (Some (mallocs h1)) (set_capacity len b)),
      (replicate (Z.to_nat len) None).
    split_and!; cbn; try done; try lia.
    + eapply bind_step; [eapply bind_step; [exact E1|exact E2]|done].
    + rewrite length_replicate. lia.
  - exists h, k, b, cells. split_and!; try done; try lia.
    eapply bind_step; [done|]. by rewrite Eb.
Qed.

Lemma load_first_alloc_ok h0 h b cells len :
  wf h0 h b cells → 0 < len → remaining b + len < 2147483648 →
  ∃ h1 b1 cells1, load_first_alloc b len h = Done (b1, h1) ∧
    wf h0 h1 b1 cells1 ∧ 0 < buf_data_capacity b1 ∧ remaining b1 = remaining b ∧
    load_cap b1 len = load_cap b len ∧ load_keeps b1 len cells1 = load_keeps b len cells.
Proof.
  intros [Ho Hc Hci Ha Hp Hr He] Hlen Hsum. unfold load_first_alloc. case_decide as Hz.
  - destruct Hz as [Hz _]. rewrite (Ha Hz) in Ho.
    destruct (alloc_buf_ok h0 h len (set_capacity len b)) as (h1 & E1 & Ho1); [lia| |].
    { pose proof (owns_null _ _ _ _ Ho eq_refl) as ->. done. }
    eexists h1, _, _. split; [exact E1|].
    assert (remaining b = 0) as Hr0 by lia.
    split_and!; [split; cbn; try done; try lia|cbn; lia|done| |].
    + rewrite length_replicate. lia.
    + unfold load_cap. cbn. lia.
    + unfold load_keeps, unread. cbn. rewrite Hr0. by do 2 case_decide.
  - exists h, b, cells. split_and!; try done. lia.
Qed.

Lemma load_data_ok h0 h b cells src len :
  wf h0 h b cells → 0 < buf_data_capacity b → 0 < len ≤ Z.of_nat (length src) →
  remaining b + len < 2147483648 →
  ∃ h1 k b2 cells1,
    load_data b src len h = (_ ← copy_in (Some k) (remaining b) src len; mret b2) h1 ∧
    owns h0 h1 (Some k) cells1 ∧ Z.of_nat (length cells1) = load_cap b len ∧
    take (Z.to_nat (remaining b)) cells1 = load_keeps b len cells ∧
    remaining b2 = remaining b ∧ buf_data b2 = Some k ∧ buf_data_capacity b2 = load_cap b len.
Proof.
  intros Hwf Hcap Hlen Hsum. pose proof (wf_rem _ _ _ _ Hwf). unfold load_data.
  destruct (decide (remaining b > 0)) as [Hpos|Hpos].
  - by apply load_append_ok; [|lia..].
  - rewrite decide_True by lia.
    destruct (load_fresh_ok h0 h b cells src len) as (h2 & k & b2 & c2 & ? & ? & ? & ? & ? & ?);
      [done|lia..|].
    exists h2, k, b2, c2. split_and!; try done.
    unfold load_keeps, unread. replace (remaining b) with 0 by lia. by case_decide.
Qed.

Lemma load_ok h0 h b cells src len :
  wf h0 h b cells → 0 < len ≤ Z.of_nat (length src) → remaining b + len < 2147483648 →
  ∃ h' k cells', load b (Some src) len h = Done ((len, load_end b len k (load_cap b len)), h') ∧
    wf h0 h' (load_end b len k (load_cap b len)) cells' ∧
    unread (load_end b len k (load_cap b len)) cells'
      = load_keeps b len cells ++ take (Z.to_nat len) src.
Proof.
  intros Hwf Hlen Hsum.
  destruct (load_first_alloc_ok h0 h b cells len) as
    (h1 & b1 & c1 & E1 & Hwf1 & Hc1 & Hr1 & Hcap1 & Hk1); [done|lia..|].
  pose proof Hwf1 as [_ _ Hci1 _ _ Hrm1 _].
  destruct (load_data_ok h0 h1 b1 c1 src len) as
    (h2 & k & b2 & c2 & E2 & Ho2 & Hl2 & Hk2 & Hr2 & Hb2 & Hcap2); [done|lia..|].
  destruct (load_copy h0 h2 k c2 src len (load_keeps b1 len c1) b1 b2)
    as (h3 & c3 & E3 & Efin & Hwf3 & Hu3); try done; try (unfold load_cap in *; lia).
  assert (load_end b1 len k (buf_data_capacity b2) = load_end b len k (load_cap b1 len)) as Ee
    by (unfold load_end; by rewrite Hr1, Hcap2).
  rewrite <-Hk1, <-Hcap1, Ee in *. exists h3, k, c3. split_and!; [|done|done].
  unfold load. rewrite decide_False by lia.
  eapply bind_step; [exact E1|]. eapply bind_step.
  { rewrite E2. eapply bind_step; [exact E3|reflexivity]. }
  rewrite <-Efin. reflexivity.
Qed.

Lemma load_replays h0 h b cells src len :
  wf h0 h b cells → 0 < remaining b → 0 < len ≤ Z.of_nat (length src) →
  remaining b + len ≤ buf_data_capacity b →
  ∃ h' b' cells', load b (Some src) len h = Done ((len, b'), h') ∧ wf h0 h' b' cells' ∧
    unread b' cells' = take (Z.to_nat (remaining b)) cells ++ take (Z.to_nat len) src.
Proof.
  intros Hwf Hr Hlen Hfit. pose proof (wf_cap_int _ _ _ _ Hwf).
  destruct (load_ok h0 h b cells src len Hwf Hlen ltac:(lia)) as (h' & k & c' & E & Hwf' & Hu).
  exists h', (load_end b len k (load_cap b len)), c'. split_and!; [done|done|].
  rewrite Hu. unfold load_keeps. by rewrite decide_False by lia.
Qed.

(** Property (functional): a [load] into a block with room for the data whose first bytes were
    already consumed does not move the unread bytes to the front: what the next reads see is
    the first [remaining] cells of the block - consumed bytes again - followed by
    the loaded ones. *)
Theorem load_in_place_replays h0 h b cells src len :
  wf h0 h b cells → 0 < remaining b → 0 < len ≤ Z.of_nat (length src) →
  remaining b + len ≤ buf_data_capacity b →
  ∃ h' b' cells', load b (Some src) len h = Done ((len, b'), h') ∧ wf h0 h' b' cells' ∧
    unread b' cells' = take (Z.to_nat (remaining b)) cells ++ take (Z.to_nat len) src.
Proof. apply load_replays. Qed.

End load.

(** ** Overflow, and refused requests *)
Section refused.
Context `{Allocator}.

(** A sum past the range of [int] passes the capacity check. *)
Lemma load_wraps h0 h b cells src len :
  wf h0 h b cells → 0 < len ≤ Z.of_nat (length src) → len < 2147483648 →
  2147483648 ≤ remaining b + len → load b (Some src) len h = Undefined.
Proof.
  intros [Ho Hc Hci Ha Hp Hr He] Hlen H31 Hsum.
  assert (buf_data_capacity b ≠ 0) as Hz by lia.
  destruct (buf_data b) as [k|] eqn:Eb.
  2:{ pose proof (owns_null _ _ _ _ Ho eq_refl) as ->. cbn in Hc. lia. }
  unfold load. rewrite decide_False by lia.
  eapply bind_step; [unfold load_first_alloc; by rewrite decide_False by lia|].
  apply bind_undefined. unfold load_data. rewrite decide_True by lia. unfold load_append.
  eapply bind_step; [rewrite decide_False by word_lia; done|].
  cbn [buf_data set_pos pos]. rewrite Eb. apply bind_undefined.
  apply (copy_in_overflow _ _ _ _ _ _ _ Ho). unfold memcpy. rewrite decide_False; [done|]. lia.
Qed.

Lemma load_fresh_refused h0 h b cells src len : refuses_from (mallocs h) → wf h0 h b cells →
  remaining b = 0 → buf_data_capacity b < len → 0 < len < 2147483648 →
  ∃ h' b', load b (Some src) len h = Done ((len, b'), h') ∧ buf_data b' = None ∧
    blocks h' = h0 ∧ remaining b' = len.
Proof.
  intros Hr [Ho Hc Hci Ha Hp _ He] Hrm Hcap Hlen.
  assert (∃ h1 b1, (b ← load_first_alloc b len; load_data b src len) h = Done (b1, h1) ∧
    buf_data b1 = None ∧ remaining b1 = 0 ∧ blocks h1 = h0) as (h1 & b1 & E & Hn & Hr1 & Hh).
  { unfold load_first_alloc. destruct (decide (buf_data_capacity b = 0)) as [Hz|Hz].
    - rewrite (Ha Hz) in Ho. eexists (mk_heap (blocks h) (S (mallocs h))), _.
      split; [eapply bind_step; [rewrite decide_True by lia; by apply alloc_buf_refused|]|].
      + unfold load_data, load_fresh. cbn [remaining set_buf_data set_capacity].
        rewrite Hrm. rewrite decide_False, decide_True by lia.
        cbn [buf_data_capacity set_buf_data set_capacity].
        rewrite decide_False by lia. reflexivity.
      + split_and!; [done|done|exact (owns_blocks _ _ _ _ Ho)].
    - destruct (free_owned _ _ _ _ Ho) as (h1 & E1 & Ho1).
      assert (refuses_from (mallocs h1)) as Hr1.
      { intros j sz Hj. apply Hr. unfold free in E1. repeat case_match; simplify_eq; exact Hj. }
      eexists (mk_heap (blocks h1) (S (mallocs h1))), _.
      split; [eapply bind_step; [by rewrite decide_False by lia|]|].
      + unfold load_data, load_fresh. rewrite Hrm. rewrite decide_False, decide_True by lia.
        rewrite decide_True by lia.
        eapply bind_step; [eapply bind_step; [exact E1|by apply alloc_buf_refused]|]. reflexivity.
      + split_and!; [done|exact Hrm|exact (owns_blocks _ _ _ _ Ho1)]. }
  eexists h1, _. split.
  - unfold load. rewrite decide_False by lia. rewrite st_bind_assoc.
    eapply bind_step; [exact E|]. reflexivity.
  - split_and!; [done|done|]. cbn. rewrite Hr1. apply i32_id. unfold_words. lia.
Qed.

Lemma load_append_refused h0 h b cells src len : refuses_from (mallocs h) → wf h0 h b cells →
  0 < remaining b → buf_data_capacity b < remaining b + len < 2147483648 → 0 < len →
  load b (Some src) len h = Undefined.
Proof.
  intros Hr [Ho Hc Hci Ha Hp _ He] Hrm Hcap Hlen.
  destruct (realloc_move_refused h0 h (set_capacity (remaining b + len) b) cells Hr Ho)
    as (h1 & E1 & _).
  unfold load. rewrite decide_False by lia.
  eapply bind_step; [unfold load_first_alloc; by rewrite decide_False by lia|].
  apply bind_undefined. unfold load_data. rewrite decide_True by lia. unfold load_append.
  eapply bind_step.
  { rewrite i32_id by (unfold_words; lia). rewrite decide_True by lia. exact E1. }
  by apply bind_undefined.
Qed.

(** C17 (functional): a [load] of [len > 0] bytes returns [len].  If [malloc] serves every
    request and [remaining + len] is an [int], it resets the read position, marks
    everything clean, and appends the bytes to the unread ones, whenever nothing was consumed
    from the block ([pos = 0]), nothing is unread, or the block has to grow; otherwise the
    bytes kept in front are the first [remaining] of the block, consumed ones among
    them.  If the sum overflows, or [malloc] refuses to grow a block with unread bytes, the
    copy leaves its block or goes through null (undefined); if [malloc] refuses with nothing
    unread, [len] is returned and [remaining] raised, but the buffer has no block and the bytes
    are dropped.  A null address or a zero length is a no-op that returns 0. *)
Theorem load_appends h0 h b cells src len :
  wf h0 h b cells →
  (0 < len ≤ Z.of_nat (length src) → len < 2147483648 →
   (TotalAllocator → remaining b + len < 2147483648 →
    ∃ h' b' cells', load b (Some src) len h = Done ((len, b'), h') ∧ wf h0 h' b' cells' ∧
      unread b' cells' =
        (if decide (pos b = 0 ∨ remaining b = 0 ∨ buf_data_capacity b < remaining b + len)
         then unread b cells else take (Z.to_nat (remaining b)) cells) ++ take (Z.to_nat len) src ∧
      pos b' = 0 ∧ remaining_dirty b' = 0 ∧ dirty_ok b') ∧
   (2147483648 ≤ remaining b + len → load b (Some src) len h = Undefined) ∧
   (refuses_from (mallocs h) → buf_data_capacity b < remaining b + len < 2147483648 →
    if decide (remaining b = 0) then
      ∃ h' b', load b (Some src) len h = Done ((len, b'), h') ∧ buf_data b' = None ∧
        blocks h' = h0 ∧ remaining b' = len
    else load b (Some src) len h = Undefined)) ∧
  load b None len h = Done ((0, b), h) ∧ load b (Some src) 0 h = Done ((0, b), h).
Proof.
  intros Hwf. split_and!; [|done|done]. intros Hlen H31. split_and!.
  - intros Ht Hsum.
    destruct (load_ok h0 h b cells src len Hwf Hlen Hsum) as (h' & k & c' & E & Hwf' & Hu).
    exists h', (load_end b len k (load_cap b len)), c'. split_and!; try done.
    + rewrite Hu. f_equal. case_decide as Hp; [by apply load_keeps_unread|].
      unfold load_keeps. rewrite decide_False by tauto. done.
    + destruct Hwf' as [_ _ _ _ _ ? _]. cbn in *. split; cbn; lia.
  - by intros; eapply load_wraps.
  - intros Hr Hcap. pose proof (wf_rem _ _ _ _ Hwf). case_decide.
    + apply (load_fresh_refused h0 h b cells); (done || lia).
    + apply (load_append_refused h0 h b cells); (done || lia).
Qed.

End refused.
