(* ===== verification/PmemBufferSession.v ===== *)
(** * PmemBuffer: whole sessions against the queue contract, and its two breaches

    A session constructs a buffer, performs operations, destroys the buffer.  The
    contract [spec_run] knows only the queue of unread bytes. *)
From S2P Require Import Prelude CHeap PmemBuffer PmemBufferSpec PmemBufferLoad.

(** ** The contract *)
Inductive buf_op :=
| Op_write (data : list byte)
| Op_read (len : nat)
| Op_load (data : list byte)
| Op_clean.

(** What each operation does to the queue, and what a client gets back. *)
Definition spec_step (q : list byte) (op : buf_op) : list byte * list byte :=
  match op with
  | Op_write data => ([], q ++ data)
  | Op_read len => (take len q, drop len q)
  | Op_load data => ([], q ++ data)
  | Op_clean => ([], [])
  end.

Fixpoint spec_run (q : list byte) (ops : list buf_op) : list (list byte) :=
  match ops with
  | [] => []
  | op :: ops => let '(out, q) := spec_step q op in out :: spec_run q ops
  end.

(** The largest block a session may need, and what keeps it below: a client never holds
    more than [session_limit - DEFAULT_BUFSIZE] unread bytes, writes at most
    [DEFAULT_BUFSIZE] at a time, and loads only when the unread bytes, if any, are at the
    start of the block ([touched] says that bytes were read since the last load). *)
Definition session_limit : Z := 1073741824.

Definition touched_after (touched : bool) (q : list byte) (op : buf_op) : bool :=
  match op with
  | Op_write _ => touched
  | Op_read len => touched || bool_decide (0 < length (take len q))%nat
  | Op_load data => if decide (data = []) then touched else false
  | Op_clean => false
  end.

Definition op_ok (touched : bool) (q : list byte) (op : buf_op) : bool :=
  match op with
  | Op_write data =>
      bool_decide (Z.of_nat (length data) ≤ DEFAULT_BUFSIZE) &&
      bool_decide (Z.of_nat (length q + length data) ≤ session_limit - DEFAULT_BUFSIZE)
  | Op_read len => bool_decide (Z.of_nat len < 2147483648)
  | Op_load data =>
      (negb touched || bool_decide (q = [])) &&
      bool_decide (Z.of_nat (length q + length data) ≤ session_limit)
  | Op_clean => true
  end.

Fixpoint session_ok (touched : bool) (q : list byte) (ops : list buf_op) : bool :=
  match ops with
  | [] => true
  | op :: ops =>
      op_ok touched q op &&
      session_ok (touched_after touched q op) (spec_step q op).2 ops
  end.

Section session.
Context `{TotalAllocator}.

(** ** The implementation *)
Definition impl_step (b : pmem_buffer) (op : buf_op) : st heap (list cell * pmem_buffer) :=
  match op with
  | Op_write data =>
      '(_, b) ← write b (Some (bytes_of data)) (Z.of_nat (length data)); mret ([], b)
  | Op_read len =>
      '(r, out, b) ← read b (Some (replicate len None)) (Z.of_nat len);
      mret (take (Z.to_nat r) (default [] out), b)
  | Op_load data =>
      '(_, b) ← load b (Some (bytes_of data)) (Z.of_nat (length data)); mret ([], b)
  | Op_clean => b ← clean b; mret ([], b)
  end.

Fixpoint impl_run (b : pmem_buffer) (ops : list buf_op) : st heap (list (list cell) * pmem_buffer) :=
  match ops with
  | [] => mret ([], b)
  | op :: ops =>
      '(out, b) ← impl_step b op;
      '(outs, b) ← impl_run b ops;
      mret (out :: outs, b)
  end.

Definition construct (size : option Z) : st heap pmem_buffer :=
  match size with None => PmemBuffer | Some c => PmemBuffer_sized c end.

Definition session (size : option Z) (ops : list buf_op) : st heap (list (list cell)) :=
  b ← construct size;
  '(outs, b) ← impl_run b ops;
  _ ← PmemBuffer_delete b;
  mret outs.

(** ** The simulation relation *)
Record sim h0 h b (touched : bool) (q : list byte) : Prop := {
  sim_cells : ∃ cells, wf h0 h b cells ∧ unread b cells = bytes_of q;
  sim_cap : buf_data_capacity b ≤ session_limit;
  sim_pos : touched = false → pos b = 0
}.

Lemma length_bytes_of l : length (bytes_of l) = length l.
Proof. apply length_fmap. Qed.

Lemma sim_remaining h0 h b t q : sim h0 h b t q → remaining b = Z.of_nat (length q).
Proof.
  intros [(cells & [] & Hu) _ _]. pose proof (length_unread b cells) as Hl.
  rewrite Hu, length_bytes_of in Hl. lia.
Qed.

Lemma sim_write h0 h b t q data : sim h0 h b t q → op_ok t q (Op_write data) = true →
  ∃ h' b', impl_step b (Op_write data) h = Done (([], b'), h') ∧ sim h0 h' b' t (q ++ data).
Proof.
  intros Hs Hok. pose proof (sim_remaining _ _ _ _ _ Hs) as Hr.
  destruct Hs as [(cells & Hwf & Hu) Hcap Hpos]. cbn [op_ok] in Hok.
  apply andb_prop in Hok as [H1%bool_decide_eq_true H2%bool_decide_eq_true].
  rewrite Nat2Z.inj_add in H2. pose proof Hwf as [_ Hc _ _ Hp _ He].
  pose proof (write_cap_cases b (Z.of_nat (length data))) as Hcases.
  assert (write_cap0 b ≤ session_limit) as Hc0
    by (unfold write_cap0; case_decide; [by unfold DEFAULT_BUFSIZE, session_limit|lia]).
  assert (write_cap0 b ≤ write_cap b (Z.of_nat (length data)) ≤ session_limit) as Hc1
    by (unfold DEFAULT_BUFSIZE, session_limit in *; lia).
  destruct (write_ok h0 h b cells (bytes_of data) (Z.of_nat (length data)))
    as (h' & k & c' & E & Hwf' & Hu'); [done|..].
  { unfold write_no_wrap, session_limit, DEFAULT_BUFSIZE in *. lia. }
  { by rewrite length_bytes_of. }
  { pose proof (write_cap0_range _ _ _ _ Hwf).
    assert (remaining b ≤ write_cap0 b) by (unfold write_cap0; case_decide; lia). lia. }
  exists h', (write_end b (Z.of_nat (length data)) k). split.
  - eapply bind_step; [exact E|done].
  - split.
    + exists c'. split; [done|]. rewrite Hu', Hu.
      rewrite take_ge by (rewrite length_bytes_of; lia). symmetry. apply fmap_app.
    + unfold write_end, write_room. case_match; cbn; lia.
    + intros Ht. unfold write_end, write_room. case_match; cbn; auto.
Qed.

Lemma sim_read h0 h b t q len : sim h0 h b t q → op_ok t q (Op_read len) = true →
  ∃ b', impl_step b (Op_read len) h = Done ((bytes_of (take len q), b'), h) ∧
        sim h0 h b' (touched_after t q (Op_read len)) (drop len q).
Proof.
  intros Hs _. pose proof (sim_remaining _ _ _ _ _ Hs) as Hr.
  destruct Hs as [(cells & Hwf & Hu) Hcap Hpos].
  destruct (read_ok h0 h b cells (replicate len None) (Z.of_nat len) Hwf) as (E & Hwf' & Hu').
  { rewrite length_replicate. lia. }
  set (r := Z.min (Z.of_nat len) (remaining b)) in *.
  assert (Z.to_nat r = Nat.min len (length q)) as Er by lia.
  exists (read_end b r). split.
  - eapply bind_step; [exact E|]. cbn. unfold mret, st_ret. do 3 f_equal.
    rewrite Hu. rewrite take_app_le
      by (rewrite length_take, length_bytes_of; lia).
    rewrite take_take, Nat.min_id, Er. unfold bytes_of. rewrite <-fmap_take. f_equal.
    destruct (decide (len ≤ length q)%nat).
    + by rewrite Nat.min_l.
    + rewrite Nat.min_r by lia. by rewrite !take_ge by lia.
  - split; [|done|].
    + exists cells. split; [done|]. rewrite Hu', Hu, Er. unfold bytes_of. rewrite <-fmap_drop.
      f_equal. destruct (decide (len ≤ length q)%nat).
      * by rewrite Nat.min_l.
      * rewrite Nat.min_r by lia. by rewrite !drop_ge by lia.
    + cbn [touched_after]. intros [Ht Hn]%orb_false_elim.
      apply bool_decide_eq_false in Hn. rewrite length_take in Hn.
      cbn. specialize (Hpos Ht). lia.
Qed.

Lemma sim_load h0 h b t q data : sim h0 h b t q → op_ok t q (Op_load data) = true →
  ∃ h' b', impl_step b (Op_load data) h = Done (([], b'), h') ∧
           sim h0 h' b' (touched_after t q (Op_load data)) (q ++ data).
Proof.
  intros Hs Hok. pose proof (sim_remaining _ _ _ _ _ Hs) as Hr. cbn [op_ok touched_after] in *.
  apply andb_prop in Hok as [Hok H2%bool_decide_eq_true]. rewrite Nat2Z.inj_add in H2.
  case_decide as Hd.
  { subst. rewrite app_nil_r. exists h, b. split; [|done]. done. }
  destruct Hs as [(cells & Hwf & Hu) Hcap Hpos].
  assert (0 < length data)%nat by (destruct data; [done|cbn; lia]).
  destruct (load_ok h0 h b cells (bytes_of data) (Z.of_nat (length data)))
    as (h' & k & c' & E & Hwf' & Hu'); [done|rewrite length_bytes_of; lia| |].
  { unfold session_limit in *. lia. }
  exists h', (load_end b (Z.of_nat (length data)) k (load_cap b (Z.of_nat (length data)))).
  split; [eapply bind_step; [exact E|done]|]. split; [| |done].
  - exists c'. split; [done|]. rewrite Hu', load_keeps_unread, Hu.
    + rewrite take_ge by (rewrite length_bytes_of; lia). symmetry. apply fmap_app.
    + apply orb_prop in Hok as [Ht%negb_true_iff|Hq%bool_decide_eq_true]; [auto|].
      right; left. by rewrite Hr, Hq.
  - unfold load_end, load_cap in *. cbn. lia.
Qed.

Lemma clean_ok h0 h b cells : wf h0 h b cells →
  ∃ h', clean b h = Done (mk_pmem_buffer None 0 0 0 0 0, h') ∧ owns h0 h' None [].
Proof.
  intros [Ho _ _ _ _ _ _]. destruct (free_owned _ _ _ _ Ho) as (h' & E & Ho').
  destruct b as [[k|] ? ? ? ? ?]; cbn in *.
  - exists h'. split; [|done]. eapply bind_step; [exact E|done].
  - exists h. split; [done|]. by injection E as ->.
Qed.

Lemma sim_clean h0 h b t q : sim h0 h b t q →
  ∃ h' b', impl_step b Op_clean h = Done (([], b'), h') ∧ sim h0 h' b' false [].
Proof.
  intros [(cells & Hwf & _) _ _]. destruct (clean_ok _ _ _ _ Hwf) as (h' & E & Ho).
  eexists h', _. split; [eapply bind_step; [exact E|done]|].
  split; [exists []; split; [split; cbn|]|..]; done.
Qed.

Lemma sim_step h0 h b t q op : sim h0 h b t q → op_ok t q op = true →
  ∃ h' b', impl_step b op h = Done ((bytes_of (spec_step q op).1, b'), h') ∧
           sim h0 h' b' (touched_after t q op) (spec_step q op).2.
Proof.
  intros Hs Hok. destruct op as [data|len|data|]; cbn [spec_step fst snd].
  - by apply sim_write.
  - exists h. by apply sim_read.
  - by apply sim_load.
  - by apply (sim_clean h0 h b t q).
Qed.

Lemma sim_run h0 ops : ∀ h b t q, sim h0 h b t q → session_ok t q ops = true →
  ∃ h' b' t' q', impl_run b ops h = Done ((bytes_of <$> spec_run q ops, b'), h') ∧
                 sim h0 h' b' t' q'.
Proof.
  induction ops as [|op ops IH]; intros h b t q Hs Hok.
  { by exists h, b, t, q. }
  cbn [session_ok] in Hok. apply andb_prop in Hok as [Hok1 Hok2].
  destruct (sim_step _ _ _ _ _ _ Hs Hok1) as (h1 & b1 & E1 & Hs1).
  destruct (IH _ _ _ _ Hs1 Hok2) as (h2 & b2 & t2 & q2 & E2 & Hs2).
  exists h2, b2, t2, q2. split; [|done]. cbn [impl_run spec_run].
  eapply bind_step; [exact E1|]. eapply bind_step; [exact E2|].
  by destruct (spec_step q op).
Qed.

Lemma construct_sim h size : fresh_from (blocks h) (mallocs h) →
  (∀ c, size = Some c → 0 < c ≤ session_limit) →
  ∃ h' b, construct size h = Done (b, h') ∧ sim (blocks h) h' b false [].
Proof.
  intros Hf Hc. assert (owns (blocks h) h None []) as Ho by (by split).
  destruct size as [c|].
  - specialize (Hc c eq_refl). unfold session_limit in Hc. cbn [construct].
    unfold PmemBuffer_sized. rewrite i32_id by (unfold_words; lia).
    destruct (alloc_buf_ok (blocks h) h c (mk_pmem_buffer None c 0 0 0 0)) as (h' & E & Ho');
      [lia|done|].
    eexists h', _. split; [exact E|]. split; [| |done].
    + eexists. split; [split; cbn; try exact Ho'; try done; try lia|done].
      rewrite length_replicate. lia.
    + unfold session_limit. cbn. lia.
  - eexists h, _. split; [done|]. split; [exists []; split; [split; cbn|]|..]; done.
Qed.

(** C4 (refinement): where [malloc] serves every request, from any heap, a session gives the client
    exactly the bytes the queue contract gives, without undefined behaviour, and its destructor leaves the
    heap as it was before the constructor: no leak, no double free, no other block touched.
    A session is any sequence of writes, reads, loads and cleans on a buffer whose initial capacity, if one is
    given, is from 1 to 2^30 ([session_limit]), where a write is of at most [DEFAULT_BUFSIZE] bytes and leaves at most
    [session_limit - DEFAULT_BUFSIZE] unread, a load leaves at most [session_limit] unread and comes
    only when nothing has been read since the last load or clean or when nothing is unread (the
    others replay bytes that were read: [load_in_place_replays]), and a read asks for less than 2^31. *)
Theorem session_refines_queue h size ops :
  fresh_from (blocks h) (mallocs h) →
  (∀ c, size = Some c → 0 < c ≤ session_limit) →
  session_ok false [] ops = true →
  ∃ h', session size ops h = Done (bytes_of <$> spec_run [] ops, h') ∧ blocks h' = blocks h.
Proof.
  intros Hf Hc Hok. destruct (construct_sim h size Hf Hc) as (h1 & b1 & E1 & Hs1).
  destruct (sim_run _ ops _ _ _ _ Hs1 Hok) as (h2 & b2 & t2 & q2 & E2 & Hs2).
  destruct Hs2 as [(cells & Hwf & _) _ _].
  destruct (free_owned _ _ _ _ (wf_owns _ _ _ _ Hwf)) as (h3 & E3 & Ho3).
  exists h3. split; [|exact (owns_blocks _ _ _ _ Ho3)].
  unfold session. eapply bind_step; [exact E1|]. eapply bind_step; [exact E2|].
  eapply bind_step; [exact E3|done].
Qed.

(** Property (bounds): when [pos + remaining + len] leaves the range of [int], the wrapped sum
    passes the capacity check of [write], no room is made, and the copy runs past the end of
    the block, whatever the capacity. *)
Theorem write_int_overflow h0 h b cells src len :
  wf h0 h b cells → 0 ≤ len < 2147483648 → 2147483648 ≤ pos b + remaining b + len →
  write b (Some src) len h = Undefined.
Proof.
  intros Hwf Hlen Hsum.
  destruct (write_first_alloc_ok h0 h b cells Hwf) as (h1 & k1 & c1 & E1 & Ho1 & Hl1 & He1 & _).
  pose proof (write_cap0_range _ _ _ _ Hwf) as Hc0. destruct Hwf as [_ _ _ _ Hp Hr _].
  unfold write. eapply bind_step; [exact E1|]. eapply bind_step.
  { unfold write_make_room. cbn [pos remaining set_buf_data set_capacity buf_data_capacity].
    rewrite decide_False; [reflexivity|].
    rewrite (i32_id (pos b + remaining b)) by (unfold_words; lia). word_lia. }
  cbn [buf_data set_buf_data]. eapply bind_undefined.
  apply (copy_in_overflow _ _ _ _ _ _ _ Ho1). unfold memcpy. rewrite decide_False; [done|].
  cbn [pos remaining set_buf_data set_capacity]. lia.
Qed.

(** Property (functional): a [write] that moves the bytes while flushed ones are still unread
    forgets how far the flush had come: the dirty region then starts at the first unread byte,
    so flushed bytes are flushed again and as many at the end are left out. *)
Theorem write_move_reflushes h0 h b cells src len :
  wf h0 h b cells → dirty_ok b → write_no_wrap b len → len ≤ Z.of_nat (length src) →
  remaining b + len ≤ write_cap b len → write_moves b len = true →
  ∃ h' b' cells', write b (Some src) len h = Done ((0, b'), h') ∧ wf h0 h' b' cells' ∧
    unflushed b' cells' =
      take (Z.to_nat (remaining_dirty b + len)) (unread b cells ++ take (Z.to_nat len) src).
Proof.
  intros Hwf [Hd1 Hd2 Hd3] Hnw Hsrc Hfit Hm.
  destruct (write_ok h0 h b cells src len Hwf Hnw Hsrc Hfit) as (h' & k & c' & E & Hwf' & Hu).
  exists h', (write_end b len k), c'. split_and!; [done|done|].
  destruct Hwf as [_ _ _ _ Hp Hr _]. destruct Hnw as (Hlen & Hsum & _).
  rewrite <-Hu. unfold unflushed, unread, write_end, write_room. rewrite Hm. cbn.
  rewrite i32_id by (unfold_words; lia). rewrite !drop_0, take_take. f_equal. lia.
Qed.

End session.
