(* ===== verification/PmemBufferTests.v ===== *)
(** * The repository's PmemBuffer tests, and concrete instances of the buffer theorems

    The sections of the test case "PmemBuffer operations"
    (native/src/010-TestCasePersistentMemoryPool.cpp) as programs over the model: a
    failing REQUIRE is a failing assertion. *)
From S2P Require Import Prelude CHeap PmemBuffer PmemBufferSpec PmemBufferLoad.
From S2P Require Import PmemBufferSession.

Section tests.
Context `{TotalAllocator}.

Definition LENGTH : nat := 50.
Definition REQUIRE {S} : bool → st S unit := st_assert.
(** [memset(data, 'a', LENGTH)] *)
Definition test_data : list byte := replicate LENGTH x61.

Definition test_write : st heap unit :=
  b ← PmemBuffer;
  '(_, b) ← write b (Some (bytes_of test_data)) (Z.of_nat LENGTH);
  _ ← REQUIRE (bool_decide (getRemaining b = Z.of_nat LENGTH));
  PmemBuffer_delete b.

Definition test_read (asked : nat) : st heap unit :=
  b ← PmemBuffer;
  '(_, b) ← write b (Some (bytes_of test_data)) (Z.of_nat LENGTH);
  '(size, _, b) ← read b (Some (bytes_of (replicate asked x00))) (Z.of_nat asked);
  _ ← REQUIRE (bool_decide (getRemaining b = 0));
  _ ← REQUIRE (bool_decide (size = Z.of_nat LENGTH));
  PmemBuffer_delete b.

(** "aaabbbcccdddeee", then the 'a's of the first [memset]. *)
Definition flush_data : list byte :=
  mjoin ((λ c, replicate 3 c) <$> [x61; x62; x63; x64; x65]) ++ replicate 35 x61.

Definition test_flush_twice : st heap unit :=
  b ← PmemBuffer;
  '(_, b) ← write b (Some (bytes_of flush_data)) 15;
  let '(firstTime, b) := getDataForFlush b (getRemaining b) in
  _ ← (match firstTime with
       | Some (p, off) =>
           (* firstTime[15] = 0, then strcmp on the 16 bytes *)
           _ ← copy_in p (off + 15) [Some x00] 1;
           cells ← cells_at p off;
           REQUIRE (bool_decide (take 16 cells = bytes_of (take 15 flush_data ++ [x00])))
       | None => mret tt
       end);
  let '(secondTime, b) := getDataForFlush b (getRemaining b) in
  _ ← REQUIRE (bool_decide (secondTime = None));
  PmemBuffer_delete b.

Lemma sim_initial h : fresh_from (blocks h) (mallocs h) →
  sim (blocks h) h (mk_pmem_buffer None 0 0 0 0 0) false [].
Proof. intros Hf. split; [exists []; split; [split; cbn|]|..]; done. Qed.

Lemma delete_wf h0 h b cells : wf h0 h b cells →
  ∃ h', PmemBuffer_delete b h = Done (tt, h') ∧ blocks h' = h0.
Proof.
  intros Hwf. destruct (free_owned _ _ _ _ (wf_owns _ _ _ _ Hwf)) as (h' & E & Ho).
  exists h'. split; [done|]. exact (owns_blocks _ _ _ _ Ho).
Qed.

Lemma st_assert_ok {S} (P : Prop) `{Decision P} (s : S) :
  P → REQUIRE (bool_decide P) s = Done (tt, s).
Proof. intros HP. unfold REQUIRE, st_assert. by rewrite bool_decide_true. Qed.

Lemma test_read_passes h n : fresh_from (blocks h) (mallocs h) → (LENGTH ≤ n)%nat →
  ∃ h', test_read n h = Done (tt, h') ∧ blocks h' = blocks h.
Proof.
  intros Hf Hn.
  destruct (write_initial h (bytes_of test_data) (Z.of_nat LENGTH)) as (h1 & k & c & E1 & Hwf & _);
    [done|by unfold DEFAULT_BUFSIZE, LENGTH|done|].
  destruct (read_ok _ _ _ _ (bytes_of (replicate n x00)) (Z.of_nat n) Hwf) as (E2 & Hwf2 & _).
  { unfold bytes_of. rewrite length_fmap, length_replicate. lia. }
  cbn [remaining] in E2, Hwf2. rewrite Z.min_r in E2, Hwf2 by lia.
  destruct (delete_wf _ _ _ _ Hwf2) as (h2 & E3 & Hb). exists h2. split; [|done].
  unfold test_read. eapply bind_step; [done|]. eapply bind_step; [exact E1|].
  eapply bind_step; [exact E2|].
  eapply bind_step; [by apply st_assert_ok|]. eapply bind_step; [by apply st_assert_ok|exact E3].
Qed.

(** Property (functional): the four sections of the repository's test case "PmemBuffer operations"
    run without undefined behaviour, every REQUIRE holds, and the heap is as before; for the
    reading sections this holds for every requested length from [LENGTH] on. *)
Theorem pmem_buffer_tests_pass h : fresh_from (blocks h) (mallocs h) →
  (∃ h', test_write h = Done (tt, h') ∧ blocks h' = blocks h) ∧
  (∀ n, (LENGTH ≤ n)%nat → ∃ h', test_read n h = Done (tt, h') ∧ blocks h' = blocks h) ∧
  (∃ h', test_flush_twice h = Done (tt, h') ∧ blocks h' = blocks h).
Proof.
  intros Hf. split_and!; [|by intros; apply test_read_passes|].
  - destruct (write_initial h (bytes_of test_data) (Z.of_nat LENGTH))
      as (h1 & k & c & E1 & Hwf & _); [done|by unfold DEFAULT_BUFSIZE, LENGTH|done|].
    destruct (delete_wf _ _ _ _ Hwf) as (h2 & E2 & Hb). exists h2. split; [|done].
    unfold test_write. eapply bind_step; [done|]. eapply bind_step; [exact E1|].
    eapply bind_step; [by apply st_assert_ok|exact E2].
  - destruct (write_initial h (bytes_of flush_data) 15) as (h1 & k & c & E1 & Hwf & Hc);
      [done|by unfold DEFAULT_BUFSIZE|done|].
    destruct (flush_ok _ _ _ _ 15 Hwf) as (E2 & _ & _ & _); [split; cbn; lia|cbn; lia|].
    pose proof Hwf as [Ho Hl Hci Ha _ _ _]. cbn in Ho, Hl, Ha.
    destruct (memcpy_exists c 15 [Some x00] 1) as [c' Em]; [cbn; lia|lia|cbn; unfold DEFAULT_BUFSIZE in Hl; lia|].
    destruct (copy_in_owned _ _ _ _ _ _ _ _ Ho Em) as (h2 & E3 & Ho2).
    destruct (free_owned _ _ _ _ Ho2) as (h3 & E4 & Ho3).
    exists h3. split; [|exact (owns_blocks _ _ _ _ Ho3)].
    unfold test_flush_twice. eapply bind_step; [done|]. eapply bind_step; [exact E1|].
    unfold getRemaining at 1. cbn [remaining]. rewrite E2. cbn [pos_dirty buf_data].
    eapply bind_step.
    { eapply bind_step; [exact E3|].
      eapply bind_step; [apply (cells_at_owned _ _ _ _ _ Ho2); lia|].
      apply st_assert_ok. apply memcpy_prefix in Em as [_ Em].
      change (take (Z.to_nat (15 + 1)) c') with (take 16 c') in Em.
      rewrite drop_0, Em. change (Z.to_nat 15) with 15%nat in *. rewrite Hc. done. }
    unfold getDataForFlush. cbn [remaining_dirty flush_end].
    rewrite decide_True by lia. eapply bind_step; [by apply st_assert_ok|exact E4].
Qed.

End tests.

(** ** Instances of the theorems

    An eight-byte block, of which two bytes were read and one more flushed. *)
Definition cells8 : list cell := bytes_of (ascii_bytes [97;98;99;100;101;102;103;104]).
Definition buf8 : pmem_buffer := mk_pmem_buffer (Some 0%nat) 8 2 4 3 3.
Definition heap8 : heap := mk_heap {[0%nat := cells8]} 1.
Definition two : list cell := bytes_of (ascii_bytes [120;121]).
Definition four : list cell := bytes_of (ascii_bytes [119;120;121;122]).

Lemma buf8_wf : wf ∅ heap8 buf8 cells8.
Proof.
  split; cbn; try lia. split; cbn; [done|by intros ? [= <-]|done|].
  intros j Hj. apply lookup_singleton_None. lia.
Qed.
Lemma buf8_dirty : dirty_ok buf8.
Proof. split; cbn; lia. Qed.

Lemma buf8_cap len : 0 ≤ len ≤ 4 → write_cap buf8 len = 8.
Proof.
  intros Hl. unfold write_cap. change (write_cap0 buf8) with 8.
  rewrite decide_False; [done|]. cbn. lia.
Qed.
Lemma buf8_no_wrap len : 0 ≤ len ≤ 4 → write_no_wrap buf8 len.
Proof. intros Hl. unfold write_no_wrap. rewrite buf8_cap by done. cbn. lia. Qed.

Lemma buf8_fits len : 0 ≤ len ≤ 4 → write_fits buf8 len.
Proof. intros Hl. unfold write_fits. rewrite buf8_cap by done. cbn. lia. Qed.

Ltac buf8_side := first [apply buf8_fits; lia | exact int_allocator_total | apply buf8_no_wrap; lia | rewrite buf8_cap by lia; cbn; lia | cbn; lia].

Lemma write_appends_or_overflows_witness : ∃ h' k cells',
  write buf8 (Some two) 2 heap8 = Done ((0, write_end buf8 2 k), h') ∧
  wf ∅ h' (write_end buf8 2 k) cells' ∧
  unread (write_end buf8 2 k) cells' = bytes_of (ascii_bytes [99;100;101;102;120;121]).
Proof.
  apply (write_appends_or_overflows ∅ heap8 buf8 cells8 two 2 buf8_wf); buf8_side.
Defined.

Lemma read_pops_prefix_witness :
  read buf8 (Some four) 3 heap8 =
    Done ((3, Some (bytes_of (ascii_bytes [99;100;101;122])), read_end buf8 3), heap8).
Proof. apply (read_pops_prefix ∅ heap8 buf8 cells8 four 3 buf8_wf). cbn. lia. Defined.

Lemma dirty_region_tracked_witness : ∃ h' b' cells',
  write buf8 (Some two) 2 heap8 = Done ((0, b'), h') ∧ wf ∅ h' b' cells' ∧ dirty_ok b' ∧
  unflushed b' cells' = bytes_of (ascii_bytes [100;101;102;120;121]).
Proof.
  apply (dirty_region_tracked ∅ heap8 buf8 cells8 buf8_wf buf8_dirty); try buf8_side.
  left. reflexivity.
Defined.

Lemma load_appends_witness : ∃ h' b' cells',
  load buf8 (Some (four ++ four)) 8 heap8 = Done ((8, b'), h') ∧ wf ∅ h' b' cells' ∧
  unread b' cells' = bytes_of (ascii_bytes [99;100;101;102]) ++ four ++ four ∧
  pos b' = 0 ∧ remaining_dirty b' = 0 ∧ dirty_ok b'.
Proof.
  destruct (load_appends ∅ heap8 buf8 cells8 (four ++ four) 8 buf8_wf) as [Hl _].
  destruct (proj1 (Hl ltac:(cbn; lia) ltac:(lia)) int_allocator_total ltac:(cbn; lia))
    as (h' & b' & c' & E & Hwf & Hu & Hp).
  exists h', b', c'. rewrite decide_True in Hu by (right; right; reflexivity).
  exact (conj E (conj Hwf (conj Hu Hp))).
Defined.

Lemma load_in_place_replays_witness : ∃ h' b' cells',
  load buf8 (Some two) 2 heap8 = Done ((2, b'), h') ∧ wf ∅ h' b' cells' ∧
  unread b' cells' = bytes_of (ascii_bytes [97;98;99;100;120;121]).
Proof. apply (load_in_place_replays ∅ heap8 buf8 cells8 two 2 buf8_wf); cbn; lia. Defined.

Lemma write_int_overflow_witness : write buf8 (Some two) 2147483646 heap8 = Undefined.
Proof. apply (write_int_overflow ∅ heap8 buf8 cells8 two _ buf8_wf); cbn; lia. Defined.

Lemma write_move_reflushes_witness : ∃ h' b' cells',
  write buf8 (Some four) 4 heap8 = Done ((0, b'), h') ∧ wf ∅ h' b' cells' ∧
  unflushed b' cells' = bytes_of (ascii_bytes [99;100;101;102;119;120;121]).
Proof.
  apply (write_move_reflushes ∅ heap8 buf8 cells8 four 4 buf8_wf buf8_dirty); try buf8_side.
  reflexivity.
Defined.

Lemma empty_fresh : fresh_from (blocks empty_heap) (mallocs empty_heap).
Proof. intros j _. apply lookup_empty. Qed.

Lemma pmem_buffer_tests_pass_witness :
  ∃ h', test_write empty_heap = Done (tt, h') ∧ blocks h' = ∅.
Proof. exact (proj1 (pmem_buffer_tests_pass empty_heap empty_fresh)). Defined.

Definition session_ops : list buf_op :=
  [Op_write (ascii_bytes [97;98;99]); Op_read 3; Op_load (ascii_bytes [100]); Op_read 5].

Lemma session_refines_queue_witness :
  spec_run [] session_ops = [[]; ascii_bytes [97;98;99]; []; ascii_bytes [100]] ∧
  ∃ h', session (Some 8) session_ops empty_heap =
          Done (bytes_of <$> spec_run [] session_ops, h') ∧ blocks h' = ∅.
Proof.
  split; [reflexivity|].
  apply (session_refines_queue empty_heap (Some 8) session_ops empty_fresh).
  - intros c [= <-]. unfold session_limit. lia.
  - vm_compute. reflexivity.
Defined.
