(* ===== verification/PMem.v ===== *)
(** * Persistent memory (native/src/memory_interface.h)

    The functions [TBPAlloc], [TBPLoad] and [TBPStore] are implemented outside the
    repository (libfs).  [PMem] names them; [PMemSpec] states what the comments of
    memory_interface.h document, and what pmemkv.h relies on: allocations are fresh and
    the memory is also mapped at the same addresses, so that a plain dereference of such an
    address reads what was stored.  [list_pmem] is an implementation that satisfies it. *)
From S2P Require Import Prelude.

(** ** Memory as a partial function from addresses to bytes *)
Definition memory : Type := Z → option byte.

(** [n] bytes from address [a], if all of them exist. *)
Definition read_range (f : memory) (a n : Z) : option (list byte) := mapM f (seqZ a n).

(** The memory after storing [bs] at [a]. *)
Definition write_range (f : memory) (a : Z) (bs : list byte) : memory := λ x,
  if decide (a ≤ x < a + Z.of_nat (length bs)) then bs !! Z.to_nat (x - a) else f x.

(** A little-endian [uint64_t] or pointer at [a]. *)
Definition word_at (f : memory) (a : Z) : option Z := le_decode <$> read_range f a 8.

Definition mapped_range (f : memory) (a n : Z) : Prop :=
  ∀ x, a ≤ x < a + n → is_Some (f x).

Lemma read_range_ext f g a n :
  (∀ x, a ≤ x < a + n → f x = g x) → read_range f a n = read_range g a n.
Proof.
  intros Hfg. unfold read_range.
  assert (∀ l : list Z, (∀ x, x ∈ l → f x = g x) → mapM f l = mapM g l) as Hm.
  { induction l as [|x l IH]; intros Hl; [done|]. cbn.
    rewrite Hl, IH by set_solver. done. }
  apply Hm. intros x Hx%elem_of_seqZ. auto.
Qed.

Lemma read_range_mapped f a n : is_Some (read_range f a n) ↔ mapped_range f a n.
Proof.
  unfold read_range, mapped_range. rewrite mapM_is_Some, Forall_forall.
  split; intros Hx x Hin; apply Hx.
  - apply list_elem_of_In, elem_of_seqZ. lia.
  - apply list_elem_of_In, elem_of_seqZ in Hin. lia.
Qed.

Lemma read_range_length f a n bs : 0 ≤ n →
  read_range f a n = Some bs → Z.of_nat (length bs) = n.
Proof.
  intros Hn Hr%length_mapM. rewrite length_seqZ in Hr. lia.
Qed.

Lemma read_write_same f a bs :
  read_range (write_range f a bs) a (Z.of_nat (length bs)) = Some bs.
Proof.
  unfold read_range. apply mapM_Some_2. apply Forall2_same_length_lookup_2.
  { rewrite length_seqZ. lia. }
  intros i x y Hx Hy. apply lookup_seqZ in Hx as [-> Hi]. unfold write_range.
  rewrite decide_True by lia. by replace (Z.to_nat (a + Z.of_nat i - a)) with i by lia.
Qed.

(** Memories are compared address by address. *)
#[export] Instance read_range_proper :
  Proper (pointwise_relation Z eq ==> eq ==> eq ==> eq) read_range.
Proof. intros f g Hfg a ? <- n ? <-. apply read_range_ext. intros x _. apply Hfg. Qed.
#[export] Instance word_at_proper : Proper (pointwise_relation Z eq ==> eq ==> eq) word_at.
Proof. intros f g Hfg a ? <-. unfold word_at. by rewrite Hfg. Qed.
#[export] Instance mapped_range_proper :
  Proper (pointwise_relation Z eq ==> eq ==> eq ==> iff) mapped_range.
Proof. intros f g Hfg a ? <- n ? <-. unfold mapped_range. by setoid_rewrite Hfg. Qed.

#[export] Instance write_range_proper :
  Proper (pointwise_relation Z eq ==> eq ==> eq ==> pointwise_relation Z eq) write_range.
Proof. intros f g Hfg a ? <- bs ? <- x. unfold write_range. by rewrite Hfg. Qed.

(** Two address ranges without a common address. *)
Definition disjoint_ranges (a n b m : Z) : Prop :=
  ∀ x, a ≤ x < a + n → b ≤ x < b + m → False.

Lemma read_write_disjoint f a bs b n :
  disjoint_ranges a (Z.of_nat (length bs)) b n →
  read_range (write_range f a bs) b n = read_range f b n.
Proof.
  intros Hd. apply read_range_ext. intros x Hx. unfold write_range.
  rewrite decide_False; [done|]. intros Hx'. by apply (Hd x).
Qed.

Lemma write_range_grows f a bs x : is_Some (f x) → is_Some (write_range f a bs x).
Proof.
  intros Hx. unfold write_range. case_decide; [|done]. apply lookup_lt_is_Some. lia.
Qed.

Lemma write_range_mapped f a bs b n :
  mapped_range f b n → mapped_range (write_range f a bs) b n.
Proof. intros Hm x Hx. by apply write_range_grows, Hm. Qed.

Lemma word_mapped f a : is_Some (word_at f a) ↔ mapped_range f a 8.
Proof. unfold word_at. by rewrite fmap_is_Some, read_range_mapped. Qed.

Lemma word_range f a v : word_at f a = Some v → is_u64 v.
Proof.
  unfold word_at. intros (bs & Hr & ->)%fmap_Some.
  pose proof (le_decode_range bs). apply read_range_length in Hr; [|lia].
  unfold is_u64, u64_modulus. replace (length bs) with 8%nat in * by lia.
  change (256 ^ Z.of_nat 8) with 18446744073709551616 in *. lia.
Qed.

Lemma word_write_same f a v : is_u64 v → word_at (write_range f a (le_encode 8 v)) a = Some v.
Proof.
  intros Hv. unfold word_at. pose proof (read_write_same f a (le_encode 8 v)) as Hr.
  rewrite length_le_encode in Hr. change (Z.of_nat 8) with 8 in Hr. rewrite Hr.
  cbn [fmap option_fmap option_map]. by rewrite le_decode_encode_u64.
Qed.

Lemma word_write_disjoint f a bs b :
  disjoint_ranges a (Z.of_nat (length bs)) b 8 →
  word_at (write_range f a bs) b = word_at f b.
Proof. intros Hd. unfold word_at. by rewrite read_write_disjoint. Qed.

Lemma word_ext f g a : (∀ x, a ≤ x < a + 8 → f x = g x) → word_at f a = word_at g a.
Proof. intros Hfg. unfold word_at. by rewrite (read_range_ext f g). Qed.

(** ** The interface *)
Class PMem := {
  pm : Type;
  (** the address, 0 on failure *)
  TBPAlloc : Z → pm → Z * pm;
  (** [None] is the result -1 *)
  TBPLoad : Z → Z → pm → option (list byte);
  TBPStore : Z → list byte → pm → option pm;
  (** a plain read of mapped memory; [None] is a fault *)
  mapped_read : Z → Z → pm → option (list byte)
}.

Class PMemSpec `{PMem} := {
  contents : pm → memory;
  null_unmapped : ∀ s, contents s 0 = None;
  load_spec : ∀ a n s, TBPLoad a n s = read_range (contents s) a n;
  mapped_spec : ∀ a n s, mapped_read a n s = read_range (contents s) a n;
  store_spec : ∀ a bs s,
    match TBPStore a bs s with
    | Some s' => mapped_range (contents s) a (Z.of_nat (length bs)) ∧
                 ∀ x, contents s' x = write_range (contents s) a bs x
    | None => ¬ mapped_range (contents s) a (Z.of_nat (length bs))
    end;
  alloc_spec : ∀ n s, 0 ≤ n →
    let '(a, s') := TBPAlloc n s in
    (a = 0 ∧ ∀ x, contents s' x = contents s x) ∨
    (0 < a ∧ a + n ≤ u64_modulus ∧ a < u64_modulus ∧
     (∀ x, a ≤ x < a + n → contents s x = None ∧ is_Some (contents s' x)) ∧
     (∀ x, ¬ (a ≤ x < a + n) → contents s' x = contents s x))
}.

(** ** An implementation: one growing segment at [segment_base], with a size limit *)
Definition segment_base : Z := 4096.

Definition list_contents (s : list byte) : memory := λ x,
  if decide (segment_base ≤ x) then s !! Z.to_nat (x - segment_base) else None.

#[export] Instance list_pmem (limit : Z) : PMem := {
  pm := list byte;
  TBPAlloc n s :=
    let a := segment_base + Z.of_nat (length s) in
    if decide (a + n ≤ limit ∧ limit < u64_modulus)
    then (a, s ++ replicate (Z.to_nat n) x00) else (0, s);
  TBPLoad a n s := read_range (list_contents s) a n;
  mapped_read a n s := read_range (list_contents s) a n;
  TBPStore a bs s :=
    if decide (bs = []) then Some s
    else if decide (segment_base ≤ a ∧
               a + Z.of_nat (length bs) ≤ segment_base + Z.of_nat (length s))
    then Some (take (Z.to_nat (a - segment_base)) s ++ bs
               ++ drop (Z.to_nat (a - segment_base) + length bs) s)
    else None
}.

Lemma list_contents_mapped s x :
  is_Some (list_contents s x) ↔ segment_base ≤ x < segment_base + Z.of_nat (length s).
Proof.
  unfold list_contents. case_decide.
  - rewrite lookup_lt_is_Some. lia.
  - split; [by intros []|lia].
Qed.

Lemma list_store_spec a bs s x :
  segment_base ≤ a → a + Z.of_nat (length bs) ≤ segment_base + Z.of_nat (length s) →
  list_contents (take (Z.to_nat (a - segment_base)) s ++ bs
                 ++ drop (Z.to_nat (a - segment_base) + length bs) s) x
    = write_range (list_contents s) a bs x.
Proof.
  intros Ha Hl. unfold list_contents, write_range. case_decide as Hx; case_decide as Hr.
  - rewrite lookup_app_r by (rewrite length_take; lia). rewrite length_take.
    rewrite lookup_app_l by lia. f_equal. lia.
  - destruct (decide (x < a)).
    + rewrite lookup_app_l by (rewrite length_take; lia). apply lookup_take_lt. lia.
    + rewrite lookup_app_r by (rewrite length_take; lia). rewrite length_take.
      rewrite lookup_app_r by lia. rewrite lookup_drop. f_equal. lia.
  - lia.
  - done.
Qed.

#[export] Instance list_pmem_spec limit : @PMemSpec (list_pmem limit).
Proof.
  refine {| contents := list_contents : @pm (list_pmem limit) → memory |}.
  - done.
  - done.
  - done.
  - intros a bs s. cbn. case_decide as He; [subst|case_decide as Hr].
    + split; [intros x ?; cbn in *; lia|]. intros x. unfold write_range.
      case_decide as Hx; [cbn in Hx; lia|done].
    + split; [|intros x; apply list_store_spec; lia].
      intros x Hx. apply list_contents_mapped. lia.
    + intros Hm. apply Hr. destruct bs as [|b bs]; [done|]. cbn [length] in *.
      pose proof (proj1 (list_contents_mapped s a) (Hm a ltac:(lia))).
      pose proof (proj1 (list_contents_mapped s _) (Hm (a + Z.of_nat (length bs)) ltac:(lia))).
      lia.
  - intros n s Hn. cbn. case_decide as Hl; [right|by left]. unfold segment_base in *.
    split_and!; try lia.
    + intros x Hx. split.
      * apply eq_None_not_Some. rewrite list_contents_mapped. unfold segment_base. lia.
      * apply list_contents_mapped. unfold segment_base.
        rewrite length_app, length_replicate. lia.
    + intros x Hx. unfold list_contents, segment_base. case_decide; [|done].
      destruct (decide (x < 4096 + Z.of_nat (length s))).
      * apply lookup_app_l. lia.
      * transitivity (@None byte); [|symmetry]; apply lookup_ge_None_2;
          rewrite ?length_app, ?length_replicate; lia.
Qed.
