(* ===== verification/Cuckoo.v ===== *)
(** * The concurrent hash map (libcuckoo's [cuckoohash_map<uint64_t, V>])

    A third-party container: [CuckooMap] names the members pmemkv.h calls, and
    [CuckooSpec] states their documented behaviour against a finite map.  The order in
    which a locked table is traversed is left open. *)
From S2P Require Import Prelude.

Class CuckooMap (V : Type) := {
  cmap : Type;
  cempty : cmap;
  contains : Z → cmap → bool;
  (** the value copied out, if the key is present *)
  find : Z → cmap → option V;
  (** does nothing if the key is present *)
  insert_new : Z → V → cmap → cmap;
  (** the traversal of [lock_table()] *)
  table : cmap → list (Z * V);
  clear : cmap → cmap
}.
Arguments cmap {V} _.

Class CuckooSpec {V} (C : CuckooMap V) := {
  view : cmap C → gmap Z V;
  view_empty : view cempty = ∅;
  contains_spec : ∀ k m, contains k m = bool_decide (is_Some (view m !! k));
  find_spec : ∀ k m, find k m = view m !! k;
  insert_spec : ∀ k v m,
    view (insert_new k v m) = if decide (is_Some (view m !! k)) then view m else <[k := v]> (view m);
  table_spec : ∀ m, table m ≡ₚ map_to_list (view m);
  clear_spec : ∀ m, view (clear m) = ∅
}.

#[export] Instance gmap_cuckoo V : CuckooMap V := {
  cmap := gmap Z V;
  cempty := ∅;
  contains k m := bool_decide (is_Some (m !! k));
  find k m := m !! k;
  insert_new k v m := if decide (is_Some (m !! k)) then m else <[k := v]> m;
  table m := map_to_list m;
  clear _ := ∅
}.

#[export] Instance gmap_cuckoo_spec V : CuckooSpec (gmap_cuckoo V).
Proof. by refine {| view := (λ m, m) : cmap (gmap_cuckoo V) → gmap Z V |}. Qed.
