(* ===== verification/PmemKV.v ===== *)
(** * pmemkv (native/src/pmemkv.h): an append-only block store in persistent memory

    Persistent memory holds the list of all blocks behind a root record [base]; DRAM
    holds, per key hash, the list of the blocks of that key.  Both are modelled as linked
    structures in their memories, with the code's field offsets.  Pointers into
    persistent memory are addresses ([Z], null is 0); pointers to the [malloc]ed index
    nodes are node numbers ([option nat]).  Structure layouts are those of x86-64 Linux
    (a [std::mutex] takes 40 bytes). *)
From S2P Require Import Prelude XXHash CHeap PMem Cuckoo.

(** [struct block_hdr] and [struct block_entry]: next, key, size, data. *)
Definition off_next : Z := 0.
Definition off_key : Z := 8.
Definition off_size : Z := 16.
Definition off_data : Z := 24.
Definition sizeof_block_entry : Z := 32.

(** [struct base]: head, tail, rwlock, bytes_written. *)
Definition off_head : Z := 0.
Definition off_tail : Z := 8.
Definition off_bytes_written : Z := 56.
Definition sizeof_base : Z := 64.

Record block_meta := mk_block_meta { bm_next : option nat; bm_off : Z; bm_size : Z }.
Definition sizeof_block_meta : Z := 24.

Record block_meta_list := mk_block_meta_list {
  bml_head : option nat;
  bml_tail : option nat;
  bml_total_size : Z;
  bml_length : Z
}.
Definition sizeof_block_meta_list : Z := 32.

(** The caller's [struct memory_block] (what its data region holds, and [size]) and
    [struct memory_meta] (the words of the array [meta], if it is not null, and [length]
    once set). *)
Record memory_block := mk_memory_block { mb_data : list cell; mb_size : Z }.
Record memory_meta := mk_memory_meta { mm_meta : option (list (option Z)); mm_length : option Z }.

Section pmemkv.
Context `{PMem, C : CuckooMap nat, Allocator}.

(** The members of the class, the two memories its methods use, and the number of [malloc]
    calls so far.  A live node no assignment has reached is [Some None]. *)
Record pmemkv := mk_pmemkv {
  bp : Z;
  index_map : cmap C;
  bytes_allocated : Z;
  pmem : pm;
  metas : gmap nat (option block_meta);
  lists : gmap nat (option block_meta_list);
  mallocs : nat
}.

Definition set_bp x s := mk_pmemkv x (index_map s) (bytes_allocated s) (pmem s)
  (metas s) (lists s) (mallocs s).
Definition set_index_map x s := mk_pmemkv (bp s) x (bytes_allocated s) (pmem s)
  (metas s) (lists s) (mallocs s).
Definition set_bytes_allocated x s := mk_pmemkv (bp s) (index_map s) x (pmem s)
  (metas s) (lists s) (mallocs s).
Definition set_pmem x s := mk_pmemkv (bp s) (index_map s) (bytes_allocated s) x
  (metas s) (lists s) (mallocs s).
Definition set_metas x s := mk_pmemkv (bp s) (index_map s) (bytes_allocated s) (pmem s)
  x (lists s) (mallocs s).
Definition set_lists x s := mk_pmemkv (bp s) (index_map s) (bytes_allocated s) (pmem s)
  (metas s) x (mallocs s).
Definition set_mallocs x s := mk_pmemkv (bp s) (index_map s) (bytes_allocated s) (pmem s)
  (metas s) (lists s) x.

Abbreviation kv_m := (st pmemkv).

(** ** The calls into libfs *)
Definition alloc (n : Z) : kv_m Z := λ s,
  let '(a, p) := TBPAlloc n (pmem s) in Done (a, set_pmem p s).

(** The result code of [TBPStore] is never looked at. *)
Definition store (addr : Z) (bs : list byte) : kv_m unit := λ s,
  match TBPStore addr bs (pmem s) with
  | Some p => Done (tt, set_pmem p s)
  | None => Done (tt, s)
  end.

(** A dereference of an address of persistent memory. *)
Definition deref_range (addr n : Z) : kv_m (list byte) := λ s,
  match mapped_read addr n (pmem s) with
  | Some bs => Done (bs, s)
  | None => Undefined
  end.
Definition deref_word (addr : Z) : kv_m Z :=
  bs ← deref_range addr 8; mret (le_decode bs).

Definition TBPSet (addr value : Z) : kv_m unit := store addr (le_encode 8 value).

(** If the load fails, [ans] is indeterminate. *)
Definition TBPGet (addr : Z) : kv_m Z := λ s,
  match TBPLoad addr 8 (pmem s) with
  | Some bs => Done (le_decode bs, s)
  | None => Undefined
  end.

Definition TBPAdd (addr value : Z) : kv_m unit :=
  tmp ← TBPGet addr; TBPSet addr (u64 (tmp + value)).
Definition TBPSub (addr value : Z) : kv_m unit :=
  tmp ← TBPGet addr; TBPSet addr (u64 (tmp - value)).

(** ** The index nodes *)
Definition malloc_meta : kv_m (option nat) := λ s,
  let k := mallocs s in
  if can_alloc k sizeof_block_meta
  then Done (Some k, set_mallocs (S k) (set_metas (<[k := None]> (metas s)) s))
  else Done (None, set_mallocs (S k) s).

Definition malloc_list : kv_m (option nat) := λ s,
  let k := mallocs s in
  if can_alloc k sizeof_block_meta_list
  then Done (Some k, set_mallocs (S k) (set_lists (<[k := None]> (lists s)) s))
  else Done (None, set_mallocs (S k) s).

Definition get_node {A} (nodes : pmemkv → gmap nat (option A)) (p : option nat) : kv_m A := λ s,
  match p ≫= λ k, nodes s !! k with
  | Some (Some m) => Done (m, s)
  | _ => Undefined
  end.

Definition put_meta (p : option nat) (m : block_meta) : kv_m unit := λ s,
  match p with
  | Some k => if decide (is_Some (metas s !! k))
              then Done (tt, set_metas (<[k := Some m]> (metas s)) s) else Undefined
  | None => Undefined
  end.
Definition put_list (p : option nat) (l : block_meta_list) : kv_m unit := λ s,
  match p with
  | Some k => if decide (is_Some (lists s !! k))
              then Done (tt, set_lists (<[k := Some l]> (lists s)) s) else Undefined
  | None => Undefined
  end.

Definition free_meta_node (p : option nat) : kv_m unit := λ s,
  match p with
  | None => Done (tt, s)
  | Some k => if decide (is_Some (metas s !! k))
              then Done (tt, set_metas (delete k (metas s)) s) else Undefined
  end.
Definition free_list_node (p : option nat) : kv_m unit := λ s,
  match p with
  | None => Done (tt, s)
  | Some k => if decide (is_Some (lists s !! k))
              then Done (tt, set_lists (delete k (lists s)) s) else Undefined
  end.

Definition account (n : Z) : kv_m unit :=
  st_modify (λ s, set_bytes_allocated (u64 (bytes_allocated s + n)) s).

(** ** update_meta *)

(** Lines 357-359 and 382-384: the new node describes the entry [bep]. *)
Definition fill_meta (bm : option nat) (bep : Z) : kv_m Z :=
  off ← deref_word (bep + off_data);
  size ← deref_word (bep + off_size);
  _ ← put_meta bm (mk_block_meta None off size);
  mret size.

Definition update_meta_first (bep : Z) : kv_m Z :=
  bm ← malloc_meta;
  if decide (bm = None) then mret (-1) else
  _ ← account sizeof_block_meta;
  size ← fill_meta bm bep;
  bml ← malloc_list;
  if decide (bml = None) then mret (-1) else
  _ ← account sizeof_block_meta_list;
  _ ← put_list bml (mk_block_meta_list bm bm (u64 (0 + size)) (0 + 1));
  key ← deref_word (bep + off_key);
  _ ← st_modify (λ s, set_index_map
        (match bml with Some k => insert_new key k (index_map s) | None => index_map s end) s);
  mret 0.

Definition update_meta_append (bep : Z) : kv_m Z :=
  key ← deref_word (bep + off_key);
  s ← st_get;
  let bml := find key (index_map s) in
  bm ← malloc_meta;
  if decide (bm = None) then mret (-1) else
  _ ← account sizeof_block_meta;
  size ← fill_meta bm bep;
  l ← get_node lists bml;
  t ← get_node metas (bml_tail l);
  _ ← put_meta (bml_tail l) (mk_block_meta bm (bm_off t) (bm_size t));
  _ ← put_list bml (mk_block_meta_list (bml_head l) bm
        (u64 (bml_total_size l + size)) (u64 (bml_length l + 1)));
  mret 0.

Definition update_meta (bep : Z) : kv_m Z :=
  key ← deref_word (bep + off_key);
  s ← st_get;
  if contains key (index_map s) then update_meta_append bep else update_meta_first bep.

(** ** put *)
Definition hash_key (key : list byte) : Z :=
  xxhash_string W64 (mk_buffer 0 key) 0 unspecified.

(** Lines 146-151: a new entry, not linked yet.  Neither allocation is checked: without the
    entry, line 148 reads a member through null; without the data, its store fails
    unnoticed. *)
Definition put_entry (key_i : Z) (buf : list byte) (count : Z) : kv_m Z :=
  bep ← alloc sizeof_block_entry;
  d ← alloc count;
  _ ← TBPSet (bep + off_data) d;
  data ← (if decide (bep = 0) then st_undefined else deref_word (bep + off_data));
  _ ← (if decide (count ≤ Z.of_nat (length buf))
       then store data (take (Z.to_nat count) buf) else st_undefined);
  _ ← TBPSet (bep + off_next) 0;
  _ ← TBPSet (bep + off_key) key_i;
  _ ← TBPSet (bep + off_size) count;
  mret bep.

(** Lines 154-162: the entry becomes the last of the list. *)
Definition put_link (bep count : Z) : kv_m unit :=
  s ← st_get;
  tail ← TBPGet (bp s + off_tail);
  _ ← (if decide (tail = 0) then TBPSet (bp s + off_head) bep
       else
         last ← deref_word (bp s + off_tail);
         TBPSet (last + off_next) bep);
  _ ← TBPSet (bp s + off_tail) bep;
  TBPAdd (bp s + off_bytes_written) count.

Definition put (key : list byte) (buf : list byte) (count : Z) : kv_m Z :=
  let key_i := hash_key key in
  bep ← put_entry key_i buf count;
  _ ← put_link bep count;
  r ← update_meta bep;
  if decide (r ≠ 0) then mret (-1) else mret 0.

(** ** Lookups *)

(** Lines 186-191, with fuel: more than the live nodes.  The [assert] of line 189 is there. *)
Fixpoint get_loop (fuel : nat) (bm : option nat) (read_offset : Z) (mb : memory_block)
    : kv_m memory_block :=
  match bm, fuel with
  | None, _ => mret mb
  | Some _, O => st_undefined
  | Some _, S fuel =>
      m ← get_node metas bm;
      if decide (u64 (read_offset + bm_size m) ≤ mb_size mb) then
        bs ← deref_range (bm_off m) (bm_size m);
        data ← st_lift (memcpy (mb_data mb) read_offset (Some <$> bs) (bm_size m));
        let mb := mk_memory_block data (mb_size mb) in
        let read_offset := u64 (read_offset + bm_size m) in
        _ ← st_assert (bool_decide (read_offset ≤ mb_size mb));
        get_loop fuel (bm_next m) read_offset mb
      else mret mb
  end.

Definition get (key : list byte) (mb : memory_block) : kv_m (Z * memory_block) :=
  let key_i := hash_key key in
  s ← st_get;
  if negb (contains key_i (index_map s)) then mret (-1, mb) else
  let bml := find key_i (index_map s) in
  _ ← st_assert (bool_decide (bml ≠ None));
  l ← get_node lists bml;
  mb ← get_loop (S (size (metas s))) (bml_head l) 0 mb;
  mret (0, mb).

Definition get_value_size (key : list byte) : kv_m (Z * Z) :=
  let key_i := hash_key key in
  s ← st_get;
  if negb (contains key_i (index_map s)) then mret (-1, 0) else
  l ← get_node lists (find key_i (index_map s));
  mret (0, bml_total_size l).

Definition get_meta_size (key : list byte) : kv_m (Z * Z) :=
  let key_i := hash_key key in
  s ← st_get;
  if negb (contains key_i (index_map s)) then mret (-1, 0) else
  l ← get_node lists (find key_i (index_map s));
  mret (0, bml_length l).

(** [mm->meta[index] = value]: writing outside the array is undefined. *)
Definition set_word (meta : option (list (option Z))) (index : nat) (value : Z)
    : outcome (option (list (option Z))) :=
  meta ← or_undefined meta;
  if decide (index < length meta)%nat then Done (Some (<[index := Some value]> meta))
  else Undefined.

Fixpoint get_meta_loop (fuel : nat) (next : option nat) (index : nat)
    (meta : option (list (option Z))) : kv_m (nat * option (list (option Z))) :=
  match next, fuel with
  | None, _ => mret (index, meta)
  | Some _, O => st_undefined
  | Some _, S fuel =>
      _ ← st_assert (bool_decide (meta ≠ None));
      m ← get_node metas next;
      meta ← st_lift (set_word meta index (bm_off m));
      meta ← st_lift (set_word meta (S index) (bm_size m));
      get_meta_loop fuel (bm_next m) (S (S index)) meta
  end.

(** A missing key only changes the local copy of the pointer [mm]. *)
Definition get_meta (key : list byte) (mm : memory_meta) : kv_m (Z * memory_meta) :=
  let key_i := hash_key key in
  s ← st_get;
  if negb (contains key_i (index_map s)) then mret (0, mm) else
  l ← get_node lists (find key_i (index_map s));
  '(index, meta) ← get_meta_loop (S (size (metas s))) (bml_head l) 0 (mm_meta mm);
  mret (0, mk_memory_meta meta (Some (Z.of_nat index))).

(** ** Walks over the persistent list

    [fuel] bounds the number of entries visited. *)

(** What [std::cout << tmp] prints of a region: the bytes before the first zero byte.
    Without a zero byte the output reads past the region. *)
Fixpoint c_string (bs : list byte) : option (list byte) :=
  match bs with
  | [] => None
  | b :: bs => if decide (b = x00) then Some [] else cons b <$> c_string bs
  end.

(** [std::malloc(next_bep->hdr.size)]; a refusal makes the next line write through null. *)
Definition malloc_tmp (n : Z) : kv_m unit := λ s,
  if can_alloc (mallocs s) n then Done (tt, set_mallocs (S (mallocs s)) s) else Undefined.

Fixpoint dump_loop (fuel : nat) (next_bep : Z) : kv_m (list (Z * list byte)) :=
  if decide (next_bep = 0) then mret [] else
  match fuel with
  | O => st_undefined
  | S fuel =>
      data_addr ← TBPGet (next_bep + off_data);
      data_size ← TBPGet (next_bep + off_size);
      data_key ← TBPGet (next_bep + off_key);
      data_next ← TBPGet (next_bep + off_next);
      hdr_size ← deref_word (next_bep + off_size);
      _ ← malloc_tmp hdr_size;
      tmp ← (λ s, match TBPLoad data_addr data_size (pmem s) with
                  | Some bs => Done (bs, s)
                  | None => Undefined
                  end);
      tmp ← st_lift (if decide (data_size ≤ hdr_size) then Done tmp else Undefined);
      line ← st_lift (or_undefined (c_string tmp));
      lines ← dump_loop fuel data_next;
      mret ((data_key, line) :: lines)
  end.

Definition dump_all (fuel : nat) : kv_m (Z * list (Z * list byte)) :=
  s ← st_get;
  next_bep ← TBPGet (bp s + off_head);
  lines ← dump_loop fuel next_bep;
  mret (0, lines).

(** The lines [dump_meta] prints for one list of the index. *)
Fixpoint dump_metas (fuel : nat) (ptr : option nat) : kv_m (list (Z * Z)) :=
  match ptr, fuel with
  | None, _ => mret []
  | Some _, O => st_undefined
  | Some _, S fuel =>
      m ← get_node metas ptr;
      lines ← dump_metas fuel (bm_next m);
      mret ((bm_off m, bm_size m) :: lines)
  end.

Fixpoint dump_table (it : list (Z * nat)) : kv_m (list (Z * Z)) :=
  match it with
  | [] => mret []
  | (_, bml) :: it =>
      l ← get_node lists (Some bml);
      s ← st_get;
      lines ← dump_metas (S (size (metas s))) (bml_head l);
      rest ← dump_table it;
      mret (lines ++ rest)
  end.

(** The printed total, then the printed (off, size) lines, and the result 0. *)
Definition dump_meta : kv_m (Z * Z * list (Z * Z)) :=
  s ← st_get;
  written ← TBPGet (bp s + off_bytes_written);
  lines ← dump_table (table (index_map s));
  mret (0, written, lines).

(** ** Releasing the index *)
Fixpoint free_metas (fuel : nat) (cur : option nat) : kv_m unit :=
  match cur, fuel with
  | None, _ => mret tt
  | Some _, O => st_undefined
  | Some _, S fuel =>
      m ← get_node metas cur;
      _ ← put_meta cur (mk_block_meta None (bm_off m) (bm_size m));
      _ ← free_meta_node cur;
      _ ← account (- sizeof_block_meta);
      free_metas fuel (bm_next m)
  end.

Definition free_bml (bml : nat) : kv_m unit :=
  l ← get_node lists (Some bml);
  s ← st_get;
  _ ← free_metas (S (size (metas s))) (bml_head l);
  _ ← free_list_node (Some bml);
  account (- sizeof_block_meta_list).

Fixpoint free_table (it : list (Z * nat)) : kv_m unit :=
  match it with
  | [] => mret tt
  | (_, bml) :: it => _ ← free_bml bml; free_table it
  end.

Definition free_meta : kv_m Z :=
  s ← st_get;
  _ ← free_table (table (index_map s));
  _ ← st_modify (λ s, set_index_map (clear (index_map s)) s);
  s ← st_get;
  _ ← st_assert (bool_decide (bytes_allocated s = 0));
  mret 0.

(** The entries themselves are not released: the two calls of [TBPFree] are commented out. *)
Fixpoint free_entries (fuel : nat) (bp_ next_bep : Z) : kv_m unit :=
  if decide (next_bep = 0) then mret tt else
  match fuel with
  | O => st_undefined
  | S fuel =>
      let pre_bep := next_bep in
      data_size ← TBPGet (pre_bep + off_size);
      next_bep ← TBPGet (pre_bep + off_next);
      _ ← TBPSub (bp_ + off_bytes_written) data_size;
      free_entries fuel bp_ next_bep
  end.

Definition free_all (fuel : nat) : kv_m Z :=
  s ← st_get;
  next_bep ← TBPGet (bp s + off_head);
  _ ← free_entries fuel (bp s) next_bep;
  _ ← TBPSet (bp s + off_head) 0;
  _ ← TBPSet (bp s + off_tail) 0;
  w ← TBPGet (bp s + off_bytes_written);
  _ ← st_assert (bool_decide (w = 0));
  r ← free_meta;
  if decide (r ≠ 0) then mret (-1) else mret 0.

Definition get_root : kv_m Z := s ← st_get; mret (bp s).

(** ** Construction and destruction *)
Definition create : kv_m unit :=
  b ← alloc sizeof_base;
  _ ← st_modify (set_bp b);
  _ ← TBPSet (b + off_head) 0;
  _ ← TBPSet (b + off_tail) 0;
  TBPSet (b + off_bytes_written) 0.

(** The constructor of a new object in a process whose persistent memory is [p]. *)
Definition construct (p : pm) : outcome pmemkv :=
  '(_, s) ← create (mk_pmemkv 0 cempty 0 p ∅ ∅ 0); mret s.

(** The destructor calls [close], which calls [free_meta]. *)
Definition close : kv_m unit := _ ← free_meta; mret tt.

End pmemkv.
Arguments pmemkv {_} _.
