(* ===== verification/PmemKVList.v ===== *)
(** * The persistent block list of pmemkv: shape, frame and append

    What the persistent memory of an open store looks like as a function of the list of
    entries put so far ([pm_inv]), independently of the code that walks it. *)
From S2P Require Import Prelude PMem PmemKV.

(** A block as it was put: the entry's address, its key hash, its data's address and
    contents. *)
Record entry := mk_entry { e_addr : Z; e_key : Z; e_data : Z; e_bytes : list byte }.
Definition esize (e : entry) : Z := Z.of_nat (length (e_bytes e)).

(** The bytes of memory its data takes: none if [put] was refused memory for the data and
    left a null address in the entry.  A block is stored if no byte of it was lost so. *)
Definition dsize (e : entry) : Z := if decide (e_data e = 0) then 0 else esize e.
Definition stored (e : entry) : Prop := e_data e ≠ 0 ∨ e_bytes e = [].
#[export] Instance stored_dec e : Decision (stored e).
Proof. unfold stored. apply _. Defined.

Definition total (es : list entry) : Z := foldr (λ e n, esize e + n) 0 es.

Definition addr_at (es : list entry) (i : nat) : Z := from_option e_addr 0 (es !! i).
Definition last_addr (es : list entry) : Z := from_option e_addr 0 (es !! (length es - 1)%nat).

Lemma total_app es1 es2 : total (es1 ++ es2) = total es1 + total es2.
Proof.
  unfold total. induction es1 as [|e es1 IH]; cbn [foldr app]; [lia|]. rewrite IH. lia.
Qed.

Lemma esize_nonneg e : 0 ≤ esize e.
Proof. unfold esize. lia. Qed.

Lemma dsize_some e : e_data e ≠ 0 → dsize e = esize e.
Proof. intros Hd. unfold dsize. by rewrite decide_False. Qed.
Lemma dsize_null e : e_data e = 0 → dsize e = 0.
Proof. intros Hd. unfold dsize. by rewrite decide_True. Qed.
Lemma disjoint_null a n b : disjoint_ranges a n b 0.
Proof. intros x ? ?. lia. Qed.

Lemma esize_take a k d (buf : list byte) count : 0 ≤ count ≤ Z.of_nat (length buf) →
  esize (mk_entry a k d (take (Z.to_nat count) buf)) = count.
Proof. intros Hc. unfold esize. cbn. rewrite length_take. lia. Qed.

(** The fields of one entry, its link apart, and the bytes of its data if it has any. *)
Record entry_ok (f : memory) (e : entry) : Prop := {
  eo_addr : 0 < e_addr e;
  eo_mapped : mapped_range f (e_addr e) sizeof_block_entry;
  eo_key : word_at f (e_addr e + off_key) = Some (e_key e);
  eo_size : word_at f (e_addr e + off_size) = Some (esize e);
  eo_data : word_at f (e_addr e + off_data) = Some (e_data e);
  eo_bytes : e_data e ≠ 0 → read_range f (e_data e) (esize e) = Some (e_bytes e)
}.

(** No two of the root record, the entries and their data overlap. *)
Definition apart (e1 e2 : entry) : Prop :=
  disjoint_ranges (e_addr e1) sizeof_block_entry (e_addr e2) sizeof_block_entry ∧
  disjoint_ranges (e_addr e1) sizeof_block_entry (e_data e2) (dsize e2) ∧
  disjoint_ranges (e_data e1) (dsize e1) (e_addr e2) sizeof_block_entry ∧
  disjoint_ranges (e_data e1) (dsize e1) (e_data e2) (dsize e2).

Definition alone (b : Z) (e : entry) : Prop :=
  disjoint_ranges b sizeof_base (e_addr e) sizeof_block_entry ∧
  disjoint_ranges b sizeof_base (e_data e) (dsize e) ∧
  disjoint_ranges (e_addr e) sizeof_block_entry (e_data e) (dsize e).

Record pm_inv (f : memory) (b : Z) (es : list entry) : Prop := {
  pi_base : 0 < b;
  pi_mapped : mapped_range f b sizeof_base;
  pi_head : word_at f (b + off_head) = Some (addr_at es 0);
  pi_tail : word_at f (b + off_tail) = Some (last_addr es);
  pi_written : word_at f (b + off_bytes_written) = Some (u64 (total es));
  pi_entries : ∀ i e, es !! i = Some e → entry_ok f e;
  pi_links : ∀ i e, es !! i = Some e → word_at f (e_addr e + off_next) = Some (addr_at es (S i));
  pi_alone : ∀ i e, es !! i = Some e → alone b e;
  pi_apart : ∀ i j e1 e2, es !! i = Some e1 → es !! j = Some e2 → i ≠ j → apart e1 e2
}.

Ltac unfold_layout :=
  unfold off_next, off_key, off_size, off_data, sizeof_block_entry,
    off_head, off_tail, off_bytes_written, sizeof_base in *.

Lemma apart_sym e1 e2 : apart e1 e2 → apart e2 e1.
Proof. intros (H1 & H2 & H3 & H4). split_and!; intros x ? ?; eauto. Qed.

(** What a stored block reads as. *)
Lemma stored_bytes f e : entry_ok f e → stored e →
  read_range f (e_data e) (esize e) = Some (e_bytes e).
Proof.
  intros He [Hd|Hb]; [by apply He|]. unfold esize. by rewrite Hb.
Qed.

(** A block whose data is lost is as long as a nonempty region at the null address. *)
Lemma not_stored e : ¬ stored e → e_data e = 0 ∧ 0 < esize e.
Proof.
  unfold stored, esize. intros Hs. split; [destruct (decide (e_data e = 0)); tauto|].
  destruct (e_bytes e); [|cbn; lia]. destruct Hs. by right.
Qed.

Lemma entry_ok_frame f g e :
  entry_ok f e → (∀ x, is_Some (f x) → is_Some (g x)) →
  (∀ x, e_addr e + 8 ≤ x < e_addr e + 32 ∨ e_data e ≤ x < e_data e + dsize e → g x = f x) →
  entry_ok g e.
Proof.
  intros [] Hm Hg. split; try done.
  - intros x Hx. auto.
  - rewrite (word_ext g f); [done|]. intros x Hx. apply Hg. unfold_layout. lia.
  - rewrite (word_ext g f); [done|]. intros x Hx. apply Hg. unfold_layout. lia.
  - rewrite (word_ext g f); [done|]. intros x Hx. apply Hg. unfold_layout. lia.
  - intros Hd. rewrite (read_range_ext g f); [by auto|]. intros x Hx. apply Hg. right.
    by rewrite dsize_some.
Qed.

(** Memory that only grew still holds the same list. *)
Lemma pm_inv_extend f g b es :
  pm_inv f b es → (∀ x, is_Some (f x) → g x = f x) → pm_inv g b es.
Proof.
  intros [] Hg.
  assert (∀ a v, word_at f a = Some v → word_at g a = Some v) as Hw.
  { intros a v Hv. rewrite <-Hv. apply word_ext. intros x Hx. apply Hg.
    assert (is_Some (word_at f a)) as Hs by eauto. apply word_mapped in Hs. auto. }
  split; eauto.
  - intros x Hx. rewrite Hg; auto.
  - intros i e He. destruct (pi_entries0 i e He). split; eauto.
    + intros x Hx. rewrite Hg; auto.
    + intros Hd. rewrite (read_range_ext g f); [by auto|]. intros x Hx. apply Hg.
      assert (is_Some (read_range f (e_data e) (esize e))) as Hs by eauto.
      apply read_range_mapped in Hs. auto.
Qed.

(** ** Linking a new entry *)

(** Where [put] stores the address of the new entry: the root's head or the link of the
    last entry. *)
Definition link_target (b : Z) (es : list entry) : Z :=
  match es !! (length es - 1)%nat with Some e => e_addr e + off_next | None => b + off_head end.

Definition link_mem (f : memory) (b : Z) (es : list entry) (a written : Z) : memory :=
  write_range (write_range (write_range f (link_target b es) (le_encode 8 a))
                 (b + off_tail) (le_encode 8 a))
    (b + off_bytes_written) (le_encode 8 written).

(** The target is a link of the list or the head, and lies apart from everything else. *)
Lemma link_target_range b es x : link_target b es ≤ x < link_target b es + 8 →
  (es = [] ∧ b ≤ x < b + 8) ∨
  (∃ e', es !! (length es - 1)%nat = Some e' ∧ link_target b es = e_addr e' + off_next ∧
         e_addr e' ≤ x < e_addr e' + 8).
Proof.
  unfold link_target. intros Hx.
  destruct (es !! (length es - 1)%nat) as [e'|] eqn:El.
  - right. exists e'. unfold_layout. split_and!; [done|done|lia|lia].
  - left. destruct es; [unfold_layout; split; [done|lia]|].
    apply lookup_ge_None in El. cbn in El. lia.
Qed.

Section append.
Context (f : memory) (b : Z) (es : list entry) (e : entry).
Hypothesis Hinv : pm_inv f b es.
Hypothesis Hnew : entry_ok f e.
Hypothesis Hnull : word_at f (e_addr e + off_next) = Some 0.
Hypothesis Hu64 : is_u64 (e_addr e).
Hypothesis Halone : alone b e.
Hypothesis Hfresh : ∀ i e', es !! i = Some e' → apart e' e.
Let w := u64 (total es + esize e).
Let g := link_mem f b es (e_addr e) w.

Lemma link_mem_other x :
  ¬ (link_target b es ≤ x < link_target b es + 8) →
  ¬ (b + 8 ≤ x < b + 16) → ¬ (b + 56 ≤ x < b + 64) → g x = f x.
Proof.
  intros H1 H2 H3. unfold g, link_mem, write_range. rewrite !length_le_encode. unfold_layout.
  by rewrite !decide_False by lia.
Qed.

Lemma link_mem_grows x : is_Some (f x) → is_Some (g x).
Proof.
  intros Hx. unfold g, link_mem. by do 3 apply write_range_grows.
Qed.

Lemma link_target_base : disjoint_ranges (link_target b es) 8 (b + 8) 56.
Proof.
  intros x Hx Hb. destruct (link_target_range b es x Hx) as [[_ ?]|(e' & He' & _ & ?)]; [lia|].
  destruct (pi_alone _ _ _ Hinv _ _ He') as (Hd & _ & _).
  apply (Hd x); unfold_layout; lia.
Qed.

Lemma link_mem_target : word_at g (link_target b es) = Some (e_addr e).
Proof.
  pose proof link_target_base as Hd. unfold g, link_mem.
  rewrite word_write_disjoint.
  2:{ intros x. rewrite length_le_encode. unfold_layout. intros ? ?. apply (Hd x); lia. }
  rewrite word_write_disjoint; [by apply word_write_same|].
  intros x. rewrite length_le_encode. unfold_layout. intros ? ?. apply (Hd x); lia.
Qed.

Lemma link_mem_tail : word_at g (b + off_tail) = Some (e_addr e).
Proof.
  unfold g, link_mem. rewrite word_write_disjoint; [by apply word_write_same|].
  intros x. rewrite length_le_encode. unfold_layout. lia.
Qed.

Lemma link_mem_written : word_at g (b + off_bytes_written) = Some w.
Proof. apply word_write_same, u64_range. Qed.

(** Entry fields and data are not written by the three stores. *)
Lemma link_mem_entry e' x : alone b e' →
  (∀ i l, es !! i = Some l → e' = l ∨ apart l e') →
  e_addr e' + 8 ≤ x < e_addr e' + 32 ∨ e_data e' ≤ x < e_data e' + dsize e' →
  g x = f x.
Proof.
  intros (Ha1 & Ha2 & Ha3) Hap Hx. apply link_mem_other.
  - intros Ht. destruct (link_target_range b es x Ht) as [[_ ?]|(l & Hl & _ & ?)].
    + destruct Hx; [apply (Ha1 x)|apply (Ha2 x)]; unfold_layout; lia.
    + destruct (Hap _ _ Hl) as [->|(Hb1 & Hb2 & _ & _)].
      * destruct Hx; [lia|]. apply (Ha3 x); unfold_layout; lia.
      * destruct Hx; [apply (Hb1 x)|apply (Hb2 x)]; unfold_layout; lia.
  - intros ?. destruct Hx; [apply (Ha1 x)|apply (Ha2 x)]; unfold_layout; lia.
  - intros ?. destruct Hx; [apply (Ha1 x)|apply (Ha2 x)]; unfold_layout; lia.
Qed.

Lemma link_mem_old_entry i e' : es !! i = Some e' → entry_ok g e'.
Proof.
  intros He'. apply (entry_ok_frame f); [by apply (pi_entries _ _ _ Hinv i)|apply link_mem_grows|].
  intros x Hx. apply (link_mem_entry e'); [by apply (pi_alone _ _ _ Hinv i)| |done].
  intros j l Hl. destruct (decide (i = j)) as [->|Hne]; [left; congruence|right].
  by apply (pi_apart _ _ _ Hinv j i).
Qed.

Lemma link_mem_new_entry : entry_ok g e.
Proof.
  apply (entry_ok_frame f); [done|apply link_mem_grows|].
  intros x Hx. apply (link_mem_entry e); [done| |done].
  intros j l Hl. right. by apply (Hfresh j).
Qed.

(** The link word of an entry that is not the last one. *)
Lemma link_mem_link e' : alone b e' →
  (∀ l, es !! (length es - 1)%nat = Some l → apart l e') →
  word_at g (e_addr e' + off_next) = word_at f (e_addr e' + off_next).
Proof.
  intros (Ha1 & _ & _) Hap. apply word_ext. intros x Hx. apply link_mem_other.
  - intros Ht. destruct (link_target_range b es x Ht) as [[_ ?]|(l & Hl & _ & ?)].
    + apply (Ha1 x); unfold_layout; lia.
    + destruct (Hap _ Hl) as (Hb1 & _). apply (Hb1 x); unfold_layout; lia.
  - intros ?. apply (Ha1 x); unfold_layout; lia.
  - intros ?. apply (Ha1 x); unfold_layout; lia.
Qed.

Lemma addr_at_app i : addr_at (es ++ [e]) i =
  if decide (i = length es) then e_addr e else addr_at es i.
Proof.
  unfold addr_at. case_decide as Hi.
  - subst. by rewrite list_lookup_middle.
  - destruct (decide (i < length es)%nat).
    + by rewrite lookup_app_l.
    + rewrite !lookup_ge_None_2; rewrite ?length_app; cbn; (done || lia).
Qed.

Lemma link_mem_links i e' : (es ++ [e]) !! i = Some e' →
  word_at g (e_addr e' + off_next) = Some (addr_at (es ++ [e]) (S i)).
Proof.
  intros He'. rewrite addr_at_app. apply lookup_app_Some in He' as [He'|[Hi He']].
  - pose proof (lookup_lt_Some _ _ _ He') as Hlt. case_decide as Hi.
    + rewrite <-link_mem_target. f_equal. unfold link_target.
      replace (length es - 1)%nat with i by lia. by rewrite He'.
    + rewrite link_mem_link; [by apply (pi_links _ _ _ Hinv)|by apply (pi_alone _ _ _ Hinv i)|].
      intros l Hl. apply (pi_apart _ _ _ Hinv _ _ _ _ Hl He'). lia.
  - apply list_lookup_singleton_Some in He' as [Hi0 <-].
    rewrite link_mem_link; [|done|intros l Hl; by apply (Hfresh _ _ Hl)].
    rewrite decide_False by lia. rewrite Hnull. unfold addr_at.
    by rewrite lookup_ge_None_2 by lia.
Qed.

Lemma link_mem_head : word_at g (b + off_head) = Some (addr_at (es ++ [e]) 0).
Proof.
  rewrite addr_at_app. case_decide as Hl.
  - symmetry in Hl. apply nil_length_inv in Hl. rewrite <-link_mem_target.
    unfold link_target. by rewrite Hl.
  - rewrite <-(pi_head _ _ _ Hinv). apply word_ext. intros x Hx. unfold_layout.
    apply link_mem_other; [|lia|lia]. intros Ht.
    destruct (link_target_range b es x Ht) as [[Hn _]|(l & He & _ & ?)]; [by subst|].
    destruct (pi_alone _ _ _ Hinv _ _ He) as (Hd & _). apply (Hd x); unfold_layout; lia.
Qed.

(** Appending: the three stores of [put] turn the list [es] into [es ++ [e]]. *)
Lemma pm_inv_append : pm_inv g b (es ++ [e]).
Proof.
  split.
  - apply Hinv.
  - intros x Hx. by apply link_mem_grows, (pi_mapped _ _ _ Hinv).
  - apply link_mem_head.
  - unfold last_addr. rewrite length_app. cbn [length].
    replace (length es + 1 - 1)%nat with (length es) by lia.
    rewrite list_lookup_middle by done. apply link_mem_tail.
  - rewrite total_app. cbn. rewrite Z.add_0_r. apply link_mem_written.
  - intros i e' He'. apply lookup_app_Some in He' as [He'|[_ He']].
    + by apply (link_mem_old_entry i).
    + apply list_lookup_singleton_Some in He' as [_ <-]. apply link_mem_new_entry.
  - apply link_mem_links.
  - intros i e' He'. apply lookup_app_Some in He' as [He'|[_ He']].
    + by apply (pi_alone _ _ _ Hinv i).
    + by apply list_lookup_singleton_Some in He' as [_ <-].
  - intros i j e1 e2 H1 H2 Hne. pose proof Hinv as [_ _ _ _ _ _ _ _ Hap].
    apply lookup_app_Some in H1 as [H1|[Hi H1]]; apply lookup_app_Some in H2 as [H2|[Hj H2]].
    + by apply (Hap i j).
    + apply list_lookup_singleton_Some in H2 as [_ <-]. by apply (Hfresh i).
    + apply list_lookup_singleton_Some in H1 as [_ <-]. apply apart_sym. by apply (Hfresh j).
    + apply list_lookup_singleton_Some in H1 as [? <-].
      apply list_lookup_singleton_Some in H2 as [? <-]. lia.
Qed.

End append.

(** The empty list, as the root record describes it. *)
Lemma pm_inv_nil f b : 0 < b → mapped_range f b sizeof_base →
  word_at f (b + off_head) = Some 0 → word_at f (b + off_tail) = Some 0 →
  word_at f (b + off_bytes_written) = Some 0 → pm_inv f b [].
Proof. intros. split; try done; intros *; rewrite lookup_nil; done. Qed.

Lemma last_addr_zero f b es : pm_inv f b es → last_addr es = 0 ↔ es = [].
Proof.
  intros Hi. unfold last_addr.
  destruct (es !! _) as [e|] eqn:El; cbn.
  - pose proof (eo_addr _ _ (pi_entries _ _ _ Hi _ _ El)). split; [lia|]. intros ->. done.
  - split; [|done]. intros _. destruct es; [done|].
    apply lookup_ge_None in El. cbn in El. lia.
Qed.
