(* ===== verification/PmemKVStore.v ===== *)
(** * The persistent half of [put]: a new entry, and its link

    [put_entry_ok] and [put_link_ok] run the stores of [pmemkv::put] against the memory
    interface and say what the resulting memory is. *)
From S2P Require Import Prelude XXHash CHeap PMem Cuckoo PmemKV PmemKVList.

Section store.
Context `{P : PMem, HP : !PMemSpec, C : CuckooMap nat, A : Allocator}.
Implicit Types s : pmemkv C.

Definition mem s : memory := contents (pmem s).

Lemma set_pmem_pmem s : set_pmem (pmem s) s = s.
Proof. by destruct s. Qed.
Lemma set_pmem_twice p q s : set_pmem p (set_pmem q s) = set_pmem p s.
Proof. done. Qed.

Lemma store_ok s a bs : mapped_range (mem s) a (Z.of_nat (length bs)) →
  ∃ p, store a bs s = Done (tt, set_pmem p s) ∧
       pointwise_relation Z eq (contents p) (write_range (mem s) a bs).
Proof.
  intros Hm. unfold store. pose proof (store_spec a bs (pmem s)) as Hs.
  destruct (TBPStore a bs (pmem s)) as [p|]; [|done]. exists p. split; [done|]. exact (proj2 Hs).
Qed.

Lemma store_fails s a bs : ¬ mapped_range (mem s) a (Z.of_nat (length bs)) →
  store a bs s = Done (tt, s).
Proof.
  intros Hm. unfold store. pose proof (store_spec a bs (pmem s)) as Hs.
  destruct (TBPStore a bs (pmem s)) as [p|]; [|done]. by destruct Hs as [? _].
Qed.

Lemma TBPSet_ok s a v : mapped_range (mem s) a 8 →
  ∃ p, TBPSet a v s = Done (tt, set_pmem p s) ∧
       pointwise_relation Z eq (contents p) (write_range (mem s) a (le_encode 8 v)).
Proof. intros Hm. apply store_ok. by rewrite length_le_encode. Qed.

Lemma TBPGet_ok s a v : word_at (mem s) a = Some v → TBPGet a s = Done (v, s).
Proof.
  unfold word_at, TBPGet. rewrite load_spec. fold (mem s).
  destruct (read_range (mem s) a 8); [|done]. by intros [= ->].
Qed.

Lemma deref_range_ok s a n bs : read_range (mem s) a n = Some bs →
  deref_range a n s = Done (bs, s).
Proof. unfold deref_range. rewrite mapped_spec. fold (mem s). by intros ->. Qed.

Lemma deref_word_ok s a v : word_at (mem s) a = Some v → deref_word a s = Done (v, s).
Proof.
  unfold word_at, deref_word. destruct (read_range (mem s) a 8) as [bs|] eqn:E; [|done].
  intros [= <-]. eapply bind_step; [by apply deref_range_ok|done].
Qed.

Lemma TBPAdd_ok s a v n : word_at (mem s) a = Some v →
  ∃ p, TBPAdd a n s = Done (tt, set_pmem p s) ∧
       pointwise_relation Z eq (contents p) (write_range (mem s) a (le_encode 8 (u64 (v + n)))).
Proof.
  intros Hv. assert (mapped_range (mem s) a 8) as Hm by (apply word_mapped; eauto).
  destruct (TBPSet_ok s a (u64 (v + n)) Hm) as (p & E & Hp). exists p. split; [|done].
  eapply bind_step; [by apply TBPGet_ok|exact E].
Qed.

Lemma TBPSub_ok s a v n : word_at (mem s) a = Some v →
  ∃ p, TBPSub a n s = Done (tt, set_pmem p s) ∧
       pointwise_relation Z eq (contents p) (write_range (mem s) a (le_encode 8 (u64 (v - n)))).
Proof.
  intros Hv. assert (mapped_range (mem s) a 8) as Hm by (apply word_mapped; eauto).
  destruct (TBPSet_ok s a (u64 (v - n)) Hm) as (p & E & Hp). exists p. split; [|done].
  eapply bind_step; [by apply TBPGet_ok|exact E].
Qed.

(** Reads leave the store alone. *)
Lemma TBPGet_state a v s s' : TBPGet a s = Done (v, s') → s' = s.
Proof. unfold TBPGet. by case_match; intros [= <- <-]. Qed.
Lemma deref_word_state a v s s' : deref_word a s = Done (v, s') → s' = s.
Proof.
  unfold deref_word. intros (bs & s1 & E & [= <- <-])%st_bind_inv.
  unfold deref_range in E. by case_match; simplify_eq.
Qed.

(** ** The allocations of one [put] *)

(** What the persistent allocator answers to the two requests of [put]: the addresses of the
    entry and of its data, 0 for a refusal. *)
Definition put_allocs s (count a d : Z) : Prop :=
  ∃ p1 p2, TBPAlloc sizeof_block_entry (pmem s) = (a, p1) ∧ TBPAlloc count p1 = (d, p2).

Definition put_addresses (count : Z) s : Z * Z :=
  let '(a, p1) := TBPAlloc sizeof_block_entry (pmem s) in (a, (TBPAlloc count p1).1).

Lemma put_addresses_allocs s count :
  put_allocs s count (put_addresses count s).1 (put_addresses count s).2.
Proof.
  unfold put_allocs, put_addresses. destruct (TBPAlloc sizeof_block_entry (pmem s)) as [a p1].
  cbn. destruct (TBPAlloc count p1) as [d p2] eqn:E. by exists p1, p2.
Qed.

Lemma put_addresses_unique s count a d : put_allocs s count a d → put_addresses count s = (a, d).
Proof. intros (p1 & p2 & E1 & E2). unfold put_addresses. by rewrite E1, E2. Qed.

(** One served request: the range is new, everything else stays. *)
Lemma alloc_fresh n p a p' : 0 ≤ n → TBPAlloc n p = (a, p') → a ≠ 0 →
  0 < a ∧ is_u64 a ∧
  (∀ x, a ≤ x < a + n → contents p x = None ∧ is_Some (contents p' x)) ∧
  (∀ x, is_Some (contents p x) → contents p' x = contents p x) ∧
  (∀ x, ¬ (a ≤ x < a + n) → contents p' x = contents p x).
Proof.
  intros Hn E Ha. pose proof (alloc_spec n p Hn) as H1. rewrite E in H1.
  destruct H1 as [[? _]|(Hpos & _ & Hlt & Hin & Hout)]; [done|].
  split_and!; [done|unfold is_u64; lia|done| |done].
  intros x Hx. apply Hout. intros Hi. destruct (Hin x Hi) as [Hno _].
  rewrite Hno in Hx. by destruct Hx.
Qed.

(** A refused request changes nothing. *)
Lemma alloc_refused n p p' x : 0 ≤ n → TBPAlloc n p = (0, p') → contents p' x = contents p x.
Proof.
  intros Hn E. pose proof (alloc_spec n p Hn) as H1. rewrite E in H1.
  destruct H1 as [[_ H1]|[? _]]; [done|lia].
Qed.

(** How much memory the second request got. *)
Definition served (d count : Z) : Z := if decide (d = 0) then 0 else count.

Lemma put_allocs_fresh s count a d p1 p2 : 0 ≤ count →
  TBPAlloc sizeof_block_entry (pmem s) = (a, p1) → TBPAlloc count p1 = (d, p2) → a ≠ 0 →
  0 < a ∧ is_u64 a ∧ is_u64 d ∧
  (∀ x, is_Some (mem s x) → contents p2 x = mem s x) ∧
  (∀ x, a ≤ x < a + sizeof_block_entry ∨ d ≤ x < d + served d count →
        mem s x = None ∧ is_Some (contents p2 x)) ∧
  disjoint_ranges a sizeof_block_entry d (served d count).
Proof.
  intros Hc E1 E2 Ha.
  destruct (alloc_fresh sizeof_block_entry _ _ _ ltac:(done) E1 Ha) as (Ha0 & Hau & Hin1 & Hold1 & Hout1).
  unfold mem, served in *. case_decide as Hd.
  - subst d. assert (∀ x, contents p2 x = contents p1 x) as Heq
      by (intros x; by eapply alloc_refused).
    split_and!; [done|done|done| | |apply disjoint_null].
    + intros x Hx. rewrite Heq. by apply Hold1.
    + intros x [Hx|Hx]; [|lia]. rewrite Heq. by apply Hin1.
  - destruct (alloc_fresh _ _ _ _ Hc E2 Hd) as (_ & Hdu & Hin2 & Hold2 & Hout2).
    assert (disjoint_ranges a sizeof_block_entry d count) as Hdis.
    { intros x Hx Hy. destruct (Hin1 x Hx) as [_ [? Hs]]. destruct (Hin2 x Hy) as [Hn _].
      congruence. }
    split_and!; [done..| | |done].
    + intros x Hx. rewrite Hold2; rewrite Hold1; done.
    + intros x [Hx|Hx].
      * destruct (Hin1 x Hx) as [Hn Hs]. split; [done|]. by rewrite Hold2.
      * destruct (Hin2 x Hx) as [Hn Hs]. split; [|done].
        rewrite <-Hn, Hout1; [done|]. intros Hy. by apply (Hdis x).
Qed.

(** ** put_entry *)

(** What of the data reaches the memory at [d]. *)
Definition kept (d : Z) (bs : list byte) : list byte := if decide (d = 0) then [] else bs.

Lemma kept_length d bs : Z.of_nat (length (kept d bs)) = served d (Z.of_nat (length bs)).
Proof. unfold kept, served. by case_decide. Qed.

Lemma dsize_served e : dsize e = served (e_data e) (esize e).
Proof. done. Qed.

(** The five stores into the two new ranges; without memory for the data, the second fails. *)
Definition entry_mem (f : memory) (a key d : Z) (bs : list byte) : memory :=
  let f := write_range f (a + off_data) (le_encode 8 d) in
  let f := write_range f d (kept d bs) in
  let f := write_range f (a + off_next) (le_encode 8 0) in
  let f := write_range f (a + off_key) (le_encode 8 key) in
  write_range f (a + off_size) (le_encode 8 (Z.of_nat (length bs))).

Ltac solve_disjoint :=
  intros x; rewrite ?length_le_encode; unfold_layout; intros ? ?;
  first [lia | match goal with Hd : disjoint_ranges _ _ _ _ |- _ => apply (Hd x); lia end].

Lemma entry_mem_ok f a key d bs :
  0 < a → is_u64 key → is_u64 d → is_u64 (Z.of_nat (length bs)) →
  mapped_range f a sizeof_block_entry →
  disjoint_ranges a sizeof_block_entry d (Z.of_nat (length (kept d bs))) →
  entry_ok (entry_mem f a key d bs) (mk_entry a key d bs) ∧
  word_at (entry_mem f a key d bs) (a + off_next) = Some 0.
Proof.
  intros Ha Hk Hd Hl Hm Hdis. unfold entry_mem. split; [split; cbn [e_addr e_key e_data e_bytes]|].
  - done.
  - intros x Hx. by repeat apply write_range_mapped with (b := a) (n := sizeof_block_entry).
  - rewrite word_write_disjoint by solve_disjoint. by apply word_write_same.
  - by apply word_write_same.
  - rewrite word_write_disjoint by solve_disjoint.
    rewrite word_write_disjoint by solve_disjoint.
    rewrite word_write_disjoint by solve_disjoint.
    rewrite word_write_disjoint by solve_disjoint. by apply word_write_same.
  - intros Hd0. unfold esize. cbn [e_bytes].
    assert (kept d bs = bs) as Hkept by (unfold kept; by rewrite decide_False).
    rewrite Hkept in *.
    rewrite read_write_disjoint by solve_disjoint.
    rewrite read_write_disjoint by solve_disjoint.
    rewrite read_write_disjoint by solve_disjoint. apply read_write_same.
  - rewrite word_write_disjoint by solve_disjoint.
    rewrite word_write_disjoint by solve_disjoint. by apply word_write_same.
Qed.

Lemma entry_mem_other f a key d bs x :
  ¬ (a ≤ x < a + sizeof_block_entry) → ¬ (d ≤ x < d + Z.of_nat (length (kept d bs))) →
  entry_mem f a key d bs x = f x.
Proof.
  intros Ha Hd. unfold entry_mem, write_range. rewrite !length_le_encode. unfold_layout.
  by rewrite !decide_False by lia.
Qed.

(** The store of the data succeeds, or fails and changes nothing. *)
Lemma store_data s d bs : mapped_range (mem s) d (served d (Z.of_nat (length bs))) →
  ∃ p, store d bs s = Done (tt, set_pmem p s) ∧
       pointwise_relation Z eq (contents p) (write_range (mem s) d (kept d bs)).
Proof.
  unfold served, kept. case_decide as Hd; [|apply store_ok]. subst d. intros _.
  destruct bs as [|b bs].
  { destruct (store_ok s 0 []) as (p & E & G); [intros x Hx; cbn in Hx; lia|]. eauto. }
  exists (pmem s). rewrite set_pmem_pmem. split.
  - apply store_fails. intros Hm. destruct (Hm 0) as [v Hv]; [cbn; lia|].
    unfold mem in Hv. by rewrite null_unmapped in Hv.
  - intros x. unfold write_range. cbn. by rewrite decide_False by lia.
Qed.

Lemma put_entry_run s key buf count a d p1 p2 :
  TBPAlloc sizeof_block_entry (pmem s) = (a, p1) → TBPAlloc count p1 = (d, p2) →
  0 < a → 0 ≤ count ≤ Z.of_nat (length buf) → is_u64 d →
  mapped_range (contents p2) a sizeof_block_entry →
  mapped_range (contents p2) d (served d count) →
  ∃ p, put_entry key buf count s = Done (a, set_pmem p s) ∧
       pointwise_relation Z eq (contents p)
         (entry_mem (contents p2) a key d (take (Z.to_nat count) buf)).
Proof.
  intros E1 E2 Ha Hc Hd Hma Hmd.
  set (bs := take (Z.to_nat count) buf).
  assert (Z.of_nat (length bs) = count) as Hlen by (unfold bs; rewrite length_take; lia).
  assert (∀ (p : pm), pmem (set_pmem p s) = p) as Hp by done.
  destruct (TBPSet_ok (set_pmem p2 s) (a + off_data) d) as (q1 & F1 & G1).
  { intros x Hx. apply Hma. unfold_layout. lia. }
  destruct (store_data (set_pmem q1 s) d bs) as (q2 & F2 & G2).
  { unfold mem. rewrite Hp, G1. apply write_range_mapped. by rewrite Hlen. }
  destruct (TBPSet_ok (set_pmem q2 s) (a + off_next) 0) as (q3 & F3 & G3).
  { unfold mem in *. rewrite Hp in *. rewrite G2, G1. do 2 apply write_range_mapped.
    intros x Hx. apply Hma. unfold_layout. lia. }
  destruct (TBPSet_ok (set_pmem q3 s) (a + off_key) key) as (q4 & F4 & G4).
  { unfold mem in *. rewrite Hp in *. rewrite G3, G2, G1. do 3 apply write_range_mapped.
    intros x Hx. apply Hma. unfold_layout. lia. }
  destruct (TBPSet_ok (set_pmem q4 s) (a + off_size) count) as (q5 & F5 & G5).
  { unfold mem in *. rewrite Hp in *. rewrite G4, G3, G2, G1. do 4 apply write_range_mapped.
    intros x Hx. apply Hma. unfold_layout. lia. }
  unfold mem in *. rewrite Hp in *. exists q5. split.
  - unfold put_entry.
    eapply bind_step; [unfold alloc; rewrite E1; reflexivity|].
    eapply bind_step; [unfold alloc; cbn; rewrite E2; reflexivity|].
    eapply bind_step; [exact F1|].
    eapply bind_step.
    { rewrite decide_False by lia. apply (deref_word_ok _ _ d). change (word_at (contents q1) (a + off_data) = Some d).
      rewrite G1. by apply word_write_same. }
    eapply bind_step; [rewrite decide_True by lia; exact F2|].
    eapply bind_step; [exact F3|]. eapply bind_step; [exact F4|].
    eapply bind_step; [exact F5|done].
  - unfold entry_mem. fold bs. rewrite Hlen, G5, G4, G3, G2, G1. done.
Qed.

(** Everything [put] needs to know about the entry it made. *)
Record fresh_entry (f g : memory) (e : entry) : Prop := {
  fe_extends : ∀ x, is_Some (f x) → g x = f x;
  fe_entry : entry_ok g e;
  fe_null : word_at g (e_addr e + off_next) = Some 0;
  fe_addr : is_u64 (e_addr e);
  fe_unmapped : ∀ x, e_addr e ≤ x < e_addr e + sizeof_block_entry ∨
                     e_data e ≤ x < e_data e + dsize e → f x = None;
  fe_self : disjoint_ranges (e_addr e) sizeof_block_entry (e_data e) (dsize e)
}.

Lemma put_entry_ok s key buf count a d :
  put_allocs s count a d → a ≠ 0 → 0 ≤ count ≤ Z.of_nat (length buf) → is_u64 count →
  is_u64 key →
  ∃ p, put_entry key buf count s = Done (a, set_pmem p s) ∧
       fresh_entry (mem s) (contents p) (mk_entry a key d (take (Z.to_nat count) buf)).
Proof.
  intros (p1 & p2 & E1 & E2) Ha Hc Hcu Hk.
  destruct (put_allocs_fresh s count a d p1 p2) as (Ha0 & Hau & Hdu & Hold & Hnew & Hdis);
    [lia|done..|].
  destruct (put_entry_run s key buf count a d p1 p2) as (p & Ep & Gp); try done.
  { intros x Hx. apply Hnew. by left. } { intros x Hx. apply Hnew. by right. }
  pose proof (esize_take a key d buf count Hc) as Hsz.
  set (bs := take (Z.to_nat count) buf) in *.
  assert (Z.of_nat (length bs) = count) as Hlen by done.
  destruct (entry_mem_ok (contents p2) a key d bs) as [He Hn];
    rewrite ?kept_length, ?Hlen; try done.
  { intros x Hx. apply Hnew. by left. }
  exists p. split; [done|].
  split; rewrite ?dsize_served, ?Hsz; cbn [e_addr e_data]; try done.
  - intros x Hx. rewrite (Gp x), entry_mem_other, Hold; [done|done|..];
      intros Hin; destruct (Hnew x) as [Hnone _]; rewrite ?kept_length, ?Hlen in *; auto;
      rewrite Hnone in Hx; by destruct Hx.
  - destruct He. split; rewrite ?Gp; done.
  - by rewrite Gp.
  - intros x Hx. by apply Hnew.
Qed.

(** Without memory for the entry, the next line faults. *)
Lemma put_entry_null s key buf count d :
  put_allocs s count 0 d → put_entry key buf count s = Undefined.
Proof.
  intros (p1 & p2 & E1 & E2). unfold put_entry.
  eapply bind_step; [unfold alloc; rewrite E1; reflexivity|].
  eapply bind_step; [unfold alloc; cbn; rewrite E2; reflexivity|].
  unfold mbind at 1, st_bind. unfold TBPSet, store. repeat case_match; done.
Qed.

(** A fresh entry lies apart from everything the list uses. *)
Lemma fresh_entry_apart f g b es e : pm_inv f b es → fresh_entry f g e →
  alone b e ∧ ∀ i e', es !! i = Some e' → apart e' e.
Proof.
  intros Hi [_ _ _ _ Hun Hself].
  assert (∀ a n, mapped_range f a n →
    disjoint_ranges a n (e_addr e) sizeof_block_entry ∧
    disjoint_ranges a n (e_data e) (dsize e)) as Hm.
  { intros a n Hm. split; intros x Hx Hy; destruct (Hm x Hx) as [v Hv];
      rewrite Hun in Hv by auto; done. }
  split.
  - destruct (Hm _ _ (pi_mapped _ _ _ Hi)) as [? ?]. by split_and!.
  - intros i e' He'. destruct (pi_entries _ _ _ Hi i e' He') as [_ Hma _ _ _ Hb].
    assert (mapped_range f (e_data e') (dsize e')) as Hmd.
    { destruct (decide (e_data e' = 0)) as [Hz|Hz]; [|rewrite dsize_some by done;
        apply read_range_mapped; eauto]. rewrite dsize_null by done. intros x Hx. lia. }
    destruct (Hm _ _ Hma), (Hm _ _ Hmd). by split_and!.
Qed.

(** ** put_link *)
Lemma put_link_run s es a count :
  pm_inv (mem s) (bp s) es → is_u64 a → mapped_range (mem s) (link_target (bp s) es) 8 →
  disjoint_ranges (link_target (bp s) es) 8 (bp s + 8) 56 →
  ∃ p, put_link a count s = Done (tt, set_pmem p s) ∧
       pointwise_relation Z eq (contents p)
         (link_mem (mem s) (bp s) es a (u64 (total es + count))).
Proof.
  intros Hi Ha Hmt Hdis. pose proof Hi as [Hb Hm Hh Ht Hw _ _ _ _].
  destruct (TBPSet_ok s (link_target (bp s) es) a Hmt) as (q1 & F1 & G1).
  assert (mem (set_pmem q1 s) = contents q1) as M1 by done.
  destruct (TBPSet_ok (set_pmem q1 s) (bp s + off_tail) a) as (q2 & F2 & G2).
  { rewrite M1, G1. apply write_range_mapped. intros x Hx. apply Hm. unfold_layout. lia. }
  destruct (TBPAdd_ok (set_pmem q2 s) (bp s + off_bytes_written) (u64 (total es)) count)
    as (q3 & F3 & G3).
  { change (mem (set_pmem q2 s)) with (contents q2). rewrite G2, M1, G1.
    rewrite word_write_disjoint
      by (intros x; rewrite length_le_encode; unfold_layout; intros ? ?; lia).
    rewrite word_write_disjoint; [done|].
    intros x. rewrite length_le_encode. unfold_layout. intros ? ?. apply (Hdis x); lia. }
  exists q3. split.
  - unfold put_link. eapply bind_step; [done|]. eapply bind_step; [by apply TBPGet_ok|].
    eapply bind_step.
    { rewrite <-F1. pose proof (last_addr_zero _ _ _ Hi) as Hz. unfold link_target.
      unfold last_addr in *. destruct (es !! (length es - 1)%nat) as [e|] eqn:El; cbn in *.
      - rewrite decide_False by (intros He; apply Hz in He; by subst).
        eapply bind_step; [by apply deref_word_ok|done].
      - by rewrite decide_True. }
    eapply bind_step; [exact F2|exact F3].
  - unfold link_mem. change (mem (set_pmem q2 s)) with (contents q2) in G3.
    rewrite G3, G2, M1, G1. do 3 f_equiv. unfold u64. by rewrite Zplus_mod_idemp_l.
Qed.

Lemma link_target_mapped f b es : pm_inv f b es → mapped_range f (link_target b es) 8.
Proof.
  intros Hi x Hx. destruct (link_target_range b es x Hx) as [[_ ?]|(e & He & _ & ?)].
  - apply (pi_mapped _ _ _ Hi). unfold_layout. lia.
  - apply (eo_mapped _ _ (pi_entries _ _ _ Hi _ _ He)). unfold_layout. lia.
Qed.

Lemma put_link_ok s es e f0 :
  pm_inv f0 (bp s) es → fresh_entry f0 (mem s) e →
  ∃ p, put_link (e_addr e) (esize e) s = Done (tt, set_pmem p s) ∧
       pm_inv (contents p) (bp s) (es ++ [e]).
Proof.
  intros Hi0 Hf. destruct (fresh_entry_apart _ _ _ _ _ Hi0 Hf) as [Hal Hap].
  pose proof Hf as [Hext He Hn Hu _ _].
  pose proof (pm_inv_extend _ _ _ _ Hi0 Hext) as Hi.
  destruct (put_link_run s es (e_addr e) (esize e) Hi Hu) as (p & E & G).
  { by apply link_target_mapped. } { by apply (link_target_base (mem s)). }
  exists p. split; [done|]. eapply pm_inv_extend; [by apply pm_inv_append|].
  intros x _. apply G.
Qed.

End store.
