(* ===== verification/PmemKVIndex.v ===== *)
(** * The DRAM index of pmemkv: shape, [update_meta], and the loops over it

    [ps] says which nodes the index owns: for each key hash the list node and the chain of
    meta nodes.  [orphans] are live meta nodes no list reaches; they only arise when an
    allocation fails half-way through [update_meta]. *)
From S2P Require Import Prelude XXHash CHeap PMem Cuckoo PmemKV PmemKVList PmemKVStore.

Lemma lookup_snoc_last {A} (l : list A) x : (l ++ [x]) !! (length (l ++ [x]) - 1)%nat = Some x.
Proof.
  rewrite length_app. cbn. replace (length l + 1 - 1)%nat with (length l) by lia.
  by apply list_lookup_middle.
Qed.

(** ** Chains of meta nodes *)
Fixpoint chain (M : gmap nat (option block_meta)) (l : list nat) (vs : list (Z * Z)) : Prop :=
  match l, vs with
  | [], [] => True
  | p :: l, (o, n) :: vs => M !! p = Some (Some (mk_block_meta (l !! 0%nat) o n)) ∧ chain M l vs
  | _, _ => False
  end.

Lemma chain_frame M M' l vs : (∀ p, p ∈ l → M' !! p = M !! p) → chain M l vs → chain M' l vs.
Proof.
  revert vs. induction l as [|p l IH]; intros [|[o n] vs] HM; cbn; try done.
  intros [Hp Hc]. split; [rewrite HM by set_solver; done|]. apply IH; [set_solver|done].
Qed.

Lemma chain_length M l vs : chain M l vs → length l = length vs.
Proof.
  revert vs. induction l as [|p l IH]; intros [|[o n] vs]; cbn; try done.
  intros [_ Hc]. f_equal. auto.
Qed.

(** Adding node [p] behind the last node. *)
Lemma chain_snoc M l t p vs o n o' n' : NoDup (l ++ [t]) → p ∉ l ++ [t] →
  M !! t = Some (Some (mk_block_meta None o' n')) →
  chain M (l ++ [t]) vs →
  chain (<[t := Some (mk_block_meta (Some p) o' n')]> (<[p := Some (mk_block_meta None o n)]> M))
    ((l ++ [t]) ++ [p]) (vs ++ [(o, n)]).
Proof.
  intros Hnd Hp Ht. revert vs. induction l as [|q l IH]; intros vs Hc; cbn in *.
  - destruct vs as [|[o1 n1] [|]]; [done| |by destruct Hc].
    destruct Hc as [Hc _]. rewrite Ht in Hc. injection Hc as <- <-. cbn.
    rewrite lookup_insert_eq. split_and!; try done.
    rewrite lookup_insert_ne by set_solver. apply lookup_insert_eq.
  - destruct vs as [|[o1 n1] vs]; [done|]. destruct Hc as [Hq Hc]. cbn.
    apply list.NoDup_cons in Hnd as [Hqn Hnd]. split.
    + rewrite !lookup_insert_ne by set_solver. rewrite Hq. by destruct l.
    + apply IH; [done| |done]. set_solver.
Qed.

Lemma chain_last M l t vs : chain M (l ++ [t]) vs →
  ∃ o n, M !! t = Some (Some (mk_block_meta None o n)).
Proof.
  revert vs. induction l as [|q l IH]; intros [|[o n] vs]; cbn; try done.
  - intros [Ht _]. eauto.
  - intros [_ Hc]. eauto.
Qed.

Definition sizes (vs : list (Z * Z)) : Z := foldr (λ v n, v.2 + n) 0 vs.

Lemma sizes_app vs ws : sizes (vs ++ ws) = sizes vs + sizes ws.
Proof.
  unfold sizes. induction vs as [|v vs IH]; cbn [foldr app]; [lia|]. rewrite IH. lia.
Qed.

(** ** The nodes of the index *)
Abbreviation nodes := (gmap Z (nat * list nat)).

(** What the accounting of [bytes_allocated] should be. *)
Definition weight (ps : nodes) : Z :=
  map_fold (λ _ v n, n + sizeof_block_meta_list
                       + sizeof_block_meta * Z.of_nat (length (snd v))) 0 ps.

Lemma weight_insert ps k b l : ps !! k = None →
  weight (<[k := (b, l)]> ps) =
    weight ps + sizeof_block_meta_list + sizeof_block_meta * Z.of_nat (length l).
Proof. intros Hk. unfold weight. rewrite map_fold_insert_L; [done| |done]. intros; lia. Qed.

Lemma weight_delete ps k b l : ps !! k = Some (b, l) →
  weight ps = weight (delete k ps) + sizeof_block_meta_list
              + sizeof_block_meta * Z.of_nat (length l).
Proof.
  intros Hk. rewrite <-(weight_insert (delete k ps) k b l) by apply lookup_delete_eq.
  by rewrite insert_delete_id.
Qed.

Lemma weight_extend ps k b l p : ps !! k = Some (b, l) →
  weight (<[k := (b, l ++ [p])]> ps) = weight ps + sizeof_block_meta.
Proof.
  intros Hk. rewrite (weight_delete ps k b l) by done.
  rewrite <-insert_delete_eq, weight_insert by apply lookup_delete_eq.
  rewrite length_app. cbn. unfold sizeof_block_meta, sizeof_block_meta_list. lia.
Qed.

Record dram_inv (M : gmap nat (option block_meta)) (L : gmap nat (option block_meta_list))
    (fresh : nat) (ps : nodes) (vals : Z → list (Z * Z)) (orphans : gset nat) : Prop := {
  di_nonempty : ∀ k b l, ps !! k = Some (b, l) → l ≠ [] ∧ NoDup l;
  di_chain : ∀ k b l, ps !! k = Some (b, l) → chain M l (vals k);
  di_list : ∀ k b l, ps !! k = Some (b, l) →
    L !! b = Some (Some (mk_block_meta_list (l !! 0%nat) (l !! (length l - 1)%nat)
                           (u64 (sizes (vals k))) (u64 (Z.of_nat (length l)))));
  di_none : ∀ k, ps !! k = None → vals k = [];
  di_apart : ∀ k1 k2 b1 l1 b2 l2, ps !! k1 = Some (b1, l1) → ps !! k2 = Some (b2, l2) →
    k1 ≠ k2 → b1 ≠ b2 ∧ ∀ p, p ∈ l1 → p ∉ l2;
  di_orphans : ∀ k b l p, ps !! k = Some (b, l) → p ∈ l → p ∉ orphans;
  di_metas : ∀ p, is_Some (M !! p) ↔ p ∈ orphans ∨ ∃ k b l, ps !! k = Some (b, l) ∧ p ∈ l;
  di_lists : ∀ b, is_Some (L !! b) ↔ ∃ k l, ps !! k = Some (b, l);
  di_fresh : ∀ p, (fresh ≤ p)%nat → M !! p = None ∧ L !! p = None
}.

(** The (offset, size) pairs the index should hold for key hash [k]. *)
Definition of_key (k : Z) (es : list entry) : list entry := filter (λ e, e_key e = k) es.
Definition metas_of (es : list entry) (k : Z) : list (Z * Z) :=
  (λ e, (e_data e, esize e)) <$> of_key k es.

Lemma metas_of_snoc es e k :
  metas_of (es ++ [e]) k =
    metas_of es k ++ (if decide (e_key e = k) then [(e_data e, esize e)] else []).
Proof.
  unfold metas_of, of_key. rewrite list.filter_app, fmap_app. f_equal.
  rewrite list.filter_cons. by case_decide.
Qed.

Lemma dram_inv_nil : dram_inv ∅ ∅ 0 ∅ (metas_of []) ∅.
Proof.
  split; try by (intros *; rewrite lookup_empty).
  - intros p. rewrite lookup_empty. split; [by intros []|].
    intros [?|(k & b & l & Hk & _)]; [set_solver|by rewrite lookup_empty in Hk].
  - intros b. rewrite lookup_empty. split; [by intros []|].
    intros (k & l & Hk). by rewrite lookup_empty in Hk.
Qed.

(** The nodes of a map that has one node more, in a chain at [b]. *)
Lemma nodes_grown (ps : nodes) k b l p : (∀ c l', ps !! k = Some (c, l') → l' = l) → (ps !! k = None → l = []) → ∀ q,
  (∃ j c l', <[k := (b, l ++ [p])]> ps !! j = Some (c, l') ∧ q ∈ l') ↔
  p = q ∨ ∃ j c l', ps !! j = Some (c, l') ∧ q ∈ l'.
Proof.
  intros Hl Hnone q. split.
  - intros (j & c & l' & [[<- [= <- <-]]|[? Hj]]%lookup_insert_Some & Hq); [|right; eauto].
    apply elem_of_app in Hq as [Hq| ->%list_elem_of_singleton]; [right|by left].
    destruct (ps !! k) as [[c' l']|] eqn:Hk; [|rewrite Hnone in Hq by done; set_solver].
    rewrite <-(Hl _ _ eq_refl) in Hq. eauto.
  - intros [<-|(j & c & l' & Hj & Hq)]; [exists k, b, (l ++ [p]); rewrite lookup_insert_eq; set_solver|].
    destruct (decide (j = k)) as [->|Hjk].
    + rewrite (Hl _ _ Hj) in Hq. exists k, b, (l ++ [p]). rewrite lookup_insert_eq. set_solver.
    + exists j, c, l'. by rewrite lookup_insert_ne by congruence.
Qed.
Lemma lists_grown (ps : nodes) k b l : (∀ c l', ps !! k = Some (c, l') → c = b) → ∀ c,
  (∃ j l', <[k := (b, l)]> ps !! j = Some (c, l')) ↔ b = c ∨ ∃ j l', ps !! j = Some (c, l').
Proof.
  intros Hb c. split.
  - intros (j & l' & [[<- [= <- <-]]|[? Hj]]%lookup_insert_Some); [by left|right; eauto].
  - intros [<-|(j & l' & Hj)]; [exists k, l; apply lookup_insert_eq|]. destruct (decide (j = k)) as [->|Hjk].
    + rewrite (Hb _ _ Hj). exists k, l. apply lookup_insert_eq.
    + exists j, l'. by rewrite lookup_insert_ne by congruence.
Qed.

(** A key seen for the first time: nodes [p] and [b]. *)
Lemma dram_inv_first M L fresh ps vals vals' X k o n p b :
  dram_inv M L fresh ps vals X → ps !! k = None →
  vals' k = [(o, n)] → (∀ j, j ≠ k → vals' j = vals j) → (fresh ≤ p)%nat → (fresh ≤ b)%nat →
  dram_inv (<[p := Some (mk_block_meta None o n)]> M)
    (<[b := Some (mk_block_meta_list (Some p) (Some p) (u64 n) (u64 1))]> L)
    (S (Nat.max p b)) (<[k := (b, [p])]> ps) vals' X.
Proof.
  intros [Hne Hch Hli Hno Hap Hor HM HL Hfr] Hk Hvk Hvj Hp Hb.
  destruct (Hfr p Hp) as [Hp0 _]. destruct (Hfr b Hb) as [_ Hb0].
  assert (∀ j c l, ps !! j = Some (c, l) → p ∉ l) as Hpl.
  { intros j c l Hj Hin. assert (is_Some (M !! p)) as [? ?] by (apply HM; eauto 6). congruence. }
  assert (∀ j c l, ps !! j = Some (c, l) → c ≠ b) as Hbl.
  { intros j c l Hj ->. assert (is_Some (L !! b)) as [? ?] by (apply HL; eauto). congruence. }
  split.
  - intros j c l. rewrite lookup_insert_Some. intros [[<- [= <- <-]]|[? Hj]]; [|eauto].
    split; [done|apply NoDup_singleton].
  - intros j c l. rewrite lookup_insert_Some. intros [[<- [= <- <-]]|[? Hj]].
    + rewrite Hvk. cbn. by rewrite lookup_insert_eq.
    + rewrite Hvj by done. eapply chain_frame; [|by eauto]. intros q Hq.
      apply lookup_insert_ne. intros ->. by apply (Hpl _ _ _ Hj).
  - intros j c l. rewrite lookup_insert_Some. intros [[<- [= <- <-]]|[? Hj]].
    + rewrite Hvk, lookup_insert_eq. cbn. by rewrite Z.add_0_r.
    + rewrite Hvj by done. rewrite lookup_insert_ne by (symmetry; eauto). eauto.
  - intros j. rewrite lookup_insert_None. intros [? ?]. rewrite Hvj by done. auto.
  - intros k1 k2 b1 l1 b2 l2. rewrite !lookup_insert_Some.
    intros [[<- [= <- <-]]|[? H1]] [[<- [= <- <-]]|[? H2]] ?; try done; try by eauto.
    + split; [symmetry; eauto|]. intros q ->%list_elem_of_singleton. eauto.
    + split; [eauto|]. intros q Hq ->%list_elem_of_singleton. by apply (Hpl _ _ _ H1).
  - intros j c l q. rewrite lookup_insert_Some.
    intros [[<- [= <- <-]]|[? Hj]] Hq; [|eauto].
    apply list_elem_of_singleton in Hq as ->. intros Hx.
    assert (is_Some (M !! p)) as [? ?] by (apply HM; eauto). congruence.
  - intros q. rewrite lookup_insert_is_Some, HM. change [p] with ([] ++ [p]).
    rewrite (nodes_grown ps k b [] p) by (done || congruence). destruct (decide (p = q)); tauto.
  - intros c. rewrite lookup_insert_is_Some, HL, lists_grown by congruence. destruct (decide (b = c)); tauto.
  - intros q Hq. destruct (Hfr q) as [? ?]; [lia|]. rewrite !lookup_insert_ne by lia. done.
Qed.

(** One more block for a known key: node [p] behind the last node [t]. *)
Lemma dram_inv_append M L fresh ps vals vals' X k o n p b l t o' n' :
  dram_inv M L fresh ps vals X → ps !! k = Some (b, l) →
  vals' k = vals k ++ [(o, n)] → (∀ j, j ≠ k → vals' j = vals j) → (fresh ≤ p)%nat →
  l !! (length l - 1)%nat = Some t → M !! t = Some (Some (mk_block_meta None o' n')) →
  dram_inv
    (<[t := Some (mk_block_meta (Some p) o' n')]> (<[p := Some (mk_block_meta None o n)]> M))
    (<[b := Some (mk_block_meta_list (l !! 0%nat) (Some p)
              (u64 (u64 (sizes (vals k)) + n)) (u64 (u64 (Z.of_nat (length l)) + 1)))]> L)
    (S p) (<[k := (b, l ++ [p])]> ps) vals' X.
Proof.
  intros [Hne Hch Hli Hno Hap Hor HM HL Hfr] Hk Hvk Hvj Hp Hlt Ht.
  destruct (Hfr p Hp) as [Hp0 _]. destruct (Hne _ _ _ Hk) as [Hl0 Hnd].
  assert (∃ l0, l = l0 ++ [t]) as [l0 ->].
  { destruct l as [|x l1 _] using rev_ind; [done|]. exists l1. f_equal. f_equal.
    rewrite lookup_snoc_last in Hlt. congruence. }
  assert (∀ j c l, ps !! j = Some (c, l) → p ∉ l) as Hpl.
  { intros j c l Hj Hin. assert (is_Some (M !! p)) as [? ?] by (apply HM; eauto 6). congruence. }
  assert (t ∈ l0 ++ [t]) as Htl by set_solver.
  assert (∀ j c l, ps !! j = Some (c, l) → j ≠ k → t ∉ l ∧ c ≠ b) as Htj.
  { intros j c l Hj Hjk. destruct (Hap k j _ _ _ _ Hk Hj) as [? Hd]; [done|]. split; [eauto|done]. }
  assert (p ≠ t) as Hpt by (intros ->; congruence).
  split.
  - intros j c l. rewrite lookup_insert_Some. intros [[<- [= <- <-]]|[? Hj]]; [|eauto].
    split; [by destruct l0|]. apply list.NoDup_app. split_and!; [done| |apply NoDup_singleton].
    intros q Hq ->%list_elem_of_singleton. by apply (Hpl _ _ _ Hk).
  - intros j c l. rewrite lookup_insert_Some. intros [[<- [= <- <-]]|[? Hj]].
    + rewrite Hvk. apply chain_snoc; eauto.
    + rewrite Hvj by done. destruct (Htj j c l Hj) as [? _]; [done|].
      eapply chain_frame; [|by eauto]. intros q Hq. rewrite !lookup_insert_ne; [done|..].
      * intros ->. by apply (Hpl _ _ _ Hj).
      * by intros ->.
  - intros j c l. rewrite lookup_insert_Some. intros [[<- [= <- <-]]|[? Hj]].
    + rewrite lookup_insert_eq, Hvk, sizes_app. cbn [sizes foldr snd].
      do 3 f_equal.
      * by destruct l0.
      * by rewrite lookup_snoc_last.
      * unfold u64. rewrite Zplus_mod_idemp_l. f_equal. cbn. lia.
      * unfold u64. rewrite Zplus_mod_idemp_l, !length_app. f_equal. cbn. lia.
    + rewrite Hvj by done. destruct (Htj j c l Hj) as [_ ?]; [done|].
      rewrite lookup_insert_ne by done. eauto.
  - intros j. rewrite lookup_insert_None. intros [? ?]. rewrite Hvj by done. auto.
  - intros k1 k2 b1 l1 b2 l2. rewrite !lookup_insert_Some.
    intros [[<- [= <- <-]]|[? H1]] [[<- [= <- <-]]|[? H2]] ?; try done; try by eauto.
    + destruct (Hap _ _ _ _ _ _ Hk H2) as [? Hd]; [done|]. split; [done|].
      intros q [Hq| ->%list_elem_of_singleton]%elem_of_app; eauto.
    + destruct (Hap _ _ _ _ _ _ H1 Hk) as [? Hd]; [done|]. split; [done|].
      intros q Hq [Hq'| ->%list_elem_of_singleton]%elem_of_app; [by apply (Hd q)|].
      by apply (Hpl _ _ _ H1).
  - intros j c l q. rewrite lookup_insert_Some.
    intros [[<- [= <- <-]]|[? Hj]] Hq; [|eauto].
    apply elem_of_app in Hq as [Hq| ->%list_elem_of_singleton]; [eauto|]. intros Hx.
    assert (is_Some (M !! p)) as [? ?] by (apply HM; eauto). congruence.
  - intros q. rewrite !lookup_insert_is_Some, HM, nodes_grown by (intros; congruence).
    destruct (decide (t = q)) as [<-|]; [|destruct (decide (p = q)); tauto].
    split; [right; right; by exists k, b, (l0 ++ [t])|by left].
  - intros c. rewrite lookup_insert_is_Some, HL, lists_grown by congruence.
    destruct (decide (b = c)) as [<-|]; [|tauto]. split; [right; by exists k, (l0 ++ [t])|by left].
  - intros q Hq. destruct (Hfr q) as [? ?]; [lia|].
    assert (is_Some (M !! t)) as Hts by eauto. assert (is_Some (L !! b)) as Hbs by (apply HL; eauto).
    rewrite !lookup_insert_ne; [done|..]; try lia; intros ->; rewrite ?H, ?H0 in *;
      (by destruct Hts) || (by destruct Hbs).
Qed.

Lemma dram_inv_fresh M L fresh fresh' ps vals X : (fresh ≤ fresh')%nat →
  dram_inv M L fresh ps vals X → dram_inv M L fresh' ps vals X.
Proof. intros Hf []. split; try done. intros p Hp. apply di_fresh0. lia. Qed.

(** A node taken but never linked. *)
Lemma dram_inv_orphan M L fresh ps vals X p m : (fresh ≤ p)%nat →
  dram_inv M L fresh ps vals X → dram_inv (<[p := m]> M) L (S p) ps vals ({[p]} ∪ X).
Proof.
  intros Hp [Hne Hch Hli Hno Hap Hor HM HL Hfr]. destruct (Hfr p Hp) as [Hp0 _].
  assert (∀ j c l, ps !! j = Some (c, l) → p ∉ l) as Hpl.
  { intros j c l Hj Hin. assert (is_Some (M !! p)) as [? ?] by (apply HM; eauto 6). congruence. }
  split; try done.
  - intros k b l Hk. eapply chain_frame; [|by eauto]. intros q Hq.
    apply lookup_insert_ne. intros ->. by apply (Hpl _ _ _ Hk).
  - intros k b l q Hk Hq [->%elem_of_singleton|Hx]%elem_of_union.
    + by apply (Hpl _ _ _ Hk). + by apply (Hor _ _ _ _ Hk Hq).
  - intros q. rewrite lookup_insert_is_Some', HM, elem_of_union, elem_of_singleton.
    split; intros Hq; [destruct Hq as [?|[?|?]]|destruct Hq as [[?|?]|?]]; auto.
  - intros q Hq. destruct (Hfr q) as [? ?]; [lia|]. by rewrite lookup_insert_ne by lia.
Qed.

(** The last node of a list the index owns. *)
Lemma dram_inv_tail M L fresh ps vals X k b l : dram_inv M L fresh ps vals X →
  ps !! k = Some (b, l) → ∃ t o n, l !! (length l - 1)%nat = Some t ∧ (t < fresh)%nat ∧
    M !! t = Some (Some (mk_block_meta None o n)).
Proof.
  intros Hd Hk. destruct (di_nonempty _ _ _ _ _ _ Hd _ _ _ Hk) as [Hl _].
  destruct l as [|t l _] using rev_ind; [done|]. clear Hl.
  destruct (chain_last _ _ _ _ (di_chain _ _ _ _ _ _ Hd _ _ _ Hk)) as (o & n & Ht).
  exists t, o, n. split_and!; [apply lookup_snoc_last| |done].
  destruct (decide (t < fresh)%nat); [done|].
  destruct (di_fresh _ _ _ _ _ _ Hd t) as [? _]; [lia|congruence].
Qed.
