(* ===== verification/PmemKVUpdate.v ===== *)
(** * [update_meta]: the DRAM half of [put], under any allocator

    [idx_inv] is what the index means: per key hash, the blocks indexed so far in the order
    they were put, with the exact accounting of [bytes_allocated].  [update_meta_ok] covers
    the success path and both failing [malloc] calls. *)
From S2P Require Import Prelude XXHash CHeap PMem Cuckoo PmemKV PmemKVList PmemKVStore.
From S2P Require Import PmemKVIndex.

Section update.
Context `{P : PMem, HP : !PMemSpec, C : CuckooMap nat, HC : !CuckooSpec C, A : Allocator}.
Implicit Types s : pmemkv C.

Record idx_inv s (ix : list entry) (ps : nodes) (X : gset nat) : Prop := {
  ii_dram : dram_inv (metas s) (lists s) (mallocs s) ps (metas_of ix) X;
  ii_view : ∀ k, view (index_map s) !! k = fst <$> ps !! k;
  ii_bytes : bytes_allocated s = u64 (weight ps + sizeof_block_meta * Z.of_nat (size X))
}.

(** The calls leave everything but the index alone. *)
Definition same_pm s s' : Prop := pmem s' = pmem s ∧ bp s' = bp s.

Lemma contains_node s ix ps X k : idx_inv s ix ps X →
  contains k (index_map s) = bool_decide (is_Some (ps !! k)).
Proof.
  intros [_ Hv _]. rewrite contains_spec. apply bool_decide_ext.
  rewrite Hv. apply fmap_is_Some.
Qed.

Lemma find_node s ix ps X k b l : idx_inv s ix ps X → ps !! k = Some (b, l) →
  find k (index_map s) = Some b.
Proof. intros [_ Hv _] Hk. by rewrite find_spec, Hv, Hk. Qed.

Lemma get_node_ok {B} (f : pmemkv C → gmap nat (option B)) s k m :
  f s !! k = Some (Some m) → get_node f (Some k) s = Done (m, s).
Proof. intros Hk. unfold get_node. cbn. by rewrite Hk. Qed.

Lemma put_meta_ok s k m : is_Some (metas s !! k) →
  put_meta (Some k) m s = Done (tt, set_metas (<[k := Some m]> (metas s)) s).
Proof. intros Hk. unfold put_meta. by rewrite decide_True. Qed.

Lemma put_list_ok s k l : is_Some (lists s !! k) →
  put_list (Some k) l s = Done (tt, set_lists (<[k := Some l]> (lists s)) s).
Proof. intros Hk. unfold put_list. by rewrite decide_True. Qed.

Lemma fill_meta_ok s k e : entry_ok (mem s) e → is_Some (metas s !! k) →
  fill_meta (Some k) (e_addr e) s =
    Done (esize e, set_metas (<[k := Some (mk_block_meta None (e_data e) (esize e))]> (metas s)) s).
Proof.
  intros He Hk. unfold fill_meta.
  eapply bind_step; [eapply deref_word_ok, eo_data; exact He|].
  eapply bind_step; [eapply deref_word_ok, eo_size; exact He|].
  eapply bind_step; [by apply put_meta_ok|done].
Qed.

Lemma u64_add a b : u64 (u64 a + b) = u64 (a + b).
Proof. unfold u64. by rewrite Zplus_mod_idemp_l. Qed.

(** ** Runs of the two paths when [malloc] serves them *)
Lemma update_first_run s e :
  entry_ok (mem s) e →
  can_alloc (mallocs s) sizeof_block_meta = true →
  can_alloc (S (mallocs s)) sizeof_block_meta_list = true →
  update_meta_first (e_addr e) s =
    let p := mallocs s in
    Done (0, mk_pmemkv (bp s) (insert_new (e_key e) (S p) (index_map s))
      (u64 (bytes_allocated s + (sizeof_block_meta + sizeof_block_meta_list))) (pmem s)
      (<[p := Some (mk_block_meta None (e_data e) (esize e))]> (metas s))
      (<[S p := Some (mk_block_meta_list (Some p) (Some p) (u64 (esize e)) 1)]> (lists s))
      (S (S p))).
Proof.
  intros He H1 H2. unfold update_meta_first.
  eapply bind_step; [unfold malloc_meta; rewrite H1; reflexivity|].
  rewrite decide_False by done. eapply bind_step; [reflexivity|].
  eapply bind_step; [apply (fill_meta_ok _ _ e); [exact He|cbn; rewrite lookup_insert_eq; eauto]|].
  cbn -[u64]. rewrite insert_insert_eq.
  eapply bind_step; [unfold malloc_list; cbn -[u64]; rewrite H2; reflexivity|].
  rewrite decide_False by done. eapply bind_step; [reflexivity|].
  eapply bind_step; [apply put_list_ok; cbn; rewrite lookup_insert_eq; eauto|].
  eapply bind_step; [eapply deref_word_ok, eo_key; exact He|].
  cbn -[u64]. unfold mbind, st_bind, st_modify, mret, st_ret, set_lists, set_index_map. cbn -[u64].
  rewrite insert_insert_eq, u64_add. by rewrite Z.add_assoc.
Qed.

Lemma update_append_run s e b l t m :
  entry_ok (mem s) e → find (e_key e) (index_map s) = Some b →
  lists s !! b = Some (Some l) → bml_tail l = Some t → t ≠ mallocs s →
  metas s !! t = Some (Some m) →
  can_alloc (mallocs s) sizeof_block_meta = true →
  update_meta_append (e_addr e) s =
    let p := mallocs s in
    Done (0, mk_pmemkv (bp s) (index_map s) (u64 (bytes_allocated s + sizeof_block_meta)) (pmem s)
      (<[t := Some (mk_block_meta (Some p) (bm_off m) (bm_size m))]>
         (<[p := Some (mk_block_meta None (e_data e) (esize e))]> (metas s)))
      (<[b := Some (mk_block_meta_list (bml_head l) (Some p)
              (u64 (bml_total_size l + esize e)) (u64 (bml_length l + 1)))]> (lists s))
      (S p)).
Proof.
  intros He Hf Hl Ht Htp Hm H1. unfold update_meta_append.
  eapply bind_step; [eapply deref_word_ok, eo_key; exact He|].
  eapply bind_step; [reflexivity|]. rewrite Hf.
  eapply bind_step; [unfold malloc_meta; rewrite H1; reflexivity|].
  rewrite decide_False by done. eapply bind_step; [reflexivity|].
  eapply bind_step; [apply (fill_meta_ok _ _ e); [exact He|cbn; rewrite lookup_insert_eq; eauto]|].
  cbn -[u64]. rewrite insert_insert_eq.
  eapply bind_step; [apply get_node_ok; exact Hl|]. rewrite Ht.
  assert (<[mallocs s := Some (mk_block_meta None (e_data e) (esize e))]> (metas s) !! t
            = Some (Some m)) as Hm' by by rewrite lookup_insert_ne.
  eapply bind_step; [apply get_node_ok; exact Hm'|].
  eapply bind_step; [apply put_meta_ok; cbn; rewrite Hm'; eauto|].
  eapply bind_step; [apply put_list_ok; cbn; rewrite Hl; eauto|]. done.
Qed.

(** ** The refused requests *)
Lemma malloc_meta_refused s : can_alloc (mallocs s) sizeof_block_meta = false →
  malloc_meta s = Done (None, set_mallocs (S (mallocs s)) s).
Proof. intros H1. unfold malloc_meta. by rewrite H1. Qed.

Lemma update_first_refused s bep : can_alloc (mallocs s) sizeof_block_meta = false →
  update_meta_first bep s = Done (-1, set_mallocs (S (mallocs s)) s).
Proof. intros H1. eapply bind_step; [by apply malloc_meta_refused|done]. Qed.

Lemma update_append_refused s e : entry_ok (mem s) e →
  can_alloc (mallocs s) sizeof_block_meta = false →
  update_meta_append (e_addr e) s = Done (-1, set_mallocs (S (mallocs s)) s).
Proof.
  intros He H1. eapply bind_step; [eapply deref_word_ok, eo_key; exact He|].
  eapply bind_step; [reflexivity|].
  eapply bind_step; [by apply malloc_meta_refused|done].
Qed.

(** The list node is refused after the block node was taken: the latter is lost. *)
Lemma update_first_leaks s e : entry_ok (mem s) e →
  can_alloc (mallocs s) sizeof_block_meta = true →
  can_alloc (S (mallocs s)) sizeof_block_meta_list = false →
  update_meta_first (e_addr e) s =
    let p := mallocs s in
    Done (-1, mk_pmemkv (bp s) (index_map s) (u64 (bytes_allocated s + sizeof_block_meta)) (pmem s)
      (<[p := Some (mk_block_meta None (e_data e) (esize e))]> (metas s)) (lists s) (S (S p))).
Proof.
  intros He H1 H2. unfold update_meta_first.
  eapply bind_step; [unfold malloc_meta; rewrite H1; reflexivity|].
  rewrite decide_False by done. eapply bind_step; [reflexivity|].
  eapply bind_step; [apply (fill_meta_ok _ _ e); [exact He|cbn; rewrite lookup_insert_eq; eauto]|].
  cbn -[u64]. rewrite insert_insert_eq.
  eapply bind_step; [unfold malloc_list; cbn -[u64]; rewrite H2; reflexivity|].
  by rewrite decide_True.
Qed.

(** ** [update_meta] keeps the index in order *)
Lemma metas_of_new ix e : (∀ j, j ≠ e_key e → metas_of (ix ++ [e]) j = metas_of ix j) ∧
  metas_of (ix ++ [e]) (e_key e) = metas_of ix (e_key e) ++ [(e_data e, esize e)].
Proof.
  split; [intros j Hj|]; rewrite metas_of_snoc.
  - rewrite decide_False by done. by rewrite app_nil_r.
  - by rewrite decide_True.
Qed.

Lemma view_insert_new k v (m : cmap C) ps w l : (∀ j, view m !! j = fst <$> ps !! j) → ps !! k = None →
  v = w → ∀ j, view (insert_new k v m) !! j = fst <$> (<[k := (w, l)]> ps : nodes) !! j.
Proof.
  intros Hv Hk -> j. rewrite insert_spec, decide_False.
  2:{ rewrite Hv, Hk. by intros []. }
  destruct (decide (k = j)) as [->|Hne].
  - by rewrite !lookup_insert_eq.
  - by rewrite !lookup_insert_ne.
Qed.

Lemma idx_inv_first s ix ps X e : idx_inv s ix ps X → ps !! e_key e = None →
  let p := mallocs s in
  idx_inv (mk_pmemkv (bp s) (insert_new (e_key e) (S p) (index_map s))
      (u64 (bytes_allocated s + (sizeof_block_meta + sizeof_block_meta_list))) (pmem s)
      (<[p := Some (mk_block_meta None (e_data e) (esize e))]> (metas s))
      (<[S p := Some (mk_block_meta_list (Some p) (Some p) (u64 (esize e)) 1)]> (lists s))
      (S (S p)))
    (ix ++ [e]) (<[e_key e := (S p, [p])]> ps) X.
Proof.
  intros [Hd Hv Hb] Hk p. destruct (metas_of_new ix e) as [Hj He]. split; cbn -[u64].
  - pose proof (dram_inv_first _ _ _ _ _ (metas_of (ix ++ [e])) X _ (e_data e) (esize e) p (S p) Hd Hk)
      as Hf. unfold p in *. replace (S (S (mallocs s))) with (S (Nat.max (mallocs s) (S (mallocs s)))) by lia.
    apply Hf; [|done|lia|lia]. rewrite He. by rewrite (di_none _ _ _ _ _ _ Hd _ Hk).
  - by apply view_insert_new.
  - rewrite Hb, u64_add, weight_insert by done. cbn [length]. f_equal. lia.
Qed.

Lemma idx_inv_append s ix ps X e b l t m : idx_inv s ix ps X → ps !! e_key e = Some (b, l) →
  l !! (length l - 1)%nat = Some t → metas s !! t = Some (Some m) → bm_next m = None →
  let p := mallocs s in
  let vs := metas_of ix (e_key e) in
  idx_inv (mk_pmemkv (bp s) (index_map s) (u64 (bytes_allocated s + sizeof_block_meta)) (pmem s)
      (<[t := Some (mk_block_meta (Some p) (bm_off m) (bm_size m))]>
         (<[p := Some (mk_block_meta None (e_data e) (esize e))]> (metas s)))
      (<[b := Some (mk_block_meta_list (l !! 0%nat) (Some p)
              (u64 (u64 (sizes vs) + esize e)) (u64 (u64 (Z.of_nat (length l)) + 1)))]> (lists s))
      (S p))
    (ix ++ [e]) (<[e_key e := (b, l ++ [p])]> ps) X.
Proof.
  intros [Hd Hv Hb] Hk Hl Ht Hn p vs. destruct (metas_of_new ix e) as [Hj He].
  destruct m as [? o n]; cbn in Hn; subst. split; cbn -[u64].
  - by apply (dram_inv_append _ _ (mallocs s)).
  - intros j. rewrite Hv. destruct (decide (e_key e = j)) as [<-|Hne].
    + by rewrite lookup_insert_eq, Hk.
    + by rewrite lookup_insert_ne.
  - rewrite Hb, u64_add, (weight_extend _ _ b l) by done. f_equal. lia.
Qed.

Lemma idx_inv_refused s ix ps X : idx_inv s ix ps X →
  idx_inv (set_mallocs (S (mallocs s)) s) ix ps X.
Proof.
  intros [Hd Hv Hb]. split; [|done|done]. eapply dram_inv_fresh; [|exact Hd]. cbn. lia.
Qed.

Lemma idx_inv_leaks s ix ps X m : idx_inv s ix ps X →
  let p := mallocs s in
  idx_inv (mk_pmemkv (bp s) (index_map s) (u64 (bytes_allocated s + sizeof_block_meta)) (pmem s)
      (<[p := m]> (metas s)) (lists s) (S (S p))) ix ps ({[p]} ∪ X).
Proof.
  intros [Hd Hv Hb] p.
  assert (p ∉ X) as HpX.
  { intros Hin. assert (is_Some (metas s !! p)) as [? ?] by (apply (di_metas _ _ _ _ _ _ Hd); by left).
    destruct (di_fresh _ _ _ _ _ _ Hd p) as [? _]; [done|congruence]. }
  split; cbn -[u64]; [|done|].
  - eapply dram_inv_fresh; [|by apply (dram_inv_orphan _ _ (mallocs s))]. lia.
  - rewrite Hb, u64_add, size_union, size_singleton by set_solver. f_equal. lia.
Qed.

(** What one call may do to the set of lost nodes. *)
Definition update_outcome s (ix : list entry) (X : gset nat) e (r : Z) ix' X' : Prop :=
  (r = 0 ∧ ix' = ix ++ [e] ∧ X' = X) ∨
  (r = -1 ∧ ix' = ix ∧ (X' = X ∨ X' = {[mallocs s]} ∪ X) ∧ ¬ TotalAllocator).

Lemma update_meta_ok s ix ps X e : idx_inv s ix ps X → entry_ok (mem s) e →
  ∃ r s' ix' ps' X', update_meta (e_addr e) s = Done (r, s') ∧ same_pm s s' ∧
    idx_inv s' ix' ps' X' ∧ update_outcome s ix X e r ix' X'.
Proof.
  intros Hi He. pose proof Hi as [Hd _ _]. unfold update_outcome.
  assert (∀ k n, can_alloc k n = false → 0 ≤ n < 2147483648 → ¬ TotalAllocator) as Hnt.
  { intros k n Hf Hn Ht. rewrite Ht in Hf; done. }
  unfold update_meta.
  assert (∀ r, (if contains (e_key e) (index_map s) then update_meta_append (e_addr e)
                else update_meta_first (e_addr e)) s = Done r →
    (key ← deref_word (e_addr e + off_key); s ← st_get;
     if contains key (index_map s) then update_meta_append (e_addr e)
     else update_meta_first (e_addr e)) s = Done r) as Hrun.
  { intros r Hr. eapply bind_step; [eapply deref_word_ok, eo_key; exact He|].
    eapply bind_step; [reflexivity|]. exact Hr. }
  rewrite (contains_node s ix ps X) in Hrun by done.
  destruct (can_alloc (mallocs s) sizeof_block_meta) eqn:H1.
  - destruct (ps !! e_key e) as [[b l]|] eqn:Hk.
    + destruct (dram_inv_tail _ _ _ _ _ _ _ _ _ Hd Hk) as (t & o & n & Hl & Hlt & Ht).
      do 5 eexists. split; [apply Hrun; apply (update_append_run s e b); [done|by eapply find_node|
        by apply (di_list _ _ _ _ _ _ Hd)|exact Hl|lia|exact Ht|done]|].
      split; [done|]. split; [by eapply idx_inv_append|]. by left.
    + destruct (can_alloc (S (mallocs s)) sizeof_block_meta_list) eqn:H2.
      * do 5 eexists. split; [apply Hrun; by apply update_first_run|].
        split; [done|]. split; [by apply idx_inv_first|]. by left.
      * do 5 eexists. split; [apply Hrun; by apply update_first_leaks|].
        split; [done|]. split; [by apply idx_inv_leaks|]. right. split_and!; eauto.
        by eapply Hnt.
  - do 5 eexists. split.
    { apply Hrun. case_bool_decide; [by apply update_append_refused|by apply update_first_refused]. }
    split; [done|]. split; [by apply idx_inv_refused|]. right. split_and!; eauto.
    by eapply Hnt.
Qed.

End update.
