(* ===== verification/PmemKVLoops.v ===== *)
(** * The loops over the DRAM index

    Each loop of pmemkv.h over a chain of meta nodes, run against the list of blocks the
    chain stands for.  The fuel the definitions use, one more than the number of live
    nodes, is always enough ([chain_fuel]). *)
From S2P Require Import Prelude XXHash CHeap PMem Cuckoo PmemKV PmemKVList PmemKVStore.
From S2P Require Import PmemKVIndex PmemKVUpdate.

(** The pairs the index holds for a list of blocks. *)
Definition spans (es : list entry) : list (Z * Z) := (λ e, (e_data e, esize e)) <$> es.

Lemma total_nonneg es : 0 ≤ total es.
Proof.
  induction es as [|e es IH]; cbn; [lia|]. pose proof (esize_nonneg e). unfold total in *. lia.
Qed.

Lemma total_elem es e : e ∈ es → esize e ≤ total es.
Proof.
  induction es as [|e' es IH]; intros He; [by apply elem_of_nil in He|]. cbn.
  pose proof (total_nonneg es). pose proof (esize_nonneg e'). unfold total in *.
  apply elem_of_cons in He as [->|He]; [lia|]. specialize (IH He). lia.
Qed.

Lemma total_length es : Z.of_nat (length (mjoin (e_bytes <$> es))) = total es.
Proof.
  induction es as [|e es IH]; [done|].
  change (mjoin (e_bytes <$> e :: es)) with (e_bytes e ++ mjoin (e_bytes <$> es)).
  change (total (e :: es)) with (esize e + total es). rewrite length_app. unfold esize. lia.
Qed.

(** The whole blocks, from the front, that fit into [room] bytes. *)
Fixpoint fit (room : Z) (bs : list (list byte)) : list byte :=
  match bs with
  | [] => []
  | b :: bs =>
      if decide (Z.of_nat (length b) ≤ room) then b ++ fit (room - Z.of_nat (length b)) bs else []
  end.

Lemma fit_length room bs : 0 ≤ room → Z.of_nat (length (fit room bs)) ≤ room.
Proof.
  revert room. induction bs as [|b bs IH]; intros room Hr; cbn; [lia|].
  case_decide as Hd; cbn; [|lia]. rewrite length_app.
  specialize (IH (room - Z.of_nat (length b)) ltac:(lia)). lia.
Qed.

(** With room for everything, everything is copied. *)
Lemma fit_all room es : total es ≤ room → fit room (e_bytes <$> es) = mjoin (e_bytes <$> es).
Proof.
  revert room. induction es as [|e es IH]; intros room Hr; [done|]. cbn in *.
  pose proof (total_nonneg es). unfold total, esize in *.
  rewrite decide_True by lia. f_equal. apply IH. lia.
Qed.

(** The same blocks, if the data of none of them was lost. *)
Fixpoint fetch (room : Z) (es : list entry) : option (list byte) :=
  match es with
  | [] => Some []
  | e :: es =>
      if decide (esize e ≤ room) then
        if decide (stored e) then app (e_bytes e) <$> fetch (room - esize e) es else None
      else Some []
  end.

Lemma fetch_stored room es : (∀ e, e ∈ es → stored e) →
  fetch room es = Some (fit room (e_bytes <$> es)).
Proof.
  revert room. induction es as [|e es IH]; intros room Hst; [done|]. cbn. fold (esize e).
  case_decide; [|done]. rewrite decide_True by (apply Hst; by left).
  rewrite IH; [done|]. intros e' He'. apply Hst. by right.
Qed.

(** Room for stored blocks and one more: all of them, if the last is stored too. *)
Lemma fetch_last room es e : (∀ e, e ∈ es → stored e) → total es + esize e ≤ room →
  fetch room (es ++ [e]) =
    if decide (stored e) then Some (mjoin (e_bytes <$> es) ++ e_bytes e) else None.
Proof.
  revert room. induction es as [|e' es IH]; intros room Hst Hr; cbn in Hr |- *.
  - rewrite decide_True by lia. case_decide; [|done]. cbn. by rewrite app_nil_r.
  - pose proof (total_nonneg es). pose proof (esize_nonneg e). unfold total in *.
    rewrite decide_True by lia. rewrite decide_True by (apply Hst; by left).
    rewrite IH; [|intros; apply Hst; by right|lia].
    case_decide; [|done]. cbn. by rewrite app_assoc.
Qed.

Lemma chain_fuel {A} (M : gmap nat A) l : NoDup l → (∀ p, p ∈ l → is_Some (M !! p)) →
  (length l ≤ size M)%nat.
Proof.
  intros Hnd Hl. rewrite <-(size_list_to_set (C := gset nat) l) by done.
  rewrite <-size_dom. apply subseteq_size. intros p Hp%elem_of_list_to_set.
  apply elem_of_dom, Hl, Hp.
Qed.

Section loops.
Context `{P : PMem, HP : !PMemSpec, C : CuckooMap nat, HC : !CuckooSpec C, A : Allocator}.
Implicit Types s : pmemkv C.

(** ** get *)

(** A block without its data is behind the null address, which cannot be read. *)
Lemma deref_lost s e : ¬ stored e → deref_range (e_data e) (esize e) s = Undefined.
Proof.
  intros [Hd Hn]%not_stored. unfold deref_range. rewrite mapped_spec, Hd.
  destruct (read_range (contents (pmem s)) 0 (esize e)) eqn:E; [|done].
  assert (is_Some (read_range (contents (pmem s)) 0 (esize e))) as Hs by eauto.
  apply read_range_mapped in Hs. destruct (Hs 0) as [v Hv]; [lia|].
  by rewrite null_unmapped in Hv.
Qed.

Lemma get_loop_ok s es : ∀ fuel l off mb acc rest,
  chain (metas s) l (spans es) → (length l < fuel)%nat →
  (∀ e, e ∈ es → entry_ok (mem s) e ∧ is_u64 (mb_size mb + esize e)) →
  mb_data mb = acc ++ rest → Z.of_nat (length acc) = off →
  off ≤ mb_size mb ≤ Z.of_nat (length (mb_data mb)) →
  get_loop fuel (l !! 0%nat) off mb s =
    match fetch (mb_size mb - off) es with
    | Some bs => Done (mk_memory_block (acc ++ (Some <$> bs) ++ drop (length bs) rest)
                         (mb_size mb), s)
    | None => Undefined
    end.
Proof.
  induction es as [|e es IH]; intros fuel l off mb acc rest Hc Hfuel He Hd Hacc Hoff.
  - destruct l; [|done]. cbn. rewrite drop_0. destruct fuel, mb; cbn in *; by subst.
  - destruct l as [|p l]; [done|]. destruct Hc as [Hp Hc]. cbn [length] in Hfuel.
    destruct fuel as [|fuel]; [lia|]. cbn [lookup list_lookup get_loop].
    destruct (He e) as [Hr Hu]; [by left|].
    eapply bind_step; [by apply get_node_ok|]. cbn [bm_size bm_off bm_next].
    pose proof (esize_nonneg e).
    rewrite u64_id by (unfold is_u64 in *; lia). cbn [fetch].
    case_decide as Hle; [|case_decide; [lia|]].
    + rewrite decide_True by lia. case_decide as Hst.
      2:{ apply bind_undefined. by apply deref_lost. }
      eapply bind_step; [by apply deref_range_ok, stored_bytes|].
      assert (length (e_bytes e) ≤ length rest)%nat as Hroom.
      { rewrite Hd, length_app in Hoff. unfold esize in *. lia. }
      eapply bind_step.
      { unfold st_lift. rewrite Hd, memcpy_middle; [reflexivity|by rewrite Hacc| |];
          unfold esize; by rewrite ?length_fmap. }
      eapply bind_step; [cbn [mb_size]; rewrite bool_decide_true by done; reflexivity|].
      rewrite (IH _ _ _ _ (acc ++ (Some <$> e_bytes e)) (drop (length (e_bytes e)) rest));
        cbn [mb_size mb_data]; [|done|lia| | | |].
      * replace (mb_size mb - (off + esize e)) with (mb_size mb - off - esize e) by lia.
        destruct (fetch _ es) as [bs|]; [|done]. cbn [fmap option_fmap option_map].
        do 3 f_equal. by rewrite fmap_app, <-!app_assoc, length_app, drop_drop.
      * intros e' He'. apply He. by right.
      * by rewrite <-app_assoc, length_fmap.
      * rewrite length_app, length_fmap. unfold esize. lia.
      * rewrite !length_app, length_fmap, length_drop.
        rewrite Hd, length_app in Hoff. unfold esize in *. lia.
    + cbn. rewrite drop_0. destruct mb; cbn in *; by subst.
Qed.

(** ** get_meta *)

(** The words of the array: offset and size of each block in turn. *)
Definition words (vs : list (Z * Z)) : list Z := v ← vs; [v.1; v.2].

Lemma words_length vs : length (words vs) = (2 * length vs)%nat.
Proof. unfold words. induction vs as [|v vs IH]; cbn; [done|]. cbn in IH. lia. Qed.

Lemma set_word_middle acc x rest v :
  set_word (Some (acc ++ x :: rest)) (length acc) v = Done (Some (acc ++ Some v :: rest)).
Proof.
  unfold set_word. cbn. rewrite decide_True by (rewrite length_app; cbn; lia).
  do 2 f_equal. by rewrite insert_app_r_alt, Nat.sub_diag by lia.
Qed.

Lemma get_meta_loop_ok s : ∀ vs fuel l acc rest,
  chain (metas s) l vs → (length l < fuel)%nat → (2 * length vs ≤ length rest)%nat →
  get_meta_loop fuel (l !! 0%nat) (length acc) (Some (acc ++ rest)) s =
    Done ((length acc + 2 * length vs)%nat,
          Some (acc ++ (Some <$> words vs) ++ drop (2 * length vs) rest), s).
Proof.
  induction vs as [|[o n] vs IH]; intros fuel l acc rest Hc Hfuel Hroom.
  - destruct l; [|done]. cbn. rewrite drop_0, Nat.add_0_r. by destruct fuel.
  - destruct l as [|p l]; [done|]. destruct Hc as [Hp Hc]. cbn [length] in *.
    destruct fuel as [|fuel]; [lia|]. cbn [lookup list_lookup get_meta_loop].
    destruct rest as [|x [|y rest]]; cbn [length] in *; [lia|lia|].
    eapply bind_step; [by rewrite bool_decide_true|].
    eapply bind_step; [by apply get_node_ok|]. cbn [bm_size bm_off bm_next].
    eapply bind_step; [unfold st_lift; by rewrite set_word_middle|].
    replace (acc ++ Some o :: y :: rest) with ((acc ++ [Some o]) ++ y :: rest)
      by by rewrite <-app_assoc.
    replace (S (length acc)) with (length (acc ++ [Some o])) by (rewrite length_app; cbn; lia).
    eapply bind_step; [unfold st_lift; by rewrite set_word_middle|].
    replace ((acc ++ [Some o]) ++ Some n :: rest) with ((acc ++ [Some o; Some n]) ++ rest)
      by by rewrite <-!app_assoc.
    replace (S (length (acc ++ [Some o]))) with (length (acc ++ [Some o; Some n]))
      by (rewrite !length_app; cbn; lia).
    rewrite (IH _ _ _ rest) by (done || lia).
    replace (2 * S (length vs))%nat with (S (S (2 * length vs))) by lia.
    rewrite length_app, <-app_assoc. cbn [length]. do 3 f_equal. lia.
Qed.

(** An array too short for the index is overrun. *)
Lemma get_meta_loop_overrun s : ∀ vs fuel l acc rest,
  chain (metas s) l vs → (length l < fuel)%nat → (length rest < 2 * length vs)%nat →
  get_meta_loop fuel (l !! 0%nat) (length acc) (Some (acc ++ rest)) s = Undefined.
Proof.
  induction vs as [|[o n] vs IH]; intros fuel l acc rest Hc Hfuel Hroom; [cbn in *; lia|].
  destruct l as [|p l]; [done|]. destruct Hc as [Hp Hc]. cbn [length] in *.
  destruct fuel as [|fuel]; [lia|]. cbn [lookup list_lookup get_meta_loop].
  eapply bind_step; [by rewrite bool_decide_true|].
  eapply bind_step; [by apply get_node_ok|]. cbn [bm_size bm_off bm_next].
  destruct rest as [|x rest].
  { apply bind_undefined. unfold st_lift, set_word. cbn.
    rewrite app_nil_r, decide_False; [done|lia]. }
  eapply bind_step; [unfold st_lift; by rewrite set_word_middle|].
  replace (acc ++ Some o :: rest) with ((acc ++ [Some o]) ++ rest) by by rewrite <-app_assoc.
  replace (S (length acc)) with (length (acc ++ [Some o])) by (rewrite length_app; cbn; lia).
  destruct rest as [|y rest].
  { apply bind_undefined. unfold st_lift, set_word. cbn.
    rewrite app_nil_r, decide_False; [done|lia]. }
  eapply bind_step; [unfold st_lift; by rewrite set_word_middle|].
  replace ((acc ++ [Some o]) ++ Some n :: rest) with ((acc ++ [Some o; Some n]) ++ rest)
    by by rewrite <-!app_assoc.
  replace (S (length (acc ++ [Some o]))) with (length (acc ++ [Some o; Some n]))
    by (rewrite !length_app; cbn; lia).
  apply IH; cbn [length] in *; (done || lia).
Qed.

(** ** dump_meta *)
Lemma dump_metas_ok s : ∀ vs fuel l, chain (metas s) l vs → (length l < fuel)%nat →
  dump_metas fuel (l !! 0%nat) s = Done (vs, s).
Proof.
  induction vs as [|[o n] vs IH]; intros fuel l Hc Hfuel; (destruct l as [|p l]; [try done|try done]).
  - by destruct fuel.
  - destruct Hc as [Hp Hc]. cbn [length] in *. destruct fuel as [|fuel]; [lia|].
    cbn [lookup list_lookup dump_metas].
    eapply bind_step; [by apply get_node_ok|]. cbn [bm_next].
    eapply bind_step; [apply IH; [done|lia]|done].
Qed.

(** ** free_meta *)
Lemma set_metas_same s : set_metas (metas s) s = s.
Proof. by destruct s. Qed.
Lemma set_bytes_same s : set_bytes_allocated (bytes_allocated s) s = s.
Proof. by destruct s. Qed.

Lemma free_metas_ok : ∀ vs fuel l s, chain (metas s) l vs → (length l < fuel)%nat → NoDup l →
  is_u64 (bytes_allocated s) →
  ∃ M, free_metas fuel (l !! 0%nat) s =
         Done (tt, set_bytes_allocated
                     (u64 (bytes_allocated s - sizeof_block_meta * Z.of_nat (length l)))
                     (set_metas M s)) ∧
       (∀ p, M !! p = if decide (p ∈ l) then None else metas s !! p).
Proof.
  induction vs as [|[o n] vs IH]; intros fuel l s Hc Hfuel Hnd Hb;
    (destruct l as [|p l]; [try done|try done]).
  - exists (metas s). split; [|intros p; by rewrite decide_False by set_solver].
    rewrite set_metas_same, Z.mul_0_r, Z.sub_0_r, u64_id, set_bytes_same by done.
    by destruct fuel.
  - destruct Hc as [Hp Hc]. cbn [length] in *. destruct fuel as [|fuel]; [lia|].
    apply list.NoDup_cons in Hnd as [Hpl Hnd]. cbn [lookup list_lookup free_metas].
    set (s1 := set_bytes_allocated (u64 (bytes_allocated s + - sizeof_block_meta))
                 (set_metas (delete p (metas s)) s)).
    destruct (IH fuel l s1) as (M & E & HM); [|lia|done|apply u64_range|].
    { eapply chain_frame; [|exact Hc]. intros q Hq. cbn. apply lookup_delete_ne. by intros ->. }
    exists M. split.
    + eapply bind_step; [by apply get_node_ok|]. cbn [bm_size bm_off bm_next].
      eapply bind_step; [apply put_meta_ok; by eauto|].
      eapply bind_step.
      { unfold free_meta_node. cbn. rewrite decide_True by (rewrite lookup_insert_eq; eauto).
        rewrite delete_insert_eq. reflexivity. }
      eapply bind_step; [reflexivity|].
      etransitivity; [exact E|]. unfold s1. cbn -[u64]. f_equal. f_equal. unfold set_bytes_allocated, set_metas.
      cbn -[u64]. f_equal. unfold sizeof_block_meta. word_lia.
    + intros q. rewrite HM. cbn. destruct (decide (q = p)) as [->|Hq].
      * rewrite (decide_False (P := p ∈ l)) by done. rewrite decide_True by set_solver.
        apply lookup_delete_eq.
      * rewrite lookup_delete_ne by done. repeat case_decide; set_solver.
Qed.

(** One list of the index is gone. *)
Lemma dram_inv_delete M M' L fresh ps vals X k b l :
  dram_inv M L fresh ps vals X → ps !! k = Some (b, l) →
  (∀ p, M' !! p = if decide (p ∈ l) then None else M !! p) →
  dram_inv M' (delete b L) fresh (delete k ps) (λ j, if decide (j = k) then [] else vals j) X.
Proof.
  intros [Hne Hch Hli Hno Hap Hor HM HL Hfr] Hk HM'.
  assert (∀ j c l', delete k ps !! j = Some (c, l') →
    j ≠ k ∧ ps !! j = Some (c, l') ∧ c ≠ b ∧ ∀ p, p ∈ l' → p ∉ l) as Hdel.
  { intros j c l' [Hjk Hj]%lookup_delete_Some. destruct (Hap j k _ _ _ _ Hj Hk) as [? ?]; [done|].
    done. }
  split.
  - intros j c l' (_ & Hj & _)%Hdel. eauto.
  - intros j c l' (Hjk & Hj & _ & Hd)%Hdel. rewrite decide_False by done.
    eapply chain_frame; [|by eauto]. intros p Hp. rewrite HM'. by rewrite decide_False by eauto.
  - intros j c l' (Hjk & Hj & Hc & Hd)%Hdel. rewrite decide_False by done.
    rewrite lookup_delete_ne by done. eauto.
  - intros j Hj. case_decide; [done|]. apply Hno. by rewrite lookup_delete_ne in Hj.
  - intros k1 k2 b1 l1 b2 l2 (_ & H1 & _)%Hdel (_ & H2 & _)%Hdel. eauto.
  - intros j c l' p (_ & Hj & _)%Hdel. eauto.
  - intros p. rewrite HM'. case_decide as Hpl.
    + split; [by intros []|]. intros [Hx|(j & c & l' & (_ & _ & _ & Hd)%Hdel & Hp)].
      * by destruct (Hor _ _ _ _ Hk Hpl). * by destruct (Hd p Hp).
    + rewrite HM. split; (intros [Hx|(j & c & l' & Hj & Hp)]; [by left|right]).
      * exists j, c, l'. rewrite lookup_delete_ne; [done|]. intros <-.
        rewrite Hk in Hj. by injection Hj as <- <-.
      * apply Hdel in Hj as (_ & Hj & _). eauto.
  - intros c. destruct (decide (c = b)) as [->|Hcb].
    + rewrite lookup_delete_eq. split; [by intros []|]. by intros (j & l' & (_ & _ & ? & _)%Hdel).
    + rewrite lookup_delete_ne, HL by done. split; intros (j & l' & Hj).
      * exists j, l'. rewrite lookup_delete_ne; [done|]. intros <-. congruence.
      * apply Hdel in Hj as (_ & Hj & _). eauto.
  - intros p Hp. destruct (Hfr p Hp) as [H1 H2]. rewrite HM', lookup_delete_None, H1.
    split; [by case_decide|by right].
Qed.

(** The part of [idx_inv] that holds while the table is being released. *)
Record releasing s (ps : nodes) (X : gset nat) : Prop := {
  re_dram : ∃ vals, dram_inv (metas s) (lists s) (mallocs s) ps vals X;
  re_bytes : bytes_allocated s = u64 (weight ps + sizeof_block_meta * Z.of_nat (size X))
}.

Lemma live_fuel s ps vals X k b l : dram_inv (metas s) (lists s) (mallocs s) ps vals X →
  ps !! k = Some (b, l) → (length l < S (size (metas s)))%nat.
Proof.
  intros Hd Hk. apply Nat.lt_succ_r, chain_fuel.
  - by apply (di_nonempty _ _ _ _ _ _ Hd k b).
  - intros p Hp. apply (di_metas _ _ _ _ _ _ Hd). eauto 6.
Qed.

Lemma free_bml_ok s ps X k b l : releasing s ps X → ps !! k = Some (b, l) →
  ∃ s', free_bml b s = Done (tt, s') ∧ releasing s' (delete k ps) X ∧ same_pm s s' ∧
        index_map s' = index_map s.
Proof.
  intros [[vals Hd] Hb] Hk. pose proof (live_fuel _ _ _ _ _ _ _ Hd Hk) as Hfuel.
  pose proof (di_list _ _ _ _ _ _ Hd _ _ _ Hk) as Hl.
  destruct (free_metas_ok (vals k) (S (size (metas s))) l s) as (M & E & HM); [|done| | |].
  { by apply (di_chain _ _ _ _ _ _ Hd k b). } { by apply (di_nonempty _ _ _ _ _ _ Hd k b). }
  { rewrite Hb. apply u64_range. }
  eexists. split.
  - eapply bind_step; [by apply get_node_ok|]. cbn [bml_head].
    eapply bind_step; [reflexivity|]. eapply bind_step; [exact E|].
    eapply bind_step; [|reflexivity].
    unfold free_list_node. cbn. rewrite decide_True by (rewrite Hl; eauto). reflexivity.
  - split; [|done]. split; cbn -[u64].
    + eexists. eapply dram_inv_delete; [exact Hd|exact Hk|exact HM].
    + rewrite Hb, (weight_delete ps k b l) by done.
      generalize (weight (delete k ps)) (Z.of_nat (size X)) (Z.of_nat (length l)).
      intros x y z. unfold sizeof_block_meta, sizeof_block_meta_list, u64.
      rewrite Zminus_mod_idemp_l, Zplus_mod_idemp_l. f_equal. lia.
Qed.

Lemma free_table_ok : ∀ it s ps X, releasing s ps X → it ≡ₚ map_to_list (fst <$> ps) →
  ∃ s', free_table it s = Done (tt, s') ∧ releasing s' ∅ X ∧ same_pm s s' ∧
        index_map s' = index_map s.
Proof.
  induction it as [|[k b] it IH]; intros s ps X Hr Hit.
  - exists s. split_and!; try done. apply Permutation_nil, map_to_list_empty_iff in Hit.
    apply fmap_empty_iff in Hit. by subst.
  - assert (∃ l, ps !! k = Some (b, l)) as [l Hk].
    { assert ((k, b) ∈ map_to_list (fst <$> ps)) as Hin by (rewrite <-Hit; by left).
      apply elem_of_map_to_list, lookup_fmap_Some in Hin as ([? l] & Hbl & Hk). cbn in Hbl.
      subst. eauto. }
    destruct (free_bml_ok s ps X k b l Hr Hk) as (s1 & E1 & Hr1 & [Hp1 Hp2] & Hm1).
    destruct (IH s1 (delete k ps) X Hr1) as (s2 & E2 & Hr2 & [Hq1 Hq2] & Hm2).
    { rewrite fmap_delete. apply (Permutation_cons_inv (a := (k, b))). rewrite Hit.
      symmetry. apply map_to_list_delete. by rewrite lookup_fmap, Hk. }
    exists s2. split; [eapply bind_step; [exact E1|exact E2]|]. split; [exact Hr2|].
    split; [split|]; congruence.
Qed.

(** Releasing the index: the final assertion holds exactly when no node was lost. *)
Lemma free_meta_run s ix ps X : idx_inv s ix ps X →
  ∃ s', same_pm s s' ∧ idx_inv s' [] ∅ X ∧
    free_meta s = if decide (u64 (sizeof_block_meta * Z.of_nat (size X)) = 0)
                  then Done (0, s') else Assert_failed.
Proof.
  intros [Hd Hv Hb].
  destruct (free_table_ok (table (index_map s)) s ps X) as (s1 & E & [[vals Hd1] Hb1] & Hp & Hm).
  { split; [by eexists|done]. }
  { rewrite table_spec. f_equiv. apply map_eq. intros k. by rewrite Hv, lookup_fmap. }
  exists (set_index_map (clear (index_map s1)) s1). split_and!.
  - exact Hp.
  - split; cbn -[u64].
    + destruct Hd1. split; try done; by intros *; rewrite lookup_empty.
    + intros k. by rewrite clear_spec, !lookup_empty.
    + done.
  - unfold free_meta. eapply bind_step; [reflexivity|]. eapply bind_step; [exact E|].
    eapply bind_step; [reflexivity|]. eapply bind_step; [reflexivity|].
    cbn -[u64]. rewrite Hb1. change (weight ∅) with 0. rewrite Z.add_0_l.
    unfold mbind, st_bind, st_assert. case_decide as Hz.
    + by rewrite bool_decide_true. + by rewrite bool_decide_false.
Qed.

(** ** dump_meta's table walk *)
Definition table_lines (it : list (Z * nat)) (vals : Z → list (Z * Z)) : list (Z * Z) :=
  v ← it; vals v.1.

Lemma dump_table_ok s ps vals X : dram_inv (metas s) (lists s) (mallocs s) ps vals X →
  ∀ it, (∀ k b, (k, b) ∈ it → ∃ l, ps !! k = Some (b, l)) →
  dump_table it s = Done (table_lines it vals, s).
Proof.
  intros Hd. induction it as [|[k b] it IH]; intros Hit; [done|].
  destruct (Hit k b) as [l Hk]; [by left|].
  eapply bind_step; [eapply get_node_ok, (di_list _ _ _ _ _ _ Hd _ _ _ Hk)|]. cbn [bml_head].
  eapply bind_step; [reflexivity|].
  eapply bind_step.
  { apply dump_metas_ok; [by apply (di_chain _ _ _ _ _ _ Hd k b)|by eapply live_fuel]. }
  eapply bind_step; [apply IH; intros; apply Hit; by right|done].
Qed.

End loops.
