(* ===== verification/PmemKVWalk.v ===== *)
(** * The walks over the persistent list

    [dump_all] and [free_all] follow the links of the entries.  [linked] is what a walk
    from an address meets; [pm_linked] derives it from the invariant of the list. *)
From S2P Require Import Prelude XXHash CHeap PMem Cuckoo PmemKV PmemKVList PmemKVStore.
From S2P Require Import PmemKVUpdate PmemKVLoops.

Fixpoint linked (f : memory) (a : Z) (es : list entry) : Prop :=
  match es with
  | [] => a = 0
  | e :: es => a = e_addr e ∧ entry_ok f e ∧
      ∃ next, word_at f (e_addr e + off_next) = Some next ∧ linked f next es
  end.

Lemma pm_linked f b es : pm_inv f b es → linked f (addr_at es 0) es.
Proof.
  intros Hi. assert (∀ n i, (length es ≤ i + n)%nat → linked f (addr_at es i) (drop i es)) as H.
  2:{ specialize (H (length es) 0%nat). rewrite drop_0 in H. apply H. lia. }
  induction n as [|n IH]; intros i Hn.
  - rewrite drop_ge by lia. unfold addr_at. by rewrite lookup_ge_None_2 by lia.
  - destruct (es !! i) as [e|] eqn:Ei.
    + rewrite (drop_S _ _ _ Ei). unfold addr_at at 1. rewrite Ei. cbn. split; [done|].
      split; [by apply (pi_entries _ _ _ Hi i)|]. exists (addr_at es (S i)).
      split; [by apply (pi_links _ _ _ Hi)|]. apply IH. lia.
    + apply lookup_ge_None in Ei. rewrite drop_ge by lia. unfold addr_at.
      by rewrite lookup_ge_None_2 by lia.
Qed.

(** A walk does not notice writes elsewhere. *)
Lemma linked_frame f g es : (∀ x, is_Some (f x) → is_Some (g x)) → ∀ a,
  (∀ e x, e ∈ es → e_addr e ≤ x < e_addr e + sizeof_block_entry ∨
                   e_data e ≤ x < e_data e + dsize e → g x = f x) →
  linked f a es → linked g a es.
Proof.
  intros Hm. induction es as [|e es IH]; intros a Hg; [done|]. cbn.
  intros (-> & He & next & Hn & Hl). split; [done|]. split.
  - eapply entry_ok_frame; [exact He|exact Hm|]. intros x Hx. apply (Hg e); [by left|].
    unfold_layout. lia.
  - exists next. split; [|apply IH; [|done]; intros; eapply Hg; [by right|done]].
    rewrite <-Hn. apply word_ext. intros x Hx. apply (Hg e); [by left|]. unfold_layout. lia.
Qed.

Section walk.
Context `{P : PMem, HP : !PMemSpec, C : CuckooMap nat, A : Allocator}.
Implicit Types s : pmemkv C.

(** ** free_all's loop: every size is subtracted from [bytes_written] *)
Lemma free_entries_ok b : ∀ es fuel a s w,
  linked (mem s) a es → (∀ e, e ∈ es → alone b e) → (length es ≤ fuel)%nat →
  word_at (mem s) (b + off_bytes_written) = Some w →
  ∃ p, free_entries fuel b a s = Done (tt, set_pmem p s) ∧
       word_at (contents p) (b + off_bytes_written) = Some (u64 (w - total es)) ∧
       (∀ x, ¬ (b + off_bytes_written ≤ x < b + off_bytes_written + 8) → contents p x = mem s x) ∧
       (∀ x, is_Some (mem s x) → is_Some (contents p x)).
Proof.
  induction es as [|e es IH]; intros fuel a s w Hl Hal Hfuel Hw.
  - cbn in Hl. subst. exists (pmem s). rewrite set_pmem_pmem. split; [by destruct fuel|].
    cbn. rewrite Z.sub_0_r, u64_id by (by eapply word_range). done.
  - destruct Hl as (-> & He & next & Hn & Hl). destruct fuel as [|fuel]; [cbn in *; lia|].
    pose proof (eo_addr _ _ He).
    destruct (TBPSub_ok s (b + off_bytes_written) w (esize e) Hw) as (q & Eq & Gq).
    assert (∀ x, is_Some (mem s x) → is_Some (contents q x)) as Hgrow.
    { intros x Hx. rewrite Gq. by apply write_range_grows. }
    assert (∀ x, ¬ (b + off_bytes_written ≤ x < b + off_bytes_written + 8) →
      contents q x = mem s x) as Hsame.
    { intros x Hx. rewrite Gq. unfold write_range. rewrite length_le_encode.
      by rewrite decide_False by lia. }
    destruct (IH fuel next (set_pmem q s) (u64 (w - esize e))) as (p & Ep & Hwp & Hsp & Hgp).
    { eapply linked_frame; [exact Hgrow| |exact Hl]. intros e' x He' Hx. apply Hsame.
      destruct (Hal e') as (Ha1 & Ha2 & _); [by right|].
      intros Hin. destruct Hx; [apply (Ha1 x)|apply (Ha2 x)]; unfold_layout; lia. }
    { intros e' He'. apply Hal. by right. }
    { cbn in *. lia. }
    { change (mem (set_pmem q s)) with (contents q). rewrite Gq.
      apply word_write_same, u64_range. }
    exists p. split_and!.
    + cbn [free_entries]. rewrite decide_False by lia.
      eapply bind_step; [eapply TBPGet_ok, eo_size; exact He|].
      eapply bind_step; [eapply TBPGet_ok; exact Hn|].
      eapply bind_step; [exact Eq|]. exact Ep.
    + rewrite Hwp. f_equal. cbn. unfold u64, total. rewrite Zminus_mod_idemp_l. f_equal. lia.
    + intros x Hx. rewrite Hsp by done. by apply Hsame.
    + intros x Hx. by apply Hgp, Hgrow.
Qed.

(** ** dump_all's loop *)

(** The lines of the blocks, if each of them is stored and holds a zero byte. *)
Definition dump_line (e : entry) : option (Z * list byte) :=
  if decide (stored e) then pair (e_key e) <$> c_string (e_bytes e) else None.
Definition dump_lines (es : list entry) : option (list (Z * list byte)) := mapM dump_line es.

Lemma dump_entry_run s e next r fuel :
  entry_ok (mem s) e → word_at (mem s) (e_addr e + off_next) = Some next →
  can_alloc (mallocs s) (esize e) = true →
  match dump_line e with
  | Some line => (lines ← dump_loop fuel next; mret (line :: lines))
                   (set_mallocs (S (mallocs s)) s)
  | None => Undefined
  end = r →
  dump_loop (S fuel) (e_addr e) s = r.
Proof.
  intros He Hn Hal Hr. pose proof (eo_addr _ _ He). cbn [dump_loop].
  rewrite decide_False by lia.
  eapply bind_step; [eapply TBPGet_ok, eo_data; exact He|].
  eapply bind_step; [eapply TBPGet_ok, eo_size; exact He|].
  eapply bind_step; [eapply TBPGet_ok, eo_key; exact He|].
  eapply bind_step; [eapply TBPGet_ok; exact Hn|].
  eapply bind_step; [eapply deref_word_ok, eo_size; exact He|].
  eapply bind_step; [unfold malloc_tmp; rewrite Hal; reflexivity|].
  unfold dump_line in Hr. case_decide as Hst.
  2:{ rewrite <-Hr. apply bind_undefined. cbn. rewrite load_spec. fold (mem s).
      pose proof (deref_lost s e Hst) as Hl. unfold deref_range in Hl.
      rewrite mapped_spec in Hl. fold (mem s) in Hl. by destruct (read_range _ _ _). }
  eapply bind_step.
  { cbn. rewrite load_spec. fold (mem s). rewrite (stored_bytes _ _ He Hst). reflexivity. }
  eapply bind_step; [unfold st_lift; rewrite decide_True by lia; reflexivity|].
  destruct (c_string (e_bytes e)); [exact Hr|exact Hr].
Qed.

Lemma dump_loop_ok : ∀ es fuel a s, TotalAllocator →
  linked (mem s) a es → (∀ e, e ∈ es → esize e < 2147483648) → (length es ≤ fuel)%nat →
  dump_loop fuel a s = match dump_lines es with
                       | Some lines => Done (lines, set_mallocs (mallocs s + length es) s)
                       | None => Undefined
                       end.
Proof.
  induction es as [|e es IH]; intros fuel a s Ht Hl Hsz Hfuel.
  - cbn in Hl |- *. subst. rewrite Nat.add_0_r. destruct fuel; by destruct s.
  - destruct Hl as (-> & He & next & Hn & Hl). destruct fuel as [|fuel]; [cbn in *; lia|].
    pose proof (Hsz e ltac:(by left)). pose proof (esize_nonneg e).
    eapply dump_entry_run; [done|exact Hn|apply Ht; lia|].
    unfold dump_lines. cbn [mapM]. destruct (dump_line e) as [line|]; [|done].
    cbn [fmap option_fmap option_map mbind option_bind].
    unfold mbind at 1, st_bind.
    rewrite (IH fuel next (set_mallocs (S (mallocs s)) s)); [|done|exact Hl| |cbn in *; lia].
    2:{ intros e' He'. apply Hsz. by right. }
    fold (dump_lines es). destruct (dump_lines es) as [lines|]; [|done]. cbn.
    unfold mret, st_ret, set_mallocs. cbn. do 3 f_equal. lia.
Qed.

End walk.
