(* ===== verification/PmemKVSpec.v ===== *)
(** * pmemkv against an append-only log

    [represents s a] relates a store to its abstract state: the log of all blocks put so
    far, the blocks the index knows, and the number of index nodes lost to refused
    allocations.  Each operation is stated on that abstract state. *)
From S2P Require Import Prelude XXHash XXHashSpec CHeap PMem Cuckoo PmemKV PmemKVList.
From S2P Require Import PmemKVStore PmemKVIndex PmemKVUpdate PmemKVLoops PmemKVWalk.

Record abstract := mk_abstract { log : list entry; indexed : list entry; lost : nat }.

Lemma hash_key_range key : is_u64 (hash_key key).
Proof. apply (xxhash_width W64). Qed.

Section spec.
Context `{P : PMem, HP : !PMemSpec, C : CuckooMap nat, HC : !CuckooSpec C, A : Allocator}.
Implicit Types s : pmemkv C.

Record represents s (a : abstract) : Prop := {
  rp_log : pm_inv (mem s) (bp s) (log a);
  rp_index : ∃ ps X, idx_inv s (indexed a) ps X ∧ size X = lost a;
  rp_incl : ∀ e, e ∈ indexed a → e ∈ log a
}.

(** The blocks a lookup of [key] finds, in the order they were put. *)
Definition found (key : list byte) (a : abstract) : list entry :=
  of_key (hash_key key) (indexed a).

Lemma idx_inv_set_pmem s ix ps X p : idx_inv s ix ps X → idx_inv (set_pmem p s) ix ps X.
Proof. intros []. by split. Qed.

Lemma represents_entry s a e : represents s a → e ∈ indexed a → entry_ok (mem s) e.
Proof.
  intros [Hl _ Hin] He. apply Hin, list_elem_of_lookup in He as [i Hi].
  by apply (pi_entries _ _ _ Hl i).
Qed.

Lemma found_elem key a e : e ∈ found key a → e ∈ indexed a.
Proof. unfold found, of_key. rewrite list_elem_of_filter. by intros [_ ?]. Qed.

(** What the index holds for a key. *)
Lemma lookup_key s a ps X key : represents s a → idx_inv s (indexed a) ps X →
  match ps !! hash_key key with
  | None => found key a = []
  | Some (b, l) =>
      found key a ≠ [] ∧ length l = length (found key a) ∧
      chain (metas s) l (spans (found key a)) ∧ (length l < S (size (metas s)))%nat ∧
      lists s !! b = Some (Some (mk_block_meta_list (l !! 0%nat) (l !! (length l - 1)%nat)
                           (u64 (total (found key a))) (u64 (Z.of_nat (length l)))))
  end.
Proof.
  intros _ [Hd _ _]. destruct (ps !! hash_key key) as [[b l]|] eqn:Hk.
  - pose proof (di_chain _ _ _ _ _ _ Hd _ _ _ Hk) as Hc.
    pose proof (di_nonempty _ _ _ _ _ _ Hd _ _ _ Hk) as [Hne _].
    change (metas_of (indexed a) (hash_key key)) with (spans (found key a)) in Hc.
    pose proof (chain_length _ _ _ Hc) as Hlen. unfold spans in Hlen. rewrite length_fmap in Hlen.
    split_and!; try done.
    + intros Hf. rewrite Hf in Hlen. by destruct l.
    + by eapply live_fuel.
    + rewrite (di_list _ _ _ _ _ _ Hd _ _ _ Hk). do 3 f_equal.
      change (metas_of (indexed a) (hash_key key)) with (spans (found key a)).
      unfold sizes, spans, total. f_equal. clear.
      induction (found key a) as [|e es IH]; cbn; [done|]. by rewrite IH.
  - apply (di_none _ _ _ _ _ _ Hd) in Hk. unfold metas_of in Hk. by apply fmap_nil_inv in Hk.
Qed.

Lemma contains_found s a key : represents s a →
  contains (hash_key key) (index_map s) = bool_decide (found key a ≠ []).
Proof.
  intros Hr. pose proof Hr as [_ (ps & X & Hi & _) _].
  rewrite (contains_node _ _ _ _ _ Hi). apply bool_decide_ext.
  pose proof (lookup_key _ _ _ _ key Hr Hi) as Hk.
  destruct (ps !! hash_key key) as [[b l]|].
  - destruct Hk as [Hk _]. split; [done|eauto].
  - rewrite Hk. split; [by intros []|done].
Qed.

(** ** Construction *)
Lemma create_run p b p' : TBPAlloc sizeof_base p = (b, p') → b ≠ 0 →
  ∃ s, construct (C := C) p = Done s ∧ bp s = b ∧ index_map s = cempty ∧ bytes_allocated s = 0 ∧
    metas s = ∅ ∧ lists s = ∅ ∧ mallocs s = 0%nat ∧ pm_inv (mem s) b [] ∧
    (∀ x, is_Some (contents p x) → mem s x = contents p x).
Proof.
  intros E Hb. pose proof (alloc_spec sizeof_base p) as Hal. rewrite E in Hal.
  destruct Hal as [[? _]|(Hb0 & _ & _ & Hin & Hout)]; [unfold_layout; lia|done|].
  set (s0 := mk_pmemkv b cempty 0 p' ∅ ∅ 0 : pmemkv C).
  assert (mapped_range (contents p') b sizeof_base) as Hm by (intros x Hx; by apply Hin).
  destruct (TBPSet_ok s0 (b + off_head) 0) as (q1 & E1 & G1).
  { intros x Hx. apply Hm. unfold_layout. lia. }
  destruct (TBPSet_ok (set_pmem q1 s0) (b + off_tail) 0) as (q2 & E2 & G2).
  { unfold mem. cbn [pmem set_pmem s0]. rewrite G1. apply write_range_mapped. intros x Hx. apply Hm.
    unfold_layout. lia. }
  destruct (TBPSet_ok (set_pmem q2 s0) (b + off_bytes_written) 0) as (q3 & E3 & G3).
  { unfold mem in *. cbn [pmem set_pmem s0] in *. rewrite G2, G1. do 2 apply write_range_mapped.
    intros x Hx. apply Hm. unfold_layout. lia. }
  unfold mem in *. cbn [pmem set_pmem s0] in *.
  exists (set_pmem q3 s0). split_and!; try done.
  - unfold construct. unfold mbind, outcome_bind.
    assert (create (mk_pmemkv 0 cempty 0 p ∅ ∅ 0) = Done (tt, set_pmem q3 s0)) as ->; [|done].
    unfold create. eapply bind_step; [unfold alloc; cbn; rewrite E; reflexivity|].
    eapply bind_step; [reflexivity|]. eapply bind_step; [exact E1|].
    eapply bind_step; [exact E2|exact E3].
  - assert (∀ x y, disjoint_ranges (b + x) 8 (b + y) 8 ↔ (x + 8 ≤ y ∨ y + 8 ≤ x)) as Hd.
    { intros x y. split; [|intros ? z ? ?; lia]. intros Hd.
      destruct (decide (x ≤ y)).
      - left. destruct (decide (x + 8 ≤ y)); [done|]. destruct (Hd (b + y)); lia.
      - right. destruct (decide (y + 8 ≤ x)); [done|]. destruct (Hd (b + x)); lia. }
    apply pm_inv_nil; [done|..]; cbn [pmem set_pmem]; rewrite G3, G2, G1.
    + by do 3 apply write_range_mapped.
    + rewrite !word_write_disjoint by (rewrite length_le_encode; apply Hd; unfold_layout; lia).
      by apply word_write_same.
    + rewrite word_write_disjoint by (rewrite length_le_encode; apply Hd; unfold_layout; lia).
      by apply word_write_same.
    + by apply word_write_same.
  - intros x Hx. cbn [pmem set_pmem].
    assert (¬ (b ≤ x < b + sizeof_base)) as Hxb.
    { intros Hbx. destruct (Hin x Hbx) as [Hn _]. rewrite Hn in Hx. by destruct Hx. }
    rewrite <-Hout by done. unfold_layout.
    do 3 (first [rewrite (G3 x) | rewrite (G2 x) | rewrite (G1 x)];
          unfold write_range; rewrite length_le_encode, decide_False by lia).
    done.
Qed.

Lemma TBPSet_bp a v s u s' : TBPSet a v s = Done (u, s') → bp s' = bp s.
Proof. unfold TBPSet, store. intros E. repeat case_match; by simplify_eq. Qed.

Lemma construct_bp p b p' s : TBPAlloc sizeof_base p = (b, p') →
  construct (C := C) p = Done s → bp s = b.
Proof.
  intros Eb E. apply bind_Done in E as ([u s1] & E & [= ->]). unfold create in E.
  apply st_bind_inv in E as (b1 & s2 & E2 & E). unfold alloc in E2. cbn in E2.
  rewrite Eb in E2. injection E2 as <- <-.
  apply st_bind_inv in E as ([] & s3 & [= <-] & E).
  apply st_bind_inv in E as (u4 & s4 & E4%TBPSet_bp & E).
  apply st_bind_inv in E as (u5 & s5 & E5%TBPSet_bp & E%TBPSet_bp).
  by rewrite E, E5, E4.
Qed.

Lemma construct_represents p b p' : TBPAlloc sizeof_base p = (b, p') → b ≠ 0 →
  ∃ s, construct (C := C) p = Done s ∧ represents s (mk_abstract [] [] 0) ∧
    (∀ x, is_Some (contents p x) → mem s x = contents p x).
Proof.
  intros E Hb. destruct (create_run p b p' E Hb) as (s & Es & Hbp & Hix & Hby & Hm & Hl & Hk & Hpm & Hx).
  exists s. split_and!; [done| |done]. split; cbn.
  - by rewrite Hbp.
  - exists ∅, ∅. split; [|done]. split.
    + rewrite Hm, Hl, Hk. apply dram_inv_nil.
    + intros k. by rewrite Hix, view_empty, !lookup_empty.
    + rewrite Hby. done.
  - done.
Qed.

(** ** put *)
Lemma put_run s a key buf count x d : represents s a →
  put_allocs s count x d → x ≠ 0 → 0 ≤ count ≤ Z.of_nat (length buf) → is_u64 count →
  ∃ r s' ix n, let e := mk_entry x (hash_key key) d (take (Z.to_nat count) buf) in
    put key buf count s = Done (r, s') ∧ represents s' (mk_abstract (log a ++ [e]) ix n) ∧
    ((r = 0 ∧ ix = indexed a ++ [e] ∧ n = lost a) ∨
     (r = -1 ∧ ix = indexed a ∧ (n = lost a ∨ n = S (lost a)) ∧ ¬ TotalAllocator)).
Proof.
  intros [Hl (ps & X & Hi & HX) Hin] Hal Hx0 Hc Hcu.
  pose proof (hash_key_range key) as Hk.
  destruct (put_entry_ok s (hash_key key) buf count x d Hal Hx0 Hc Hcu Hk) as (p1 & E1 & Hf).
  set (e := mk_entry x (hash_key key) d (take (Z.to_nat count) buf)) in *.
  destruct (put_link_ok (set_pmem p1 s) (log a) e (mem s)) as (p2 & E2 & Hl2); [done|done|].
  assert (esize e = count) as Hsz by by apply esize_take.
  rewrite Hsz, set_pmem_twice in E2. cbn [e_addr e] in E2.
  set (s2 := set_pmem p2 s) in *.
  assert (entry_ok (mem s2) e) as He.
  { apply (pi_entries _ _ _ Hl2 (length (log a))). apply list_lookup_middle. done. }
  destruct (update_meta_ok s2 (indexed a) ps X e) as (r & s3 & ix & ps3 & X3 & E3 & [Hp3 Hb3] & Hi3 & Ho);
    [by apply idx_inv_set_pmem|done|].
  assert (X3 = X ∨ (X3 = {[mallocs s]} ∪ X ∧ mallocs s ∉ X)) as HX3.
  { destruct Ho as [(_ & _ & ->)|(_ & _ & [->| ->] & _)]; [by left|by left|].
    right. split; [done|]. intros Hx. pose proof (ii_dram _ _ _ _ Hi) as Hd.
    assert (is_Some (metas s !! mallocs s)) as [m Hm] by (apply (di_metas _ _ _ _ _ _ Hd); by left).
    destruct (di_fresh _ _ _ _ _ _ Hd (mallocs s)) as [Hn _]; [done|congruence]. }
  exists r, s3, ix, (size X3). cbn zeta. fold e. split_and!.
  - unfold put. eapply bind_step; [exact E1|]. eapply bind_step; [exact E2|].
    eapply bind_step; [exact E3|].
    destruct Ho as [(-> & _)|(-> & _)]; [by rewrite decide_False by auto|by rewrite decide_True].
  - split; cbn.
    + unfold mem. rewrite Hp3, Hb3. exact Hl2.
    + eauto.
    + intros e'. rewrite elem_of_app. destruct Ho as [(_ & -> & _)|(_ & -> & _)].
      * rewrite elem_of_app. intros [?|?]; auto.
      * auto.
  - destruct Ho as [(-> & -> & ->)|(-> & -> & _ & Ht)]; [by left|right].
    split_and!; try done. destruct HX3 as [->|[-> HmX]]; [by left|right].
    rewrite size_union, size_singleton by set_solver. lia.
Qed.

(** A [put] that is refused memory for its entry never returns. *)
Lemma put_null s key buf count d : put_allocs s count 0 d → put key buf count s = Undefined.
Proof. intros Hal. unfold put. by apply bind_undefined, (put_entry_null _ _ _ _ d). Qed.

(** The block a call of [put] makes: where the persistent allocator puts it, and its bytes. *)
Definition put_block (key buf : list byte) (count : Z) s : entry :=
  let '(x, d) := put_addresses count s in mk_entry x (hash_key key) d (take (Z.to_nat count) buf).

Lemma put_block_allocs s key buf count x d : put_allocs s count x d →
  put_block key buf count s = mk_entry x (hash_key key) d (take (Z.to_nat count) buf).
Proof. intros Hal. unfold put_block. by rewrite (put_addresses_unique _ _ _ _ Hal). Qed.

Lemma put_block_size s key buf count : 0 ≤ count ≤ Z.of_nat (length buf) →
  esize (put_block key buf count s) = count.
Proof. intros Hc. unfold put_block. destruct (put_addresses count s). by apply esize_take. Qed.

(** What [put] may do to the index: the block is indexed, or [malloc] refused a request. *)
Definition put_effect (a : abstract) (e : entry) (r : Z) (a' : abstract) : Prop :=
  log a' = log a ++ [e] ∧
  ((r = 0 ∧ indexed a' = indexed a ++ [e] ∧ lost a' = lost a) ∨
   (r = -1 ∧ indexed a' = indexed a ∧ (lost a' = lost a ∨ lost a' = S (lost a)) ∧
    ¬ TotalAllocator)).

Lemma put_block_bytes s key buf count :
  e_bytes (put_block key buf count s) = take (Z.to_nat count) buf.
Proof. unfold put_block. by destruct (put_addresses count s). Qed.

(** The new block is the last one its key finds. *)
Lemma found_put s a key buf count :
  found key (mk_abstract (log a ++ [put_block key buf count s])
               (indexed a ++ [put_block key buf count s]) (lost a)) =
  found key a ++ [put_block key buf count s].
Proof.
  unfold found, of_key. cbn. rewrite list.filter_app, list.filter_cons.
  rewrite decide_True; [done|]. unfold put_block. by destruct (put_addresses count s).
Qed.

Lemma put_total s a key buf count : represents s a →
  0 ≤ count ≤ Z.of_nat (length buf) → is_u64 count →
  let e := put_block key buf count s in
  if decide (e_addr e = 0) then put key buf count s = Undefined
  else ∃ r s' a', put key buf count s = Done (r, s') ∧ represents s' a' ∧ put_effect a e r a'.
Proof.
  intros Hr Hc Hu. pose proof (put_addresses_allocs s count) as Hal. unfold put_block. cbn zeta.
  destruct (put_addresses count s) as [x d]. cbn [fst snd e_addr] in *.
  case_decide as Hx; [subst x; by eapply put_null|].
  destruct (put_run s a key buf count x d) as (r & s' & ix & n & E & Hr' & Ho); try done.
  eexists r, s', _. split; [exact E|]. split; [exact Hr'|]. split; [done|exact Ho].
Qed.

Lemma put_returned s a key buf count r s' : represents s a →
  0 ≤ count ≤ Z.of_nat (length buf) → is_u64 count → put key buf count s = Done (r, s') →
  ∃ a', represents s' a' ∧ put_effect a (put_block key buf count s) r a'.
Proof.
  intros Hr Hc Hu E. pose proof (put_total s a key buf count Hr Hc Hu) as Ht. cbn zeta in Ht.
  case_decide; [congruence|]. destruct Ht as (r' & s1 & a' & E' & Hr' & Ho).
  assert (r' = r ∧ s1 = s') as [-> ->] by (split; congruence). by exists a'.
Qed.

Lemma put_success s a key buf count s' : represents s a →
  0 ≤ count ≤ Z.of_nat (length buf) → is_u64 count →
  put key buf count s = Done (0, s') →
  let e := put_block key buf count s in
  represents s' (mk_abstract (log a ++ [e]) (indexed a ++ [e]) (lost a)).
Proof.
  intros Hr Hc Hu Hput. destruct (put_returned _ _ _ _ _ _ _ Hr Hc Hu Hput) as ([l ix n] & Hr' & Hl & Ho).
  cbn in *. destruct Ho as [(_ & -> & ->)|[? _]]; [by subst|done].
Qed.

(** ** Lookups *)

(** A caller's region with at least [size] bytes, and sizes whose sum does not wrap. *)
Definition region_ok (mb : memory_block) (es : list entry) : Prop :=
  0 ≤ mb_size mb ≤ Z.of_nat (length (mb_data mb)) ∧
  ∀ e, e ∈ es → is_u64 (mb_size mb + esize e).

(** The region after [bs] was copied to its start. *)
Definition filled (mb : memory_block) (bs : list byte) : memory_block :=
  mk_memory_block ((Some <$> bs) ++ drop (length bs) (mb_data mb)) (mb_size mb).

Lemma get_run s a key mb : represents s a → region_ok mb (found key a) →
  get key mb s =
    if decide (found key a = []) then Done (-1, mb, s)
    else match fetch (mb_size mb) (found key a) with
         | Some bs => Done (0, filled mb bs, s)
         | None => Undefined
         end.
Proof.
  intros Hr [Hm Hu]. pose proof Hr as [_ (ps & X & Hi & _) _].
  pose proof (contains_found _ _ key Hr) as Hc. pose proof (lookup_key _ _ _ _ key Hr Hi) as Hk.
  eapply bind_step; [reflexivity|]. rewrite Hc.
  destruct (decide (found key a = [])) as [He|He].
  - rewrite bool_decide_false by (by intros []). done.
  - rewrite bool_decide_true by done. cbn [negb].
    destruct (ps !! hash_key key) as [[b l]|] eqn:Hps; [|done].
    destruct Hk as (_ & Hlen & Hch & Hfuel & Hls).
    rewrite (find_node _ _ _ _ _ _ _ Hi Hps).
    eapply bind_step; [by rewrite bool_decide_true|].
    eapply bind_step; [by apply get_node_ok|]. cbn [bml_head].
    pose proof (get_loop_ok s (found key a) (S (size (metas s))) l 0 mb [] (mb_data mb) Hch Hfuel)
      as Hloop. rewrite Z.sub_0_r in Hloop.
    assert (∀ e, e ∈ found key a → entry_ok (mem s) e ∧ is_u64 (mb_size mb + esize e)) as He'.
    { intros e Hin. split; [|by apply Hu].
      by apply (represents_entry _ _ _ Hr (found_elem _ _ _ Hin)). }
    specialize (Hloop He' eq_refl eq_refl Hm).
    destruct (fetch (mb_size mb) (found key a)) as [bs|]; [|by apply bind_undefined].
    eapply bind_step; [exact Hloop|done].
Qed.

Lemma sizes_run s a key : represents s a →
  get_value_size key s = Done (if decide (found key a = []) then (-1, 0)
                               else (0, u64 (total (found key a))), s) ∧
  get_meta_size key s = Done (if decide (found key a = []) then (-1, 0)
                              else (0, u64 (Z.of_nat (length (found key a)))), s).
Proof.
  intros Hr. pose proof Hr as [_ (ps & X & Hi & _) _].
  pose proof (contains_found _ _ key Hr) as Hc. pose proof (lookup_key _ _ _ _ key Hr Hi) as Hk.
  split; (eapply bind_step; [reflexivity|]); rewrite Hc;
    (destruct (decide (found key a = [])) as [He|He];
     [by rewrite bool_decide_false by (by intros [])|]);
    rewrite bool_decide_true by done; cbn [negb];
    (destruct (ps !! hash_key key) as [[b l]|] eqn:Hps; [|done]);
    destruct Hk as (_ & Hlen & _ & _ & Hls); rewrite (find_node _ _ _ _ _ _ _ Hi Hps);
    (eapply bind_step; [by apply get_node_ok|]); [done|by rewrite <-Hlen].
Qed.

Lemma get_meta_run s a key arr len : represents s a →
  get_meta key (mk_memory_meta (Some arr) len) s =
    let ws := words (spans (found key a)) in
    if decide (found key a = []) then Done (0, mk_memory_meta (Some arr) len, s)
    else if decide (length ws ≤ length arr)%nat
    then Done (0, mk_memory_meta (Some ((Some <$> ws) ++ drop (length ws) arr))
                    (Some (Z.of_nat (length ws))), s)
    else Undefined.
Proof.
  intros Hr. pose proof Hr as [_ (ps & X & Hi & _) _]. cbn zeta.
  pose proof (contains_found _ _ key Hr) as Hc. pose proof (lookup_key _ _ _ _ key Hr Hi) as Hk.
  eapply bind_step; [reflexivity|]. rewrite Hc.
  destruct (decide (found key a = [])) as [He|He].
  { by rewrite bool_decide_false by (by intros []). }
  rewrite bool_decide_true by done. cbn [negb].
  destruct (ps !! hash_key key) as [[b l]|] eqn:Hps; [|done].
  destruct Hk as (_ & Hlen & Hch & Hfuel & Hls). rewrite (find_node _ _ _ _ _ _ _ Hi Hps).
  eapply bind_step; [by apply get_node_ok|]. cbn [bml_head mm_meta].
  rewrite words_length. case_decide as Hroom.
  - eapply bind_step; [by apply (get_meta_loop_ok s _ _ l [] arr Hch)|]. cbn. done.
  - apply bind_undefined, (get_meta_loop_overrun s _ _ l [] arr Hch); [done|]. cbn. lia.
Qed.

(** ** Release *)

(** The final assertion of [free_meta]: the bytes of the lost nodes are zero modulo 2^64. *)
Definition accounted (a : abstract) : Prop := u64 (sizeof_block_meta * Z.of_nat (lost a)) = 0.
#[export] Instance accounted_dec a : Decision (accounted a).
Proof. unfold accounted. apply _. Defined.

Lemma accounted_lost a : Z.of_nat (lost a) < 4294967296 → accounted a ↔ lost a = 0%nat.
Proof. unfold accounted, sizeof_block_meta. intros Hl. split; [word_lia|by intros ->]. Qed.

Lemma free_meta_represents s a : represents s a →
  ∃ s', same_pm s s' ∧ represents s' (mk_abstract (log a) [] (lost a)) ∧
    free_meta s = if decide (accounted a) then Done (0, s') else Assert_failed.
Proof.
  intros [Hl (ps & X & Hi & HX) Hin].
  destruct (free_meta_run s (indexed a) ps X Hi) as (s' & [Hp Hb] & Hi' & E).
  exists s'. split_and!; [done| |].
  - split; cbn; [unfold mem; by rewrite Hp, Hb|by eauto|by intros ? ?%elem_of_nil].
  - rewrite E, HX. clear E. unfold accounted. by case_decide; case_decide.
Qed.

Lemma free_all_run s a fuel : represents s a → (length (log a) ≤ fuel)%nat →
  ∃ s', represents s' (mk_abstract [] [] (lost a)) ∧
    (∀ e, e ∈ log a → entry_ok (mem s') e) ∧
    free_all fuel s = if decide (accounted a) then Done (0, s') else Assert_failed.
Proof.
  intros Hr Hfuel. pose proof Hr as [Hl (ps & X & Hi & HX) Hin].
  assert (∀ e, e ∈ log a → alone (bp s) e) as Hal.
  { intros e [i He]%list_elem_of_lookup. by apply (pi_alone _ _ _ Hl i). }
  destruct (free_entries_ok (bp s) (log a) fuel _ s _ (pm_linked _ _ _ Hl) Hal Hfuel (pi_written _ _ _ Hl))
    as (p1 & E1 & Hw1 & Hs1 & Hg1).
  set (s1 := set_pmem p1 s).
  assert (mapped_range (mem s1) (bp s) sizeof_base) as Hm1.
  { intros x Hx. by apply Hg1, (pi_mapped _ _ _ Hl). }
  destruct (TBPSet_ok s1 (bp s + off_head) 0) as (p2 & E2 & G2).
  { intros x Hx. apply Hm1. unfold_layout. lia. }
  destruct (TBPSet_ok (set_pmem p2 s1) (bp s + off_tail) 0) as (p3 & E3 & G3).
  { change (mem (set_pmem p2 s1)) with (contents p2). rewrite G2. apply write_range_mapped.
    intros x Hx. apply Hm1. unfold_layout. lia. }
  change (mem (set_pmem p2 s1)) with (contents p2) in G3. rewrite G2 in G3.
  change (mem s1) with (contents p1) in *.
  set (s3 := set_pmem p3 s).
  assert (word_at (mem s3) (bp s + off_bytes_written) = Some 0) as Hw3.
  { change (mem s3) with (contents p3). rewrite G3.
    rewrite !word_write_disjoint by (intros x; rewrite length_le_encode; unfold_layout; lia).
    rewrite Hw1. f_equal. word_lia. }
  assert (pm_inv (mem s3) (bp s) []) as Hl3.
  { change (mem s3) with (contents p3) in *. apply pm_inv_nil; [by apply Hl|..]; [| | |done]; rewrite G3.
    - by do 2 apply write_range_mapped.
    - rewrite word_write_disjoint by (intros x; rewrite length_le_encode; unfold_layout; lia).
      by apply word_write_same.
    - by apply word_write_same. }
  destruct (free_meta_run s3 (indexed a) ps X) as (s' & [Hp Hb] & Hi' & E).
  { by apply idx_inv_set_pmem. }
  exists s'. split_and!.
  - split; cbn; [unfold mem in *; by rewrite Hp, Hb|by eauto|by intros ? ?%elem_of_nil].
  - intros e He. unfold mem. rewrite Hp. change (pmem s3) with p3.
    pose proof He as [i Hei]%list_elem_of_lookup.
    eapply entry_ok_frame; [by apply (pi_entries _ _ _ Hl i)|..].
    + intros x Hx. rewrite G3. by do 2 apply write_range_grows; apply Hg1.
    + intros x Hx. rewrite G3. destruct (Hal e He) as (Ha1 & Ha2 & _).
      assert (¬ (bp s ≤ x < bp s + sizeof_base)) as Hxb.
      { intros Hb'. destruct Hx; [apply (Ha1 x)|apply (Ha2 x)]; unfold_layout; lia. }
      unfold write_range. rewrite !length_le_encode. unfold_layout.
      rewrite !decide_False by lia. apply Hs1. unfold_layout. lia.
  - unfold free_all. eapply bind_step; [reflexivity|].
    eapply bind_step; [eapply TBPGet_ok, (pi_head _ _ _ Hl)|].
    eapply bind_step; [exact E1|]. eapply bind_step; [exact E2|].
    eapply bind_step; [exact E3|]. eapply bind_step; [apply TBPGet_ok; exact Hw3|].
    eapply bind_step; [reflexivity|]. unfold mbind at 1, st_bind. rewrite set_pmem_twice.
    change (set_pmem p3 s1) with s3. rewrite E, HX.
    clear E. unfold accounted. by repeat case_decide.
Qed.

(** An index of no blocks owns no nodes. *)
Lemma idx_inv_empty s ps X : idx_inv s [] ps X → size X = 0%nat →
  metas s = ∅ ∧ lists s = ∅ ∧ bytes_allocated s = 0.
Proof.
  intros [Hd _ Hb] HX. apply size_empty_inv in HX.
  assert (∀ k, ps !! k = None) as Hps.
  { intros k. destruct (ps !! k) as [[b l]|] eqn:Hk; [|done].
    pose proof (chain_length _ _ _ (di_chain _ _ _ _ _ _ Hd _ _ _ Hk)) as Hl.
    destruct (di_nonempty _ _ _ _ _ _ Hd _ _ _ Hk) as [Hne _]. by destruct l. }
  split_and!.
  - apply map_eq. intros p. rewrite lookup_empty. apply eq_None_not_Some.
    rewrite (di_metas _ _ _ _ _ _ Hd). intros [?|(k & b & l & Hk & _)]; [set_solver|].
    by rewrite Hps in Hk.
  - apply map_eq. intros b. rewrite lookup_empty. apply eq_None_not_Some.
    rewrite (di_lists _ _ _ _ _ _ Hd). intros (k & l & Hk). by rewrite Hps in Hk.
  - assert (ps = ∅) as -> by (apply map_eq; intros k; by rewrite Hps, lookup_empty).
    rewrite Hb. assert (size X = 0%nat) as -> by (by rewrite HX). done.
Qed.

(** ** Dumps *)
Lemma dump_all_run s a fuel : TotalAllocator → represents s a → (length (log a) ≤ fuel)%nat →
  (∀ e, e ∈ log a → esize e < 2147483648) →
  dump_all fuel s = match dump_lines (log a) with
                    | Some lines => Done (0, lines, set_mallocs (mallocs s + length (log a)) s)
                    | None => Undefined
                    end.
Proof.
  intros Ht [Hl _ _] Hfuel Hsz. unfold dump_all.
  eapply bind_step; [reflexivity|]. eapply bind_step; [eapply TBPGet_ok, (pi_head _ _ _ Hl)|].
  unfold mbind, st_bind. rewrite (dump_loop_ok (log a)); [|done|by eapply pm_linked|done|done].
  by destruct (dump_lines (log a)).
Qed.

(** Whatever its outcome, a dump only calls [malloc]. *)
Lemma dump_loop_state : ∀ fuel b s lines s', dump_loop fuel b s = Done (lines, s') →
  ∃ n, s' = set_mallocs (mallocs s + n) s.
Proof.
  assert (∀ s, s = set_mallocs (mallocs s + 0) s) as H0.
  { intros s. rewrite Nat.add_0_r. by destruct s. }
  induction fuel as [|fuel IH]; intros b s lines s'; cbn [dump_loop];
    (case_decide; [intros [= _ <-]; by exists 0%nat|]); [done|].
  do 4 (intros (? & s1 & E1 & E)%st_bind_inv; apply TBPGet_state in E1 as ->; revert E).
  intros (? & s1 & E1 & E)%st_bind_inv. apply deref_word_state in E1 as ->.
  apply st_bind_inv in E as (? & s2 & E2 & E). unfold malloc_tmp in E2.
  destruct (can_alloc _ _) in E2; [|discriminate]. injection E2 as _ <-.
  apply st_bind_inv in E as (? & s3 & E3 & E).
  apply st_bind_inv in E as (? & s4 & E4 & E).
  apply st_bind_inv in E as (? & s5 & E5 & E).
  apply st_bind_inv in E as (? & s6 & [n Hn]%IH & E). injection E as _ <-.
  assert (s3 = set_mallocs (S (mallocs s)) s) as -> by (repeat case_match; by simplify_eq).
  unfold st_lift in E4, E5.
  assert (s4 = set_mallocs (S (mallocs s)) s) as -> by (repeat case_match; by simplify_eq).
  assert (s5 = set_mallocs (S (mallocs s)) s) as -> by (repeat case_match; by simplify_eq).
  exists (S n). rewrite Hn. unfold set_mallocs. cbn. f_equal. lia.
Qed.

Lemma dump_all_state fuel s r s' : dump_all fuel s = Done (r, s') →
  ∃ n, s' = set_mallocs (mallocs s + n) s.
Proof.
  unfold dump_all. intros (s0 & s1 & [= <- <-] & E)%st_bind_inv.
  apply st_bind_inv in E as (? & s2 & E2 & E). apply TBPGet_state in E2 as ->.
  apply st_bind_inv in E as (? & s3 & E3 & E). apply dump_loop_state in E3. by injection E as _ <-.
Qed.

Lemma represents_mallocs s a n : represents s a → represents (set_mallocs (mallocs s + n) s) a.
Proof.
  intros [Hl (ps & X & [Hd Hv Hb] & HX) Hin]. split; [done| |done]. exists ps, X.
  split; [|done]. split; [|done|done]. eapply dram_inv_fresh; [|exact Hd]. cbn. lia.
Qed.

Lemma table_lines_keys it vals : table_lines it vals = it.*1 ≫= vals.
Proof. induction it as [|[k b] it IH]; [done|]. cbn in *. by f_equal. Qed.

Lemma dump_meta_run s a : represents s a →
  ∃ keys, NoDup keys ∧ (∀ k, k ∈ keys ↔ of_key k (indexed a) ≠ []) ∧
    dump_meta s = Done (0, u64 (total (log a)), k ← keys; spans (of_key k (indexed a)), s).
Proof.
  intros [Hl (ps & X & Hi & HX) Hin]. pose proof Hi as [Hd Hv Hb].
  assert (table (index_map s) ≡ₚ map_to_list (fst <$> ps)) as Ht.
  { rewrite table_spec. f_equiv. apply map_eq. intros k. by rewrite Hv, lookup_fmap. }
  exists ((table (index_map s)).*1). split_and!.
  - rewrite Ht. apply NoDup_fst_map_to_list.
  - intros k. rewrite Ht. rewrite list_elem_of_fmap. split.
    + intros ([j b] & -> & Hj%elem_of_map_to_list). cbn.
      rewrite lookup_fmap in Hj. destruct (ps !! j) as [[c l]|] eqn:Hk; [|done].
      pose proof (di_chain _ _ _ _ _ _ Hd _ _ _ Hk) as Hc.
      pose proof (di_nonempty _ _ _ _ _ _ Hd _ _ _ Hk) as [Hne _]. intros He.
      apply chain_length in Hc. unfold metas_of in Hc. rewrite He in Hc. by destruct l.
    + intros Hne. destruct (ps !! k) as [[b l]|] eqn:Hk.
      * exists (k, b). split; [done|]. apply elem_of_map_to_list. by rewrite lookup_fmap, Hk.
      * apply (di_none _ _ _ _ _ _ Hd) in Hk. unfold metas_of in Hk.
        by apply fmap_nil_inv in Hk.
  - eapply bind_step; [reflexivity|].
    eapply bind_step; [eapply TBPGet_ok, (pi_written _ _ _ Hl)|].
    eapply bind_step.
    { eapply dump_table_ok; [exact Hd|]. intros k b Hkb. rewrite Ht in Hkb.
      apply elem_of_map_to_list in Hkb. rewrite lookup_fmap in Hkb.
      destruct (ps !! k) as [[c l]|]; [|done]. injection Hkb as <-. eauto. }
    by rewrite table_lines_keys.
Qed.

(** ** What never changes the store *)
Lemma get_loop_state s mb' s' : ∀ fuel bm off mb, get_loop fuel bm off mb s = Done (mb', s') → s' = s.
Proof.
  induction fuel as [|fuel IH]; intros [p|] off mb; cbn [get_loop]; try done; try by intros [= _ <-].
  intros (m & s1 & E1 & E)%st_bind_inv. unfold get_node in E1.
  assert (s1 = s) as -> by by (repeat case_match; simplify_eq).
  case_decide; [|by injection E].
  apply st_bind_inv in E as (bs & s2 & E2 & E). unfold deref_range in E2.
  assert (s2 = s) as -> by by (repeat case_match; simplify_eq).
  apply st_bind_inv in E as (d & s3 & E3 & E). unfold st_lift in E3.
  assert (s3 = s) as -> by by (repeat case_match; simplify_eq).
  apply st_bind_inv in E as (u & s4 & E4 & E). unfold st_assert in E4.
  assert (s4 = s) as -> by by (repeat case_match; simplify_eq). eauto.
Qed.

Lemma get_state s key mb r s' : get key mb s = Done (r, s') → s' = s.
Proof.
  unfold get. intros (s0 & s1 & [= <- <-] & E)%st_bind_inv.
  case_match; [by injection E|].
  apply st_bind_inv in E as (u & s2 & E2 & E). unfold st_assert in E2.
  assert (s2 = s) as -> by by (repeat case_match; simplify_eq).
  apply st_bind_inv in E as (l & s3 & E3 & E). unfold get_node in E3.
  assert (s3 = s) as -> by by (repeat case_match; simplify_eq).
  apply st_bind_inv in E as (mb' & s4 & E4 & E). apply get_loop_state in E4 as ->.
  by injection E.
Qed.

(** More fuel changes nothing once a walk ends. *)
Lemma free_entries_fuel b r : ∀ n m a s, free_entries n b a s = Done r → (n ≤ m)%nat →
  free_entries m b a s = Done r.
Proof.
  induction n as [|n IH]; intros m a s E Hm.
  - destruct m; cbn in *; by case_decide.
  - destruct m as [|m]; [lia|]. cbn [free_entries] in *. case_decide; [done|].
    apply st_bind_inv in E as (x1 & s1 & E1 & E). eapply bind_step; [exact E1|].
    apply st_bind_inv in E as (x2 & s2 & E2 & E). eapply bind_step; [exact E2|].
    apply st_bind_inv in E as (x3 & s3 & E3 & E). eapply bind_step; [exact E3|].
    apply IH; [done|lia].
Qed.

Lemma free_all_fuel n m s r : free_all n s = Done r → (n ≤ m)%nat → free_all m s = Done r.
Proof.
  unfold free_all. intros E Hm.
  apply st_bind_inv in E as (x1 & s1 & E1 & E). eapply bind_step; [exact E1|].
  apply st_bind_inv in E as (x2 & s2 & E2 & E). eapply bind_step; [exact E2|].
  apply st_bind_inv in E as (x3 & s3 & E3 & E).
  eapply bind_step; [by eapply free_entries_fuel|exact E].
Qed.

End spec.
