(* ===== verification/PmemKVProps.v ===== *)
(** * Properties of pmemkv

    Stated for any persistent memory, hash map and allocator that keep their contracts,
    against the abstract log of [PmemKVSpec]. *)
From stdpp Require Import relations.
From S2P Require Import Prelude XXHash CHeap PMem Cuckoo PmemKV PmemKVList PmemKVStore.
From S2P Require Import PmemKVIndex PmemKVUpdate PmemKVLoops PmemKVWalk PmemKVSpec.

Section props.
Context `{P : PMem, HP : !PMemSpec, C : CuckooMap nat, HC : !CuckooSpec C, A : Allocator}.
Implicit Types s : pmemkv C.

(** ** Reachable stores *)

(** What a call of a public operation does to the log: [put] of a block with its result,
    [free_all], or a query. *)
Inductive kv_event :=
| Put_event (e : entry) (r : Z)
| Free_event
| Query_event.

(** One call that returns, whatever the persistent allocator and [malloc] answer in it. *)
Inductive kv_call s : kv_event → pmemkv C → Prop :=
| call_put key buf count r s' :
    0 ≤ count ≤ Z.of_nat (length buf) → is_u64 count →
    put key buf count s = Done (r, s') → kv_call s (Put_event (put_block key buf count s) r) s'
| call_get key mb r s' : get key mb s = Done (r, s') → kv_call s Query_event s'
| call_value_size key r s' : get_value_size key s = Done (r, s') → kv_call s Query_event s'
| call_meta_size key r s' : get_meta_size key s = Done (r, s') → kv_call s Query_event s'
| call_meta key arr len r s' :
    get_meta key (mk_memory_meta (Some arr) len) s = Done (r, s') → kv_call s Query_event s'
| call_dump_meta r s' : dump_meta s = Done (r, s') → kv_call s Query_event s'
| call_dump_all fuel r s' : dump_all fuel s = Done (r, s') → kv_call s Query_event s'
| call_get_root r s' : get_root s = Done (r, s') → kv_call s Query_event s'
| call_free_all fuel r s' : free_all fuel s = Done (r, s') → kv_call s Free_event s'.

Definition kv_step s s' : Prop := ∃ ev, kv_call s ev s'.

(** A run, with its events in order. *)
Inductive kv_run s0 : list kv_event → pmemkv C → Prop :=
| run_start : kv_run s0 [] s0
| run_call evs s ev s' : kv_run s0 evs s → kv_call s ev s' → kv_run s0 (evs ++ [ev]) s'.

(** The log and the indexed blocks after some events, and the calls that reported failure. *)
Definition log_step (es : list entry) (ev : kv_event) : list entry :=
  match ev with Put_event e _ => es ++ [e] | Free_event => [] | Query_event => es end.
Definition index_step (es : list entry) (ev : kv_event) : list entry :=
  match ev with
  | Put_event e r => if decide (r = 0) then es ++ [e] else es
  | Free_event => []
  | Query_event => es
  end.
Definition failed (ev : kv_event) : bool :=
  match ev with Put_event _ r => bool_decide (r ≠ 0) | _ => false end.
Definition log_of : list kv_event → list entry := foldl log_step [].
Definition index_of : list kv_event → list entry := foldl index_step [].
Definition failures (evs : list kv_event) : nat := length (List.filter failed evs).

(** What one call does to the abstract state. *)
Definition abstract_step (a : abstract) (ev : kv_event) (a' : abstract) : Prop :=
  log a' = log_step (log a) ev ∧ indexed a' = index_step (indexed a) ev ∧
  (lost a' = lost a ∨ (lost a' = S (lost a) ∧ failed ev = true)) ∧
  (TotalAllocator → failed ev = false ∧ lost a' = lost a).

Lemma abstract_query a : abstract_step a Query_event a.
Proof. split_and!; auto. Qed.

Lemma put_abstract a e r a' : put_effect a e r a' → abstract_step a (Put_event e r) a'.
Proof.
  intros [Hl Ho]. unfold abstract_step. cbn. split; [done|].
  destruct Ho as [(-> & -> & ->)|(-> & -> & Hn & Ht)]; cbn.
  - split_and!; auto.
  - split_and!; [done| |intros ?; by exfalso]. destruct Hn as [->| ->]; auto.
Qed.

Lemma kv_call_abstract s ev s' a : kv_call s ev s' → represents s a →
  ∃ a', represents s' a' ∧ abstract_step a ev a'.
Proof.
  intros Hcall Hr. pose proof (abstract_query a) as Hq. destruct Hcall.
  - destruct (put_returned s a key buf count r s') as (a' & Hr' & Ho); try done.
    exists a'. split; [done|]. by apply put_abstract.
  - apply get_state in H as ->. by exists a.
  - destruct (sizes_run s a key Hr) as [E _]. rewrite E in H. injection H as _ <-. by exists a.
  - destruct (sizes_run s a key Hr) as [_ E]. rewrite E in H. injection H as _ <-. by exists a.
  - rewrite (get_meta_run s a) in H by done. cbn zeta in H.
    repeat case_decide; try done; injection H as _ <-; by exists a.
  - destruct (dump_meta_run s a Hr) as (keys & _ & _ & E). rewrite E in H.
    injection H as _ <-. by exists a.
  - apply dump_all_state in H as [n ->]. exists a. split; [by apply represents_mallocs|done].
  - injection H as _ <-. by exists a.
  - apply (free_all_fuel _ (fuel + length (log a))) in H; [|lia].
    destruct (free_all_run s a (fuel + length (log a)) Hr) as (s1 & Hr' & _ & E); [lia|].
    rewrite E in H. case_decide; [|done]. injection H as _ ->.
    eexists. split; [exact Hr'|]. split_and!; cbn; auto.
Qed.

Lemma log_of_snoc evs ev : log_of (evs ++ [ev]) = log_step (log_of evs) ev.
Proof. apply foldl_snoc. Qed.
Lemma index_of_snoc evs ev : index_of (evs ++ [ev]) = index_step (index_of evs) ev.
Proof. apply foldl_snoc. Qed.
Lemma failures_snoc evs ev :
  failures (evs ++ [ev]) = (failures evs + (if failed ev then 1 else 0))%nat.
Proof.
  unfold failures. rewrite List.filter_app, length_app. cbn. by destruct (failed ev).
Qed.

(** What a run from a fresh store leaves, as a function of its events. *)
Definition run_ok (evs : list kv_event) s : Prop :=
  ∃ a, represents s a ∧ log a = log_of evs ∧ indexed a = index_of evs ∧
    (lost a ≤ failures evs)%nat ∧ (TotalAllocator → failures evs = 0%nat).

Lemma fresh_represents p s0 : construct p = Done s0 → bp s0 ≠ 0 →
  represents s0 (mk_abstract [] [] 0).
Proof.
  intros E Hb.
  assert (∃ b p', TBPAlloc sizeof_base p = (b, p')) as (b & p' & Eb) by (destruct (TBPAlloc _ p); eauto).
  destruct (decide (b = 0)) as [->|Hb0].
  { by rewrite (construct_bp p 0 p' s0 Eb E) in Hb. }
  destruct (construct_represents (C := C) p b p' Eb Hb0) as (s2 & E2 & Hr & _).
  by assert (s2 = s0) as -> by congruence.
Qed.

Lemma run_represents s0 evs s : represents s0 (mk_abstract [] [] 0) → kv_run s0 evs s →
  run_ok evs s.
Proof.
  intros H0. induction 1 as [|evs s ev s' _ IH Hcall]; [by eexists|].
  destruct IH as (a & Hr & Hl & Hi & Hn & Ht).
  destruct (kv_call_abstract _ _ _ _ Hcall Hr) as (a' & Hr' & Hl' & Hi' & Hn' & Ht').
  exists a'. rewrite log_of_snoc, index_of_snoc, failures_snoc, <-Hl, <-Hi.
  split_and!; [done..| |].
  - destruct Hn' as [->|[-> ->]]; [|lia]. destruct (failed ev); lia.
  - intros Hta. destruct (Ht' Hta) as [-> _]. by rewrite (Ht Hta).
Qed.

Lemma steps_run s0 s : rtc kv_step s0 s → ∃ evs, kv_run s0 evs s.
Proof.
  revert s. apply rtc_ind_r; [by exists []; constructor|].
  intros s s' _ [ev Hc] [evs IH]. exists (evs ++ [ev]). by econstructor.
Qed.

(** C2 (invariant): let a fresh store whose root could be allocated go through any calls of
    the public operations, one after the other, that return, with any answers of the persistent allocator and of
    [malloc] on the way.  The store then represents the log of those calls: the persistent
    list is exactly the blocks of the [put]s since the last [free_all], in order and without
    overlap, also those whose [put] returned -1; the index holds per key hash the blocks
    whose [put] returned 0; and [bytes_allocated] is the exact size of the index plus the
    nodes lost to refused requests, at most one for each [put] that failed.  If [malloc]
    serves every request, no [put] fails.  A block whose data the persistent allocator
    refused is in the list like the others, with its size and a null address and without
    its bytes: the result 0 does not say that the data is stored. *)
Theorem reachable_represents p s0 evs s :
  construct p = Done s0 → bp s0 ≠ 0 → kv_run s0 evs s →
  ∃ a, represents s a ∧ log a = log_of evs ∧ indexed a = index_of evs ∧
    (lost a ≤ failures evs)%nat ∧ (TotalAllocator → failures evs = 0%nat).
Proof. intros E Hb. by apply run_represents, (fresh_represents p). Qed.

(** C3 (refinement): a [put] of [count] bytes the buffer holds appends one block to the log,
    whatever happens in DRAM.  The result is 0 when the block is also indexed, and -1,
    with the index as it was, only if [malloc] refused a request, possibly losing one node.
    The two requests to the persistent allocator are not checked: refused memory for the
    entry, [put] does not return but reads through null (undefined); refused memory for the
    data, it goes on to the same results, and the block it appends has no bytes. *)
Theorem put_refines s a key buf count :
  represents s a → 0 ≤ count ≤ Z.of_nat (length buf) → is_u64 count →
  let '(x, d) := put_addresses count s in
  let e := mk_entry x (hash_key key) d (take (Z.to_nat count) buf) in
  if decide (x = 0) then put key buf count s = Undefined
  else (stored e ↔ d ≠ 0 ∨ count = 0) ∧
    ∃ r s' a', put key buf count s = Done (r, s') ∧ represents s' a' ∧ log a' = log a ++ [e] ∧
      ((r = 0 ∧ indexed a' = indexed a ++ [e] ∧ lost a' = lost a) ∨
       (r = -1 ∧ indexed a' = indexed a ∧ (lost a' = lost a ∨ lost a' = S (lost a)) ∧
        ¬ TotalAllocator)).
Proof.
  intros Hr Hc Hu. pose proof (put_total s a key buf count Hr Hc Hu) as Ht.
  unfold put_block in Ht. cbn zeta in Ht. destruct (put_addresses count s) as [x d].
  cbn zeta. cbn [e_addr] in Ht. case_decide; [done|]. split; [|exact Ht].
  unfold stored. cbn [e_data e_bytes]. rewrite <-length_zero_iff_nil, length_take. lia.
Qed.

(** C5 (functional): [get] leaves the store alone.  A key without blocks gives -1 and an
    untouched region; otherwise the region starts with the longest run of whole blocks of
    the key that fits, in the order they were put, and the result is 0 even if blocks
    were left out.  Its loop always ends and its assertions hold.  The run may only hold
    stored blocks: [get] reads a block without its data through null, which is undefined. *)
Theorem get_refines s a key mb :
  represents s a → region_ok mb (found key a) →
  get key mb s =
    (if decide (found key a = []) then Done (-1, mb, s)
     else match fetch (mb_size mb) (found key a) with
          | Some bs => Done (0, filled mb bs, s)
          | None => Undefined
          end) ∧
  ((∀ e, e ∈ found key a → stored e) →
   fetch (mb_size mb) (found key a) = Some (fit (mb_size mb) (e_bytes <$> found key a))).
Proof. intros Hr Hm. split; [by apply get_run|apply fetch_stored]. Qed.

(** Property (functional): the two size queries answer with the sum of the block sizes and the
    number of blocks of the key (as 64-bit counters), or -1 and 0 for an unknown key. *)
Theorem size_queries s a key :
  represents s a →
  get_value_size key s = Done (if decide (found key a = []) then (-1, 0)
                               else (0, u64 (total (found key a))), s) ∧
  get_meta_size key s = Done (if decide (found key a = []) then (-1, 0)
                              else (0, u64 (Z.of_nat (length (found key a)))), s).
Proof. apply sizes_run. Qed.

(** C40 (bounds): [get_meta] writes the address and size of each block of the key into the
    caller's array and sets [length] to twice their number; an array that is shorter is
    overrun.  For an unknown key it returns 0 and writes nothing, [length] included. *)
Theorem get_meta_refines s a key arr len :
  represents s a →
  get_meta key (mk_memory_meta (Some arr) len) s =
    let ws := words (spans (found key a)) in
    if decide (found key a = []) then Done (0, mk_memory_meta (Some arr) len, s)
    else if decide (length ws ≤ length arr)%nat
    then Done (0, mk_memory_meta (Some ((Some <$> ws) ++ drop (length ws) arr))
                    (Some (Z.of_nat (length ws))), s)
    else Undefined.
Proof. apply get_meta_run. Qed.

(** C8 (roundtrip): after a [put] that returned 0, a [get] of the key into a region of less
    than 2^63 bytes with room for all its blocks returns 0, and the region holds what the
    key held before, followed by the bytes just put, and past them what it held already.
    The blocks the key had must be stored; if the bytes just put are not, because the
    persistent allocator refused them, the [get] reads through null (undefined). *)
Theorem put_then_get s a key buf count s' mb :
  represents s a → 0 ≤ count ≤ Z.of_nat (length buf) → is_u64 count →
  put key buf count s = Done (0, s') →
  (∀ e, e ∈ found key a → stored e) →
  total (found key a) + count ≤ mb_size mb → mb_size mb ≤ Z.of_nat (length (mb_data mb)) →
  2 * mb_size mb < u64_modulus →
  get key mb s' =
    if decide (stored (put_block key buf count s)) then
      let bs := mjoin (e_bytes <$> found key a) ++ take (Z.to_nat count) buf in
      Done (0, mk_memory_block ((Some <$> bs) ++ drop (length bs) (mb_data mb)) (mb_size mb), s')
    else Undefined.
Proof.
  intros Hr Hc Hu Hput Hst Hsz Hroom Hbig.
  pose proof (put_success s a key buf count s' Hr Hc Hu Hput) as Hr'.
  pose proof (put_block_size s key buf count Hc) as He.
  pose proof (found_put s a key buf count) as Hf.
  set (e := put_block key buf count s) in *. cbn zeta in Hr'.
  rewrite (get_run _ _ key mb Hr'); rewrite Hf.
  2:{ split; [pose proof (total_nonneg (found key a)); lia|]. intros e' He'.
      pose proof (total_elem _ _ He') as Hle. rewrite total_app in Hle. cbn in Hle.
      pose proof (esize_nonneg e'). unfold is_u64. lia. }
  rewrite decide_False by (by destruct (found key a)).
  rewrite fetch_last by (done || lia). case_decide; [|done].
  unfold e. by rewrite (put_block_bytes s key buf count).
Qed.

(** C6 (safety): [free_all] walks the whole list: with fuel for every entry it ends, leaves
    an empty list whose [bytes_written] is 0 and an empty index with all its nodes freed,
    and its last assertion fails exactly when nodes were lost.  The entries stay in
    persistent memory: none is released. *)
Theorem free_all_refines s a fuel :
  represents s a → (length (log a) ≤ fuel)%nat → Z.of_nat (lost a) < 4294967296 →
  ∃ s', represents s' (mk_abstract [] [] (lost a)) ∧ (∀ e, e ∈ log a → entry_ok (mem s') e) ∧
    free_all fuel s = if decide (lost a = 0%nat) then Done (0, s') else Assert_failed.
Proof.
  intros Hr Hf Hl. destruct (free_all_run s a fuel Hr Hf) as (s' & Hr' & He & E).
  exists s'. split; [done|]. split; [done|]. rewrite E.
  by apply decide_ext, accounted_lost.
Qed.

(** Property (functional): opening starts from an empty log whatever the persistent memory
    already holds: the old contents stay, but no key is found, so a store written by an
    earlier process is not recovered. *)
Theorem construct_recovers_nothing p b p' :
  TBPAlloc sizeof_base p = (b, p') → b ≠ 0 →
  ∃ s, construct p = Done s ∧ represents s (mk_abstract [] [] 0) ∧
    (∀ x, is_Some (contents p x) → mem s x = contents p x) ∧
    ∀ key mb, 0 ≤ mb_size mb ≤ Z.of_nat (length (mb_data mb)) → get key mb s = Done (-1, mb, s).
Proof.
  intros Eb Hb. destruct (construct_represents (C := C) p b p' Eb Hb) as (s & E & Hr & Hx).
  exists s. split_and!; [done..|]. intros key mb Hmb. rewrite (get_run _ _ _ _ Hr); [done|].
  split; [done|]. intros e He. by apply elem_of_nil in He.
Qed.

(** Property (error): if [malloc] serves every request, [dump_all] prints one line per block of
    the log, in order, with the key hash and the bytes before the block's first zero byte; a
    block without a zero byte is printed past its end, and one that is not stored from
    indeterminate memory, both undefined. *)
Theorem dump_all_refines s a fuel :
  TotalAllocator → represents s a → (length (log a) ≤ fuel)%nat →
  (∀ e, e ∈ log a → esize e < 2147483648) →
  dump_all fuel s = match dump_lines (log a) with
                    | Some lines => Done (0, lines, set_mallocs (mallocs s + length (log a)) s)
                    | None => Undefined
                    end.
Proof. apply dump_all_run. Qed.

(** Property (functional): [dump_meta] prints [bytes_written], the total size of the log, and for
    every indexed key hash, once each, the address and size of its blocks in order. *)
Theorem dump_meta_refines s a :
  represents s a →
  ∃ keys, NoDup keys ∧ (∀ k, k ∈ keys ↔ of_key k (indexed a) ≠ []) ∧
    dump_meta s = Done (0, u64 (total (log a)), k ← keys; spans (of_key k (indexed a)), s).
Proof. apply dump_meta_run. Qed.

(** C19 (safety): the destructor of a reachable store passes its assertion when [malloc]
    serves every request, and frees every node of the index. *)
Theorem close_releases p s0 s :
  TotalAllocator → construct p = Done s0 → bp s0 ≠ 0 → rtc kv_step s0 s →
  ∃ s', close s = Done (tt, s') ∧ metas s' = ∅ ∧ lists s' = ∅ ∧ bytes_allocated s' = 0.
Proof.
  intros Ht E Hb [evs Hs]%steps_run.
  destruct (run_represents s0 evs s (fresh_represents p s0 E Hb) Hs) as (a & Hr & _ & _ & Hl & Hn).
  rewrite (Hn Ht) in Hl. apply Nat.le_0_r in Hl.
  destruct (free_meta_represents s a Hr) as (s' & _ & Hr' & Ef).
  rewrite decide_True in Ef by (unfold accounted; by rewrite Hl).
  exists s'. split; [by unfold close; eapply bind_step|].
  destruct Hr' as [_ (ps & X & Hi & HX) _]. cbn in HX. rewrite Hl in HX.
  by apply (idx_inv_empty _ _ _ Hi).
Qed.

End props.
