(* ===== verification/PmemKVTests.v ===== *)
(** * pmemkv at concrete inputs

    The sections of native/src/010-TestCasePersistentMemoryPool.cpp that exercise pmemkv, run
    on a list-backed persistent memory and a finite map for the hash map; two runs that
    show what refused allocations do; and instances of the theorems of [PmemKVProps]. *)
From stdpp Require Import relations.
From S2P Require Import Prelude XXHash CHeap PMem Cuckoo PmemKV PmemKVList PmemKVStore.
From S2P Require Import PmemKVIndex PmemKVUpdate PmemKVLoops PmemKVWalk PmemKVSpec PmemKVProps.

#[local] Instance test_pmem : PMem := list_pmem 100000.
#[local] Instance test_pmem_spec : PMemSpec := list_pmem_spec 100000.
#[local] Instance test_map : CuckooMap nat := gmap_cuckoo nat.
#[local] Instance test_map_spec : CuckooSpec test_map := gmap_cuckoo_spec nat.
Abbreviation store := (pmemkv test_map).

(** The same allocator, refusing request number [k] only. *)
Definition refusing (k : nat) : Allocator := λ n sz, negb (n =? k)%nat && int_allocator n sz.

Definition key_1 : list byte := ascii_bytes [49].
Definition hello : list byte := ascii_bytes [104;101;108;108;111].
Definition world : list byte := ascii_bytes [32;119;111;114;108;100].

(** [kv->put(key, "hello", 5); kv->put(key, " world", 6);], the results dropped. *)
Definition put_hello_world `{Allocator} : st store unit :=
  _ ← put key_1 hello 5; _ ← put key_1 world 6; mret tt.

(** TEST_CASE "pmemkv operations", SECTION "test open and close", up to the [REQUIRE]: what
    [get] answers and what the region of 11 bytes then holds. *)
Definition test_open_and_close : outcome (Z * list cell) :=
  s ← construct [];
  '(_, s) ← put_hello_world s;
  '(_, s) ← close s;
  s ← construct (pmem s);
  '(r, mb, _) ← get key_1 (mk_memory_block (replicate 11 None) 11) s;
  mret (r, mb_data mb).

(** SECTION "test pmemkv metadata related operation": the sum it checks, then the result of
    [free_all]. *)
Definition test_metadata : outcome (Z * Z) :=
  s ← construct [];
  '(_, s) ← put_hello_world s;
  '(_, size, s) ← get_meta_size key_1 s;
  '(_, mm, s) ← get_meta key_1 (mk_memory_meta (Some (replicate (Z.to_nat (size * 2)) None)) None) s;
  words ← or_undefined (mm_meta mm);
  sizes ← or_undefined (mapM (λ i : Z, mjoin (words !! Z.to_nat (i * 2 + 1))) (seqZ 0 size));
  '(r, s) ← free_all 2 s;
  '(_, _) ← close s;
  mret (foldr Z.add 0 sizes, r).

(** SECTION "test multithreaded put and get", the threads one after the other, [n] of them:
    thread [i] puts [i] bytes of [expect_string] under the key [i]. *)
Definition expect_string : list byte :=
  ascii_bytes [104;101;108;108;111;32;119;111;114;108;100;32;105;110;116;101;108;46;46;46].

Fixpoint put_all (ids : list nat) : st store unit :=
  match ids with
  | [] => mret tt
  | i :: ids => _ ← put (ascii_bytes [48 + Z.of_nat i]) expect_string (Z.of_nat i); put_all ids
  end.

Fixpoint get_all (ids : list nat) : st store (list (list cell)) :=
  match ids with
  | [] => mret []
  | i :: ids =>
      '(_, mb) ← get (ascii_bytes [48 + Z.of_nat i])
                   (mk_memory_block (replicate i None) (Z.of_nat i));
      rest ← get_all ids; mret (mb_data mb :: rest)
  end.

Definition test_puts (ids : list nat) : outcome (list (list cell)) :=
  s ← construct [];
  '(_, s) ← put_all ids s;
  '(l, s) ← get_all ids s;
  '(_, s) ← free_all (length ids) s;
  '(_, _) ← close s;
  mret l.

(** Property (roundtrip): the metadata test of the repository passes, and so does its
    put-and-get test when the puts of keys 0 to 9 run one after the other. *)
Theorem pmemkv_tests_pass :
  test_metadata = Done (11, 0) ∧
  test_puts (seq 0 10) = Done ((λ i, Some <$> take i expect_string) <$> seq 0 10).
Proof. split; vm_compute; reflexivity. Qed.

(** Property (error): the open-and-close test cannot pass: the second object does not find the
    key, and its region of 11 bytes is left indeterminate. *)
Theorem open_and_close_loses_data : test_open_and_close = Done (-1, replicate 11 None).
Proof. vm_compute. reflexivity. Qed.

(** [put] of one block and [free_all], with request [k] of [malloc] refused. *)
Definition put_refused (k : nat) : outcome (Z * outcome Z) :=
  s ← construct [];
  '(r, s) ← @put test_pmem test_map (refusing k) key_1 hello 5 s;
  mret (r, '(r, _) ← free_all 1 s; mret r).

(** Property (error): if the second request of [update_meta] is refused, [put] returns -1 but the
    first node stays accounted for and unreachable: [free_all], and so the destructor's
    [free_meta], then fails its assertion.  A refusal of the first request does no harm. *)
Theorem refused_list_node_asserts :
  put_refused 0 = Done (-1, Done 0) ∧ put_refused 1 = Done (-1, Assert_failed).
Proof. split; vm_compute; reflexivity. Qed.

(** A [put] whose data is refused by the persistent allocator (80 bytes are left for 100
    bytes of data), then a [get] of the same key. *)
Definition put_without_room : outcome (Z * outcome (Z * list cell)) :=
  let P := list_pmem (segment_base + sizeof_base + sizeof_block_entry + 80) in
  s ← @construct P test_map [];
  '(r, s) ← @put P test_map int_allocator key_1 (replicate 100 x00) 100 s;
  mret (r, '(r, mb, _) ← @get P test_map key_1 (mk_memory_block (replicate 100 None) 100) s;
           mret (r, mb_data mb)).

(** Property (error): [put] does not look at the result of the data allocation: it returns 0 for
    a block that was never stored, and the next [get] of the key dereferences null. *)
Theorem put_reports_lost_data : put_without_room = Done (0, Undefined).
Proof. vm_compute. reflexivity. Qed.

(** ** Instances of the theorems

    [s0] is a fresh store and [s1] the store after one [put]; [e1] is its block. *)
Definition fresh_store : store := mk_pmemkv 0 cempty 0 [] ∅ ∅ 0.
Definition store_of (o : outcome store) : store :=
  match o with Done s => s | _ => fresh_store end.
Definition state_of {B} (o : outcome (B * store)) : store :=
  match o with Done (_, s) => s | _ => fresh_store end.
Definition result_of (o : outcome (Z * store)) : option Z :=
  match o with Done (r, _) => Some r | _ => None end.

Lemma store_of_done o : is_done o = true → o = Done (store_of o).
Proof. by destruct o. Qed.
Lemma state_of_done o r : result_of o = Some r → o = Done (r, state_of o).
Proof. destruct o as [[r' s]| |]; [|done|done]. by intros [= ->]. Qed.
Lemma pair_of {X Y} (q : X * Y) x : q.1 = x → q = (x, q.2).
Proof. destruct q. by intros <-. Qed.

Definition s0 : store := store_of (construct []).
Definition s1 : store := state_of (put key_1 hello 5 s0).
Definition e1 : entry := mk_entry 4160 (hash_key key_1) 4192 hello.
Definition a1 : abstract := mk_abstract [e1] [e1] 0.

Lemma s0_constructed : construct [] = Done s0.
Proof. apply store_of_done. vm_compute. reflexivity. Qed.
Lemma s0_base : bp s0 ≠ 0.
Proof. vm_compute. discriminate. Qed.

Lemma s0_represents : represents s0 (mk_abstract [] [] 0).
Proof.
  destruct (construct_represents (C := test_map) (P := test_pmem) [] 4096
    (TBPAlloc (PMem := test_pmem) sizeof_base []).2) as (s & E & Hr & _);
    [apply pair_of; vm_compute; reflexivity|done|].
  rewrite s0_constructed in E. by injection E as ->.
Qed.

Lemma s0_allocs : put_allocs s0 5 4160 4192.
Proof.
  do 2 eexists. split; apply pair_of; vm_compute; reflexivity.
Qed.

Lemma s1_put : put key_1 hello 5 s0 = Done (0, s1).
Proof. apply state_of_done. vm_compute. reflexivity. Qed.

Lemma hello_count : 0 ≤ 5 ≤ Z.of_nat (length hello).
Proof. cbn. lia. Qed.
Lemma hello_u64 : is_u64 5.
Proof. unfold is_u64, u64_modulus. lia. Qed.

Lemma s1_represents : represents s1 a1.
Proof.
  pose proof (put_success s0 _ key_1 hello 5 s1 s0_represents hello_count hello_u64 s1_put) as Hr.
  rewrite (put_block_allocs s0 key_1 hello 5 4160 4192 s0_allocs) in Hr. exact Hr.
Qed.

Lemma s1_found : found key_1 a1 = [e1].
Proof. vm_compute. reflexivity. Qed.

Lemma s1_block : put_block key_1 hello 5 s0 = e1.
Proof. exact (put_block_allocs s0 key_1 hello 5 4160 4192 s0_allocs). Qed.

Lemma s1_call : kv_call s0 (Put_event e1 0) s1.
Proof. rewrite <-s1_block. exact (call_put s0 _ _ _ _ _ hello_count hello_u64 s1_put). Qed.
Lemma s1_step : kv_step s0 s1.
Proof. eexists. exact s1_call. Qed.
Lemma s1_run : kv_run s0 [Put_event e1 0] s1.
Proof. exact (run_call s0 [] s0 _ s1 (run_start s0) s1_call). Qed.

Lemma reachable_represents_witness :
  ∃ a, represents s1 a ∧ log a = [e1] ∧ indexed a = [e1] ∧ (lost a ≤ 0)%nat ∧
    (@TotalAllocator int_allocator → 0%nat = 0%nat).
Proof. exact (reachable_represents [] s0 _ s1 s0_constructed s0_base s1_run). Defined.

Lemma s0_addresses : put_addresses 5 s0 = (4160, 4192).
Proof. exact (put_addresses_unique _ _ _ _ s0_allocs). Qed.

Lemma put_refines_witness : (stored e1 ↔ 4192 ≠ 0 ∨ 5 = 0) ∧
  ∃ r s' a', put key_1 hello 5 s0 = Done (r, s') ∧ represents s' a' ∧
  log a' = [e1] ∧ ((r = 0 ∧ indexed a' = [e1] ∧ lost a' = 0%nat) ∨
   (r = -1 ∧ indexed a' = [] ∧ (lost a' = 0%nat ∨ lost a' = 1%nat) ∧ ¬ TotalAllocator)).
Proof.
  pose proof (put_refines s0 _ key_1 hello 5 s0_represents hello_count hello_u64) as H.
  rewrite s0_addresses in H. exact H.
Defined.

Lemma get_refines_witness :
  get key_1 (mk_memory_block (replicate 8 None) 8) s1 =
    Done (0, mk_memory_block ((Some <$> hello) ++ replicate 3 None) 8, s1).
Proof.
  rewrite (proj1 (get_refines s1 a1 key_1 (mk_memory_block (replicate 8 None) 8) s1_represents
    ltac:(split; [cbn; lia|]; rewrite s1_found; intros e ->%list_elem_of_singleton;
          change (esize e1) with 5; unfold is_u64, u64_modulus; cbn; lia))).
  rewrite s1_found. reflexivity.
Defined.

Lemma size_queries_witness : get_value_size key_1 s1 = Done (0, 5, s1) ∧
  get_meta_size key_1 s1 = Done (0, 1, s1).
Proof.
  destruct (size_queries s1 a1 key_1 s1_represents) as [E1 E2]. rewrite E1, E2, s1_found.
  rewrite !decide_False by done. split; reflexivity.
Defined.

Lemma get_meta_refines_witness :
  get_meta key_1 (mk_memory_meta (Some [None; None]) None) s1 =
    Done (0, mk_memory_meta (Some [Some 4192; Some 5]) (Some 2), s1) ∧
  get_meta key_1 (mk_memory_meta (Some [None]) None) s1 = Undefined.
Proof.
  split; rewrite (get_meta_refines s1 a1 key_1 _ _ s1_represents), s1_found;
    cbn zeta; rewrite decide_False by done.
  - rewrite decide_True by (cbn; lia). reflexivity.
  - rewrite decide_False by (cbn; lia). reflexivity.
Defined.

Lemma put_then_get_witness :
  get key_1 (mk_memory_block (replicate 7 None) 7) s1 =
    Done (0, mk_memory_block ((Some <$> hello) ++ [None; None]) 7, s1).
Proof.
  rewrite (put_then_get s0 (mk_abstract [] [] 0) key_1 hello 5 s1
             (mk_memory_block (replicate 7 None) 7) s0_represents hello_count hello_u64 s1_put).
  - rewrite s1_block. reflexivity.
  - intros e He. by apply elem_of_nil in He.
  - cbn. lia.
  - cbn. lia.
  - cbn. unfold u64_modulus. lia.
Defined.

Lemma free_all_refines_witness : ∃ s', represents s' (mk_abstract [] [] 0) ∧
  (∀ e, e ∈ [e1] → entry_ok (mem s') e) ∧ free_all 1 s1 = Done (0, s').
Proof.
  exact (free_all_refines s1 a1 1 s1_represents (le_n 1) eq_refl).
Defined.

Lemma construct_recovers_nothing_witness : ∃ s : store, construct (pmem s1) = Done s ∧
  represents s (mk_abstract [] [] 0) ∧
  (∀ x, is_Some (contents (pmem s1) x) → mem s x = contents (pmem s1) x) ∧
  ∀ key mb, 0 ≤ mb_size mb ≤ Z.of_nat (length (mb_data mb)) → get key mb s = Done (-1, mb, s).
Proof.
  eapply (construct_recovers_nothing (pmem s1) 4197);
    [apply pair_of; vm_compute; reflexivity|discriminate].
Defined.

Lemma dump_all_refines_witness : dump_all 1 s1 = Undefined.
Proof.
  rewrite (dump_all_refines s1 a1 1 int_allocator_total s1_represents (le_n 1)).
  - reflexivity.
  - intros e ->%list_elem_of_singleton. change (esize e1) with 5. lia.
Defined.

Lemma dump_meta_refines_witness : ∃ keys, NoDup keys ∧
  (∀ k, k ∈ keys ↔ of_key k [e1] ≠ []) ∧
  dump_meta s1 = Done (0, 5, k ← keys; spans (of_key k [e1]), s1).
Proof. exact (dump_meta_refines s1 a1 s1_represents). Defined.

Lemma close_releases_witness : ∃ s', close s1 = Done (tt, s') ∧ metas s' = ∅ ∧ lists s' = ∅ ∧
  bytes_allocated s' = 0.
Proof.
  exact (close_releases [] s0 s1 int_allocator_total s0_constructed s0_base (rtc_once _ _ s1_step)).
Defined.
