(* ===== verification/PmemKVRace.v ===== *)
(** * Concurrent puts

    [put] takes no lock around its persistent half: lines 154-162 of pmemkv.h are six calls
    into libfs that other threads can come between.  [thread_step] is one such call of one
    thread, [put_link_steps] shows that a thread running alone does [put_link], and
    [run_schedule] interleaves several. *)
From S2P Require Import Prelude XXHash CHeap PMem Cuckoo PmemKV PmemKVList PmemKVStore PmemKVTests.
From S2P Require Import PmemKVIndex PmemKVUpdate PmemKVLoops PmemKVWalk PmemKVSpec.

(** What a thread does next, with the values it keeps in registers. *)
Inductive pc :=
| Read_tail
| Set_head
| Read_last
| Set_next (last : Z)
| Set_tail
| Add_load
| Add_store (tmp : Z)
| Finished.

Record thread := mk_thread { th_bep : Z; th_count : Z; th_pc : pc }.
Definition at_pc (t : thread) (p : pc) : thread := mk_thread (th_bep t) (th_count t) p.

Section race.
Context `{PMem, C : CuckooMap nat}.

Definition thread_step (t : thread) : st (pmemkv C) thread :=
  s ← st_get;
  match th_pc t with
  | Read_tail =>
      tail ← TBPGet (bp s + off_tail);
      mret (at_pc t (if decide (tail = 0) then Set_head else Read_last))
  | Set_head => _ ← TBPSet (bp s + off_head) (th_bep t); mret (at_pc t Set_tail)
  | Read_last => last ← deref_word (bp s + off_tail); mret (at_pc t (Set_next last))
  | Set_next last => _ ← TBPSet (last + off_next) (th_bep t); mret (at_pc t Set_tail)
  | Set_tail => _ ← TBPSet (bp s + off_tail) (th_bep t); mret (at_pc t Add_load)
  | Add_load => tmp ← TBPGet (bp s + off_bytes_written); mret (at_pc t (Add_store tmp))
  | Add_store tmp =>
      _ ← TBPSet (bp s + off_bytes_written) (u64 (tmp + th_count t)); mret (at_pc t Finished)
  | Finished => mret t
  end.

Fixpoint thread_run (n : nat) (t : thread) : st (pmemkv C) thread :=
  match n with
  | O => mret t
  | S n => t ← thread_step t; thread_run n t
  end.

(** The threads in the order [sched] names them. *)
Fixpoint run_schedule (sched : list nat) (ts : list thread) : st (pmemkv C) (list thread) :=
  match sched with
  | [] => mret ts
  | i :: sched =>
      t ← st_lift (or_undefined (ts !! i));
      t ← thread_step t;
      run_schedule sched (<[i := t]> ts)
  end.

Lemma TBPSet_bp_same a v u (s s' : pmemkv C) : TBPSet a v s = Done (u, s') → bp s' = bp s.
Proof. unfold TBPSet, PmemKV.store. intros E. repeat case_match; by simplify_eq. Qed.

(** A thread that is not disturbed does exactly [put_link]. *)
Lemma put_link_run_steps (s s' : pmemkv C) bep count :
  put_link bep count s = Done (tt, s') →
  ∃ n, (n ≤ 6)%nat ∧
    thread_run n (mk_thread bep count Read_tail) s = Done (mk_thread bep count Finished, s').
Proof.
  unfold put_link. intros (s0 & ? & [= <- <-] & E)%st_bind_inv.
  apply st_bind_inv in E as (tail & s1 & E1 & E). pose proof (TBPGet_state _ _ _ _ E1) as ->.
  apply st_bind_inv in E as ([] & s2 & E2 & E).
  apply st_bind_inv in E as ([] & s3 & E3 & E). unfold TBPAdd in E.
  apply st_bind_inv in E as (tmp & s4 & E4 & E5). pose proof (TBPGet_state _ _ _ _ E4) as ->.
  pose proof (TBPSet_bp_same _ _ _ _ _ E3) as B3.
  assert (bp s2 = bp s ∧ ∃ n, (n ≤ 2)%nat ∧
    thread_run n (mk_thread bep count (if decide (tail = 0) then Set_head else Read_last)) s
      = Done (mk_thread bep count Set_tail, s2)) as [B2 (n & Hn & En)].
  { case_decide.
    - split; [by eapply TBPSet_bp_same|]. exists 1%nat. split; [lia|].
      eapply bind_step; [|reflexivity]. eapply bind_step; [reflexivity|].
      eapply bind_step; [exact E2|reflexivity].
    - apply st_bind_inv in E2 as (last & s5 & E6 & E2).
      pose proof (deref_word_state _ _ _ _ E6) as ->.
      split; [by eapply TBPSet_bp_same|]. exists 2%nat. split; [lia|].
      eapply bind_step; [eapply bind_step; [reflexivity|]; eapply bind_step; [exact E6|reflexivity]|].
      eapply bind_step; [|reflexivity]. eapply bind_step; [reflexivity|].
      eapply bind_step; [exact E2|reflexivity]. }
  assert (∀ m (t t' t'' : thread) (q q' q'' : pmemkv C), thread_run m t q = Done (t', q') →
    ∀ k, thread_run k t' q' = Done (t'', q'') → thread_run (m + k) t q = Done (t'', q'')) as Happ.
  { induction m as [|m IH]; intros t t' t'' q q' q'' F1 k F2.
    - by injection F1 as -> ->.
    - cbn [thread_run] in F1. apply st_bind_inv in F1 as (t1 & q1 & F1 & F3).
      eapply bind_step; [exact F1|]. by eapply IH. }
  exists (S (n + 3)). split; [lia|].
  eapply bind_step.
  { eapply bind_step; [reflexivity|]. eapply bind_step; [exact E1|reflexivity]. }
  eapply Happ; [exact En|].
  eapply bind_step; [eapply bind_step; [reflexivity|]; cbn; rewrite B2;
    eapply bind_step; [exact E3|reflexivity]|].
  eapply bind_step; [eapply bind_step; [reflexivity|]; cbn; rewrite B3, B2;
    eapply bind_step; [exact E4|reflexivity]|].
  eapply bind_step; [|reflexivity]. eapply bind_step; [reflexivity|]. cbn. rewrite B3, B2.
  eapply bind_step; [exact E5|reflexivity].
Qed.

End race.

Definition finished (t : thread) : bool :=
  match th_pc t with Finished => true | _ => false end.

(** Two calls of [put] that made their entries: the links under a schedule, then
    [update_meta] of each, which holds the lock of the index.  The results are those of the
    two [update_meta]. *)
Definition race_links `{PMem, C : CuckooMap nat, Allocator} (sched : list nat) (x1 n1 x2 n2 : Z)
    : st (pmemkv C) (bool * Z * Z) :=
  ts ← run_schedule sched [mk_thread x1 n1 Read_tail; mk_thread x2 n2 Read_tail];
  r1 ← update_meta x1;
  r2 ← update_meta x2;
  mret (forallb finished ts, r1, r2).

(** One thread after the other. *)
Definition in_turn : list nat := replicate 6 0%nat ++ replicate 6 1%nat.

(** The first thread reads where its entry goes, which takes two reads unless the list is
    empty; then the second thread links its entry, and the first goes on. *)
Definition overtaken (es : list entry) : list nat :=
  replicate (if decide (es = []) then 1 else 2) 0%nat ++ replicate 6 1%nat ++ replicate 4 0%nat.

Section overtake.
Context `{P : PMem, HP : !PMemSpec, C : CuckooMap nat, HC : !CuckooSpec C, A : Allocator}.
Implicit Types s : pmemkv C.

Definition done_thread (t : thread) : thread := at_pc t Finished.

Lemma thread_run_finished k t s : th_pc t = Finished → thread_run k t s = Done (t, s).
Proof.
  intros Ht. induction k as [|k IH]; [done|]. cbn [thread_run].
  eapply bind_step; [|exact IH]. unfold thread_step. rewrite Ht. done.
Qed.

Lemma thread_run_app j k t s t' s' r : thread_run j t s = Done (t', s') →
  thread_run k t' s' = r → thread_run (j + k) t s = r.
Proof.
  revert t s. induction j as [|j IH]; intros t s E Hr; [by injection E as -> ->|].
  cbn [thread_run] in E |- *. apply st_bind_inv in E as (t1 & s1 & E1 & E).
  eapply bind_step; [exact E1|]. by apply IH.
Qed.

(** Six steps always do the whole link. *)
Lemma thread_run_link s s' bep count : put_link bep count s = Done (tt, s') →
  thread_run 6 (mk_thread bep count Read_tail) s = Done (mk_thread bep count Finished, s').
Proof.
  intros (n & Hn & E)%put_link_run_steps. replace 6%nat with (n + (6 - n))%nat by lia.
  eapply thread_run_app; [exact E|]. by apply thread_run_finished.
Qed.

(** A thread that is scheduled several times in a row. *)
Lemma run_schedule_thread i k sched ts t t' s s' r : ts !! i = Some t →
  thread_run k t s = Done (t', s') → run_schedule sched (<[i := t']> ts) s' = r →
  run_schedule (replicate k i ++ sched) ts s = r.
Proof.
  revert ts t s. induction k as [|k IH]; intros ts t s Hi E Hr.
  - injection E as -> ->. by rewrite list_insert_id in Hr.
  - cbn [thread_run] in E. apply st_bind_inv in E as (t1 & s1 & E1 & E).
    cbn [replicate app run_schedule]. eapply bind_step; [unfold st_lift; rewrite Hi; reflexivity|].
    eapply bind_step; [exact E1|].
    eapply (IH _ t1); [|exact E|by rewrite list_insert_insert_eq].
    apply list_lookup_insert_eq. by eapply lookup_lt_Some.
Qed.

(** ** The link, from the point where its target is known *)
Definition pc_link (es : list entry) : pc :=
  match es !! (length es - 1)%nat with Some e => Set_next (e_addr e) | None => Set_head end.

Lemma read_target s es bep count : pm_inv (mem s) (bp s) es →
  thread_run (if decide (es = []) then 1 else 2) (mk_thread bep count Read_tail) s =
    Done (mk_thread bep count (pc_link es), s).
Proof.
  intros Hi. pose proof (pi_tail _ _ _ Hi) as Ht. pose proof (last_addr_zero _ _ _ Hi) as Hz.
  unfold pc_link. unfold last_addr in *.
  destruct (es !! (length es - 1)%nat) as [e|] eqn:El; cbn in Ht, Hz; case_decide as He.
  - subst. done.
  - eapply bind_step; [eapply bind_step; [done|]; eapply bind_step; [by apply TBPGet_ok|done]|].
    rewrite decide_False by tauto. cbn [at_pc thread_run].
    eapply bind_step; [|done]. eapply bind_step; [done|].
    eapply bind_step; [by apply deref_word_ok|done].
  - eapply bind_step; [eapply bind_step; [done|]; eapply bind_step; [by apply TBPGet_ok|done]|].
    by rewrite decide_True.
  - tauto.
Qed.

Lemma set_target es bep count s p : TBPSet (link_target (bp s) es) bep s = Done (tt, set_pmem p s) →
  thread_step (mk_thread bep count (pc_link es)) s =
    Done (mk_thread bep count Set_tail, set_pmem p s).
Proof.
  unfold pc_link, link_target. intros E. eapply bind_step; [done|].
  destruct (es !! _); (eapply bind_step; [exact E|done]).
Qed.

(** The four remaining steps, on whatever memory they meet. *)
Lemma link_rest s es bep count w :
  mapped_range (mem s) (bp s) sizeof_base → mapped_range (mem s) (link_target (bp s) es) 8 →
  disjoint_ranges (link_target (bp s) es) 8 (bp s + 8) 56 →
  word_at (mem s) (bp s + off_bytes_written) = Some w →
  ∃ p, thread_run 4 (mk_thread bep count (pc_link es)) s =
         Done (mk_thread bep count Finished, set_pmem p s) ∧
       pointwise_relation Z eq (contents p) (link_mem (mem s) (bp s) es bep (u64 (w + count))).
Proof.
  intros Hm Hmt Hdis Hw.
  destruct (TBPSet_ok s (link_target (bp s) es) bep Hmt) as (q1 & F1 & G1).
  assert (mem (set_pmem q1 s) = contents q1) as M1 by done.
  destruct (TBPSet_ok (set_pmem q1 s) (bp s + off_tail) bep) as (q2 & F2 & G2).
  { rewrite M1, G1. apply write_range_mapped. intros x Hx. apply Hm. unfold_layout. lia. }
  assert (word_at (mem (set_pmem q2 s)) (bp s + off_bytes_written) = Some w) as Hw2.
  { change (mem (set_pmem q2 s)) with (contents q2). rewrite G2, M1, G1.
    rewrite word_write_disjoint
      by (intros x; rewrite length_le_encode; unfold_layout; intros ? ?; lia).
    rewrite word_write_disjoint; [done|].
    intros x. rewrite length_le_encode. unfold_layout. intros ? ?. apply (Hdis x); lia. }
  assert (mapped_range (mem (set_pmem q2 s)) (bp s + off_bytes_written) 8) as Hm3
    by (apply word_mapped; eauto).
  destruct (TBPSet_ok (set_pmem q2 s) (bp s + off_bytes_written) (u64 (w + count)) Hm3)
    as (q3 & F3 & G3).
  exists q3. split.
  - eapply bind_step; [by apply set_target|].
    eapply bind_step; [eapply bind_step; [done|]; eapply bind_step; [exact F2|done]|].
    eapply bind_step; [eapply bind_step; [done|]; eapply bind_step; [by apply TBPGet_ok|done]|].
    eapply bind_step; [eapply bind_step; [done|]; eapply bind_step; [exact F3|done]|]. done.
  - unfold link_mem. change (mem (set_pmem q2 s)) with (contents q2) in G3.
    by rewrite G3, G2, M1, G1.
Qed.

(** The second of two links at the same place erases the first. *)
Lemma link_mem_overwrite f b es a w a' w' :
  pointwise_relation Z eq (link_mem (link_mem f b es a w) b es a' w') (link_mem f b es a' w').
Proof.
  intros x. unfold link_mem, write_range. rewrite !length_le_encode. by repeat case_decide.
Qed.

(** ** Two new entries and a list, in one memory *)
Record two_entries (f : memory) (b : Z) (es : list entry) (e1 e2 : entry) : Prop := {
  te_inv : pm_inv f b es;
  te_ok1 : entry_ok f e1;
  te_ok2 : entry_ok f e2;
  te_null1 : word_at f (e_addr e1 + off_next) = Some 0;
  te_null2 : word_at f (e_addr e2 + off_next) = Some 0;
  te_u1 : is_u64 (e_addr e1);
  te_u2 : is_u64 (e_addr e2);
  te_alone1 : alone b e1;
  te_alone2 : alone b e2;
  te_apart1 : ∀ i e, es !! i = Some e → apart e e1;
  te_apart2 : ∀ i e, es !! i = Some e → apart e e2;
  te_apart : apart e1 e2
}.

Lemma entry_ok_extend f g e : entry_ok f e → (∀ x, is_Some (f x) → g x = f x) → entry_ok g e.
Proof.
  intros He Hg. pose proof He as [_ Hm _ _ _ Hb].
  eapply entry_ok_frame; [exact He|intros x Hx; by rewrite Hg|].
  intros x [Hx|Hx]; apply Hg; [apply Hm; unfold_layout; lia|].
  destruct (decide (e_data e = 0)) as [Hz|Hz]; [rewrite dsize_null in Hx by done; lia|].
  rewrite dsize_some in Hx by done.
  apply (proj1 (read_range_mapped f (e_data e) (esize e))); [rewrite Hb; eauto|done].
Qed.

Lemma two_fresh f0 f1 f2 b es e1 e2 : pm_inv f0 b es →
  fresh_entry f0 f1 e1 → fresh_entry f1 f2 e2 → two_entries f2 b es e1 e2.
Proof.
  intros Hi F1 F2. pose proof F1 as [X1 E1 N1 U1 _ _]. pose proof F2 as [X2 E2 N2 U2 M2 _].
  pose proof (pm_inv_extend _ _ _ _ Hi X1) as Hi1.
  pose proof (pm_inv_extend _ _ _ _ Hi1 X2) as Hi2.
  destruct (fresh_entry_apart _ _ _ _ _ Hi F1) as [A1 P1].
  destruct (fresh_entry_apart _ _ _ _ _ Hi1 F2) as [A2 P2].
  split; try done; [by eapply entry_ok_extend| |].
  - rewrite <-N1. apply word_ext. intros x Hx. apply X2.
    apply (proj1 (word_mapped f1 (e_addr e1 + off_next))); eauto.
  - assert (∀ a n, mapped_range f1 a n →
      disjoint_ranges a n (e_addr e2) sizeof_block_entry ∧
      disjoint_ranges a n (e_data e2) (dsize e2)) as Hd.
    { intros a n Hm. split; intros x Hx Hy; destruct (Hm x Hx) as [v Hv];
        rewrite M2 in Hv by auto; done. }
    destruct (Hd _ _ (eo_mapped _ _ E1)) as [Ha Hb].
    assert (mapped_range f1 (e_data e1) (dsize e1)) as Hm1.
    { destruct (decide (e_data e1 = 0)) as [Hz|Hz]; [|rewrite dsize_some by done;
        apply read_range_mapped; rewrite (eo_bytes _ _ E1); eauto].
      rewrite dsize_null by done. intros x Hx. lia. }
    destruct (Hd _ _ Hm1) as [Hc He]. by split_and!.
Qed.

Lemma two_entries_swap f b es e1 e2 : two_entries f b es e1 e2 → two_entries f b es e2 e1.
Proof. intros []. split; try done. by apply apart_sym. Qed.

(** Linking one of them leaves the other a new entry. *)
Lemma link_other f b es e1 e2 : two_entries f b es e1 e2 →
  let g := link_mem f b es (e_addr e1) (u64 (total es + esize e1)) in
  pm_inv g b (es ++ [e1]) ∧ entry_ok g e2 ∧ word_at g (e_addr e2 + off_next) = Some 0 ∧
  ∀ i e, (es ++ [e1]) !! i = Some e → apart e e2.
Proof.
  intros [] g. split_and!.
  - by apply pm_inv_append.
  - eapply entry_ok_frame; [exact te_ok4|by apply link_mem_grows|]. intros x Hx.
    apply (link_mem_entry f b es e1 e2); [done| |done].
    intros i l Hl. right. by apply (te_apart4 i).
  - unfold g. rewrite link_mem_link; [done|done|]. intros l Hl. by apply (te_apart4 _ _ Hl).
  - intros i e [He|[_ He]]%lookup_app_Some; [by apply (te_apart4 i)|].
    by apply list_lookup_singleton_Some in He as [_ <-].
Qed.

Lemma run_link s es e1 e2 : two_entries (mem s) (bp s) es e1 e2 →
  ∃ p, put_link (e_addr e1) (esize e1) s = Done (tt, set_pmem p s) ∧
    pointwise_relation Z eq (contents p)
      (link_mem (mem s) (bp s) es (e_addr e1) (u64 (total es + esize e1))).
Proof.
  intros []. apply put_link_run; [done|done|by apply link_target_mapped|].
  by apply (link_target_base (mem s)).
Qed.

Definition link_threads (e1 e2 : entry) : list thread :=
  [mk_thread (e_addr e1) (esize e1) Read_tail; mk_thread (e_addr e2) (esize e2) Read_tail].
Definition linked_threads (e1 e2 : entry) : list thread :=
  [mk_thread (e_addr e1) (esize e1) Finished; mk_thread (e_addr e2) (esize e2) Finished].

(** In turn, the list gains both entries. *)
Lemma run_in_turn s es e1 e2 : two_entries (mem s) (bp s) es e1 e2 →
  ∃ p, run_schedule in_turn (link_threads e1 e2) s = Done (linked_threads e1 e2, set_pmem p s) ∧
       pm_inv (contents p) (bp s) (es ++ [e1; e2]).
Proof.
  intros Ht. pose proof Ht as [_ _ _ _ _ _ U2 _ A2 _ _ _].
  destruct (run_link s es e1 e2 Ht) as (p1 & R1 & G1).
  destruct (link_other _ _ _ _ _ Ht) as (Hi1 & O2 & N2 & P2).
  set (g := link_mem _ _ _ _ _) in *.
  assert (∀ x, is_Some (g x) → contents p1 x = g x) as Hg by (intros x _; apply G1).
  pose proof (pm_inv_extend _ _ _ _ Hi1 Hg) as Hi.
  pose proof (entry_ok_extend _ _ _ O2 Hg) as Ho.
  destruct (put_link_run (set_pmem p1 s) (es ++ [e1]) (e_addr e2) (esize e2) Hi U2)
    as (p2 & R2 & G2); [by apply link_target_mapped|by apply (link_target_base (contents p1))|].
  change (mem (set_pmem p1 s)) with (contents p1) in G2.
  exists p2. split.
  - unfold in_turn. eapply run_schedule_thread; [done|exact (thread_run_link _ _ _ _ R1)|].
    rewrite <-(app_nil_r (replicate 6 1%nat)).
    eapply run_schedule_thread; [done|exact (thread_run_link _ _ _ _ R2)|]. done.
  - replace (es ++ [e1; e2]) with ((es ++ [e1]) ++ [e2]) by by rewrite <-app_assoc.
    eapply pm_inv_extend; [apply (pm_inv_append (contents p1)); try done; by rewrite G1|].
    intros x _. apply G2.
Qed.

(** Overtaken, the memory is that of the first link alone, but for [bytes_written]. *)
Lemma run_overtaken s es e1 e2 : two_entries (mem s) (bp s) es e1 e2 →
  ∃ p, run_schedule (overtaken es) (link_threads e1 e2) s =
         Done (linked_threads e1 e2, set_pmem p s) ∧
       pointwise_relation Z eq (contents p)
         (link_mem (mem s) (bp s) es (e_addr e1) (u64 (total es + esize e2 + esize e1))).
Proof.
  intros Ht. destruct (run_link s es e2 e1 (two_entries_swap _ _ _ _ _ Ht)) as (p2 & R2 & G2).
  pose proof (te_inv _ _ _ _ _ Ht) as Hi.
  destruct (link_rest (set_pmem p2 s) es (e_addr e1) (esize e1) (u64 (total es + esize e2)))
    as (p & R & G); change (mem (set_pmem p2 s)) with (contents p2) in *.
  - rewrite G2. intros x Hx. by apply link_mem_grows, (pi_mapped _ _ _ Hi).
  - rewrite G2. intros x Hx. by apply link_mem_grows, (link_target_mapped _ _ _ Hi).
  - by apply (link_target_base (mem s)).
  - rewrite G2. by apply link_mem_written.
  - exists p. split.
    + unfold overtaken. eapply run_schedule_thread; [done|by apply read_target|].
      eapply run_schedule_thread; [done|exact (thread_run_link _ _ _ _ R2)|].
      rewrite <-(app_nil_r (replicate 4 0%nat)).
      eapply run_schedule_thread; [done|exact R|]. done.
    + rewrite u64_add in G. intros x. rewrite (G x). unfold link_mem at 1.
      change (bp (set_pmem p2 s)) with (bp s).
      assert (pointwise_relation Z eq (link_mem (contents p2) (bp s) es (e_addr e1)
                (u64 (total es + esize e2 + esize e1)))
               (link_mem (mem s) (bp s) es (e_addr e1) (u64 (total es + esize e2 + esize e1))))
        as Ho; [|exact (Ho x)].
      unfold link_mem at 1. rewrite G2. apply link_mem_overwrite.
Qed.

(** ** What is left of the list *)

(** A list whose root record counts some other number of bytes. *)
Record miscounted (f : memory) (b : Z) (es : list entry) (w : Z) : Prop := {
  mc_mapped : mapped_range f b sizeof_base;
  mc_head : word_at f (b + off_head) = Some (addr_at es 0);
  mc_linked : linked f (addr_at es 0) es;
  mc_alone : ∀ e, e ∈ es → alone b e;
  mc_written : word_at f (b + off_bytes_written) = Some w
}.

Lemma link_mem_counter f b es a w w' x : ¬ (b + 56 ≤ x < b + 64) →
  link_mem f b es a w x = link_mem f b es a w' x.
Proof.
  intros Hx. unfold link_mem, write_range. rewrite !length_le_encode. unfold_layout.
  repeat case_decide; (done || lia).
Qed.

Lemma overtaken_memory f b es e1 e2 h w : two_entries f b es e1 e2 → is_u64 w →
  pointwise_relation Z eq h (link_mem f b es (e_addr e1) w) →
  miscounted h b (es ++ [e1]) w ∧ entry_ok h e1 ∧ entry_ok h e2.
Proof.
  intros Ht Hw Hh. destruct (link_other _ _ _ _ _ Ht) as (Hi & O2 & _ & _).
  pose proof (te_alone2 _ _ _ _ _ Ht) as A2.
  set (g := link_mem f b es (e_addr e1) (u64 (total es + esize e1))) in *.
  assert (∀ x, ¬ (b + 56 ≤ x < b + 64) → h x = g x) as Hsame.
  { intros x Hx. rewrite (Hh x). by apply link_mem_counter. }
  assert (∀ x, is_Some (g x) → is_Some (h x)) as Hgrow.
  { intros x Hx. destruct (decide (b + 56 ≤ x < b + 64)) as [Hb|Hb]; [|by rewrite Hsame].
    rewrite (Hh x). unfold link_mem, write_range. rewrite !length_le_encode.
    unfold_layout. rewrite decide_True by lia. apply lookup_lt_is_Some.
    rewrite length_le_encode. lia. }
  assert (∀ e, alone b e → ∀ x, e_addr e ≤ x < e_addr e + sizeof_block_entry ∨
    e_data e ≤ x < e_data e + dsize e → h x = g x) as Hal.
  { intros e (B1 & B2 & _) x Hx. apply Hsame. intros Hb.
    destruct Hx; [apply (B1 x)|apply (B2 x)]; unfold_layout; lia. }
  assert (∀ e, alone b e → entry_ok g e → entry_ok h e) as Hok.
  { intros e Ha He. eapply entry_ok_frame; [exact He|exact Hgrow|]. intros x Hx.
    apply (Hal e Ha). unfold_layout. lia. }
  assert (∀ e, e ∈ es ++ [e1] → alone b e) as Halone.
  { intros e [i He]%list_elem_of_lookup. by apply (pi_alone _ _ _ Hi i). }
  split_and!; [split| |by apply Hok].
  - intros x Hx. by apply Hgrow, (pi_mapped _ _ _ Hi).
  - rewrite <-(pi_head _ _ _ Hi). apply word_ext. intros x Hx. apply Hsame. unfold_layout. lia.
  - eapply linked_frame; [exact Hgrow| |by eapply pm_linked]. intros e x He. apply Hal, Halone, He.
  - exact Halone.
  - rewrite Hh. by apply word_write_same.
  - apply Hok; [apply (te_alone1 _ _ _ _ _ Ht)|]. apply (pi_entries _ _ _ Hi (length es)).
    by apply list_lookup_middle.
Qed.

(** [free_all] does not get past the assertion on [bytes_written]. *)
Lemma free_all_miscounted s es w fuel : miscounted (mem s) (bp s) es w →
  (length es ≤ fuel)%nat → u64 (w - total es) ≠ 0 → free_all fuel s = Assert_failed.
Proof.
  intros [Hm Hh Hl Hal Hw] Hfuel Hne.
  destruct (free_entries_ok (bp s) es fuel _ s w Hl Hal Hfuel Hw) as (p1 & E1 & Hw1 & _ & Hg1).
  set (s1 := set_pmem p1 s).
  assert (mapped_range (mem s1) (bp s) sizeof_base) as Hm1 by (intros x Hx; by apply Hg1, Hm).
  destruct (TBPSet_ok s1 (bp s + off_head) 0) as (p2 & E2 & G2).
  { intros x Hx. apply Hm1. unfold_layout. lia. }
  destruct (TBPSet_ok (set_pmem p2 s1) (bp s + off_tail) 0) as (p3 & E3 & G3).
  { change (mem (set_pmem p2 s1)) with (contents p2). rewrite G2. apply write_range_mapped.
    intros x Hx. apply Hm1. unfold_layout. lia. }
  change (mem (set_pmem p2 s1)) with (contents p2) in G3. rewrite G2 in G3.
  assert (word_at (mem (set_pmem p3 s1)) (bp s + off_bytes_written) = Some (u64 (w - total es))) as Hw3.
  { change (mem (set_pmem p3 s1)) with (contents p3). rewrite G3.
    by rewrite !word_write_disjoint by (intros x; rewrite length_le_encode; unfold_layout; lia). }
  unfold free_all. eapply bind_step; [reflexivity|]. eapply bind_step; [by apply TBPGet_ok|].
  eapply bind_step; [exact E1|]. eapply bind_step; [exact E2|]. eapply bind_step; [exact E3|].
  eapply bind_step; [apply TBPGet_ok; exact Hw3|].
  unfold mbind, st_bind, st_assert. by rewrite bool_decide_false.
Qed.

(** ** Indexing both *)
Lemma index_both s ix ps X e1 e2 : TotalAllocator →
  idx_inv s ix ps X → entry_ok (mem s) e1 → entry_ok (mem s) e2 →
  ∃ s' ps' X', (r1 ← update_meta (e_addr e1); r2 ← update_meta (e_addr e2); mret (r1, r2)) s =
      Done ((0, 0), s') ∧
    same_pm s s' ∧ idx_inv s' (ix ++ [e1; e2]) ps' X' ∧ size X' = size X.
Proof.
  intros Ht Hi O1 O2.
  destruct (update_meta_ok s ix ps X e1 Hi O1) as (r1 & s1 & ix1 & ps1 & X1 & E1 & [P1 B1] & Hi1 & U1).
  destruct U1 as [(-> & -> & ->)|(_ & _ & _ & Hn)]; [|by destruct Hn].
  destruct (update_meta_ok s1 _ ps1 X e2 Hi1) as (r2 & s2 & ix2 & ps2 & X2 & E2 & [P2 B2] & Hi2 & U2).
  { unfold mem in *. by rewrite P1. }
  destruct U2 as [(-> & -> & ->)|(_ & _ & _ & Hn)]; [|by destruct Hn].
  exists s2, ps2, X. split_and!; [|split; congruence| |done].
  - eapply bind_step; [exact E1|]. eapply bind_step; [exact E2|]. done.
  - replace (ix ++ [e1; e2]) with ((ix ++ [e1]) ++ [e2]) by by rewrite <-app_assoc. done.
Qed.

(** Two entries made one after the other in a store. *)
Lemma two_put_entries s a k1 buf1 n1 x1 s1 k2 buf2 n2 x2 s2 :
  represents s a → 0 ≤ n1 ≤ Z.of_nat (length buf1) → is_u64 n1 →
  0 ≤ n2 ≤ Z.of_nat (length buf2) → is_u64 n2 →
  put_entry (hash_key k1) buf1 n1 s = Done (x1, s1) →
  put_entry (hash_key k2) buf2 n2 s1 = Done (x2, s2) →
  let e1 := put_block k1 buf1 n1 s in
  let e2 := put_block k2 buf2 n2 s1 in
  x1 = e_addr e1 ∧ x2 = e_addr e2 ∧ (∃ p, s2 = set_pmem p s) ∧
  two_entries (mem s2) (bp s) (log a) e1 e2.
Proof.
  intros [Hl _ _] Hn1 Hu1 Hn2 Hu2 E1 E2.
  pose proof (put_addresses_allocs s n1) as Ha1. pose proof (put_addresses_allocs s1 n2) as Ha2.
  unfold put_block. destruct (put_addresses n1 s) as [y1 d1], (put_addresses n2 s1) as [y2 d2].
  cbn [fst snd] in *.
  destruct (decide (y1 = 0)) as [->|Hy1]; [by rewrite (put_entry_null _ _ _ _ _ Ha1) in E1|].
  destruct (decide (y2 = 0)) as [->|Hy2]; [by rewrite (put_entry_null _ _ _ _ _ Ha2) in E2|].
  destruct (put_entry_ok s (hash_key k1) buf1 n1 y1 d1 Ha1 Hy1 Hn1 Hu1 (hash_key_range k1))
    as (p1 & F1 & Fr1).
  rewrite F1 in E1. injection E1 as <- <-.
  destruct (put_entry_ok _ (hash_key k2) buf2 n2 y2 d2 Ha2 Hy2 Hn2 Hu2 (hash_key_range k2))
    as (p2 & F2 & Fr2).
  rewrite F2 in E2. injection E2 as <- <-.
  cbn zeta. cbn [e_addr]. split_and!; [done|done|by exists p2|].
  by eapply two_fresh.
Qed.

Lemma race_links_run sched s x1 n1 x2 n2 ts s1 r1 r2 s2 :
  run_schedule sched [mk_thread x1 n1 Read_tail; mk_thread x2 n2 Read_tail] s = Done (ts, s1) →
  (r1 ← update_meta x1; r2 ← update_meta x2; mret (r1, r2)) s1 = Done ((r1, r2), s2) →
  race_links sched x1 n1 x2 n2 s = Done ((forallb finished ts, r1, r2), s2).
Proof.
  intros E1 E2. eapply bind_step; [exact E1|].
  apply st_bind_inv in E2 as (r & q & F1 & E2). eapply bind_step; [exact F1|].
  apply st_bind_inv in E2 as (r' & q' & F2 & E2). eapply bind_step; [exact F2|].
  by injection E2 as -> -> ->.
Qed.

(** Two puts whose entries are made, in turn and overtaken. *)
Lemma links_in_turn s es ix ps X e1 e2 : TotalAllocator →
  two_entries (mem s) (bp s) es e1 e2 → (∀ p, idx_inv (set_pmem p s) ix ps X) →
  ∃ s', race_links in_turn (e_addr e1) (esize e1) (e_addr e2) (esize e2) s =
      Done ((true, 0, 0), s') ∧
    pm_inv (mem s') (bp s') (es ++ [e1; e2]) ∧
    ∃ ps' X', idx_inv s' (ix ++ [e1; e2]) ps' X' ∧ size X' = size X.
Proof.
  intros Hta Ht Hix. destruct (run_in_turn s es e1 e2 Ht) as (p & R & Hp).
  destruct (index_both (set_pmem p s) ix ps X e1 e2 Hta (Hix p))
    as (s' & ps' & X' & U & [P' B'] & Hi' & HX').
  { apply (pi_entries _ _ _ Hp (length es)). by apply list_lookup_middle. }
  { apply (pi_entries _ _ _ Hp (S (length es))).
    rewrite lookup_app_r by lia. by replace (S _ - _)%nat with 1%nat by lia. }
  exists s'. split; [exact (race_links_run _ _ _ _ _ _ _ _ _ _ _ R U)|].
  split; [unfold mem; rewrite P', B'; exact Hp|by exists ps', X'].
Qed.

Lemma links_overtaken s es ix ps X e1 e2 : TotalAllocator →
  two_entries (mem s) (bp s) es e1 e2 → (∀ p, idx_inv (set_pmem p s) ix ps X) →
  ∃ s', race_links (overtaken es) (e_addr e1) (esize e1) (e_addr e2) (esize e2) s =
      Done ((true, 0, 0), s') ∧
    (∃ ps' X', idx_inv s' (ix ++ [e1; e2]) ps' X') ∧
    miscounted (mem s') (bp s') (es ++ [e1]) (u64 (total (es ++ [e1]) + esize e2)).
Proof.
  intros Hta Ht Hix. destruct (run_overtaken s es e1 e2 Ht) as (p & R & Hp).
  destruct (overtaken_memory _ _ _ _ _ _ _ Ht (u64_range _) Hp) as (Hmc & O1 & O2).
  destruct (index_both (set_pmem p s) ix ps X e1 e2 Hta (Hix p) O1 O2)
    as (s' & ps' & X' & U & [P' B'] & Hi' & HX').
  exists s'. split; [exact (race_links_run _ _ _ _ _ _ _ _ _ _ _ R U)|]. split; [by eauto|].
  replace (total (es ++ [e1]) + esize e2) with (total es + esize e2 + esize e1)
    by (rewrite total_app; cbn; lia).
  unfold mem. rewrite P', B'. exact Hmc.
Qed.

(** C38 (safety): [put] links its entry without a lock.  Take any store, and any two calls
    of [put] that made their entries, [malloc] serving every request.  Linked one after
    the other, both return 0 and the store represents the log with both blocks.  If the second
    call links its entry after the first one has read where its own goes, both still return 0
    and both blocks are indexed, but the list from the root ends with the first one's
    block, the second one's is on no list, and [bytes_written] counts it: unless it is
    empty, [free_all] then fails its assertion. *)
Theorem racing_puts_lose_blocks s a k1 buf1 n1 x1 s1 k2 buf2 n2 x2 s2 :
  TotalAllocator → represents s a →
  0 ≤ n1 ≤ Z.of_nat (length buf1) → is_u64 n1 → 0 ≤ n2 ≤ Z.of_nat (length buf2) → is_u64 n2 →
  put_entry (hash_key k1) buf1 n1 s = Done (x1, s1) →
  put_entry (hash_key k2) buf2 n2 s1 = Done (x2, s2) →
  let e1 := put_block k1 buf1 n1 s in
  let e2 := put_block k2 buf2 n2 s1 in
  (∃ s', race_links in_turn x1 n1 x2 n2 s2 = Done ((true, 0, 0), s') ∧
     represents s' (mk_abstract (log a ++ [e1; e2]) (indexed a ++ [e1; e2]) (lost a))) ∧
  (∃ s', race_links (overtaken (log a)) x1 n1 x2 n2 s2 = Done ((true, 0, 0), s') ∧
     (∃ ps X, idx_inv s' (indexed a ++ [e1; e2]) ps X) ∧
     miscounted (mem s') (bp s') (log a ++ [e1]) (u64 (total (log a ++ [e1]) + n2)) ∧
     (0 < n2 → ∀ fuel, (length (log a) < fuel)%nat → free_all fuel s' = Assert_failed)).
Proof.
  intros Hta Hr Hn1 Hu1 Hn2 Hu2 E1 E2.
  destruct (two_put_entries s a k1 buf1 n1 x1 s1 k2 buf2 n2 x2 s2 Hr Hn1 Hu1 Hn2 Hu2 E1 E2)
    as (-> & -> & [q ->] & Ht).
  pose proof (put_block_size s k1 buf1 n1 Hn1) as Hz1.
  pose proof (put_block_size s1 k2 buf2 n2 Hn2) as Hz2.
  destruct Hr as [_ (ps & X & Hi & HX) Hin].
  cbn zeta. set (e1 := put_block k1 buf1 n1 s) in *. set (e2 := put_block k2 buf2 n2 s1) in *.
  assert (∀ p, idx_inv (set_pmem p (set_pmem q s)) (indexed a) ps X) as Hix
    by (intros p; by do 2 apply idx_inv_set_pmem).
  rewrite <-Hz1, <-Hz2. split.
  - destruct (links_in_turn _ _ _ _ _ _ _ Hta Ht Hix) as (s' & E & Hp & ps' & X' & Hi' & HX').
    exists s'. split; [exact E|]. split; cbn; [exact Hp| |].
    + exists ps', X'. split; [done|congruence].
    + intros e. rewrite !elem_of_app. intros [?|?]; auto.
  - destruct (links_overtaken _ _ _ _ _ _ _ Hta Ht Hix) as (s' & E & Hi' & Hmc).
    exists s'. split; [exact E|]. split; [exact Hi'|]. split; [exact Hmc|].
    intros Hpos fuel Hfuel. eapply free_all_miscounted; [exact Hmc|rewrite length_app; cbn; lia|].
    unfold u64. rewrite Zminus_mod_idemp_l, Z.add_simpl_l.
    rewrite Z.mod_small by (unfold is_u64, u64_modulus in *; lia). lia.
Qed.

End overtake.

#[local] Existing Instance test_pmem | 0.
#[local] Existing Instance test_map | 0.

(** Two entries are made, linked under a schedule, and indexed; then what [dump_meta] shows as
    total and [free_all] answers.  Keys and contents differ. *)
Definition free_result (s : store) : outcome Z := '(r, _) ← free_all 2 s; mret r.

Definition race (sched : list nat) : outcome (bool * Z * outcome Z) :=
  s ← @construct test_pmem test_map [];
  '(e1, s) ← put_entry (hash_key key_1) hello 5 s;
  '(e2, s) ← put_entry (hash_key hello) world 6 s;
  '(ts, s) ← run_schedule sched [mk_thread e1 5 Read_tail; mk_thread e2 6 Read_tail] s;
  '(_, s) ← update_meta e1 s;
  '(_, s) ← update_meta e2 s;
  '(written, _) ← TBPGet (bp s + off_bytes_written) s;
  mret (forallb finished ts, written, free_result s).

(** Property (equivalence): the steps of a thread, run without interruption, are exactly the
    link phase of [put]. *)
Theorem put_link_steps `{PMem, C : CuckooMap nat} (s s' : pmemkv C) bep count :
  put_link bep count s = Done (tt, s') →
  ∃ n, (n ≤ 6)%nat ∧
    thread_run n (mk_thread bep count Read_tail) s = Done (mk_thread bep count Finished, s').
Proof. apply put_link_run_steps. Qed.

(** The same two schedules of two concrete puts into an empty store, run. *)
Lemma racing_puts_example :
  race [0;0;0;0;0; 1;1;1;1;1;1]%nat = Done (true, 11, Done 0) ∧
  race [0; 1;1;1;1;1; 0;0;0;0]%nat = Done (true, 11, Assert_failed).
Proof. split; vm_compute; reflexivity. Qed.

Lemma put_link_steps_witness : ∃ n, (n ≤ 6)%nat ∧
  thread_run n (mk_thread 4160 5 Read_tail) (state_of (put_entry (hash_key key_1) hello 5 s0))
    = Done (mk_thread 4160 5 Finished,
            state_of (put_link 4160 5 (state_of (put_entry (hash_key key_1) hello 5 s0)))).
Proof.
  apply put_link_steps.
  assert (is_done (put_link 4160 5 (state_of (put_entry (hash_key key_1) hello 5 s0))) = true) as E
    by (vm_compute; reflexivity).
  destruct (put_link _ _ _) as [[[] s]| |]; [reflexivity|discriminate|discriminate].
Defined.

Definition s0_entry : store := state_of (put_entry (hash_key key_1) hello 5 s0).
Definition s0_entries : store := state_of (put_entry (hash_key hello) world 6 s0_entry).

Lemma s0_entry_made : put_entry (hash_key key_1) hello 5 s0 = Done (4160, s0_entry).
Proof. apply state_of_done. vm_compute. reflexivity. Qed.
Lemma s0_entries_made : put_entry (hash_key hello) world 6 s0_entry = Done (4197, s0_entries).
Proof. apply state_of_done. vm_compute. reflexivity. Qed.
Lemma world_count : 0 ≤ 6 ≤ Z.of_nat (length world).
Proof. cbn. lia. Qed.
Lemma world_u64 : is_u64 6.
Proof. unfold is_u64, u64_modulus. lia. Qed.

Lemma racing_puts_witness : ∃ s', race_links (overtaken []) 4160 5 4197 6 s0_entries =
  Done ((true, 0, 0), s') ∧ ∀ fuel, (0 < fuel)%nat → free_all fuel s' = Assert_failed.
Proof.
  destruct (racing_puts_lose_blocks s0 (mk_abstract [] [] 0) key_1 hello 5 4160 s0_entry
    hello world 6 4197 s0_entries int_allocator_total s0_represents hello_count hello_u64
    world_count world_u64 s0_entry_made s0_entries_made) as [_ (s' & E & _ & _ & F)].
  exists s'. split; [exact E|]. exact (F ltac:(lia)).
Defined.
