(* ===== verification/Jni.v ===== *)
(** * The JNI entry points (native/src/lib_jni_pmdk.cpp)

    The Java side of PersistentMemoryPool and PmemBuffer calls these functions.  The virtual
    machine is not in the repository; what its functions give is an argument: a [jstring] is the
    region [GetStringUTFChars] returns, a direct buffer is its memory or null, and the arrays
    of the virtual machine are the interface [JavaArrays]. *)
From S2P Require Import Prelude XXHash CHeap PMem Cuckoo PmemKV PmemBuffer.

(** ** Java byte arrays

    The functions of the virtual machine on a [byte[]].  [GetByteArrayElements] gives the
    elements and says whether they are a copy; [ReleaseByteArrayElements] with mode 0 takes
    them back; [store_elements] is what stores through a pointer that is not a copy do. *)
Class JavaArrays := {
  jbyteArray : Type;
  array_bytes : jbyteArray → list byte;
  GetByteArrayElements : jbyteArray → list byte * bool * jbyteArray;
  ReleaseByteArrayElements : jbyteArray → list byte → jbyteArray;
  store_elements : jbyteArray → list byte → jbyteArray
}.

(** What the JNI specification says of them. *)
Class JavaArraysSpec `{JavaArrays} : Prop := {
  get_elements a : ∃ isCopy a', GetByteArrayElements a = (array_bytes a, isCopy, a') ∧
                                array_bytes a' = array_bytes a;
  release_elements a bs : length bs = length (array_bytes a) →
                          array_bytes (ReleaseByteArrayElements a bs) = bs;
  store_elements_spec a bs : length bs = length (array_bytes a) →
                             array_bytes (store_elements a bs) = bs
}.

(** Arrays of a virtual machine that copies always or never, with the number of calls of
    [GetByteArrayElements] not matched by a release. *)
#[export] Instance counted_arrays (isCopy : bool) : JavaArrays | 10 := {
  jbyteArray := list byte * nat;
  array_bytes := fst;
  GetByteArrayElements a := (a.1, isCopy, (a.1, S a.2));
  ReleaseByteArrayElements a bs := (bs, pred a.2);
  store_elements a bs := (bs, a.2)
}.
#[export] Instance counted_arrays_spec isCopy : @JavaArraysSpec (counted_arrays isCopy).
Proof. split; [by intros [bs n]; exists isCopy, (bs, S n)|done..]. Qed.

Section jni.
Context `{PMem, C : CuckooMap nat, Allocator}.

(** [string key_str(CStr)] *)
Definition std_string {S} (CStr : list byte) : st S (list byte) :=
  st_lift (or_undefined (c_string CStr)).

(** ** PersistentMemoryPool *)
Definition nativeOpenDevice (p : pm) : outcome (pmemkv C) := construct p.

(** [jint dataSize] becomes a [uint64_t]; the result of [put] is dropped. *)
Definition nativeSetBlock (key : list byte) (byteBuffer : option (list byte)) (dataSize : Z)
    : st (pmemkv C) unit :=
  match byteBuffer with
  | None => mret tt
  | Some buf =>
      key_str ← std_string key;
      _ ← put key_str buf (u64 dataSize);
      mret tt
  end.

(** [(uint64_t* )std::malloc(size*2*sizeof(uint64_t))] *)
Definition malloc_words (size : Z) : st (pmemkv C) (option (list (option Z))) := λ s,
  let n := u64 (u64 (size * 2) * 8) in
  let s' := PmemKV.set_mallocs (S (PmemKV.mallocs s)) s in
  if can_alloc (PmemKV.mallocs s) n then Done (Some (replicate (Z.to_nat (n / 8)) None), s')
  else Done (None, s').

(** [NewLongArray(length)] and [SetLongArrayRegion]: a [jsize] is 32 bits wide; every copied
    word must have a value. *)
Definition new_long_array (length : Z) (meta : option (list (option Z))) : outcome (list Z) :=
  let n := i32 length in
  if decide (n < 0) then Undefined else
  if decide (n = 0) then Done [] else
  meta ← or_undefined meta;
  if decide (n ≤ Z.of_nat (List.length meta))
  then or_undefined (mapM (λ w, i64 <$> w) (take (Z.to_nat n) meta))
  else Undefined.

Definition nativeGetBlockIndex (key : list byte) : st (pmemkv C) (list Z) :=
  key_str ← std_string key;
  '(_, size) ← get_meta_size key_str;
  _ ← malloc_tmp 16;
  meta ← malloc_words size;
  '(_, mm) ← get_meta key_str (mk_memory_meta meta None);
  length ← st_lift (or_undefined (mm_length mm));
  st_lift (new_long_array length (mm_meta mm)).

Definition nativeGetBlockSize (key : list byte) : st (pmemkv C) Z :=
  key_str ← std_string key;
  '(_, value_size) ← get_value_size key_str;
  mret (i64 value_size).

(** The function is declared to return a [jint] and has no [return]. *)
Definition nativeCloseDevice (fuel : nat) : st (pmemkv C) Z :=
  _ ← free_all fuel;
  _ ← close;
  st_undefined.

(** ** PmemBuffer *)
Definition nativeNewPmemBuffer : st heap pmem_buffer := PmemBuffer.

Definition nativeNewPmemBufferBySize (len : Z) : st heap pmem_buffer := PmemBuffer_sized len.

Definition nativeLoadPmemBuffer (b : pmem_buffer) (addr : option (list cell)) (len : Z)
    : st heap pmem_buffer :=
  '(_, b) ← load b addr len; mret b.

(** The pointer [ret_data + off]. *)
Definition elements_at (ret_data : list byte) (off : Z) : outcome (list cell) :=
  if decide (0 ≤ off ≤ Z.of_nat (length ret_data))
  then Done (Some <$> drop (Z.to_nat off) ret_data) else Undefined.

Definition nativeReadBytesFromPmemBuffer `{JavaArrays} (b : pmem_buffer) (data : jbyteArray)
    (off len : Z) : st heap (Z * jbyteArray * pmem_buffer) :=
  let '(ret_data, isCopy, data) := GetByteArrayElements data in
  dst ← st_lift (elements_at ret_data off);
  '(read_len, out, b) ← read b (Some dst) len;
  out ← st_lift (or_undefined (out ≫= mapM id));
  let ret_data := take (Z.to_nat off) ret_data ++ out in
  let data := if (isCopy : bool) then ReleaseByteArrayElements data ret_data
              else store_elements data ret_data in
  mret (read_len, data, b).

Definition nativeWriteBytesToPmemBuffer `{JavaArrays} (b : pmem_buffer) (data : jbyteArray)
    (off len : Z) : st heap (Z * jbyteArray * pmem_buffer) :=
  let '(ret_data, isCopy, data) := GetByteArrayElements data in
  src ← st_lift (elements_at ret_data off);
  '(read_len, b) ← write b (Some src) len;
  let data := if (isCopy : bool) then ReleaseByteArrayElements data ret_data else data in
  mret (read_len, data, b).

(** These two have no [return] either. *)
Definition nativeGetPmemBufferRemaining (b : pmem_buffer) : st heap Z :=
  let _ := getRemaining b in st_undefined.

Definition nativeGetPmemBufferDataAddr (b : pmem_buffer) : option nat := getDataAddr b.

Definition nativeCleanPmemBuffer (b : pmem_buffer) : st heap (Z * pmem_buffer) :=
  b ← clean b; st_undefined.

Definition nativeDeletePmemBuffer (b : pmem_buffer) : st heap Z :=
  _ ← PmemBuffer_delete b; mret 0.

End jni.
