(* ===== verification/JniProps.v ===== *)
(** * Properties of the JNI entry points *)
From S2P Require Import Prelude XXHash CHeap PMem Cuckoo PmemKV PmemKVList PmemKVStore.
From S2P Require Import PmemKVIndex PmemKVUpdate PmemKVLoops PmemKVWalk PmemKVSpec PmemBuffer.
From S2P Require Import PmemBufferSpec PmemKVTests PmemBufferTests Jni.

Section kv.
Context `{P : PMem, HP : !PMemSpec, C : CuckooMap nat, HC : !CuckooSpec C, A : Allocator}.
Implicit Types s : pmemkv C.

Lemma std_string_ok {S} key key_str (s : S) : c_string key = Some key_str →
  std_string key s = Done (key_str, s).
Proof. intros E. unfold std_string. by rewrite E. Qed.

(** The Java array of all-initialised words. *)
Lemma new_long_array_ok ws : Z.of_nat (length ws) < 2147483648 →
  new_long_array (Z.of_nat (length ws)) (Some (Some <$> ws)) = Done (i64 <$> ws).
Proof.
  intros Hl. unfold new_long_array. rewrite i32_id by (unfold is_i32; lia).
  rewrite decide_False by lia. case_decide as Hz.
  - destruct ws; [done|cbn in *; lia].
  - cbn. rewrite length_fmap, decide_True by lia. rewrite take_ge by (rewrite length_fmap; lia).
    assert (mapM (λ w, i64 <$> w) (Some <$> ws) = Some (i64 <$> ws)) as ->; [|done].
    clear. induction ws as [|w ws IH]; [done|]. cbn in *. by rewrite IH.
Qed.

Lemma malloc_words_ok s n : TotalAllocator → Z.of_nat n < 134217728 →
  malloc_words (u64 (Z.of_nat n)) s =
    Done (Some (replicate (2 * n) None), PmemKV.set_mallocs (S (PmemKV.mallocs s)) s).
Proof.
  intros Ht Hn. unfold malloc_words.
  replace (u64 (u64 (u64 (Z.of_nat n) * 2) * 8)) with (Z.of_nat n * 16) by word_lia.
  rewrite Ht by lia. do 4 f_equal. Z.div_mod_to_equations; lia.
Qed.

(** Up to the second [malloc], the entry point only reads the store. *)
Lemma block_index_run s a key key_str n : TotalAllocator → represents s a →
  c_string key = Some key_str → length (found key_str a) = n → Z.of_nat n < 134217728 →
  let s2 := PmemKV.set_mallocs (PmemKV.mallocs s + 2) s in
  represents s2 a ∧
  nativeGetBlockIndex key s =
    ('(_, mm) ← get_meta key_str (mk_memory_meta (Some (replicate (2 * n) None)) None);
     length ← st_lift (or_undefined (mm_length mm));
     st_lift (new_long_array length (mm_meta mm))) s2.
Proof.
  intros Ht Hr Hk Hf Hn s2. split; [by apply represents_mallocs|].
  destruct (sizes_run s a key_str Hr) as [_ E2]. unfold nativeGetBlockIndex.
  eapply bind_step; [by apply std_string_ok|]. eapply bind_step; [exact E2|].
  assert ((if decide (found key_str a = []) then (-1, 0)
           else (0, u64 (Z.of_nat (length (found key_str a))))).2 = u64 (Z.of_nat n)) as E3.
  { case_decide as He; [|by rewrite Hf]. rewrite He in Hf. by rewrite <-Hf. }
  destruct (if decide _ then _ else _) as [r size]. cbn in E3. subst size.
  eapply bind_step; [unfold malloc_tmp; rewrite Ht by done; reflexivity|].
  eapply bind_step; [by apply malloc_words_ok|].
  f_equal. unfold s2, PmemKV.set_mallocs. cbn. f_equal. lia.
Qed.

(** Property (functional): [nativeGetBlockIndex] answers, for a key with blocks, with a Java array
    that holds exactly the address and the size of every block of the key, in the order they
    were put; for an unknown key the length it reads was never set (undefined). *)
Theorem block_index s a key key_str :
  TotalAllocator → represents s a → c_string key = Some key_str →
  Z.of_nat (length (found key_str a)) < 134217728 →
  nativeGetBlockIndex key s =
    if decide (found key_str a = []) then Undefined
    else Done (i64 <$> words (spans (found key_str a)),
               PmemKV.set_mallocs (PmemKV.mallocs s + 2) s).
Proof.
  intros Ht Hr Hk Hn.
  destruct (block_index_run s a key key_str _ Ht Hr Hk eq_refl Hn) as [Hr2 ->].
  unfold mbind at 1, st_bind. rewrite (get_meta_run _ a) by done. cbn zeta. case_decide; [done|].
  assert (length (words (spans (found key_str a))) = 2 * length (found key_str a))%nat as Hw
    by (by rewrite words_length; unfold spans; rewrite length_fmap).
  rewrite length_replicate, Hw, decide_True by lia.
  rewrite drop_ge, app_nil_r by (rewrite length_replicate; lia). rewrite <-Hw.
  eapply bind_step; [reflexivity|]. cbn [mm_meta]. unfold st_lift.
  rewrite new_long_array_ok by (rewrite Hw; lia). done.
Qed.

(** Property (functional): [nativeSetBlock] with a null buffer does nothing; otherwise, if the
    persistent allocator has room for the entry, it appends [dataSize] bytes of the buffer
    as one block of the key and reports nothing, so a refused index node, or data that
    persistent memory had no room for, goes unnoticed; [nativeGetBlockSize] answers with the total size of
    the key's blocks, and 0 for an unknown key. *)
Theorem set_and_size s a key key_str :
  represents s a → c_string key = Some key_str →
  nativeSetBlock key None 0 s = Done (tt, s) ∧
  (∀ buf n, 0 ≤ n ≤ Z.of_nat (length buf) → n < 2147483648 →
     e_addr (put_block key_str buf n s) ≠ 0 →
     ∃ s' a', nativeSetBlock key (Some buf) n s = Done (tt, s') ∧ represents s' a' ∧
       log a' = log a ++ [put_block key_str buf n s]) ∧
  nativeGetBlockSize key s = Done (i64 (u64 (total (found key_str a))), s).
Proof.
  intros Hr Hk. split_and!; [done| |].
  - intros buf n Hn Hn31 Hx. assert (is_u64 n) as Hu by word_lia.
    pose proof (put_total s a key_str buf n Hr Hn Hu) as Ht. cbn zeta in Ht.
    rewrite decide_False in Ht by done. destruct Ht as (r & s' & a' & E & Hr' & Hl & _).
    exists s', a'. split; [|by split]. unfold nativeSetBlock.
    eapply bind_step; [by apply std_string_ok|]. rewrite u64_id by done.
    eapply bind_step; [exact E|done].
  - destruct (sizes_run s a key_str Hr) as [E _]. unfold nativeGetBlockSize.
    eapply bind_step; [by apply std_string_ok|]. eapply bind_step; [exact E|].
    case_decide as Hf; [by rewrite Hf|done].
Qed.

(** Property (error): [nativeCloseDevice] never returns a value: after releasing everything it
    flows off its end, or the assertion of [free_all] fails if nodes were lost. *)
Theorem close_device_returns_nothing s a fuel :
  represents s a → (length (log a) ≤ fuel)%nat → Z.of_nat (lost a) < 4294967296 →
  nativeCloseDevice fuel s = if decide (lost a = 0%nat) then Undefined else Assert_failed.
Proof.
  intros Hr Hf Hl. destruct (free_all_run s a fuel Hr Hf) as (s1 & Hr1 & _ & E).
  assert (accounted a ↔ lost a = 0%nat) as Hacc by by apply accounted_lost.
  unfold nativeCloseDevice, mbind, st_bind. rewrite E. clear E.
  destruct (decide (lost a = 0%nat)) as [Hz|Hz].
  - rewrite decide_True by tauto.
    destruct (free_meta_represents s1 _ Hr1) as (s2 & _ & _ & E2).
    rewrite decide_True in E2 by (unfold accounted; cbn; by rewrite Hz).
    unfold close, mbind, st_bind. by rewrite E2.
  - by rewrite decide_False by tauto.
Qed.

End kv.

Section buffer.
Context `{TotalAllocator}.

(** The bytes a region of initialised cells holds. *)
Lemma mapM_bytes (l : list byte) : mapM id (Some <$> l) = Some l.
Proof. induction l as [|b l IH]; [done|]. cbn in *. by rewrite IH. Qed.

(** A write from an array into a new buffer, and a read of it into an array. *)
Lemma native_write_initial `{JavaArraysSpec} h src off len :
  fresh_from (blocks h) (CHeap.mallocs h) →
  0 ≤ off → 0 ≤ len ≤ 2 * DEFAULT_BUFSIZE → off + len ≤ Z.of_nat (length (array_bytes src)) →
  ∃ h' src' b cells,
    nativeWriteBytesToPmemBuffer (mk_pmem_buffer None 0 0 0 0 0) src off len h =
      Done ((0, src', b), h') ∧
    array_bytes src' = array_bytes src ∧ wf (blocks h) h' b cells ∧ remaining b = len ∧
    unread b cells = bytes_of (take (Z.to_nat len) (drop (Z.to_nat off) (array_bytes src))).
Proof.
  intros Hf Hoff Hlen Hroom. destruct (get_elements src) as (isCopy & a' & Eg & Ha').
  destruct (write_initial_two h (bytes_of (drop (Z.to_nat off) (array_bytes src))) len Hf Hlen)
    as (h1 & b & cells & E1 & Hwf & Hr & Hu).
  { unfold bytes_of. rewrite length_fmap, length_drop. lia. }
  exists h1, (if isCopy then ReleaseByteArrayElements a' (array_bytes src) else a'), b, cells.
  split_and!; [|destruct isCopy; [apply release_elements; by rewrite Ha'|done]|done|done|].
  - unfold nativeWriteBytesToPmemBuffer. rewrite Eg.
    eapply bind_step; [unfold st_lift, elements_at; rewrite decide_True by lia; reflexivity|].
    eapply bind_step; [exact E1|reflexivity].
  - rewrite Hu. unfold bytes_of. by rewrite <-fmap_take.
Qed.

Lemma native_read_all `{JavaArraysSpec} h0 h b cells dst off len (bs : list byte) :
  wf h0 h b cells → remaining b = len → unread b cells = bytes_of bs →
  0 ≤ off → off + len ≤ Z.of_nat (length (array_bytes dst)) →
  ∃ dst' b', nativeReadBytesFromPmemBuffer b dst off len h = Done ((len, dst', b'), h) ∧
    array_bytes dst' = take (Z.to_nat off) (array_bytes dst) ++ bs
                         ++ drop (Z.to_nat (off + len)) (array_bytes dst).
Proof.
  intros Hwf Hr Hu Hoff Hroom. destruct (get_elements dst) as (isCopy & a' & Eg & Ha').
  pose proof (wf_rem _ _ _ _ Hwf) as Hrm.
  assert (length bs = Z.to_nat len) as Hbs.
  { pose proof Hwf as [_ Hc _ _ Hp _ He].
    pose proof (length_unread b cells Hp Hrm ltac:(lia)) as Hl.
    rewrite Hu in Hl. unfold bytes_of in Hl. rewrite length_fmap in Hl. lia. }
  set (tl := drop (Z.to_nat off) (array_bytes dst)).
  assert (length tl = length (array_bytes dst) - Z.to_nat off)%nat as Htl by apply length_drop.
  destruct (read_ok _ _ _ _ (bytes_of tl) len Hwf) as (E2 & _ & _).
  { unfold bytes_of. rewrite length_fmap. lia. }
  rewrite Hr, Z.min_id, Hu in E2. rewrite take_ge in E2 by (unfold bytes_of; rewrite length_fmap; lia).
  set (out := take (Z.to_nat off) (array_bytes dst) ++ bs ++ drop (Z.to_nat len) tl).
  assert (length out = length (array_bytes a')) as Hout.
  { unfold out. rewrite !length_app, length_take, length_drop, Ha'. lia. }
  exists (if isCopy then ReleaseByteArrayElements a' out else store_elements a' out), (read_end b len).
  split.
  - unfold nativeReadBytesFromPmemBuffer. rewrite Eg.
    eapply bind_step; [unfold st_lift, elements_at; rewrite decide_True by lia; reflexivity|].
    eapply bind_step; [exact E2|]. cbn [mbind option_bind].
    unfold bytes_of. rewrite <-fmap_drop, <-fmap_app, mapM_bytes.
    eapply bind_step; [reflexivity|reflexivity].
  - assert (array_bytes (if isCopy then ReleaseByteArrayElements a' out else store_elements a' out)
            = out) as -> by (destruct isCopy; [by apply release_elements|by apply store_elements_spec]).
    unfold out, tl. rewrite drop_drop. do 3 f_equal. lia.
Qed.

(** C39 (roundtrip): for any virtual machine whose array functions do what JNI specifies,
    copying or not, and a [malloc] that serves every request.  Up to two growth units
    ([2 * DEFAULT_BUFSIZE] bytes) of a Java array, from any offset inside it, that
    [nativeWriteBytesToPmemBuffer] puts into a new buffer are what
    [nativeReadBytesFromPmemBuffer] stores into a second array, at the offset asked for, if
    they fit there; the rest of that array and the first one are as before.  The write of more
    bytes than that runs past the end of the block (undefined). *)
Theorem jni_array_roundtrip `{JavaArraysSpec} h src off1 dst off2 len :
  fresh_from (blocks h) (CHeap.mallocs h) → 0 ≤ len < 2147483648 →
  0 ≤ off1 → off1 + len ≤ Z.of_nat (length (array_bytes src)) →
  0 ≤ off2 → off2 + len ≤ Z.of_nat (length (array_bytes dst)) →
  let session :=
    b ← nativeNewPmemBuffer;
    '(_, src, b) ← nativeWriteBytesToPmemBuffer b src off1 len;
    '(r, dst, b) ← nativeReadBytesFromPmemBuffer b dst off2 len;
    mret (r, src, dst, b) in
  (len ≤ 2 * DEFAULT_BUFSIZE →
   ∃ h' src' dst' b', session h = Done (len, src', dst', b', h') ∧
     array_bytes src' = array_bytes src ∧
     array_bytes dst' = take (Z.to_nat off2) (array_bytes dst)
       ++ take (Z.to_nat len) (drop (Z.to_nat off1) (array_bytes src))
       ++ drop (Z.to_nat (off2 + len)) (array_bytes dst)) ∧
  (2 * DEFAULT_BUFSIZE < len → session h = Undefined).
Proof.
  intros Hf Hlen Ho1 Hr1 Ho2 Hr2 session. split; intros Hn.
  - destruct (native_write_initial h src off1 len Hf Ho1 ltac:(lia) Hr1)
      as (h1 & src' & b1 & cells & E1 & Hs & Hwf & Hr & Hu).
    destruct (native_read_all _ _ _ _ dst off2 len _ Hwf Hr Hu Ho2 Hr2) as (dst' & b2 & E2 & Hd).
    exists h1, src', dst', b2. split; [|by split]. unfold session.
    eapply bind_step; [reflexivity|]. eapply bind_step; [exact E1|].
    eapply bind_step; [exact E2|done].
  - unfold session. eapply bind_step; [reflexivity|].
    eapply bind_undefined. unfold nativeWriteBytesToPmemBuffer.
    destruct (get_elements src) as (isCopy & a' & -> & _).
    eapply bind_step; [unfold st_lift, elements_at; rewrite decide_True by lia; reflexivity|].
    eapply bind_undefined. apply write_initial_overflow; [done|lia|].
    rewrite length_fmap, length_drop. lia.
Qed.

(** Property (safety): a machine that gives out the elements without a copy never gets them back. *)
Lemma never_released isCopy a off len (b b' : pmem_buffer) r a' h h' :
  @nativeWriteBytesToPmemBuffer _ (counted_arrays isCopy) b a off len h = Done ((r, a', b'), h') →
  a'.2 = if isCopy then a.2 else S a.2.
Proof.
  unfold nativeWriteBytesToPmemBuffer. cbn [GetByteArrayElements counted_arrays].
  intros (? & ? & _ & E)%st_bind_inv. apply st_bind_inv in E as ([? ?] & ? & _ & E).
  injection E as _ <- _ _. by destruct isCopy.
Qed.

End buffer.

(** * Instances *)

#[local] Existing Instance test_pmem | 0.
#[local] Existing Instance test_pmem_spec | 0.
#[local] Existing Instance test_map | 0.
#[local] Existing Instance test_map_spec | 0.

(** The C string of the key "1". *)
Definition jkey : list byte := key_1 ++ [x00].

Lemma jkey_string : c_string jkey = Some key_1.
Proof. reflexivity. Qed.

Lemma block_index_witness :
  nativeGetBlockIndex jkey s1 = Done ([4192; 5], PmemKV.set_mallocs (PmemKV.mallocs s1 + 2) s1).
Proof.
  rewrite (block_index s1 a1 jkey key_1 int_allocator_total s1_represents jkey_string);
    rewrite s1_found; [|cbn; lia].
  rewrite decide_False by done. reflexivity.
Defined.

Lemma set_and_size_witness : nativeGetBlockSize jkey s1 = Done (5, s1) ∧
  ∃ s' a', nativeSetBlock jkey (Some hello) 5 s0 = Done (tt, s') ∧ represents s' a' ∧
    log a' = [e1].
Proof.
  split.
  - rewrite (proj2 (proj2 (set_and_size s1 a1 jkey key_1 s1_represents jkey_string))), s1_found.
    reflexivity.
  - pose proof (proj1 (proj2 (set_and_size s0 (mk_abstract [] [] 0) jkey key_1 s0_represents
      jkey_string)) hello 5 hello_count eq_refl) as H.
    rewrite s1_block in H. exact (H ltac:(done)).
Defined.

Lemma close_device_witness : nativeCloseDevice 1 s1 = Undefined.
Proof. exact (close_device_returns_nothing s1 a1 1 s1_represents (le_n 1) eq_refl). Defined.

(** A virtual machine that always copies. *)
#[local] Instance copied_arrays : JavaArrays | 0 := counted_arrays true.
#[local] Instance copied_arrays_spec : JavaArraysSpec | 0 := counted_arrays_spec true.

Definition jarray (bs : list byte) : jbyteArray := (bs, 0%nat).

Lemma jni_array_roundtrip_witness : ∃ h' src' dst' b',
  (b ← nativeNewPmemBuffer;
   '(_, src, b) ← nativeWriteBytesToPmemBuffer b (jarray hello) 1 3;
   '(r, dst, b) ← nativeReadBytesFromPmemBuffer b (jarray (ascii_bytes [1;2;3;4;5;6;7])) 2 3;
   mret (r, src, dst, b)) empty_heap = Done (3, src', dst', b', h') ∧
  array_bytes src' = hello ∧
  array_bytes dst' = ascii_bytes [1;2;101;108;108;6;7].
Proof.
  apply (jni_array_roundtrip empty_heap (jarray hello) 1
           (jarray (ascii_bytes [1;2;3;4;5;6;7])) 2 3 empty_fresh);
    first [lia | unfold DEFAULT_BUFSIZE; lia | vm_compute; discriminate].
Defined.
