(* ===== verification/CatchString.v ===== *)
(** * Catch: StringRef and string manipulation (catch_stringref, catch_string_manip)

    The test framework bundled as native/src/catch.hpp.  A [std::string] is a list of bytes,
    a [char] one byte, [std::string::npos] is [None].  A [StringRef] points into a
    larger allocation: [m_chars] is that memory from [m_start] on. *)
From stdpp Require Import strings.
From S2P Require Import Prelude.

(** String literals. *)
Definition str (s : string) : list byte := String.list_byte_of_string s.

(** Exceptions: a value, or what was thrown. *)
Inductive exn :=
| Domain_error (message : list byte)
| Logic_error (message : list byte)
| Out_of_range
| Generator_exception (message : list byte).
Definition throwing (A : Type) : Type := exn + A.
#[export] Instance throwing_ret : MRet throwing := λ A a, inr a.
#[export] Instance throwing_bind : MBind throwing := λ A B f m,
  match m with inl e => inl e | inr a => f a end.

(** ** std::string *)
Fixpoint prefixb (p s : list byte) : bool :=
  match p, s with
  | [], _ => true
  | b :: p, c :: s => bool_decide (b = c) && prefixb p s
  | _ :: _, [] => false
  end.

Fixpoint find_first (pat s : list byte) : option nat :=
  if prefixb pat s then Some 0%nat
  else match s with [] => None | _ :: s => S <$> find_first pat s end.

(** [s.find( pat, pos )] *)
Definition find (s pat : list byte) (pos : nat) : option nat :=
  if decide (pos ≤ length s)%nat then Nat.add pos <$> find_first pat (drop pos s) else None.

(** [s.substr( pos, n )]; [n = None] stands for [npos]. *)
Definition substr (s : list byte) (pos : nat) (n : option nat) : throwing (list byte) :=
  if decide (pos ≤ length s)%nat
  then inr (match n with Some n => take n (drop pos s) | None => drop pos s end)
  else inl Out_of_range.

(** ** catch_string_manip.cpp *)
Definition startsWith (s prefix : list byte) : bool :=
  bool_decide (length prefix ≤ length s)%nat && prefixb prefix s.
Definition startsWith_char (s : list byte) (prefix : byte) : bool :=
  match s with [] => false | c :: _ => bool_decide (c = prefix) end.
Definition endsWith (s suffix : list byte) : bool :=
  bool_decide (length suffix ≤ length s)%nat && prefixb (rev suffix) (rev s).
Definition endsWith_char (s : list byte) (suffix : byte) : bool :=
  match rev s with [] => false | c :: _ => bool_decide (c = suffix) end.
Definition contains (s infix : list byte) : bool := bool_decide (is_Some (find s infix 0)).

(** [std::tolower] in the "C" locale. *)
Definition toLowerCh (c : byte) : byte :=
  if decide (65 ≤ b2z c ≤ 90) then z2b (b2z c + 32) else c.
Definition toLower (s : list byte) : list byte := toLowerCh <$> s.

Definition whitespaceChars : list byte := [x0a; x0d; x09; x20].

(** The positions [find_first_not_of] and [find_last_not_of] give. *)
Fixpoint find_first_not_of (chars s : list byte) : option nat :=
  match s with
  | [] => None
  | c :: s => if decide (c ∈ chars) then S <$> find_first_not_of chars s else Some 0%nat
  end.
Definition find_last_not_of (chars s : list byte) : option nat :=
  (λ i, (length s - 1 - i)%nat) <$> find_first_not_of chars (rev s).

Definition trim (s : list byte) : throwing (list byte) :=
  match find_first_not_of whitespaceChars s, find_last_not_of whitespaceChars s with
  | Some start, Some last => substr s start (Some (1 + last - start)%nat)
  | _, _ => mret []
  end.

(** The loop of [replaceInPlace] from a found position, with fuel: for a non-empty
    [replaceThis] the length of the string is enough. *)
Fixpoint replace_loop (fuel : nat) (s replaceThis withThis : list byte) (i : option nat)
    : option (list byte) :=
  match i with
  | None => Some s
  | Some i =>
      match fuel with
      | O => None
      | S fuel =>
          let s := take i s ++ withThis ++ drop (i + length replaceThis) s in
          let i := if decide (i < length s - length withThis)%nat
                   then find s replaceThis (i + length withThis) else None in
          replace_loop fuel s replaceThis withThis i
      end
  end.

(** The result, and the string afterwards; [None] if the fuel does not suffice. *)
Definition replaceInPlace (s replaceThis withThis : list byte) : option (bool * list byte) :=
  let i := find s replaceThis 0 in
  s' ← replace_loop (S (length s)) s replaceThis withThis i;
  Some (bool_decide (is_Some i), s').

(** A number in decimal, as [operator<<] prints it. *)
Fixpoint decimal_digits (fuel : nat) (n : nat) (acc : list byte) : list byte :=
  match fuel with
  | O => acc
  | S fuel =>
      let acc := z2b (48 + Z.of_nat (n mod 10)) :: acc in
      if decide (n < 10)%nat then acc else decimal_digits fuel (n / 10) acc
  end.
Definition decimal (n : nat) : list byte := decimal_digits (S n) n [].

Record pluralise := mk_pluralise { m_count : nat; m_label : list byte }.
Definition print_pluralise (p : pluralise) : list byte :=
  decimal (m_count p) ++ [x20] ++ m_label p ++ (if decide (m_count p ≠ 1%nat) then [x73] else []).

(** ** StringRef *)
Record StringRef := mk_StringRef {
  m_chars : list byte;
  m_size : nat;
  m_data : option (list byte)
}.

Definition StringRef_empty : StringRef := mk_StringRef [x00] 0 None.

(** [std::strlen] *)
Fixpoint strlen (s : list byte) : outcome nat :=
  match s with
  | [] => Undefined
  | c :: s => if decide (c = x00) then Done 0%nat else n ← strlen s; Done (S n)
  end.
Definition StringRef_raw (rawChars : list byte) : outcome StringRef :=
  n ← strlen rawChars; Done (mk_StringRef rawChars n None).
(** The string's characters are followed by a terminator. *)
Definition StringRef_string (s : list byte) : StringRef :=
  mk_StringRef (s ++ [x00]) (length s) None.

Definition StringRef_swap (a b : StringRef) : StringRef * StringRef := (b, a).

(** Copies share the characters and own nothing. *)
Definition StringRef_copy (other : StringRef) : StringRef :=
  mk_StringRef (m_chars other) (m_size other) None.

Definition to_string (r : StringRef) : outcome (list byte) :=
  if decide (m_size r ≤ length (m_chars r))%nat then Done (take (m_size r) (m_chars r))
  else Undefined.

Definition char_at (r : StringRef) (index : nat) : outcome byte :=
  or_undefined (m_chars r !! index).

Definition isSubstring (r : StringRef) : outcome bool :=
  c ← char_at r (m_size r); Done (bool_decide (c ≠ x00)).
Definition isOwned (r : StringRef) : bool := bool_decide (is_Some (m_data r)).

Definition takeOwnership (r : StringRef) : outcome StringRef :=
  if isOwned r then Done r
  else s ← to_string r; Done (mk_StringRef (m_chars r) (m_size r) (Some (s ++ [x00]))).

(** The characters the result points to, and the object afterwards. *)
Definition c_str (r : StringRef) : outcome (list byte * StringRef) :=
  sub ← isSubstring r;
  if (sub : bool) then
    r ← takeOwnership r; p ← or_undefined (m_data r); Done (p, r)
  else Done (m_chars r, r).

Definition substr_ref (r : StringRef) (start size : nat) : StringRef :=
  if decide (start < m_size r)%nat then mk_StringRef (drop start (m_chars r)) size None
  else StringRef_empty.

(** [std::strncmp( a, b, n ) == 0] *)
Fixpoint strncmp_eq (n : nat) (a b : list byte) : outcome bool :=
  match n with
  | O => Done true
  | S n =>
      match a, b with
      | c :: a, d :: b =>
          if decide (c = d) then if decide (c = x00) then Done true else strncmp_eq n a b
          else Done false
      | _, _ => Undefined
      end
  end.
Definition ref_eq (a b : StringRef) : outcome bool :=
  if decide (m_size a = m_size b) then strncmp_eq (m_size a) (m_chars a) (m_chars b)
  else Done false.

Definition byte_2_lead : Z := 0xC0.
Definition byte_3_lead : Z := 0xE0.
Definition byte_4_lead : Z := 0xF0.

(** What one character takes off [noChars]. *)
Definition lead_adjustment (c : byte) : Z :=
  let c := b2z c in
  if decide (Z.land c byte_2_lead = byte_2_lead) then
    1 + (if decide (Z.land c byte_3_lead = byte_3_lead) then 1 else 0)
      + (if decide (Z.land c byte_4_lead = byte_4_lead) then 1 else 0)
  else 0.
Fixpoint count_chars (s : list byte) (noChars : Z) : Z :=
  match s with
  | [] => noChars
  | c :: s => count_chars s (u64 (noChars - lead_adjustment c))
  end.
Definition numberOfCharacters (r : StringRef) : outcome Z :=
  s ← to_string r; Done (count_chars s (u64 (Z.of_nat (m_size r)))).

Definition ref_append (lhs rhs : StringRef) : outcome (list byte) :=
  a ← to_string lhs; b ← to_string rhs; Done (a ++ b).

(** The loop of [splitStringRef] at position [pos]. *)
Fixpoint split_loop (fuel : nat) (r : StringRef) (delimiter : byte) (pos start : nat)
    (subStrings : list StringRef) : outcome (list StringRef * nat) :=
  match fuel with
  | O => Done (subStrings, start)
  | S fuel =>
      c ← char_at r pos;
      if decide (c = delimiter) then
        let subStrings := if decide (1 < pos - start)%nat
                          then subStrings ++ [substr_ref r start (pos - start)] else subStrings in
        split_loop fuel r delimiter (S pos) (S pos) subStrings
      else split_loop fuel r delimiter (S pos) start subStrings
  end.
Definition splitStringRef (r : StringRef) (delimiter : byte) : outcome (list StringRef) :=
  '(subStrings, start) ← split_loop (m_size r) r delimiter 0 0 [];
  Done (if decide (start < m_size r)%nat
        then subStrings ++ [substr_ref r start (m_size r - start)] else subStrings).

(** A string comes back from its reference. *)
Lemma string_ref_to_string s : to_string (StringRef_string s) = Done s.
Proof.
  unfold to_string, StringRef_string. cbn. rewrite decide_True by (rewrite length_app; lia).
  by rewrite take_app_length.
Qed.
