(* ===== verification/CatchStringProps.v ===== *)
(** * Properties of Catch's string helpers *)
From stdpp Require Import strings.
From S2P Require Import Prelude CatchString.

(** ** Searching *)
Lemma prefixb_spec p s : prefixb p s = true ↔ p `prefix_of` s.
Proof.
  revert s. induction p as [|b p IH]; intros s; cbn.
  - split; [intros _; apply prefix_nil|done].
  - destruct s as [|c s].
    + split; [done|]. intros H%prefix_nil_inv. done.
    + rewrite andb_true_iff, bool_decide_eq_true, IH. split.
      * intros [-> ?]. by apply prefix_cons.
      * intros H. split; [by eapply prefix_cons_inv_1|by eapply prefix_cons_inv_2].
Qed.

Lemma find_first_Some pat s i : find_first pat s = Some i →
  ∃ pre post, s = pre ++ pat ++ post ∧ length pre = i.
Proof.
  revert i. induction s as [|c s IH]; intros i; cbn.
  - destruct (prefixb pat []) eqn:E; [|done]. intros [= <-].
    apply prefixb_spec in E as [k ->]. by exists [], k.
  - destruct (prefixb pat (c :: s)) eqn:E.
    + intros [= <-]. apply prefixb_spec in E as [k ->]. by exists [], k.
    + intros (j & Hj & ->)%fmap_Some. destruct (IH j Hj) as (pre & post & -> & <-).
      by exists (c :: pre), post.
Qed.

(** An occurrence is found, at or before where it starts. *)
Lemma find_first_occurs pat pre post : ∃ j, find_first pat (pre ++ pat ++ post) = Some j ∧
  (j ≤ length pre)%nat.
Proof.
  induction pre as [|c pre IH].
  - exists 0%nat. split; [|done].
    assert (prefixb pat (pat ++ post) = true) as E by (apply prefixb_spec; by exists post).
    cbn. by destruct (pat ++ post) as [|b s]; cbn; [destruct pat|]; rewrite ?E.
  - destruct IH as (j & Hj & Hl). cbn [app find_first].
    destruct (prefixb pat (c :: pre ++ pat ++ post)).
    + exists 0%nat. split; [done|]. lia.
    + exists (S j). rewrite Hj. cbn. split; [done|lia].
Qed.

Lemma contains_spec s infix :
  contains s infix = true ↔ ∃ pre post, s = pre ++ infix ++ post.
Proof.
  unfold contains, find. rewrite decide_True by lia. rewrite drop_0, bool_decide_eq_true.
  rewrite fmap_is_Some. split.
  - intros [i Hi]. destruct (find_first_Some _ _ _ Hi) as (pre & post & -> & _). eauto.
  - intros (pre & post & ->). destruct (find_first_occurs infix pre post) as (j & -> & _). eauto.
Qed.

(** ** replaceInPlace *)

(** Every occurrence, found left to right and without overlap, replaced; by recursion on
    the length. *)
Fixpoint replace_all (fuel : nat) (s old new : list byte) : list byte :=
  match fuel, find_first old s with
  | S fuel, Some i => take i s ++ new ++ replace_all fuel (drop (i + length old) s) old new
  | _, _ => s
  end.

Lemma replace_all_none fuel s old new : find_first old s = None → replace_all fuel s old new = s.
Proof. intros E. destruct fuel; cbn; by rewrite ?E. Qed.

Lemma find_app pre s pat : find (pre ++ s) pat (length pre) = Nat.add (length pre) <$> find_first pat s.
Proof.
  unfold find. rewrite decide_True by (rewrite length_app; lia). by rewrite drop_app_length.
Qed.

(** The loop in the middle: [pre] is done, [rest] is what is left to search. *)
Lemma replace_loop_ok old new : old ≠ [] → ∀ fuel pre rest, (length rest ≤ fuel)%nat →
  replace_loop fuel (pre ++ rest) old new (Nat.add (length pre) <$> find_first old rest) =
    Some (pre ++ replace_all fuel rest old new).
Proof.
  intros Hold. induction fuel as [|fuel IH]; intros pre rest Hf.
  - destruct rest; [|cbn in Hf; lia]. destruct old; [done|]. done.
  - destruct (find_first old rest) as [i|] eqn:Ei.
    2:{ cbn [fmap option_fmap option_map replace_loop]. by rewrite replace_all_none. }
    destruct (find_first_Some _ _ _ Ei) as (a & b & -> & Ha).
    assert (0 < length old)%nat as Hlo by (destruct old; [done|cbn; lia]).
    cbn [fmap option_fmap option_map replace_loop replace_all]. rewrite Ei. subst i.
    rewrite !length_app in Hf.
    assert (take (length pre + length a) (pre ++ a ++ old ++ b) = pre ++ a) as ->.
    { rewrite take_app_add. by rewrite take_app_length. }
    assert (drop (length pre + length a + length old) (pre ++ a ++ old ++ b) = b) as ->.
    { rewrite <-Nat.add_assoc, drop_app_add, drop_app_add. by rewrite drop_app_length. }
    rewrite take_app_length, drop_app_add, drop_app_length.
    destruct (decide _) as [Hlt|Hge].
    + specialize (IH (pre ++ a ++ new) b).
      replace ((pre ++ a) ++ new ++ b) with ((pre ++ a ++ new) ++ b) by by rewrite <-!app_assoc.
      replace (length pre + length a + length new)%nat with (length (pre ++ a ++ new))
        by (rewrite !length_app; lia).
      rewrite find_app, IH by lia. by rewrite <-!app_assoc.
    + rewrite !length_app in Hge. assert (b = []) as -> by (apply nil_length_inv; lia).
      rewrite replace_all_none by (by destruct old). rewrite app_nil_r.
      cbn. destruct fuel; cbn; by rewrite <-!app_assoc.
Qed.

Lemma replaceInPlace_run s old new : old ≠ [] →
  replaceInPlace s old new =
    Some (contains s old, replace_all (S (length s)) s old new).
Proof.
  intros Hold. unfold replaceInPlace, contains, find. rewrite decide_True by lia. rewrite drop_0.
  pose proof (replace_loop_ok old new Hold (S (length s)) [] s) as Hr. cbn [app length] in Hr.
  rewrite Hr by lia. done.
Qed.

(** ** UTF-8 *)

(** The encoding of one code point in 1 to 4 bytes. *)
Definition utf8 (cp : Z) : list byte :=
  if decide (cp < 0x80) then [z2b cp]
  else if decide (cp < 0x800) then [z2b (0xC0 + cp / 64); z2b (0x80 + cp mod 64)]
  else if decide (cp < 0x10000) then
    [z2b (0xE0 + cp / 4096); z2b (0x80 + cp / 64 mod 64); z2b (0x80 + cp mod 64)]
  else
    [z2b (0xF0 + cp / 262144); z2b (0x80 + cp / 4096 mod 64); z2b (0x80 + cp / 64 mod 64);
     z2b (0x80 + cp mod 64)].
Definition code_point (cp : Z) : Prop := 0 ≤ cp < 0x110000.

Definition lead_class (c : byte) : Z :=
  if decide (b2z c < 0xC0) then 0 else if decide (b2z c < 0xE0) then 1
  else if decide (b2z c < 0xF0) then 2 else 3.

Lemma lead_adjustment_class c : lead_adjustment c = lead_class c.
Proof. by destruct c. Qed.

Lemma lead_adjustment_z2b n z : 0 ≤ z < 256 →
  (n = 0 ∧ z < 0xC0) ∨ (n = 1 ∧ 0xC0 ≤ z < 0xE0) ∨ (n = 2 ∧ 0xE0 ≤ z < 0xF0) ∨
    (n = 3 ∧ 0xF0 ≤ z) →
  lead_adjustment (z2b z) = n.
Proof.
  intros Hz Hn. rewrite lead_adjustment_class. unfold lead_class. rewrite b2z_z2b by lia.
  rewrite Z.mod_small by lia. repeat case_decide; lia.
Qed.

Ltac lead_class :=
  match goal with |- context [lead_adjustment (z2b ?z)] =>
    first [ rewrite (lead_adjustment_z2b 0 z) by (Z.div_mod_to_equations; lia)
          | rewrite (lead_adjustment_z2b 1 z) by (Z.div_mod_to_equations; lia)
          | rewrite (lead_adjustment_z2b 2 z) by (Z.div_mod_to_equations; lia)
          | rewrite (lead_adjustment_z2b 3 z) by (Z.div_mod_to_equations; lia) ]
  end.

Lemma utf8_adjustment cp : code_point cp →
  foldr (λ c n, lead_adjustment c + n) 0 (utf8 cp) = Z.of_nat (length (utf8 cp)) - 1 ∧
  (0 < length (utf8 cp))%nat.
Proof.
  unfold code_point. intros Hcp. unfold utf8.
  repeat case_decide; cbn [foldr length]; repeat lead_class; lia.
Qed.

Lemma count_chars_sum s n : count_chars s (u64 n) =
  u64 (n - foldr (λ c n, lead_adjustment c + n) 0 s).
Proof.
  revert n. induction s as [|c s IH]; intros n; cbn [count_chars foldr].
  - by rewrite Z.sub_0_r.
  - replace (u64 (u64 n - lead_adjustment c)) with (u64 (n - lead_adjustment c)) by word_lia.
    rewrite IH. f_equal. lia.
Qed.

Lemma utf8_all_adjustment cps : Forall code_point cps →
  foldr (λ c n, lead_adjustment c + n) 0 (cps ≫= utf8) =
    Z.of_nat (length (cps ≫= utf8)) - Z.of_nat (length cps).
Proof.
  induction 1 as [|cp cps Hcp _ IH]; [done|]. cbn in *. rewrite foldr_app, length_app.
  destruct (utf8_adjustment cp Hcp) as [Ha _].
  assert (∀ s m, foldr (λ c n, lead_adjustment c + n) m s =
                 foldr (λ c n, lead_adjustment c + n) 0 s + m) as Hacc.
  { induction s as [|c s IHs]; intros m; cbn [foldr]; [lia|]. rewrite IHs. lia. }
  rewrite Hacc, Ha, IH. lia.
Qed.

(** ** Properties *)

(** Property (equivalence): [numberOfCharacters] counts the code points of every well-formed UTF-8
    string: it takes off one for each continuation byte, by the class of the lead byte. *)
Theorem number_of_characters_utf8 cps :
  Forall code_point cps → Z.of_nat (length cps) < u64_modulus →
  numberOfCharacters (StringRef_string (cps ≫= utf8)) = Done (Z.of_nat (length cps)).
Proof.
  intros Hc Hl. unfold numberOfCharacters, to_string, StringRef_string. cbn [m_size m_chars].
  rewrite decide_True by (rewrite length_app; lia). rewrite take_app_length.
  cbn. rewrite count_chars_sum, utf8_all_adjustment by done.
  rewrite Z.sub_sub_distr, Z.sub_diag, Z.add_0_l. by rewrite u64_id by (unfold is_u64; lia).
Qed.
Lemma number_of_characters_utf8_witness :
  numberOfCharacters (StringRef_string ([0x41; 0xE9; 0x20AC; 0x1F600] ≫= utf8)) = Done 4.
Proof.
  apply (number_of_characters_utf8 [0x41; 0xE9; 0x20AC; 0x1F600]); [|done].
  repeat constructor; unfold code_point; lia.
Defined.

(** Property (termination): for a non-empty [replaceThis], the loop of [replaceInPlace] ends after at
    most one round per character; every occurrence, taken left to right without overlap, is
    replaced, replacements are not searched again, and the result tells whether there was
    one. *)
Theorem replace_in_place_replaces_all s replaceThis withThis :
  replaceThis ≠ [] →
  replaceInPlace s replaceThis withThis =
    Some (contains s replaceThis, replace_all (S (length s)) s replaceThis withThis).
Proof. apply replaceInPlace_run. Qed.
Lemma replace_in_place_replaces_all_witness :
  replaceInPlace (str "aXbXXc") (str "X") (str "XX") = Some (true, str "aXXbXXXXc").
Proof. rewrite (replace_in_place_replaces_all (str "aXbXXc") (str "X")); done. Defined.

(** With an empty [replaceThis] the loop runs forever on any non-empty string. *)
Lemma replace_empty_diverges c s withThis fuel :
  replace_loop fuel (c :: s) [] withThis (Some 0%nat) = None.
Proof.
  assert (∀ fuel pre rest, rest ≠ [] →
    replace_loop fuel (pre ++ rest) [] withThis (Some (length pre)) = None) as H.
  { clear. induction fuel as [|fuel IH]; intros pre rest Hr; [done|]. cbn [replace_loop length].
    rewrite take_app_length, Nat.add_0_r, drop_app_length. rewrite !length_app.
    rewrite decide_True by (destruct rest; [done|cbn; lia]).
    replace (pre ++ withThis ++ rest) with ((pre ++ withThis) ++ rest) by by rewrite <-app_assoc.
    rewrite <-length_app, find_app.
    assert (find_first [] rest = Some 0%nat) as -> by by destruct rest.
    cbn [fmap option_fmap option_map]. rewrite Nat.add_0_r. by apply IH. }
  by apply (H fuel [] (c :: s)).
Qed.

(** Property (bounds): [c_str] of a reference whose characters, with one more, lie in its memory
    and hold no zero byte gives memory that starts with exactly those characters and a
    terminator, whether the reference ends at a terminator or had to be copied. *)
Theorem c_str_terminated r :
  (m_size r < length (m_chars r))%nat → m_data r = None →
  ∃ p r', c_str r = Done (p, r') ∧ to_string r' = to_string r ∧
    take (S (m_size r)) p = take (m_size r) (m_chars r) ++ [x00].
Proof.
  intros Hl Hd. unfold c_str, isSubstring, char_at.
  destruct (lookup_lt_is_Some_2 _ _ Hl) as [c Hc]. rewrite Hc. cbn.
  case_bool_decide as Hz.
  - unfold takeOwnership, isOwned, to_string. rewrite Hd. cbn.
    rewrite decide_True by lia. cbn. eexists _, _. split; [done|]. split.
    + cbn. by rewrite decide_True by lia.
    + rewrite take_ge; [done|]. rewrite length_app, length_take. cbn. lia.
  - assert (c = x00) as -> by (destruct (decide (c = x00)); [done|by destruct Hz]).
    eexists _, _. split; [done|]. split; [done|]. by rewrite (take_S_r _ _ _ Hc).
Qed.
Lemma c_str_terminated_witness : ∃ p r',
  c_str (mk_StringRef (str "abc") 2 None) = Done (p, r') ∧
  to_string r' = Done (str "ab") ∧ take 3 p = str "ab" ++ [x00].
Proof. apply (c_str_terminated (mk_StringRef (str "abc") 2 None)); [cbn; lia|done]. Defined.
