(* ===== verification/CatchTest.v ===== *)
(** * Catch: test cases, tags and test specifications

    catch_test_case_info, catch_tag_alias_registry, catch_wildcard_pattern, catch_test_spec,
    catch_test_spec_parser and catch_test_case_registry_impl of native/src/catch.hpp: how a test
    case gets its tags, how a command-line specification is parsed, and which test cases it
    selects. *)
From stdpp Require Import strings sorting.
From S2P Require Import Prelude CatchString CatchStringProps.

(** ** Ordered strings *)

(** [operator<] of [std::string]: bytes compare as unsigned values. *)
Fixpoint bytes_le (a b : list byte) : bool :=
  match a, b with
  | [], _ => true
  | _ :: _, [] => false
  | c :: a, d :: b => if decide (c = d) then bytes_le a b else bool_decide (b2z c < b2z d)
  end.
Definition bytes_lt (a b : list byte) : bool := negb (bytes_le b a).

(** [std::sort]; [le] is total on what is sorted. *)
Fixpoint insert_sorted {A} (le : A → A → bool) (x : A) (l : list A) : list A :=
  match l with
  | [] => [x]
  | y :: l => if le x y then x :: y :: l else y :: insert_sorted le x l
  end.
Fixpoint sort {A} (le : A → A → bool) (l : list A) : list A :=
  match l with [] => [] | x :: l => insert_sorted le x (sort le l) end.

(** [v.erase( std::unique( begin, end ), end )] *)
Fixpoint unique (l : list (list byte)) : list (list byte) :=
  match l with
  | x :: ((y :: _) as l') => if decide (x = y) then unique l' else x :: unique l'
  | _ => l
  end.

(** ** SourceLineInfo *)
Record SourceLineInfo := mk_SourceLineInfo { file : list byte; line : nat }.

(** Files compare by contents whether or not the pointers are the same. *)
Definition sli_eq (a b : SourceLineInfo) : bool :=
  bool_decide (line a = line b) && bool_decide (file a = file b).
Definition sli_lt (a b : SourceLineInfo) : bool :=
  bool_decide (line a < line b)%nat ||
  (bool_decide (line a = line b) && bytes_lt (file a) (file b)).
Definition print_sli (info : SourceLineInfo) : list byte :=
  file info ++ str ":" ++ decimal (line info).

(** ** TestCaseInfo *)

(** [enum SpecialProperties], a set of bits. *)
Definition None_ : Z := 0.
Definition IsHidden : Z := 2.
Definition ShouldFail : Z := 4.
Definition MayFail : Z := 8.
Definition Throws : Z := 16.
Definition NonPortable : Z := 32.
Definition Benchmark : Z := 64.

Record TestCaseInfo := mk_TestCaseInfo {
  name : list byte;
  className : list byte;
  description : list byte;
  tags : list (list byte);
  lcaseTags : list (list byte);
  lineInfo : SourceLineInfo;
  properties : Z
}.

Definition parseSpecialTag (tag : list byte) : Z :=
  if startsWith_char tag x2e || bool_decide (tag = str "!hide") then IsHidden
  else if decide (tag = str "!throws") then Throws
  else if decide (tag = str "!shouldfail") then ShouldFail
  else if decide (tag = str "!mayfail") then MayFail
  else if decide (tag = str "!nonportable") then NonPortable
  else if decide (tag = str "!benchmark") then Z.lor Benchmark IsHidden
  else None_.

(** [std::isalnum] in the "C" locale. *)
Definition isalnum (c : byte) : bool :=
  let z := b2z c in
  bool_decide (48 ≤ z ≤ 57) || bool_decide (65 ≤ z ≤ 90) || bool_decide (97 ≤ z ≤ 122).

Definition isReservedTag (tag : list byte) : bool :=
  bool_decide (parseSpecialTag tag = None_) &&
  match tag with [] => false | c :: _ => negb (isalnum c) end.

Definition enforceNotReservedTag (tag : list byte) (_lineInfo : SourceLineInfo) : throwing unit :=
  if isReservedTag tag then
    inl (Domain_error (str "Tag name: [" ++ tag ++ str "] is not allowed." ++ [x0a]
           ++ str "Tag names starting with non alphanumeric characters are reserved" ++ [x0a]
           ++ print_sli _lineInfo))
  else mret tt.

Fixpoint join_properties (tags : list (list byte)) (p : Z) : Z :=
  match tags with
  | [] => p
  | tag :: tags => join_properties tags (Z.lor p (parseSpecialTag (toLower tag)))
  end.

Definition setTags (i : TestCaseInfo) (tags : list (list byte)) : TestCaseInfo :=
  let tags := unique (sort bytes_le tags) in
  mk_TestCaseInfo (name i) (className i) (description i) tags (toLower <$> tags) (lineInfo i)
    (join_properties tags (properties i)).

Definition make_info (_name _className _description : list byte) (_tags : list (list byte))
    (_lineInfo : SourceLineInfo) : TestCaseInfo :=
  setTags (mk_TestCaseInfo _name _className _description [] [] _lineInfo None_) _tags.

Definition isHidden (i : TestCaseInfo) : bool := bool_decide (Z.land (properties i) IsHidden ≠ 0).
Definition throws (i : TestCaseInfo) : bool := bool_decide (Z.land (properties i) Throws ≠ 0).
Definition okToFail (i : TestCaseInfo) : bool :=
  bool_decide (Z.land (properties i) (Z.lor ShouldFail MayFail) ≠ 0).
Definition expectedToFail (i : TestCaseInfo) : bool :=
  bool_decide (Z.land (properties i) ShouldFail ≠ 0).

Definition tagsAsString (i : TestCaseInfo) : list byte :=
  tag ← tags i; [x5b] ++ tag ++ [x5d].

(** A [TestCase] is its info and the test it runs ([test] names the invoker object). *)
Record TestCase := mk_TestCase { info : TestCaseInfo; test : nat }.

Definition withName (t : TestCase) (_newName : list byte) : TestCase :=
  mk_TestCase
    (mk_TestCaseInfo _newName (className (info t)) (description (info t)) (tags (info t))
       (lcaseTags (info t)) (lineInfo (info t)) (properties (info t))) (test t).
Definition test_case_eq (a b : TestCase) : bool :=
  bool_decide (test a = test b) && bool_decide (name (info a) = name (info b)) &&
  bool_decide (className (info a) = className (info b)).
Definition test_case_lt (a b : TestCase) : bool := bytes_lt (name (info a)) (name (info b)).

(** The loop of [makeTestCase] over the text between and inside brackets. *)
Record tag_parse := mk_tag_parse {
  p_hidden : bool; p_tags : list (list byte); p_desc : list byte; p_tag : list byte;
  p_inTag : bool
}.

Definition close_tag (_lineInfo : SourceLineInfo) (p : tag_parse) : throwing tag_parse :=
  let tag := p_tag p in
  let prop := parseSpecialTag tag in
  _ ← (if negb (bool_decide (Z.land prop IsHidden ≠ 0)) && bool_decide (prop = None_)
       then enforceNotReservedTag tag _lineInfo else mret tt);
  let tag' := if startsWith_char tag x2e && bool_decide (1 < length tag)%nat
              then drop 1 tag else tag in
  mret (mk_tag_parse (p_hidden p || bool_decide (Z.land prop IsHidden ≠ 0))
          (p_tags p ++ [tag']) (p_desc p) [] false).

Definition parse_char (_lineInfo : SourceLineInfo) (p : tag_parse) (c : byte)
    : throwing tag_parse :=
  if negb (p_inTag p) then
    mret (if decide (c = x5b)
          then mk_tag_parse (p_hidden p) (p_tags p) (p_desc p) (p_tag p) true
          else mk_tag_parse (p_hidden p) (p_tags p) (p_desc p ++ [c]) (p_tag p) false)
  else if decide (c = x5d) then close_tag _lineInfo p
  else mret (mk_tag_parse (p_hidden p) (p_tags p) (p_desc p) (p_tag p ++ [c]) true).

Fixpoint parse_chars (_lineInfo : SourceLineInfo) (p : tag_parse) (s : list byte)
    : throwing tag_parse :=
  match s with
  | [] => mret p
  | c :: s => p ← parse_char _lineInfo p c; parse_chars _lineInfo p s
  end.

Definition makeTestCase (_testCase : nat) (_className _name _descOrTags : list byte)
    (_lineInfo : SourceLineInfo) : throwing TestCase :=
  p ← parse_chars _lineInfo (mk_tag_parse false [] [] [] false) _descOrTags;
  let tags := if p_hidden p then p_tags p ++ [str "."] else p_tags p in
  mret (mk_TestCase (make_info _name _className (p_desc p) tags _lineInfo) _testCase).

(** ** TagAliasRegistry *)
Record TagAlias := mk_TagAlias { alias_tag : list byte; alias_line : SourceLineInfo }.

(** A [std::map]: pairs in the order of their keys. *)
Definition TagAliasRegistry : Type := list (list byte * TagAlias).

Fixpoint find_alias (alias : list byte) (m_registry : TagAliasRegistry) : option TagAlias :=
  match m_registry with
  | [] => None
  | (k, v) :: m_registry => if decide (k = alias) then Some v else find_alias alias m_registry
  end.

Fixpoint expandAliases (m_registry : TagAliasRegistry) (expandedTestSpec : list byte)
    : throwing (list byte) :=
  match m_registry with
  | [] => mret expandedTestSpec
  | (k, v) :: m_registry =>
      s ← (match find expandedTestSpec k 0 with
           | Some pos =>
               before ← substr expandedTestSpec 0 (Some pos);
               after ← substr expandedTestSpec (pos + length k) None;
               mret (before ++ alias_tag v ++ after)
           | None => mret expandedTestSpec
           end);
      expandAliases m_registry s
  end.

Definition add_alias (m_registry : TagAliasRegistry) (alias tag : list byte)
    (lineInfo : SourceLineInfo) : throwing TagAliasRegistry :=
  if negb (startsWith alias (str "[@") && endsWith_char alias x5d) then
    inl (Domain_error (str "error: tag alias, '" ++ alias
           ++ str "' is not of the form [@alias name]." ++ [x0a] ++ print_sli lineInfo))
  else
    match find_alias alias m_registry with
    | Some first =>
        inl (Domain_error (str "error: tag alias, '" ++ alias ++ str "' already registered." ++ [x0a]
               ++ [x09] ++ str "First seen at: " ++ print_sli (alias_line first) ++ [x0a]
               ++ [x09] ++ str "Redefined at: " ++ print_sli lineInfo))
    | None =>
        mret (insert_sorted (λ x y, bytes_le x.1 y.1) (alias, mk_TagAlias tag lineInfo) m_registry)
    end.

(** ** WildcardPattern *)
Inductive CaseSensitive := Case_yes | Case_no.
#[export] Instance CaseSensitive_eq_dec : EqDecision CaseSensitive.
Proof. solve_decision. Defined.

(** [m_wildcard] as its two bits. *)
Record WildcardPattern := mk_WildcardPattern {
  m_caseSensitivity : CaseSensitive;
  m_at_start : bool;
  m_at_end : bool;
  m_pattern : list byte
}.

Definition adjustCase (c : CaseSensitive) (s : list byte) : list byte :=
  if decide (c = Case_no) then toLower s else s.

Definition make_wildcard (pattern : list byte) (caseSensitivity : CaseSensitive) : WildcardPattern :=
  let p := adjustCase caseSensitivity pattern in
  let at_start := startsWith_char p x2a in
  let p := if at_start then drop 1 p else p in
  let at_end := endsWith_char p x2a in
  let p := if at_end then take (length p - 1) p else p in
  mk_WildcardPattern caseSensitivity at_start at_end p.

Definition wildcard_matches (w : WildcardPattern) (s : list byte) : bool :=
  let s := adjustCase (m_caseSensitivity w) s in
  match m_at_start w, m_at_end w with
  | false, false => bool_decide (m_pattern w = s)
  | true, false => endsWith s (m_pattern w)
  | false, true => startsWith s (m_pattern w)
  | true, true => contains s (m_pattern w)
  end.

(** ** TestSpec *)
Inductive pattern :=
| NamePattern (m_wildcardPattern : WildcardPattern)
| TagPattern (m_tag : list byte)
| ExcludedPattern (m_underlyingPattern : pattern).

Definition make_name_pattern (name : list byte) : pattern :=
  NamePattern (make_wildcard (toLower name) Case_no).
Definition make_tag_pattern (tag : list byte) : pattern := TagPattern (toLower tag).

Fixpoint pattern_matches (p : pattern) (testCase : TestCaseInfo) : bool :=
  match p with
  | NamePattern w => wildcard_matches w (toLower (name testCase))
  | TagPattern t => bool_decide (t ∈ lcaseTags testCase)
  | ExcludedPattern p => negb (pattern_matches p testCase)
  end.

Definition Filter : Type := list pattern.
Definition filter_matches (m_patterns : Filter) (testCase : TestCaseInfo) : bool :=
  forallb (λ p, pattern_matches p testCase) m_patterns.

Definition TestSpec : Type := list Filter.
Definition hasFilters (m_filters : TestSpec) : bool := negb (bool_decide (m_filters = [])).
Definition spec_matches (m_filters : TestSpec) (testCase : TestCaseInfo) : bool :=
  existsb (λ f, filter_matches f testCase) m_filters.

(** ** TestSpecParser *)
Inductive Mode := Mode_None | Mode_Name | Mode_QuotedName | Mode_Tag | Mode_EscapedName.
#[export] Instance Mode_eq_dec : EqDecision Mode.
Proof. solve_decision. Defined.

Record TestSpecParser := mk_TestSpecParser {
  m_mode : Mode;
  m_exclusion : bool;
  m_start : option nat;
  m_pos : nat;
  m_arg : list byte;
  m_escapeChars : list nat;
  m_currentFilter : Filter;
  m_testSpec : TestSpec
}.

Definition startNewMode (mode : Mode) (start : nat) (s : TestSpecParser) : TestSpecParser :=
  mk_TestSpecParser mode (m_exclusion s) (Some start) (m_pos s) (m_arg s) (m_escapeChars s)
    (m_currentFilter s) (m_testSpec s).
Definition set_m_pos (pos : nat) (s : TestSpecParser) : TestSpecParser :=
  mk_TestSpecParser (m_mode s) (m_exclusion s) (m_start s) pos (m_arg s) (m_escapeChars s)
    (m_currentFilter s) (m_testSpec s).
Definition set_mode (mode : Mode) (s : TestSpecParser) : TestSpecParser :=
  mk_TestSpecParser mode (m_exclusion s) (m_start s) (m_pos s) (m_arg s) (m_escapeChars s)
    (m_currentFilter s) (m_testSpec s).
Definition set_exclusion (b : bool) (s : TestSpecParser) : TestSpecParser :=
  mk_TestSpecParser (m_mode s) b (m_start s) (m_pos s) (m_arg s) (m_escapeChars s)
    (m_currentFilter s) (m_testSpec s).

Definition escape (s : TestSpecParser) : TestSpecParser :=
  mk_TestSpecParser Mode_EscapedName (m_exclusion s)
    (if decide (m_mode s = Mode_None) then Some (m_pos s) else m_start s)
    (m_pos s) (m_arg s) (m_escapeChars s ++ [m_pos s]) (m_currentFilter s) (m_testSpec s).

Definition subString (s : TestSpecParser) : throwing (list byte) :=
  match m_start s with
  | Some start => substr (m_arg s) start (Some (m_pos s - start)%nat)
  | None => inl Out_of_range
  end.

(** The escape characters leave the token; [i] of them are gone already.  Positions are
    [size_t]: a difference wraps around. *)
Fixpoint drop_escapes (start : nat) (escapes : list nat) (i : nat) (token : list byte)
    : throwing (list byte) :=
  match escapes with
  | [] => mret token
  | e :: escapes =>
      let n := u64 (Z.of_nat e - Z.of_nat start - Z.of_nat i) in
      let before := if decide (n ≤ Z.of_nat (length token)) then take (Z.to_nat n) token else token in
      let m := u64 (n + 1) in
      if decide (m ≤ Z.of_nat (length token))
      then drop_escapes start escapes (S i) (before ++ drop (Z.to_nat m) token)
      else inl Out_of_range
  end.

(** [addPattern<T>], [make] being the constructor of [T]. *)
Definition addPattern (make : list byte → pattern) (s : TestSpecParser) : throwing TestSpecParser :=
  token ← subString s;
  token ← drop_escapes (default 0%nat (m_start s)) (m_escapeChars s) 0 token;
  let excluded := m_exclusion s || startsWith token (str "exclude:") in
  token ← (if startsWith token (str "exclude:") then substr token 8 None else mret token);
  let p := make token in
  let p := if excluded then ExcludedPattern p else p in
  let patterns := if decide (token = []) then m_currentFilter s else m_currentFilter s ++ [p] in
  mret (mk_TestSpecParser Mode_None false (m_start s) (m_pos s) (m_arg s) [] patterns
          (m_testSpec s)).

Definition addFilter (s : TestSpecParser) : TestSpecParser :=
  if decide (m_currentFilter s = []) then s
  else mk_TestSpecParser (m_mode s) (m_exclusion s) (m_start s) (m_pos s) (m_arg s)
         (m_escapeChars s) [] (m_testSpec s ++ [m_currentFilter s]).

Definition visit_name (c : byte) (s : TestSpecParser) : throwing TestSpecParser :=
  if decide (c = x2c) then s ← addPattern make_name_pattern s; mret (addFilter s)
  else if decide (c = x5b) then
    token ← subString s;
    s ← (if decide (token = str "exclude:") then mret (set_exclusion true s)
         else addPattern make_name_pattern s);
    let s := set_m_pos (S (m_pos s)) s in
    mret (startNewMode Mode_Tag (m_pos s) s)
  else if decide (c = x5c) then mret (escape s)
  else mret s.

Definition visitChar (c : byte) (s : TestSpecParser) : throwing TestSpecParser :=
  match m_mode s with
  | Mode_None =>
      if decide (c = x20) then mret s
      else if decide (c = x7e) then mret (set_exclusion true s)
      else if decide (c = x5b) then
        let s := set_m_pos (S (m_pos s)) s in mret (startNewMode Mode_Tag (m_pos s) s)
      else if decide (c = x22) then
        let s := set_m_pos (S (m_pos s)) s in mret (startNewMode Mode_QuotedName (m_pos s) s)
      else if decide (c = x5c) then mret (escape s)
      else visit_name c (startNewMode Mode_Name (m_pos s) s)
  | Mode_Name => visit_name c s
  | Mode_EscapedName => mret (set_mode Mode_Name s)
  | Mode_QuotedName => if decide (c = x22) then addPattern make_name_pattern s else mret s
  | Mode_Tag => if decide (c = x5d) then addPattern make_tag_pattern s else mret s
  end.

(** The loop of [parse], with fuel: one more than the characters from [m_pos] on. *)
Fixpoint parse_loop (fuel : nat) (s : TestSpecParser) : throwing TestSpecParser :=
  match fuel, m_arg s !! m_pos s with
  | S fuel, Some c => s ← visitChar c s; parse_loop fuel (set_m_pos (S (m_pos s)) s)
  | _, _ => mret s
  end.

Definition new_parser : TestSpecParser := mk_TestSpecParser Mode_None false None 0 [] [] [] [].

Definition parse (m_tagAliases : TagAliasRegistry) (arg : list byte) (s : TestSpecParser)
    : throwing TestSpecParser :=
  arg ← expandAliases m_tagAliases arg;
  let s := mk_TestSpecParser Mode_None false None 0 arg [] (m_currentFilter s) (m_testSpec s) in
  s ← parse_loop (S (length arg)) s;
  if decide (m_mode s = Mode_Name) then addPattern make_name_pattern s else mret s.

Definition testSpec (s : TestSpecParser) : TestSpec := m_testSpec (addFilter s).

Definition parseTestSpec (m_tagAliases : TagAliasRegistry) (arg : list byte) : throwing TestSpec :=
  s ← parse m_tagAliases arg new_parser; mret (testSpec s).

(** ** The test case registry *)
Inductive InWhatOrder := InDeclarationOrder | InLexicographicalOrder | InRandomOrder.
#[export] Instance InWhatOrder_eq_dec : EqDecision InWhatOrder.
Proof. solve_decision. Defined.

(** What the functions ask of the configuration; [shuffle] is [std::shuffle] with the
    seeded generator. *)
Record IConfig := mk_IConfig {
  runOrder : InWhatOrder;
  allowThrows : bool;
  shuffle : list TestCase → list TestCase
}.

Definition sortTests (config : IConfig) (unsorted : list TestCase) : list TestCase :=
  match runOrder config with
  | InLexicographicalOrder => sort (λ a b, negb (test_case_lt b a)) unsorted
  | InRandomOrder => shuffle config unsorted
  | InDeclarationOrder => unsorted
  end.

Definition matchTest (testCase : TestCase) (testSpec : TestSpec) (config : IConfig) : bool :=
  spec_matches testSpec (info testCase) && (allowThrows config || negb (throws (info testCase))).

(** [seenFunctions] compares test cases by name only. *)
Fixpoint enforceNoDuplicates (functions seenFunctions : list TestCase) : throwing unit :=
  match functions with
  | [] => mret tt
  | function :: functions =>
      match List.find (λ prev, bool_decide (name (info prev) = name (info function))) seenFunctions with
      | Some prev =>
          inl (Domain_error (str "error: TEST_CASE( " ++ [x22] ++ name (info function) ++ [x22]
                 ++ str " ) already defined." ++ [x0a] ++ [x09] ++ str "First seen at "
                 ++ print_sli (lineInfo (info prev)) ++ [x0a] ++ [x09] ++ str "Redefined at "
                 ++ print_sli (lineInfo (info function))))
      | None => enforceNoDuplicates functions (function :: seenFunctions)
      end
  end.
Definition enforceNoDuplicateTestCases (functions : list TestCase) : throwing unit :=
  enforceNoDuplicates functions [].

Definition filterTests (testCases : list TestCase) (testSpec : TestSpec) (config : IConfig)
    : list TestCase :=
  List.filter (λ t,
    (negb (hasFilters testSpec) && negb (isHidden (info t))) ||
    (hasFilters testSpec && matchTest t testSpec config)) testCases.

Record TestRegistry := mk_TestRegistry {
  m_functions : list TestCase;
  m_currentSortOrder : InWhatOrder;
  m_sortedFunctions : list TestCase;
  m_unnamedCount : nat
}.
Definition new_registry : TestRegistry := mk_TestRegistry [] InDeclarationOrder [] 0.

Definition registerTest (testCase : TestCase) (r : TestRegistry) : TestRegistry :=
  if decide (name (info testCase) = []) then
    let n := S (m_unnamedCount r) in
    mk_TestRegistry (m_functions r ++ [withName testCase (str "Anonymous test case " ++ decimal n)])
      (m_currentSortOrder r) (m_sortedFunctions r) n
  else mk_TestRegistry (m_functions r ++ [testCase]) (m_currentSortOrder r) (m_sortedFunctions r)
         (m_unnamedCount r).

Definition getAllTestsSorted (config : IConfig) (r : TestRegistry)
    : throwing (list TestCase * TestRegistry) :=
  _ ← (if decide (m_sortedFunctions r = []) then enforceNoDuplicateTestCases (m_functions r)
       else mret tt);
  let r := if decide (m_currentSortOrder r ≠ runOrder config ∨ m_sortedFunctions r = [])
           then mk_TestRegistry (m_functions r) (runOrder config) (sortTests config (m_functions r))
                  (m_unnamedCount r)
           else r in
  mret (m_sortedFunctions r, r).

(** [s.rfind( pat, pos )]: the last occurrence that starts at or before [pos]. *)
Fixpoint rfind (s pat : list byte) (pos : nat) : option nat :=
  if (prefixb pat (drop pos s) && bool_decide (pos + length pat ≤ length s)%nat) then Some pos
  else match pos with O => None | S pos => rfind s pat pos end.

(** [lastColons-1] wraps to [npos] when there are no colons at all or they come first. *)
Definition extractClassName (className : list byte) : throwing (list byte) :=
  if startsWith_char className x26 then
    let colons := str "::" in
    let lastColons := rfind className colons (length className) in
    let penultimate := rfind className colons
      (match lastColons with Some (S n) => n | _ => length className end) in
    let from := default 1%nat penultimate in
    substr className from (match lastColons with Some n => Some (n - from)%nat | None => None end)
  else mret className.

(** * Properties of test selection *)

(** ** Wildcard patterns *)
Lemma startsWith_spec s p : startsWith s p = true ↔ ∃ post, s = p ++ post.
Proof.
  unfold startsWith. rewrite andb_true_iff, bool_decide_eq_true, prefixb_spec. split.
  - by intros [_ ?].
  - intros [post ->]. split; [rewrite length_app; lia|by exists post].
Qed.

Lemma endsWith_spec s p : endsWith s p = true ↔ ∃ pre, s = pre ++ p.
Proof.
  unfold endsWith. rewrite andb_true_iff, bool_decide_eq_true, prefixb_spec. split.
  - intros [_ [k Hk]]. exists (rev k).
    by rewrite <-(rev_involutive s), Hk, rev_app_distr, rev_involutive.
  - intros [pre ->]. split; [rewrite length_app; lia|]. exists (rev pre). apply rev_app_distr.
Qed.

Lemma startsWith_char_spec s c : startsWith_char s c = true ↔ ∃ post, s = c :: post.
Proof.
  destruct s as [|d s]; cbn; [split; [done|by intros []]|].
  rewrite bool_decide_eq_true. split; [intros ->; eauto|by intros [? [= ->]]].
Qed.

Lemma endsWith_char_spec s c : endsWith_char s c = true ↔ ∃ pre, s = pre ++ [c].
Proof.
  unfold endsWith_char. destruct (rev s) as [|d r] eqn:E.
  - apply (f_equal (@rev byte)) in E. rewrite rev_involutive in E. cbn in E. subst.
    split; [done|]. by intros [[] ?].
  - apply (f_equal (@rev byte)) in E. rewrite rev_involutive in E. cbn in E. subst.
    rewrite bool_decide_eq_true. split; [intros ->; eauto|].
    intros [pre H]. by apply app_inj_tail in H as [_ ->].
Qed.

(** [*] in front if [a], [*] behind if [b]. *)
Definition stars (a b : bool) (p : list byte) : list byte :=
  (if a then [x2a] else []) ++ p ++ (if b then [x2a] else []).

Lemma toLower_star c p : adjustCase c (stars true true p) = stars true true (adjustCase c p) ∧
  ∀ a b, adjustCase c (stars a b p) = stars a b (adjustCase c p).
Proof.
  assert (∀ a b, adjustCase c (stars a b p) = stars a b (adjustCase c p)) as H.
  { intros a b. unfold adjustCase, toLower, stars. case_decide; [|done].
    rewrite !fmap_app. by destruct a, b. }
  split; [apply H|exact H].
Qed.

(** What the constructor splits off a pattern whose core neither starts nor ends with a star. *)
Lemma make_wildcard_stars c a b p :
  startsWith_char (adjustCase c p) x2a = false → endsWith_char (adjustCase c p) x2a = false →
  let w := make_wildcard (stars a b p) c in
  m_caseSensitivity w = c ∧ m_pattern w = adjustCase c p ∧
  (p ≠ [] → m_at_start w = a ∧ m_at_end w = b) ∧
  (p = [] → m_at_start w || m_at_end w = a || b).
Proof.
  intros Hs He. unfold make_wildcard. rewrite (proj2 (toLower_star c p)).
  assert (adjustCase c p = [] ↔ p = []) as Hnil.
  { unfold adjustCase, toLower. case_decide; [|done]. by destruct p. }
  revert Hs He Hnil. generalize (adjustCase c p). intros q Hs He Hnil.
  assert (∀ r : list byte, take (length (r ++ [x2a]) - 1) (r ++ [x2a]) = r) as Htake.
  { intros r. rewrite length_app. cbn. replace (length r + 1 - 1)%nat with (length r) by lia.
    apply take_app_length. }
  assert (∀ r : list byte, endsWith_char (r ++ [x2a]) x2a = true) as Hend
    by (intros; apply endsWith_char_spec; eauto).
  destruct q as [|x q].
  - assert (p = []) as -> by by apply Hnil. destruct a, b; cbn; done.
  - assert (p ≠ []) as Hp by (intros Hp; by apply Hnil in Hp).
    assert (startsWith_char (stars a b (x :: q)) x2a = a) as E1.
    { destruct a; [|exact Hs]. by apply bool_decide_eq_true_2. }
    rewrite E1. clear E1.
    assert ((if a then drop 1 (stars a b (x :: q)) else stars a b (x :: q)) =
            (x :: q) ++ (if b then [x2a] else [])) as -> by by destruct a.
    destruct b; [rewrite Hend, Htake|rewrite app_nil_r, He]; done.
Qed.

Lemma wildcard_matches_spec w s :
  wildcard_matches w s = true ↔
    ∃ pre post, adjustCase (m_caseSensitivity w) s = pre ++ m_pattern w ++ post ∧
      (m_at_start w = false → pre = []) ∧ (m_at_end w = false → post = []).
Proof.
  unfold wildcard_matches. destruct (m_at_start w), (m_at_end w).
  - rewrite contains_spec. split; [intros (pre & post & E)|intros (pre & post & E & _)];
      by exists pre, post.
  - rewrite endsWith_spec. split.
    + intros [pre ->]. exists pre, []. by rewrite app_nil_r.
    + intros (pre & post & -> & _ & Hp). exists pre. by rewrite Hp, app_nil_r.
  - rewrite startsWith_spec. split.
    + intros [post ->]. by exists [], post.
    + intros (pre & post & -> & Hp & _). exists post. by rewrite Hp.
  - rewrite bool_decide_eq_true. split.
    + intros ->. exists [], []. by rewrite app_nil_r.
    + intros (pre & post & -> & -> & ->); [by rewrite app_nil_r|done|done].
Qed.

(** C21 (functional): a pattern with a star in front, behind, or both matches exactly the
    strings that end with, start with, or contain the rest, and without a star exactly that
    string, up to case if the pattern is case-insensitive. *)
Theorem wildcard_is_glob c a b p s :
  startsWith_char (adjustCase c p) x2a = false → endsWith_char (adjustCase c p) x2a = false →
  wildcard_matches (make_wildcard (stars a b p) c) s = true ↔
    ∃ pre post, adjustCase c s = pre ++ adjustCase c p ++ post ∧
      (a = false → pre = []) ∧ (b = false → post = []).
Proof.
  intros Hs He. rewrite wildcard_matches_spec.
  destruct (make_wildcard_stars c a b p Hs He) as (Hc & Hp & Hne & Hnil). rewrite Hc, Hp.
  destruct (decide (p = [])) as [->|Hp0].
  - specialize (Hnil eq_refl). assert (adjustCase c [] = []) as -> by (by destruct c).
    destruct (m_at_start _) eqn:Es, (m_at_end _) eqn:Ee, a, b; cbn in Hnil; try done;
      split; intros (pre & post & -> & H1 & H2); cbn in *;
      rewrite ?(H1 eq_refl), ?(H2 eq_refl), ?app_nil_r;
      first [by exists [], [] | by exists pre, post | by exists pre, []; rewrite ?app_nil_r
            | by exists [], post | by exists (pre ++ post), []; rewrite ?app_nil_r
            | by exists [], (pre ++ post)
            | by exists [], pre; rewrite ?app_nil_r | by exists post, []; rewrite ?app_nil_r].
  - destruct (Hne Hp0) as [-> ->]. done.
Qed.

Lemma wildcard_is_glob_witness :
  wildcard_matches (make_wildcard (str "*Buffer*") Case_no) (str "Write buffers") = true.
Proof.
  apply (wildcard_is_glob Case_no true true (str "Buffer") (str "Write buffers"));
    [done|done|]. exists (str "write "), (str "s"). done.
Defined.
