(* ===== verification/CatchSpecProps.v ===== *)
(** * Properties of Catch's test specification parser

    A specification is printed back from its filters, and parsing the text gives the filters. *)
From stdpp Require Import strings.
From S2P Require Import Prelude CatchString CatchTest.

(** A tag or a quoted name, perhaps excluded. *)
Record spec_item := mk_spec_item { excluded : bool; is_tag : bool; text : list byte }.

Definition opening (it : spec_item) : byte := if is_tag it then x5b else x22.
Definition closing (it : spec_item) : byte := if is_tag it then x5d else x22.
Definition print_item (it : spec_item) : list byte :=
  ((if excluded it then [x7e] else []) ++ opening it :: text it ++ [closing it])%list.
Definition item_pattern (it : spec_item) : pattern :=
  let p := (if is_tag it then make_tag_pattern else make_name_pattern) (text it) in
  if excluded it then ExcludedPattern p else p.

Definition filter_patterns (f : list spec_item) : Filter := item_pattern <$> f.

(** The text is not empty, its closing character does not occur after its first character
    (the parser does not look at that one) and it does not begin with [exclude:]. *)
Definition item_ok (it : spec_item) : Prop :=
  text it ≠ [] ∧ (closing it ∉ drop 1 (text it)) ∧
  startsWith (text it) (str "exclude:") = false.

Fixpoint print_filters (fs : list (list spec_item)) : list byte :=
  match fs with
  | [] => []
  | [f] => f ≫= print_item
  | f :: fs => (f ≫= print_item) ++ [x2c] ++ print_filters fs
  end.

Section parsing.
Context (arg : list byte).

(** The parser at position [pos]. *)
Definition at_pos (m : Mode) (ex : bool) (start : option nat) (pos : nat) (cur : Filter)
    (spec : TestSpec) : TestSpecParser :=
  mk_TestSpecParser m ex start pos arg [] cur spec.

Lemma drop_cons_inv (pos : nat) c rest : drop pos arg = c :: rest →
  arg !! pos = Some c ∧ drop (S pos) arg = rest.
Proof.
  intros E. split.
  - rewrite <-(Nat.add_0_r pos), <-lookup_drop, E. done.
  - rewrite <-Nat.add_1_r, <-drop_drop, E. done.
Qed.

Lemma loop_step fuel m ex st pos cur spec c rest s' :
  drop pos arg = c :: rest → visitChar c (at_pos m ex st pos cur spec) = inr s' →
  parse_loop (S fuel) (at_pos m ex st pos cur spec) =
    parse_loop fuel (set_m_pos (S (m_pos s')) s').
Proof.
  intros E V. apply drop_cons_inv in E as [E _]. cbn [parse_loop].
  unfold at_pos at 1 2. cbn [m_arg m_pos]. rewrite E, V. done.
Qed.

Definition item_mode (it : spec_item) : Mode := if is_tag it then Mode_Tag else Mode_QuotedName.

Lemma loop_scan (it : spec_item) u : ∀ fuel ex st pos cur spec rest,
  closing it ∉ u → drop pos arg = u ++ rest →
  parse_loop (length u + fuel) (at_pos (item_mode it) ex st pos cur spec) =
    parse_loop fuel (at_pos (item_mode it) ex st (length u + pos) cur spec).
Proof.
  induction u as [|c u IH]; intros fuel ex st pos cur spec rest Hc E; [done|].
  apply not_elem_of_cons in Hc as [Hc Hu]. cbn [length Nat.add].
  rewrite (loop_step _ _ _ _ _ _ _ c (u ++ rest) (at_pos (item_mode it) ex st pos cur spec) E).
  - change (set_m_pos _ _) with (at_pos (item_mode it) ex st (S pos) cur spec).
    rewrite (IH fuel ex st (S pos) cur spec rest Hu); [by rewrite Nat.add_succ_r|].
    by apply (drop_cons_inv pos c).
  - unfold item_mode, closing in *. destruct (is_tag it); cbn; by rewrite decide_False.
Qed.

Lemma substr_token start t rest : drop start arg = t ++ rest → t ≠ [] →
  substr arg start (Some (length t + start - start)%nat) = inr t.
Proof.
  intros E Ht. unfold substr. rewrite decide_True.
  - rewrite Nat.add_sub, E. by rewrite take_app_length.
  - destruct (decide (start ≤ length arg)%nat); [done|].
    rewrite drop_ge in E by lia. by destruct t.
Qed.

Lemma addPattern_token make m ex start t rest cur spec :
  drop start arg = t ++ rest → t ≠ [] → startsWith t (str "exclude:") = false →
  addPattern make (at_pos m ex (Some start) (length t + start) cur spec) =
    inr (at_pos Mode_None false (Some start) (length t + start)
           (cur ++ [if ex then ExcludedPattern (make t) else make t]) spec).
Proof.
  intros E Ht Hx. unfold addPattern, subString, at_pos. cbn [m_start m_arg m_pos].
  rewrite (substr_token start t rest E Ht). unfold mbind, throwing_bind. cbn -[startsWith str].
  rewrite Hx. cbn. rewrite decide_False by done. by rewrite orb_false_r.
Qed.

(** One item, from its opening character. *)
Lemma loop_opened it ex st pos cur spec rest fuel : item_ok it →
  drop pos arg = opening it :: text it ++ closing it :: rest →
  parse_loop (S (length (text it) + fuel)) (at_pos Mode_None ex st pos cur spec) =
    parse_loop fuel (at_pos Mode_None false (Some (S pos)) (S (S (length (text it) + pos)))
      (cur ++ [if ex then ExcludedPattern (item_pattern (mk_spec_item false (is_tag it) (text it)))
               else item_pattern (mk_spec_item false (is_tag it) (text it))]) spec).
Proof.
  intros (Hne & Hc & Hx) E.
  rewrite (loop_step _ _ _ _ _ _ _ _ _ (at_pos (item_mode it) ex (Some (S pos)) (S pos) cur spec) E)
    by (unfold opening, item_mode; destruct (is_tag it); reflexivity).
  apply drop_cons_inv in E as [_ E].
  change (set_m_pos _ _) with (at_pos (item_mode it) ex (Some (S pos)) (S (S pos)) cur spec).
  destruct (text it) as [|c u] eqn:Et; [done|]. cbn [drop] in Hc.
  assert (drop (S (S pos)) arg = u ++ closing it :: rest) as E1
    by by apply (drop_cons_inv (S pos) c).
  cbn [length]. rewrite Nat.add_succ_l, <-Nat.add_succ_r.
  rewrite (loop_scan it u _ _ _ _ _ _ _ Hc E1).
  assert (drop (length u + S (S pos)) arg = closing it :: rest) as E2.
  { rewrite Nat.add_comm, <-drop_drop, E1. by rewrite drop_app_length. }
  rewrite (loop_step fuel _ _ _ _ _ _ _ _
    (at_pos Mode_None false (Some (S pos)) (length (c :: u) + S pos)
       (cur ++ [if ex then ExcludedPattern (item_pattern (mk_spec_item false (is_tag it) (c :: u)))
                else item_pattern (mk_spec_item false (is_tag it) (c :: u))]) spec) E2).
  - unfold set_m_pos, at_pos. cbn. do 2 f_equal. lia.
  - replace (length u + S (S pos))%nat with (length (c :: u) + S pos)%nat by (cbn; lia).
    unfold item_pattern, closing, item_mode in *. cbn [excluded is_tag text].
    destruct (is_tag it); apply (addPattern_token _ _ _ _ _ (_ :: rest) _ _ E); done.
Qed.

(** How often the loop goes round for an item: the first character of its text is skipped. *)
Definition iters (it : spec_item) : nat :=
  (if excluded it then 1 else 0) + S (length (text it)).

Lemma loop_item it st pos cur spec rest fuel : item_ok it →
  drop pos arg = print_item it ++ rest → ∃ st',
    parse_loop (iters it + fuel) (at_pos Mode_None false st pos cur spec) =
      parse_loop fuel (at_pos Mode_None false st' (length (print_item it) + pos)
        (cur ++ [item_pattern it]) spec).
Proof.
  destruct it as [ex tg t]. intros Hok E. destruct ex; unfold iters, print_item in *;
    cbn [excluded is_tag text Nat.add app] in E |- *.
  - rewrite <-app_assoc in E. exists (Some (S (S pos))).
    rewrite (loop_step _ _ _ _ _ _ _ _ _ (at_pos Mode_None true st pos cur spec) E) by reflexivity.
    apply drop_cons_inv in E as [_ E].
    change (set_m_pos _ _) with (at_pos Mode_None true st (S pos) cur spec).
    pose proof (loop_opened (mk_spec_item true tg t) true st (S pos) cur spec rest fuel Hok E) as L.
    cbn [is_tag text] in L. rewrite L.
    unfold at_pos. do 2 f_equal. cbn. rewrite length_app. cbn. lia.
  - rewrite <-app_assoc in E. exists (Some (S pos)).
    pose proof (loop_opened (mk_spec_item false tg t) false st pos cur spec rest fuel Hok E) as L.
    cbn [is_tag text] in L. rewrite L.
    unfold at_pos. do 2 f_equal. cbn. rewrite length_app. cbn. lia.
Qed.

Lemma loop_items f : ∀ st pos cur spec rest fuel, Forall item_ok f →
  drop pos arg = (f ≫= print_item) ++ rest → ∃ st',
    parse_loop (sum_list (iters <$> f) + fuel) (at_pos Mode_None false st pos cur spec) =
      parse_loop fuel (at_pos Mode_None false st' (length (f ≫= print_item) + pos)
        (cur ++ (item_pattern <$> f)) spec).
Proof.
  induction f as [|it f IH]; intros st pos cur spec rest fuel Hok E.
  { exists st. cbn. by rewrite app_nil_r. }
  apply Forall_cons_1 in Hok as [Hit Hok].
  change (drop pos arg = (print_item it ++ (f ≫= print_item)) ++ rest) in E. rewrite <-app_assoc in E.
  change (sum_list _) with (iters it + sum_list (iters <$> f))%nat. rewrite <-Nat.add_assoc.
  destruct (loop_item it st pos cur spec _ (sum_list (iters <$> f) + fuel) Hit E) as [st1 ->].
  destruct (IH st1 (length (print_item it) + pos)%nat (cur ++ [item_pattern it]) spec rest fuel Hok)
    as [st2 ->].
  - rewrite Nat.add_comm, <-drop_drop, E. by rewrite drop_app_length.
  - exists st2. rewrite <-app_assoc.
    change ((it :: f) ≫= print_item) with (print_item it ++ (f ≫= print_item)).
    rewrite length_app.
    unfold at_pos. do 2 f_equal. lia.
Qed.

Lemma addPattern_empty make m ex pos cur spec : (pos ≤ length arg)%nat →
  addPattern make (at_pos m ex (Some pos) pos cur spec) =
    inr (at_pos Mode_None false (Some pos) pos cur spec).
Proof.
  intros H. unfold addPattern, subString, at_pos, substr. cbn [m_start m_arg m_pos].
  rewrite decide_True, Nat.sub_diag by done. reflexivity.
Qed.

(** The comma adds a name pattern with no characters, that is none, and ends the filter. *)
Lemma loop_comma st pos cur spec rest fuel : cur ≠ [] → drop pos arg = x2c :: rest →
  parse_loop (S fuel) (at_pos Mode_None false st pos cur spec) =
    parse_loop fuel (at_pos Mode_None false (Some pos) (S pos) [] (spec ++ [cur])).
Proof.
  intros Hcur E. assert (pos < length arg)%nat
    by (apply drop_cons_inv in E as [E _]; by eapply lookup_lt_Some).
  apply (loop_step _ _ _ _ _ _ _ _ _ (at_pos Mode_None false (Some pos) pos [] (spec ++ [cur])) E).
  change (visitChar x2c _) with
    (s ← addPattern make_name_pattern (at_pos Mode_Name false (Some pos) pos cur spec);
     mret (addFilter s) : throwing _).
  rewrite addPattern_empty by lia. cbn. unfold addFilter. cbn. by rewrite decide_False.
Qed.

Lemma loop_end fuel ex st pos cur spec : drop pos arg = [] →
  parse_loop fuel (at_pos Mode_None ex st pos cur spec) = inr (at_pos Mode_None ex st pos cur spec).
Proof.
  intros E. destruct fuel; [done|]. cbn. rewrite lookup_ge_None_2; [done|].
  apply (f_equal length) in E. rewrite length_drop in E. cbn in E. lia.
Qed.

Definition filter_iters (f : list spec_item) : nat := S (sum_list (iters <$> f)).

Lemma loop_filters fs : ∀ st pos spec fuel,
  fs ≠ [] → Forall (λ f, f ≠ [] ∧ Forall item_ok f) fs → drop pos arg = print_filters fs →
  ∃ s, parse_loop (sum_list (List.map filter_iters fs) + fuel) (at_pos Mode_None false st pos [] spec) =
      inr s ∧ m_mode s = Mode_None ∧
    testSpec s = spec ++ List.map filter_patterns fs.
Proof.
  induction fs as [|f fs IH]; [done|]. intros st pos spec fuel _ Hok E.
  apply Forall_cons_1 in Hok as [[Hf Hit] Hok].
  assert ((item_pattern <$> f) ≠ []) as Hne by (by destruct f).
  assert (drop pos arg = (f ≫= print_item) ++
    match fs with [] => [] | _ => x2c :: print_filters fs end) as E'
    by (rewrite E; destruct fs; [by rewrite app_nil_r|done]).
  replace (sum_list (List.map filter_iters (f :: fs)) + fuel)%nat
    with (sum_list (iters <$> f) + S (sum_list (List.map filter_iters fs) + fuel))%nat
    by (change (sum_list (List.map filter_iters (f :: fs)))
          with (S (sum_list (iters <$> f)) + sum_list (List.map filter_iters fs))%nat; lia).
  destruct (loop_items f st pos [] spec _ (S (sum_list (List.map filter_iters fs) + fuel)) Hit E')
    as [st1 ->].
  assert (drop (length (f ≫= print_item) + pos) arg =
    match fs with [] => [] | _ => x2c :: print_filters fs end) as E2
    by (rewrite Nat.add_comm, <-drop_drop, E'; by rewrite drop_app_length).
  destruct fs as [|f' fs].
  - rewrite loop_end by done. eexists. split; [done|]. split; [done|].
    unfold testSpec, addFilter. cbn. by rewrite decide_False.
  - rewrite (loop_comma _ _ _ _ _ _ Hne E2). apply drop_cons_inv in E2 as [_ E2].
    destruct (IH (Some (length (f ≫= print_item) + pos)%nat) (S (length (f ≫= print_item) + pos))
      (spec ++ [item_pattern <$> f]) fuel) as (s & -> & Hm & Hs); [done|done|done|].
    exists s. rewrite Hs, <-app_assoc. done.
Qed.
Lemma parse_run : parseTestSpec [] arg =
  (s ← parse_loop (S (length arg)) (at_pos Mode_None false None 0 [] []);
   s ← (if decide (m_mode s = Mode_Name) then addPattern make_name_pattern s else mret s);
   mret (testSpec s) : throwing TestSpec).
Proof.
  change (parseTestSpec [] arg) with
    (s ← (s ← parse_loop (S (length arg)) (at_pos Mode_None false None 0 [] []);
          if decide (m_mode s = Mode_Name) then addPattern make_name_pattern s else mret s);
     mret (testSpec s) : throwing TestSpec).
  by destruct (parse_loop _ _).
Qed.
End parsing.

(** C20 (roundtrip): parsing what the filters print as - tags in brackets, names in quotes, a
    tilde for exclusion, commas between the filters - gives those filters back. *)
Theorem parse_print_spec fs :
  fs ≠ [] → Forall (λ f, f ≠ [] ∧ Forall item_ok f) fs →
  parseTestSpec [] (print_filters fs) = inr (List.map filter_patterns fs).
Proof.
  intros Hne Hok. set (arg := print_filters fs).
  assert (∀ f, length (f ≫= print_item) = (sum_list (iters <$> f) + length f)%nat) as Hlen.
  { induction f as [|it f IH]; [done|].
    change ((it :: f) ≫= print_item) with (print_item it ++ (f ≫= print_item)).
    rewrite length_app, IH. unfold print_item, iters. cbn. rewrite length_app. cbn.
    rewrite length_app. destruct (excluded it); cbn; lia. }
  assert (sum_list (List.map filter_iters fs) ≤ S (length arg))%nat as Hfuel.
  { unfold arg. clear Hne arg. induction fs as [|f fs IH]; [cbn; lia|].
    apply Forall_cons_1 in Hok as [[Hf _] Hok]. specialize (IH Hok).
    assert (0 < length f)%nat by (destruct f; [done|cbn; lia]).
    change (sum_list (List.map filter_iters (f :: fs)))
      with (S (sum_list (iters <$> f)) + sum_list (List.map filter_iters fs))%nat.
    destruct fs as [|f' fs].
    - change (print_filters [f]) with (f ≫= print_item). rewrite Hlen.
      change (sum_list (List.map filter_iters [])) with 0%nat. lia.
    - change (print_filters _) with ((f ≫= print_item) ++ [x2c] ++ print_filters (f' :: fs)).
      rewrite !length_app, Hlen. cbn [length]. lia. }
  destruct (loop_filters arg fs None 0 [] (S (length arg) - sum_list (List.map filter_iters fs))%nat)
    as (s & Hs & Hm & Ht); [done|done|done|].
  replace (sum_list (List.map filter_iters fs) + _)%nat with (S (length arg)) in Hs by lia.
  rewrite parse_run, Hs. cbn. rewrite decide_False by by rewrite Hm. cbn. by rewrite Ht.
Qed.

Definition sample_spec : list (list spec_item) :=
  [[mk_spec_item false true (str "kv"); mk_spec_item true true (str "slow")];
   [mk_spec_item false false (str "Put, *")]].

Lemma parse_print_spec_witness :
  print_filters sample_spec = str "[kv]~[slow]," ++ [x22] ++ str "Put, *" ++ [x22] ∧
  parseTestSpec [] (print_filters sample_spec) =
    inr [[make_tag_pattern (str "kv"); ExcludedPattern (make_tag_pattern (str "slow"))];
         [make_name_pattern (str "Put, *")]].
Proof.
  split; [reflexivity|]. apply (parse_print_spec sample_spec); [done|].
  by repeat constructor; try apply (bool_decide_eq_true_1 _).
Defined.
