(* ===== verification/CatchRegistryProps.v ===== *)
(** * Properties of Catch's test cases and their registry: tags, ordering, duplicates *)
From stdpp Require Import strings sorting.
From S2P Require Import Prelude CatchString CatchTest.

(** ** Strings are totally ordered *)
Lemma bytes_le_refl a : bytes_le a a = true.
Proof. induction a as [|c a IH]; cbn; [done|]. by rewrite decide_True. Qed.

Lemma bytes_le_total a b : bytes_le a b = true ∨ bytes_le b a = true.
Proof.
  revert b. induction a as [|c a IH]; intros [|d b]; cbn; auto.
  destruct (decide (c = d)) as [->|Hcd].
  - rewrite decide_True by done. apply IH.
  - rewrite decide_False by done. rewrite !bool_decide_eq_true.
    destruct (decide (b2z c = b2z d)) as [E|E]; [by apply b2z_inj in E|]. lia.
Qed.

Lemma bytes_le_antisym a b : bytes_le a b = true → bytes_le b a = true → a = b.
Proof.
  revert b. induction a as [|c a IH]; intros [|d b]; cbn; try done.
  destruct (decide (c = d)) as [->|Hcd].
  - rewrite decide_True by done. intros. f_equal. auto.
  - rewrite decide_False by done. rewrite !bool_decide_eq_true. lia.
Qed.

Lemma bytes_le_trans a b c : bytes_le a b = true → bytes_le b c = true → bytes_le a c = true.
Proof.
  revert b c. induction a as [|x a IH]; intros [|y b] [|z c]; cbn; try done.
  destruct (decide (x = y)) as [->|Hxy]; destruct (decide (y = z)) as [->|Hyz];
    rewrite ?bool_decide_eq_true.
  - apply IH.
  - done.
  - rewrite decide_False by done. rewrite bool_decide_eq_true. done.
  - intros. rewrite decide_False by (intros ->; lia). rewrite bool_decide_eq_true. lia.
Qed.

(** ** [std::sort] *)
Section sorting.
Context {A : Type} (le : A → A → bool).
Context (le_total : ∀ x y, le x y = true ∨ le y x = true).
Context (le_trans : ∀ x y z, le x y = true → le y z = true → le x z = true).

Lemma insert_sorted_perm x l : insert_sorted le x l ≡ₚ x :: l.
Proof.
  induction l as [|y l IH]; cbn; [done|]. destruct (le x y); [done|].
  rewrite IH. constructor.
Qed.

Lemma insert_sorted_sorted x l :
  StronglySorted (λ a b, le a b = true) l → StronglySorted (λ a b, le a b = true) (insert_sorted le x l).
Proof using le_total le_trans.
  induction l as [|y l IH]; intros Hl; cbn; [repeat constructor|].
  apply StronglySorted_inv in Hl as [Hl Hy]. destruct (le x y) eqn:E.
  - repeat constructor; [done|done|done|].
    eapply Forall_impl; [|exact Hy]. intros z. by apply le_trans.
  - constructor; [by apply IH|]. rewrite insert_sorted_perm. constructor; [|done].
    destruct (le_total y x) as [?|?]; congruence.
Qed.

Lemma sort_sorted l : StronglySorted (λ a b, le a b = true) (sort le l) ∧ sort le l ≡ₚ l.
Proof using le_total le_trans.
  induction l as [|x l [IHs IHp]]; cbn; [repeat constructor|].
  split; [by apply insert_sorted_sorted|]. by rewrite insert_sorted_perm, IHp.
Qed.
End sorting.

(** ** Tags *)
Lemma unique_spec l : StronglySorted (λ a b, bytes_le a b = true) l →
  StronglySorted (λ a b, bytes_le a b = true ∧ a ≠ b) (unique l) ∧ ∀ t, t ∈ unique l ↔ t ∈ l.
Proof.
  induction l as [|x l IH]; intros Hl; [by split; [constructor|]|].
  apply StronglySorted_inv in Hl as [Hl Hx]. destruct (IH Hl) as [Hs Hin].
  destruct l as [|y l]; [by split; [repeat constructor|]|]. cbn [unique].
  destruct (decide (x = y)) as [->|Hxy].
  - split; [done|]. intros t. rewrite Hin, !elem_of_cons. tauto.
  - split; [|intros t; by rewrite elem_of_cons, Hin, !elem_of_cons].
    constructor; [done|]. apply list.Forall_forall. intros t Ht. apply Hin in Ht.
    rewrite list.Forall_forall in Hx. split; [by apply Hx|]. intros <-.
    apply StronglySorted_inv in Hl as [_ Hy]. rewrite list.Forall_forall in Hy.
    apply elem_of_cons in Ht as [->|Ht]; [done|].
    apply Hxy. apply bytes_le_antisym; [apply Hx; left|by apply Hy].
Qed.

Definition tag_bits (tags : list (list byte)) : Z :=
  foldr (λ t p, Z.lor (parseSpecialTag (toLower t)) p) 0 tags.

Lemma join_properties_bits tags p : join_properties tags p = Z.lor p (tag_bits tags).
Proof.
  revert p. induction tags as [|t tags IH]; intros p; cbn; [by rewrite Z.lor_0_r|].
  by rewrite IH, Z.lor_assoc.
Qed.

Lemma tag_bits_testbit tags i : 0 ≤ i →
  Z.testbit (tag_bits tags) i = existsb (λ t, Z.testbit (parseSpecialTag (toLower t)) i) tags.
Proof.
  intros Hi. induction tags as [|t tags IH]; [apply Z.bits_0|].
  cbn [tag_bits foldr existsb]. by rewrite Z.lor_spec, <-IH.
Qed.

(** Property (invariant): whatever tags a test case is given, its tags are in order with no tag
    twice, its lower-case tags are those in lower case, and it has a special property exactly
    if it had it or one of the tags stands for it. *)
Theorem set_tags_canonical i given :
  let i' := setTags i given in
  StronglySorted (λ a b, bytes_le a b = true ∧ a ≠ b) (tags i') ∧
  (∀ t, t ∈ tags i' ↔ t ∈ given) ∧
  lcaseTags i' = toLower <$> tags i' ∧
  ∀ n, 0 ≤ n → Z.testbit (properties i') n = true ↔
    Z.testbit (properties i) n = true ∨
    ∃ t, t ∈ given ∧ Z.testbit (parseSpecialTag (toLower t)) n = true.
Proof.
  destruct (sort_sorted bytes_le bytes_le_total bytes_le_trans given) as [Hs Hp].
  destruct (unique_spec _ Hs) as [Hu Hin]. cbn. split; [done|].
  assert (∀ t, t ∈ unique (sort bytes_le given) ↔ t ∈ given) as Hin'
    by (intros t; by rewrite Hin, Hp).
  split; [done|]. split; [done|]. intros n Hn.
  rewrite join_properties_bits, Z.lor_spec, orb_true_iff, tag_bits_testbit, existsb_exists by done.
  setoid_rewrite <-list_elem_of_In. by setoid_rewrite Hin'.
Qed.

Definition sample_info : TestCaseInfo :=
  mk_TestCaseInfo (str "Put Test") [] [] [] [] (mk_SourceLineInfo [] 1) 0.

Lemma set_tags_canonical_witness :
  tags (setTags sample_info [str "b"; str "!Throws"; str "b"]) = [str "!Throws"; str "b"] ∧
  Z.testbit (properties (setTags sample_info [str "b"; str "!Throws"; str "b"])) 4 = true.
Proof.
  destruct (set_tags_canonical sample_info [str "b"; str "!Throws"; str "b"]) as (_ & _ & _ & H).
  split; [reflexivity|]. apply (H 4); [lia|]. right. exists (str "!Throws").
  split; [right; left|reflexivity].
Defined.

(** ** The registry *)
Definition test_name (t : TestCase) : list byte := name (info t).

Lemma no_duplicates_ok functions seen :
  enforceNoDuplicates functions seen = inr tt ↔
    NoDup (test_name <$> functions) ∧
    ∀ f s, f ∈ functions → s ∈ seen → test_name f ≠ test_name s.
Proof.
  revert seen. induction functions as [|f fs IH]; intros seen; cbn [enforceNoDuplicates].
  { split; [|done]. intros _. split; [constructor|]. set_solver. }
  destruct (List.find _ seen) as [s|] eqn:E.
  - apply List.find_some in E as [Hs Hn]. apply list_elem_of_In in Hs.
    apply bool_decide_eq_true in Hn. split; [done|]. intros [_ H].
    exfalso. apply (H f s); [left|done|]. symmetry. exact Hn.
  - rewrite IH. cbn [fmap list_fmap]. rewrite list.NoDup_cons, list_elem_of_fmap.
    assert (∀ s, s ∈ seen → test_name f ≠ test_name s) as Hf.
    { intros s Hs Hn. apply list_elem_of_In in Hs.
      apply (List.find_none _ _ E) in Hs. apply bool_decide_eq_false in Hs. by apply Hs. }
    split.
    + intros [Hd H]. split.
      * split; [|done]. intros (g & Hn & Hg). by apply (H g f Hg); [left|].
      * intros g s Hg Hs. apply elem_of_cons in Hg as [->|Hg]; [by apply Hf|].
        apply H; [done|by right].
    + intros [[Hf' Hd] H]. split; [done|]. intros g s Hg Hs.
      apply elem_of_cons in Hs as [->|Hs].
      * intros Hn. apply Hf'. exists g. done.
      * apply H; [by right|done].
Qed.

Lemma test_case_order_total x y :
  negb (test_case_lt y x) = true ∨ negb (test_case_lt x y) = true.
Proof. unfold test_case_lt, bytes_lt. rewrite !negb_involutive. apply bytes_le_total. Qed.
Lemma test_case_order_trans x y z : negb (test_case_lt y x) = true →
  negb (test_case_lt z y) = true → negb (test_case_lt z x) = true.
Proof. unfold test_case_lt, bytes_lt. rewrite !negb_involutive. apply bytes_le_trans. Qed.

(** Property (functional): asking the registry for all tests in lexicographic order the first time
    fails exactly if two registered tests have the same name; otherwise it gives the registered
    tests, each once, their names in order. *)
Theorem get_all_tests_sorted config functions unnamed :
  runOrder config = InLexicographicalOrder →
  match getAllTestsSorted config (mk_TestRegistry functions InDeclarationOrder [] unnamed) with
  | inl _ => ¬ NoDup (test_name <$> functions)
  | inr (l, r) =>
      NoDup (test_name <$> functions) ∧ l ≡ₚ functions ∧ m_sortedFunctions r = l ∧
      StronglySorted (λ a b, bytes_le (test_name a) (test_name b) = true) l
  end.
Proof.
  intros Ho.
  change (getAllTestsSorted _ _) with
    (_ ← enforceNoDuplicates functions [];
     let r := if decide (InDeclarationOrder ≠ runOrder config ∨ ([] : list TestCase) = [])
              then mk_TestRegistry functions (runOrder config) (sortTests config functions) unnamed
              else mk_TestRegistry functions InDeclarationOrder [] unnamed in
     mret (m_sortedFunctions r, r) : throwing _).
  rewrite decide_True by (by right).
  pose proof (no_duplicates_ok functions []) as Hd.
  destruct (enforceNoDuplicates functions []) as [e|[]].
  - cbn. intros H. assert (inl e = inr tt :> throwing unit); [|done]. apply Hd.
    split; [exact H|]. by intros f s _ ?%elem_of_nil.
  - destruct Hd as [Hd _]. destruct (Hd eq_refl) as [Hn _]. unfold sortTests. rewrite Ho. cbn.
    destruct (sort_sorted _ test_case_order_total test_case_order_trans functions) as [Hs Hp].
    split_and!; [done|done|done|]. revert Hs. generalize (sort (λ a b, negb (test_case_lt b a)) functions).
    induction 1 as [|x l Hl IH Hx]; constructor; [done|]. eapply Forall_impl; [|exact Hx].
    intros y. unfold test_case_lt, bytes_lt. by rewrite negb_involutive.
Qed.

Definition lexicographic : IConfig := mk_IConfig InLexicographicalOrder true (λ l, l).
Definition sample_tests : list TestCase :=
  [mk_TestCase sample_info 1;
   mk_TestCase (mk_TestCaseInfo (str "Get Test") [] [] [] [] (mk_SourceLineInfo [] 2) 0) 2].

Lemma get_all_tests_sorted_witness :
  match getAllTestsSorted lexicographic (mk_TestRegistry sample_tests InDeclarationOrder [] 0) with
  | inl _ => False
  | inr (l, _) => l ≡ₚ sample_tests ∧ test_name <$> l = [str "Get Test"; str "Put Test"]
  end.
Proof.
  pose proof (get_all_tests_sorted lexicographic sample_tests 0 eq_refl) as H. revert H.
  by vm_compute; intros (_ & H & _).
Defined.
