(* ===== verification/CatchResult.v ===== *)
(** * Catch: results, totals and string matchers

    catch_result_type, catch_totals, catch_assertionresult, catch_assertionhandler (the lazy
    expression) and catch_matchers_string of native/src/catch.hpp, with what they promise.
    Counters are [std::size_t]: they wrap around. *)
From stdpp Require Import strings.
From S2P Require Import Prelude CatchString CatchStringProps CatchTest.

(** ** ResultWas and ResultDisposition *)
Definition Unknown : Z := -1.
Definition Ok : Z := 0.
Definition Info : Z := 1.
Definition Warning : Z := 2.
Definition FailureBit : Z := 0x10.
Definition ExpressionFailed : Z := Z.lor FailureBit 1.
Definition ExplicitFailure : Z := Z.lor FailureBit 2.
Definition Exception : Z := Z.lor 0x100 FailureBit.
Definition ThrewException : Z := Z.lor Exception 1.
Definition DidntThrowException : Z := Z.lor Exception 2.
Definition FatalErrorCondition : Z := Z.lor 0x200 FailureBit.

Definition isOk (resultType : Z) : bool := bool_decide (Z.land resultType FailureBit = 0).
Definition isJustInfo (flags : Z) : bool := bool_decide (flags = Info).

Definition Normal : Z := 1.
Definition ContinueOnFailure : Z := 2.
Definition FalseTest : Z := 4.
Definition SuppressFail : Z := 8.

Definition disposition_or (lhs rhs : Z) : Z := Z.lor lhs rhs.
Definition shouldContinueOnFailure (flags : Z) : bool :=
  bool_decide (Z.land flags ContinueOnFailure ≠ 0).
Definition isFalseTest (flags : Z) : bool := bool_decide (Z.land flags FalseTest ≠ 0).
Definition shouldSuppressFailure (flags : Z) : bool := bool_decide (Z.land flags SuppressFail ≠ 0).

(** ** Counts and Totals *)
Record Counts := mk_Counts { passed : Z; failed : Z; failedButOk : Z }.
Definition no_counts : Counts := mk_Counts 0 0 0.

Definition counts_sub (a b : Counts) : Counts :=
  mk_Counts (u64 (passed a - passed b)) (u64 (failed a - failed b))
    (u64 (failedButOk a - failedButOk b)).
Definition counts_add (a b : Counts) : Counts :=
  mk_Counts (u64 (passed a + passed b)) (u64 (failed a + failed b))
    (u64 (failedButOk a + failedButOk b)).
Definition counts_total (c : Counts) : Z := u64 (u64 (passed c + failed c) + failedButOk c).
Definition allPassed (c : Counts) : bool :=
  bool_decide (failed c = 0) && bool_decide (failedButOk c = 0).
Definition allOk (c : Counts) : bool := bool_decide (failed c = 0).

Definition count_passed (c : Counts) : Counts :=
  mk_Counts (u64 (passed c + 1)) (failed c) (failedButOk c).
Definition count_failed (c : Counts) : Counts :=
  mk_Counts (passed c) (u64 (failed c + 1)) (failedButOk c).
Definition count_failedButOk (c : Counts) : Counts :=
  mk_Counts (passed c) (failed c) (u64 (failedButOk c + 1)).

(** Neither [operator-] nor [operator+=] touches [error]. *)
Record Totals := mk_Totals { error : Z; assertions : Counts; testCases : Counts }.
Definition no_totals : Totals := mk_Totals 0 no_counts no_counts.

Definition totals_sub (a b : Totals) : Totals :=
  mk_Totals 0 (counts_sub (assertions a) (assertions b)) (counts_sub (testCases a) (testCases b)).
Definition totals_add (a b : Totals) : Totals :=
  mk_Totals (error a) (counts_add (assertions a) (assertions b))
    (counts_add (testCases a) (testCases b)).

Definition delta (t prevTotals : Totals) : Totals :=
  let diff := totals_sub t prevTotals in
  mk_Totals (error diff) (assertions diff)
    (if decide (0 < failed (assertions diff)) then count_failed (testCases diff)
     else if decide (0 < failedButOk (assertions diff)) then count_failedButOk (testCases diff)
     else count_passed (testCases diff)).

(** ** Assertion results *)
Record AssertionInfo := mk_AssertionInfo {
  macroName : StringRef;
  ai_lineInfo : SourceLineInfo;
  capturedExpression : StringRef;
  resultDisposition : Z
}.

(** An expression as the decomposer keeps it: how it prints, its value, and whether it is a
    binary expression. *)
Record ITransientExpression := mk_ITransientExpression {
  reconstructed : list byte; getResult : bool; isBinaryExpression : bool
}.

Record LazyExpression := mk_LazyExpression {
  m_transientExpression : option ITransientExpression;
  m_isNegated : bool
}.
Definition make_lazy (isNegated : bool) : LazyExpression := mk_LazyExpression None isNegated.
(** A copy does not take the expression along. *)
Definition copy_lazy (other : LazyExpression) : LazyExpression :=
  mk_LazyExpression None (m_isNegated other).

Definition print_lazy (lazyExpr : LazyExpression) : list byte :=
  (if m_isNegated lazyExpr then str "!" else []) ++
  match m_transientExpression lazyExpr with
  | Some e =>
      if m_isNegated lazyExpr && isBinaryExpression e
      then str "(" ++ reconstructed e ++ str ")" else reconstructed e
  | None => str "{** error - unchecked empty expression requested **}"
  end.

Record AssertionResultData := mk_AssertionResultData {
  message : list byte;
  reconstructedExpression : list byte;
  lazyExpression : LazyExpression;
  resultType : Z
}.
Definition make_result_data (_resultType : Z) (_lazyExpression : LazyExpression)
    : AssertionResultData :=
  mk_AssertionResultData [] [] (copy_lazy _lazyExpression) _resultType.

(** [reconstructedExpression] is a cache. *)
Definition reconstructExpression (d : AssertionResultData) : list byte * AssertionResultData :=
  if decide (reconstructedExpression d = []) then
    match m_transientExpression (lazyExpression d) with
    | Some _ =>
        let e := print_lazy (lazyExpression d) in
        (e, mk_AssertionResultData (message d) e (lazyExpression d) (resultType d))
    | None => ([], d)
    end
  else (reconstructedExpression d, d).

Record AssertionResult := mk_AssertionResult {
  m_info : AssertionInfo;
  m_resultData : AssertionResultData
}.

Definition succeeded (r : AssertionResult) : bool := isOk (resultType (m_resultData r)).
Definition result_isOk (r : AssertionResult) : bool :=
  isOk (resultType (m_resultData r)) || shouldSuppressFailure (resultDisposition (m_info r)).
Definition getResultType (r : AssertionResult) : Z := resultType (m_resultData r).
Definition hasExpression (r : AssertionResult) : outcome bool :=
  c ← char_at (capturedExpression (m_info r)) 0; Done (bool_decide (c ≠ x00)).
Definition hasMessage (r : AssertionResult) : bool :=
  negb (bool_decide (message (m_resultData r) = [])).

Definition getExpression (r : AssertionResult) : outcome (list byte) :=
  e ← to_string (capturedExpression (m_info r));
  Done (if isFalseTest (resultDisposition (m_info r)) then str "!(" ++ e ++ str ")" else e).

Definition getExpressionInMacro (r : AssertionResult) : outcome (list byte) :=
  c ← char_at (macroName (m_info r)) 0;
  e ← to_string (capturedExpression (m_info r));
  if decide (c = x00) then Done e
  else n ← to_string (macroName (m_info r)); Done (n ++ str "( " ++ e ++ str " )").

Definition getExpandedExpression (r : AssertionResult) : outcome (list byte) :=
  let expr := (reconstructExpression (m_resultData r)).1 in
  if decide (expr = []) then getExpression r else Done expr.

Definition hasExpandedExpression (r : AssertionResult) : outcome bool :=
  h ← hasExpression r;
  if (h : bool) then
    x ← getExpandedExpression r; e ← getExpression r; Done (bool_decide (x ≠ e))
  else Done false.

(** ** String matchers *)
Record CasedString := mk_CasedString { cs_caseSensitivity : CaseSensitive; m_str : list byte }.
Definition adjustString (c : CaseSensitive) (s : list byte) : list byte :=
  if decide (c = Case_no) then toLower s else s.
Definition make_cased (s : list byte) (caseSensitivity : CaseSensitive) : CasedString :=
  mk_CasedString caseSensitivity (adjustString caseSensitivity s).
Definition caseSensitivitySuffix (c : CasedString) : list byte :=
  if decide (cs_caseSensitivity c = Case_no) then str " (case insensitive)" else [].

Inductive StringMatcher :=
| EqualsMatcher (m_comparator : CasedString)
| ContainsMatcher (m_comparator : CasedString)
| StartsWithMatcher (m_comparator : CasedString)
| EndsWithMatcher (m_comparator : CasedString).

Definition m_comparator (m : StringMatcher) : CasedString :=
  match m with
  | EqualsMatcher c | ContainsMatcher c | StartsWithMatcher c | EndsWithMatcher c => c
  end.
Definition m_operation (m : StringMatcher) : list byte :=
  match m with
  | EqualsMatcher _ => str "equals"
  | ContainsMatcher _ => str "contains"
  | StartsWithMatcher _ => str "starts with"
  | EndsWithMatcher _ => str "ends with"
  end.
Definition describe (m : StringMatcher) : list byte :=
  m_operation m ++ str ": " ++ [x22] ++ m_str (m_comparator m) ++ [x22] ++
  caseSensitivitySuffix (m_comparator m).

Definition match_ (m : StringMatcher) (source : list byte) : bool :=
  let s := adjustString (cs_caseSensitivity (m_comparator m)) source in
  match m with
  | EqualsMatcher c => bool_decide (s = m_str c)
  | ContainsMatcher c => contains s (m_str c)
  | StartsWithMatcher c => startsWith s (m_str c)
  | EndsWithMatcher c => endsWith s (m_str c)
  end.

Definition Equals (s : list byte) (c : CaseSensitive) : StringMatcher := EqualsMatcher (make_cased s c).
Definition Contains (s : list byte) (c : CaseSensitive) : StringMatcher :=
  ContainsMatcher (make_cased s c).
Definition EndsWith (s : list byte) (c : CaseSensitive) : StringMatcher :=
  EndsWithMatcher (make_cased s c).
Definition StartsWith (s : list byte) (c : CaseSensitive) : StringMatcher :=
  StartsWithMatcher (make_cased s c).

(** ** Properties *)
Definition counts_in_range (c : Counts) : Prop :=
  is_u64 (passed c) ∧ is_u64 (failed c) ∧ is_u64 (failedButOk c).

(** Taking away what was there before leaves what was added, also across a wrap-around. *)
Lemma counts_add_sub prev c : counts_in_range c → counts_sub (counts_add prev c) prev = c.
Proof.
  destruct prev as [p f o], c as [p' f' o']. unfold counts_in_range. cbn. intros (? & ? & ?).
  unfold counts_sub, counts_add. cbn. f_equal; word_lia.
Qed.
Lemma counts_sub_self c : counts_sub c c = no_counts.
Proof. unfold counts_sub. by rewrite !Z.sub_diag. Qed.

(** Property (functional): for a test case that added the assertions [c] to the totals, [delta] gives
    just these assertions and exactly one test case: a failed one if an assertion failed, else
    one failed as expected if an assertion did that, else a passed one. *)
Theorem delta_counts_one_test prev c :
  counts_in_range c →
  delta (mk_Totals (error prev) (counts_add (assertions prev) c) (testCases prev)) prev =
    mk_Totals 0 c
      (if decide (failed c = 0) then
         if decide (failedButOk c = 0) then mk_Counts 1 0 0 else mk_Counts 0 0 1
       else mk_Counts 0 1 0).
Proof.
  intros Hc. unfold delta, totals_sub. cbn [assertions testCases error].
  rewrite counts_add_sub, counts_sub_self by done.
  destruct Hc as (Hp & Hf & Ho). unfold is_u64 in *. f_equal.
  repeat case_decide; try lia; reflexivity.
Qed.

Lemma delta_counts_one_test_witness :
  delta (mk_Totals 0 (counts_add (mk_Counts 5 1 0) (mk_Counts 3 0 2)) (mk_Counts 2 1 0))
    (mk_Totals 0 (mk_Counts 5 1 0) (mk_Counts 2 1 0)) =
  mk_Totals 0 (mk_Counts 3 0 2) (mk_Counts 0 0 1).
Proof.
  apply (delta_counts_one_test (mk_Totals 0 (mk_Counts 5 1 0) (mk_Counts 2 1 0)) (mk_Counts 3 0 2)).
  by repeat split.
Defined.

(** Property (functional): each string matcher accepts exactly the strings its name says - equal,
    containing, starting or ending with the given text - and the case-insensitive ones the
    strings of which the lower-case form does so for the lower-case text. *)
Theorem matchers_match s c source :
  let t := adjustString c s in let u := adjustString c source in
  (match_ (Equals s c) source = true ↔ u = t) ∧
  (match_ (Contains s c) source = true ↔ ∃ pre post, u = pre ++ t ++ post) ∧
  (match_ (StartsWith s c) source = true ↔ ∃ post, u = t ++ post) ∧
  (match_ (EndsWith s c) source = true ↔ ∃ pre, u = pre ++ t).
Proof.
  cbn. unfold match_. cbn.
  by rewrite bool_decide_eq_true, contains_spec, startsWith_spec, endsWith_spec.
Qed.
