(* ===== verification/CatchTracker.v ===== *)
(** * Catch: the test case tracker (catch_test_case_tracker, GeneratorTracker)

    Which sections of a test case are entered in a cycle is decided by a tree of trackers that
    outlives the cycles.  Trackers live in a store and point to each other by position in it;
    [m_parent], [m_currentTracker] and the like are options because the code has pointers.
    Operations may throw ([CATCH_INTERNAL_ERROR]), fail an assertion or be undefined. *)
From stdpp Require Import strings list.
From S2P Require Import Prelude CatchString CatchTest.

(** ** Operations that may throw *)
Definition ex (S A : Type) : Type := S → outcome (throwing A * S).
#[export] Instance ex_ret S : MRet (ex S) := λ A a s, Done (inr a, s).
#[export] Instance ex_bind S : MBind (ex S) := λ A B f m s,
  match m s with
  | Done (inr a, s') => f a s'
  | Done (inl e, s') => Done (inl e, s')
  | Assert_failed => Assert_failed
  | Undefined => Undefined
  end.
Definition ex_throw {S A} (e : exn) : ex S A := λ s, Done (inl e, s).
Definition ex_undefined {S A} : ex S A := λ _, Undefined.
Definition ex_get {S} : ex S S := λ s, Done (inr s, s).
Definition ex_modify {S} (f : S → S) : ex S unit := λ s, Done (inr tt, f s).
Definition ex_assert {S} (b : bool) : ex S unit := λ s,
  if b then Done (inr tt, s) else Assert_failed.
Definition ex_deref {S A} (o : option A) : ex S A := λ s,
  match o with Some a => Done (inr a, s) | None => Undefined end.

(** Running a sequence step by step. *)
Lemma ex_step {S A B} (m : ex S A) (f : A → ex S B) s a s' r :
  m s = Done (inr a, s') → f a s' = r → (m ≫= f) s = r.
Proof. intros E. unfold mbind, ex_bind. by rewrite E. Qed.

Lemma ex_bind_inv {S A B} (m : ex S A) (f : A → ex S B) s b s' :
  (m ≫= f) s = Done (inr b, s') → ∃ a s1, m s = Done (inr a, s1) ∧ f a s1 = Done (inr b, s').
Proof. unfold mbind, ex_bind. destruct (m s) as [[[e|a] s1]| |]; naive_solver. Qed.

(** ** The trackers *)
Record NameAndLocation := mk_NameAndLocation { nl_name : list byte; location : SourceLineInfo }.

Inductive CycleState :=
  NotStarted | Executing | ExecutingChildren | NeedsAnotherRun | CompletedSuccessfully | Failed.
#[export] Instance CycleState_eq_dec : EqDecision CycleState.
Proof. solve_decision. Defined.

Inductive RunState := Run_NotStarted | Run_Executing | Run_CompletedCycle.
#[export] Instance RunState_eq_dec : EqDecision RunState.
Proof. solve_decision. Defined.

(** A section tracker has filters; a generator tracker may have a generator, known by what its
    [next()] will answer. *)
Inductive tracker_kind :=
| SectionTracker (m_filters : list (list byte))
| GeneratorTracker (m_generator : option (list bool)).

Record TrackerBase := mk_TrackerBase {
  m_nameAndLocation : NameAndLocation;
  m_kind : tracker_kind;
  m_parent : option nat;
  m_children : list nat;
  m_runState : CycleState
}.

Record TrackerContext := mk_TrackerContext {
  trackers : list TrackerBase;
  m_rootTracker : option nat;
  m_currentTracker : option nat;
  ctx_runState : RunState
}.
Definition new_context : TrackerContext := mk_TrackerContext [] None None Run_NotStarted.

Definition isSectionTracker (t : TrackerBase) : bool :=
  match m_kind t with SectionTracker _ => true | GeneratorTracker _ => false end.
Definition isGeneratorTracker (t : TrackerBase) : bool :=
  match m_kind t with SectionTracker _ => false | GeneratorTracker _ => true end.

Definition base_isComplete (t : TrackerBase) : bool :=
  bool_decide (m_runState t = CompletedSuccessfully) || bool_decide (m_runState t = Failed).

(** The virtual [isComplete]: a section that the filters leave out counts as complete. *)
Definition isComplete (t : TrackerBase) : bool :=
  match m_kind t with
  | SectionTracker m_filters =>
      if match m_filters with [] => true | f :: _ => bool_decide (f = []) end
         || bool_decide (nl_name (m_nameAndLocation t) ∈ m_filters)
      then base_isComplete t else true
  | GeneratorTracker _ => base_isComplete t
  end.
Definition isSuccessfullyCompleted (t : TrackerBase) : bool :=
  bool_decide (m_runState t = CompletedSuccessfully).
Definition isOpen (t : TrackerBase) : bool :=
  bool_decide (m_runState t ≠ NotStarted) && negb (isComplete t).
Definition hasChildren (t : TrackerBase) : bool := negb (bool_decide (m_children t = [])).

Definition with_state (s : CycleState) (t : TrackerBase) : TrackerBase :=
  mk_TrackerBase (m_nameAndLocation t) (m_kind t) (m_parent t) (m_children t) s.
Definition with_child (c : nat) (t : TrackerBase) : TrackerBase :=
  mk_TrackerBase (m_nameAndLocation t) (m_kind t) (m_parent t) (m_children t ++ [c]) (m_runState t).
Definition without_children (t : TrackerBase) : TrackerBase :=
  mk_TrackerBase (m_nameAndLocation t) (m_kind t) (m_parent t) [] (m_runState t).
Definition with_kind (k : tracker_kind) (t : TrackerBase) : TrackerBase :=
  mk_TrackerBase (m_nameAndLocation t) k (m_parent t) (m_children t) (m_runState t).

(** ** Reading and changing the store *)
Definition get_tracker (i : nat) : ex TrackerContext TrackerBase :=
  λ c, ex_deref (trackers c !! i) c.
Definition update_tracker (f : TrackerBase → TrackerBase) (i : nat) : ex TrackerContext unit :=
  ex_modify (λ c, mk_TrackerContext (alter f i (trackers c)) (m_rootTracker c) (m_currentTracker c)
                    (ctx_runState c)).
Definition currentTracker : ex TrackerContext nat := λ c, ex_deref (m_currentTracker c) c.
Definition setCurrentTracker (i : option nat) : ex TrackerContext unit :=
  ex_modify (λ c, mk_TrackerContext (trackers c) (m_rootTracker c) i (ctx_runState c)).
Definition set_run_state (s : RunState) : ex TrackerContext unit :=
  ex_modify (λ c, mk_TrackerContext (trackers c) (m_rootTracker c) (m_currentTracker c) s).
Definition completeCycle : ex TrackerContext unit := set_run_state Run_CompletedCycle.
Definition completedCycle (c : TrackerContext) : bool :=
  bool_decide (ctx_runState c = Run_CompletedCycle).

Definition startCycle : ex TrackerContext unit :=
  ex_modify (λ c, mk_TrackerContext (trackers c) (m_rootTracker c) (m_rootTracker c) Run_Executing).
Definition endRun : ex TrackerContext unit :=
  ex_modify (λ _, mk_TrackerContext [] None None Run_NotStarted).

(** [make_shared<...>( nameAndLocation, ctx, parent )], the constructor's filters included. *)
Definition new_tracker (t : TrackerBase) : ex TrackerContext nat := λ c,
  Done (inr (length (trackers c)),
        mk_TrackerContext (trackers c ++ [t]) (m_rootTracker c) (m_currentTracker c) (ctx_runState c)).

(** The old tree of trackers goes when the root is replaced. *)
Definition startRun (internal_lineinfo : SourceLineInfo) : ex TrackerContext nat := λ _,
  Done (inr 0%nat,
        mk_TrackerContext
          [mk_TrackerBase (mk_NameAndLocation (str "{root}") internal_lineinfo) (SectionTracker []) None
             [] NotStarted]
          (Some 0%nat) None Run_Executing).

Definition findChild (i : nat) (nl : NameAndLocation) : ex TrackerContext (option nat) :=
  t ← get_tracker i;
  c ← ex_get;
  mret (List.find (λ j,
    match trackers c !! j with
    | Some t => sli_eq (location (m_nameAndLocation t)) (location nl) &&
                bool_decide (nl_name (m_nameAndLocation t) = nl_name nl)
    | None => false
    end) (m_children t)).

(** [openChild] climbs as long as parents are not executing children; fuel: the depth. *)
Fixpoint openChild (fuel : nat) (i : nat) : ex TrackerContext unit :=
  match fuel with
  | O => ex_undefined
  | S fuel =>
      t ← get_tracker i;
      if decide (m_runState t ≠ ExecutingChildren) then
        _ ← update_tracker (with_state ExecutingChildren) i;
        match m_parent t with Some p => openChild fuel p | None => mret tt end
      else mret tt
  end.

Definition moveToParent (i : nat) : ex TrackerContext unit :=
  t ← get_tracker i;
  _ ← ex_assert (bool_decide (is_Some (m_parent t)));
  setCurrentTracker (m_parent t).
Definition moveToThis (i : nat) : ex TrackerContext unit := setCurrentTracker (Some i).

Definition tracker_open (fuel : nat) (i : nat) : ex TrackerContext unit :=
  _ ← update_tracker (with_state Executing) i;
  _ ← moveToThis i;
  t ← get_tracker i;
  match m_parent t with Some p => openChild fuel p | None => mret tt end.

Definition state_number (s : CycleState) : nat :=
  match s with
  | NotStarted => 0 | Executing => 1 | ExecutingChildren => 2 | NeedsAnotherRun => 3
  | CompletedSuccessfully => 4 | Failed => 5
  end.

(** [TrackerBase::close] once the tracker is the current one. *)
Definition close_this (i : nat) : ex TrackerContext unit :=
  t ← get_tracker i;
  _ ← match m_runState t with
      | NeedsAnotherRun => mret tt
      | Executing => update_tracker (with_state CompletedSuccessfully) i
      | ExecutingChildren =>
          match head (rev (m_children t)) with
          | None => update_tracker (with_state CompletedSuccessfully) i
          | Some j =>
              child ← get_tracker j;
              if isComplete child then update_tracker (with_state CompletedSuccessfully) i
              else mret tt
          end
      | s => ex_throw (Logic_error (str "Illogical state: " ++ decimal (state_number s)))
      end;
  _ ← moveToParent i;
  completeCycle.

(** What [GeneratorTracker::close] adds. *)
Definition close_generator (i : nat) : ex TrackerContext unit :=
  t ← get_tracker i;
  match m_kind t with
  | SectionTracker _ => mret tt
  | GeneratorTracker g =>
      if decide (m_runState t = CompletedSuccessfully) then
        answers ← ex_deref g;
        _ ← update_tracker (with_kind (GeneratorTracker (Some (tail answers)))) i;
        if default false (head answers)
        then update_tracker (λ t, with_state Executing (without_children t)) i
        else mret tt
      else mret tt
  end.

(** The virtual [close]: still open children, which are then the current tracker, are closed
    first.  Fuel: one more than there are of them. *)
Fixpoint tracker_close (fuel : nat) (i : nat) : ex TrackerContext unit :=
  match fuel with
  | O => ex_undefined
  | S fuel =>
      c ← currentTracker;
      if decide (c ≠ i) then _ ← tracker_close fuel c; tracker_close fuel i
      else _ ← close_this i; close_generator i
  end.

Definition markAsNeedingAnotherRun (i : nat) : ex TrackerContext unit :=
  update_tracker (with_state NeedsAnotherRun) i.

Definition tracker_fail (i : nat) : ex TrackerContext unit :=
  _ ← update_tracker (with_state Failed) i;
  t ← get_tracker i;
  _ ← match m_parent t with Some p => markAsNeedingAnotherRun p | None => mret tt end;
  _ ← moveToParent i;
  completeCycle.

Definition addNextFilters (filters : list (list byte)) (t : TrackerBase) : TrackerBase :=
  match m_kind t with
  | SectionTracker m_filters =>
      if decide (1 < length filters)%nat
      then with_kind (SectionTracker (m_filters ++ tail filters)) t else t
  | GeneratorTracker _ => t
  end.
Definition addInitialFilters (filters : list (list byte)) (t : TrackerBase) : TrackerBase :=
  match m_kind t with
  | SectionTracker m_filters =>
      if decide (filters = []) then t
      else with_kind (SectionTracker (m_filters ++ [[]; []] ++ filters)) t
  | GeneratorTracker _ => t
  end.

(** The filters of the nearest section tracker from [i] upwards. *)
Fixpoint parent_filters (fuel : nat) (i : nat) : ex TrackerContext (list (list byte)) :=
  match fuel with
  | O => ex_undefined
  | S fuel =>
      t ← get_tracker i;
      match m_kind t with
      | SectionTracker m_filters => mret m_filters
      | GeneratorTracker _ =>
          _ ← ex_assert (bool_decide (is_Some (m_parent t)));
          p ← ex_deref (m_parent t);
          parent_filters fuel p
      end
  end.

Definition tryOpen (fuel : nat) (i : nat) : ex TrackerContext unit :=
  t ← get_tracker i;
  match m_kind t with
  | SectionTracker m_filters =>
      if negb (isComplete t) &&
         match m_filters with
         | [] => true
         | f :: _ => bool_decide (f = []) || bool_decide (f = nl_name (m_nameAndLocation t))
         end
      then tracker_open fuel i else mret tt
  | GeneratorTracker _ => mret tt
  end.

(** [SectionTracker::acquire]; fuel: the depth of the tree. *)
Definition acquire (fuel : nat) (nl : NameAndLocation) : ex TrackerContext nat :=
  current ← currentTracker;
  child ← findChild current nl;
  section ← match child with
            | Some j =>
                t ← get_tracker j; _ ← ex_assert (isSectionTracker t); mret j
            | None =>
                filters ← parent_filters fuel current;
                j ← new_tracker (addNextFilters filters
                      (mk_TrackerBase nl (SectionTracker []) (Some current) [] NotStarted));
                _ ← update_tracker (with_child j) current;
                mret j
            end;
  c ← ex_get;
  _ ← (if completedCycle c then mret tt else tryOpen fuel section);
  mret section.

(** [GeneratorTracker::acquire] *)
Definition acquire_generator (fuel : nat) (nl : NameAndLocation) : ex TrackerContext nat :=
  current ← currentTracker;
  child ← findChild current nl;
  tracker ← match child with
            | Some j =>
                t ← get_tracker j; _ ← ex_assert (isGeneratorTracker t); mret j
            | None =>
                j ← new_tracker
                      (mk_TrackerBase nl (GeneratorTracker None) (Some current) [] NotStarted);
                _ ← update_tracker (with_child j) current;
                mret j
            end;
  c ← ex_get;
  t ← get_tracker tracker;
  _ ← (if completedCycle c || isComplete t then mret tt else tracker_open fuel tracker);
  mret tracker.
Definition setGenerator (answers : list bool) (i : nat) : ex TrackerContext unit :=
  update_tracker (with_kind (GeneratorTracker (Some answers))) i.
