(* ===== verification/CatchSections.v ===== *)
(** * Catch: every leaf section of a test case is run once, one in each cycle

    A test case whose body is a tree of sections is run over the trackers the way [runTest]
    does: a cycle enters the sections the trackers let it enter, until the test case's tracker
    has completed.  Whatever the shape of the tree, the cycles enter its leaves in order. *)
From stdpp Require Import strings list gmap sorting.
From S2P Require Import Prelude CatchString CatchTest CatchTracker.

(** ** The test case as a tree of sections *)
Inductive section := Sec (nl : NameAndLocation) (subs : list section).

Definition sec_name (s : section) : NameAndLocation := let 'Sec nl _ := s in nl.
Definition sec_subs (s : section) : list section := let 'Sec _ subs := s in subs.

Fixpoint leaves (s : section) : nat :=
  match s with
  | Sec _ [] => 1
  | Sec _ subs => sum_list (List.map leaves subs)
  end.

(** The paths from the root to the leaves, in order. *)
Fixpoint leaf_paths (s : section) : list (list NameAndLocation) :=
  match s with
  | Sec nl [] => [[nl]]
  | Sec nl subs => List.map (cons nl) (List.concat (List.map leaf_paths subs))
  end.

Section run_sections.
Context (depth : nat).

(** What [SECTION] does with a section: if it is entered, its body is run, then it is closed.
    The result are the leaves entered. *)
Fixpoint run_section (s : section) : ex TrackerContext (list (list NameAndLocation)) :=
  let 'Sec nl subs := s in
  j ← acquire depth nl;
  t ← get_tracker j;
  if isOpen t then
    l ← (fix run_subs (subs : list section) : ex TrackerContext (list (list NameAndLocation)) :=
           match subs with
           | [] => mret []
           | s :: subs => a ← run_section s; b ← run_subs subs; mret (a ++ b)
           end) subs;
    _ ← tracker_close depth j;
    mret (match subs with [] => [[nl]] | _ => List.map (cons nl) l end)
  else mret [].

Fixpoint run_subs (subs : list section) : ex TrackerContext (list (list NameAndLocation)) :=
  match subs with
  | [] => mret []
  | s :: subs => a ← run_section s; b ← run_subs subs; mret (a ++ b)
  end.

Definition enter (i : nat) (s : section) : ex TrackerContext (list (list NameAndLocation)) :=
  l ← run_subs (sec_subs s);
  _ ← tracker_close depth i;
  mret (match sec_subs s with [] => [[sec_name s]] | _ => List.map (cons (sec_name s)) l end).

(** The loop of [runTest], with fuel; each cycle with the leaves it entered. *)
Fixpoint run_cycles (fuel : nat) (s : section)
    : ex TrackerContext (list (list (list NameAndLocation))) :=
  match fuel with
  | O => ex_undefined
  | S fuel =>
      _ ← startCycle;
      i ← acquire depth (sec_name s);
      l ← enter i s;
      t ← get_tracker i;
      if isSuccessfullyCompleted t then mret [l]
      else rest ← run_cycles fuel s; mret (l :: rest)
  end.

Definition run_test (fuel : nat) (internal_lineinfo : SourceLineInfo) (s : section)
    : ex TrackerContext (list (list (list NameAndLocation))) :=
  _ ← startRun internal_lineinfo;
  run_cycles fuel s.
End run_sections.

#[export] Instance SourceLineInfo_eq_dec : EqDecision SourceLineInfo.
Proof. solve_decision. Defined.
#[export] Instance NameAndLocation_eq_dec : EqDecision NameAndLocation.
Proof. solve_decision. Defined.

(** Sections of the same parent can be told apart. *)
Fixpoint distinct (s : section) : Prop :=
  let 'Sec _ subs := s in
  NoDup (List.map sec_name subs) ∧
  (fix go (subs : list section) : Prop :=
     match subs with [] => True | s :: subs => distinct s ∧ go subs end) subs.

Lemma section_ind' (P : section → Prop) :
  (∀ nl subs, Forall P subs → P (Sec nl subs)) → ∀ s, P s.
Proof.
  intros H. fix IH 1. intros [nl subs]. apply H. induction subs as [|s subs IHs]; constructor.
  - apply IH.
  - exact IHs.
Qed.

Lemma distinct_Sec nl subs :
  distinct (Sec nl subs) ↔ NoDup (List.map sec_name subs) ∧ Forall distinct subs.
Proof.
  cbn. apply and_iff_compat_l. induction subs as [|s subs IH]; [done|].
  rewrite IH. split; [intros [? ?]; by constructor|by inversion 1].
Qed.

Definition leaves_all (subs : list section) : nat := sum_list (List.map leaves subs).
Definition paths_all (subs : list section) : list (list NameAndLocation) :=
  List.concat (List.map leaf_paths subs).

Lemma leaves_cons s subs : leaves_all (s :: subs) = (leaves s + leaves_all subs)%nat.
Proof. done. Qed.
Lemma leaves_Sec nl subs : subs ≠ [] → leaves (Sec nl subs) = leaves_all subs.
Proof. by destruct subs. Qed.

Lemma leaves_pos s : (0 < leaves s)%nat.
Proof.
  induction s as [nl [|s subs] H] using section_ind'; [cbn; lia|].
  inversion H; subst. rewrite leaves_Sec, leaves_cons by done. lia.
Qed.

Lemma length_leaf_paths s : length (leaf_paths s) = leaves s.
Proof.
  induction s as [nl subs H] using section_ind'. destruct subs as [|s subs]; [done|].
  rewrite leaves_Sec by done. change (leaf_paths _) with (List.map (cons nl) (paths_all (s :: subs))).
  rewrite List.length_map. unfold paths_all, leaves_all.
  generalize dependent (s :: subs). induction 1 as [|x l Hx _ IH]; [done|].
  cbn. rewrite length_app, Hx, IH. done.
Qed.

Lemma run_section_enter d s : run_section d s =
  (j ← acquire d (sec_name s); t ← get_tracker j; if isOpen t then enter d j s else mret []).
Proof. by destruct s. Qed.

(** ** What the operations do *)
Section operations.
Context (d : nat).
Implicit Types (ts : list TrackerBase) (root : option nat) (r : RunState).

Lemma get_tracker_eq ts root cur r i t : ts !! i = Some t →
  get_tracker i (mk_TrackerContext ts root cur r) = Done (inr t, mk_TrackerContext ts root cur r).
Proof. intros E. unfold get_tracker. cbn. by rewrite E. Qed.

Lemma alter_insert ts i t f : ts !! i = Some t → alter f i ts = <[i := f t]> ts.
Proof.
  intros E. apply list_eq. intros j. destruct (decide (i = j)) as [<-|Hij].
  - rewrite list_lookup_alter_eq, list_lookup_insert_eq by (by eapply lookup_lt_Some).
    by rewrite E.
  - by rewrite list_lookup_alter_ne, list_lookup_insert_ne.
Qed.

Lemma update_tracker_eq ts root cur r i t f : ts !! i = Some t →
  update_tracker f i (mk_TrackerContext ts root cur r) =
    Done (inr tt, mk_TrackerContext (<[i := f t]> ts) root cur r).
Proof. intros E. unfold update_tracker, ex_modify. cbn. by rewrite (alter_insert _ _ t). Qed.

Lemma setCurrentTracker_eq ts root cur r i :
  setCurrentTracker i (mk_TrackerContext ts root cur r) =
    Done (inr tt, mk_TrackerContext ts root i r).
Proof. done. Qed.
Lemma currentTracker_eq ts root r i :
  currentTracker (mk_TrackerContext ts root (Some i) r) =
    Done (inr i, mk_TrackerContext ts root (Some i) r).
Proof. done. Qed.

(** Opening a tracker whose parent [p] may still be executing itself, but whose grandparent, if
    any, is executing children. *)
Lemma tracker_open_eq ts root cur r i t p tp :
  ts !! i = Some t → m_parent t = Some p → ts !! p = Some tp → p ≠ i →
  match m_parent tp with
  | Some q => ∃ tq, ts !! q = Some tq ∧ m_runState tq = ExecutingChildren ∧ q ≠ i ∧ q ≠ p
  | None => True
  end →
  tracker_open (S (S d)) i (mk_TrackerContext ts root cur r) =
    Done (inr tt, mk_TrackerContext
      (<[p := with_state ExecutingChildren tp]> (<[i := with_state Executing t]> ts)) root (Some i) r).
Proof.
  intros Hi Hp Htp Hpi Hq. unfold tracker_open.
  eapply ex_step; [by apply update_tracker_eq|].
  eapply ex_step; [apply setCurrentTracker_eq|].
  eapply ex_step; [apply get_tracker_eq; by rewrite list_lookup_insert_eq by (by eapply lookup_lt_Some)|].
  cbn [with_state m_parent]. rewrite Hp. cbn [openChild].
  assert (<[i := with_state Executing t]> ts !! p = Some tp) as Htp' by by rewrite list_lookup_insert_ne.
  eapply ex_step; [by apply get_tracker_eq|]. cbv beta.
  destruct (decide (m_runState tp ≠ ExecutingChildren)) as [Hne|Heq].
  - eapply ex_step; [by apply update_tracker_eq|]. destruct (m_parent tp) as [q|] eqn:Eq; [|done].
    destruct Hq as (tq & Htq & Hsq & Hqi & Hqp). cbn [openChild].
    eapply ex_step; [apply get_tracker_eq; by rewrite !list_lookup_insert_ne by done|]. cbv beta.
    by rewrite Hsq, decide_False by (intros H; by apply H).
  - apply dec_stable in Heq.
    assert (with_state ExecutingChildren tp = tp) as -> by (destruct tp; cbn in *; by subst).
    by rewrite (list_insert_id _ p tp).
Qed.
End operations.

(** ** What a tracker knows about its section *)
Definition sec_tracker (nl : NameAndLocation) (p : nat) (ids : list nat) (st : CycleState)
    : TrackerBase :=
  mk_TrackerBase nl (SectionTracker []) (Some p) ids st.

(** Tracker [i], child of [p], stands for section [s], of which the first [k] leaves are done;
    [fp] are the trackers this depends on. *)
Inductive status (ts : list TrackerBase) : nat → nat → section → nat → gset nat → Prop :=
| st_new p i s :
    ts !! i = Some (sec_tracker (sec_name s) p [] NotStarted) → status ts p i s 0 {[i]}
| st_partial p i s ids k fp :
    ts !! i = Some (sec_tracker (sec_name s) p ids ExecutingChildren) →
    statuses ts i ids (sec_subs s) k fp → i ∉ fp → (0 < k < leaves s)%nat →
    status ts p i s k ({[i]} ∪ fp)
| st_done p i s ids :
    ts !! i = Some (sec_tracker (sec_name s) p ids CompletedSuccessfully) →
    status ts p i s (leaves s) {[i]}
with statuses (ts : list TrackerBase) : nat → list nat → list section → nat → gset nat → Prop :=
| sts_nil p : statuses ts p [] [] 0 ∅
| sts_cons p i ids s subs k1 k2 fp1 fp2 :
    status ts p i s k1 fp1 → statuses ts p ids subs k2 fp2 → fp1 ## fp2 →
    k2 = 0%nat ∨ k1 = leaves s →
    statuses ts p (i :: ids) (s :: subs) (k1 + k2) (fp1 ∪ fp2).

Scheme status_mind := Induction for status Sort Prop
  with statuses_mind := Induction for statuses Sort Prop.

(** Children that may not have been met yet. *)
Definition rest_status (ts : list TrackerBase) (p : nat) (ids : list nat) (subs : list section)
    (k : nat) (fp : gset nat) : Prop :=
  (ids = [] ∧ k = 0%nat ∧ fp = ∅) ∨ statuses ts p ids subs k fp.

Definition same_outside (fp : gset nat) (ts ts' : list TrackerBase) : Prop :=
  ∀ x, (x < length ts)%nat → x ∉ fp → ts' !! x = ts !! x.
Definition extends (ts ts' : list TrackerBase) : Prop :=
  (length ts ≤ length ts')%nat ∧
  ∀ x t, ts !! x = Some t →
    ∃ t', ts' !! x = Some t' ∧ m_nameAndLocation t' = m_nameAndLocation t.
Definition named (ts : list TrackerBase) (j : nat) (nl : NameAndLocation) : Prop :=
  ∃ t, ts !! j = Some t ∧ m_nameAndLocation t = nl.
(** What [fp'] has beyond [fp] is new. *)
Definition grows (n : nat) (fp fp' : gset nat) : Prop := ∀ x, x ∈ fp' → x ∈ fp ∨ (n ≤ x)%nat.

Lemma extends_refl ts : extends ts ts.
Proof. split; [done|eauto]. Qed.
Lemma extends_trans ts1 ts2 ts3 : extends ts1 ts2 → extends ts2 ts3 → extends ts1 ts3.
Proof.
  intros [L1 E1] [L2 E2]. split; [lia|]. intros x t Hx.
  destruct (E1 x t Hx) as (t' & Hx' & <-). by apply E2.
Qed.
Lemma extends_insert ts i t f : ts !! i = Some t →
  m_nameAndLocation (f t) = m_nameAndLocation t → extends ts (<[i := f t]> ts).
Proof.
  intros Hi Hn. split; [by rewrite length_insert|]. intros x t' Hx.
  destruct (decide (i = x)) as [->|Hix].
  - rewrite list_lookup_insert_eq by (by eapply lookup_lt_Some). naive_solver.
  - rewrite list_lookup_insert_ne by done. eauto.
Qed.
Lemma extends_app ts new : extends ts (ts ++ new).
Proof.
  split; [rewrite length_app; lia|]. intros x t Hx. exists t.
  by rewrite lookup_app_l by (by eapply lookup_lt_Some).
Qed.
Lemma named_extends ts ts' j nl : extends ts ts' → named ts j nl → named ts' j nl.
Proof. intros [_ E] (t & Hj & <-). destruct (E j t Hj) as (t' & ? & ?). by exists t'. Qed.
Lemma Forall2_named_extends ts ts' ids names : extends ts ts' →
  Forall2 (named ts) ids names → Forall2 (named ts') ids names.
Proof. intros E. apply Forall2_impl. intros. by eapply named_extends. Qed.

Lemma same_outside_refl fp ts : same_outside fp ts ts.
Proof. by intros ???. Qed.
Lemma same_outside_trans fp1 fp2 fp ts1 ts2 ts3 :
  same_outside fp1 ts1 ts2 → same_outside fp2 ts2 ts3 → extends ts1 ts2 →
  fp1 ⊆ fp → grows (length ts1) fp fp2 → same_outside fp ts1 ts3.
Proof.
  intros H1 H2 [L _] Hs1 Hg x Hx Hxf. rewrite H2; [apply H1; [done|set_solver]|lia|].
  intros Hx2. destruct (Hg x Hx2); [done|lia].
Qed.
Lemma same_outside_insert (i : nat) t ts (fp : gset nat) : i ∈ fp → same_outside fp ts (<[i := t]> ts).
Proof. intros Hi x _ Hx. rewrite list_lookup_insert_ne; [done|set_solver]. Qed.

Lemma status_lookup ts p i s k fp : status ts p i s k fp →
  ∃ ids st, ts !! i = Some (sec_tracker (sec_name s) p ids st) ∧ i ∈ fp.
Proof. destruct 1; eexists _, _; (split; [done|set_solver]). Qed.
Lemma status_named ts p i s k fp : status ts p i s k fp → named ts i (sec_name s).
Proof. intros (ids & st & H & _)%status_lookup. by eexists. Qed.

Lemma status_bound ts p i s k fp : status ts p i s k fp → ∀ x, x ∈ fp → (x < length ts)%nat.
Proof.
  intros H. induction H using status_mind with
    (P0 := λ p ids subs k fp _, ∀ x, x ∈ fp → (x < length ts)%nat);
    intros x Hx.
  - apply elem_of_singleton in Hx as ->. by eapply lookup_lt_Some.
  - apply elem_of_union in Hx as [->%elem_of_singleton|Hx]; [by eapply lookup_lt_Some|auto].
  - apply elem_of_singleton in Hx as ->. by eapply lookup_lt_Some.
  - set_solver.
  - set_solver.
Qed.
Lemma statuses_bound ts p ids subs k fp : statuses ts p ids subs k fp →
  ∀ x, x ∈ fp → (x < length ts)%nat.
Proof.
  induction 1; intros x Hx; [set_solver|].
  apply elem_of_union in Hx as [Hx|Hx]; [by eapply status_bound|auto].
Qed.

Lemma status_frame ts ts' F p i s k fp : same_outside F ts ts' → fp ## F →
  status ts p i s k fp → status ts' p i s k fp.
Proof.
  intros HS HF H. revert HF.
  assert (∀ x t, ts !! x = Some t → x ∉ F → ts' !! x = Some t) as Hl.
  { intros x t Hx HxF. by rewrite HS by (try eapply lookup_lt_Some; eauto). }
  induction H using status_mind with
    (P0 := λ p ids subs k fp _, fp ## F → statuses ts' p ids subs k fp); intros HF.
  - apply st_new. apply Hl; [done|set_solver].
  - apply st_partial with ids; [apply Hl; [done|set_solver]| |done|done]. apply IHstatus. set_solver.
  - apply st_done with ids. apply Hl; [done|set_solver].
  - constructor.
  - constructor; [apply IHstatus; set_solver|apply IHstatus0; set_solver|done|done].
Qed.
Lemma statuses_frame ts ts' F p ids subs k fp : same_outside F ts ts' → fp ## F →
  statuses ts p ids subs k fp → statuses ts' p ids subs k fp.
Proof.
  intros HS HF H. induction H; constructor; [|apply IHstatuses; set_solver|done|done].
  eapply status_frame; [done| |done]. set_solver.
Qed.
Lemma rest_frame ts ts' F p ids subs k fp : same_outside F ts ts' → fp ## F →
  rest_status ts p ids subs k fp → rest_status ts' p ids subs k fp.
Proof. intros HS HF [?|?]; [by left|right; by eapply statuses_frame]. Qed.

(** ** How far a section is *)
Lemma status_zero ts p i s fp : status ts p i s 0 fp →
  ts !! i = Some (sec_tracker (sec_name s) p [] NotStarted) ∧ fp = {[i]}.
Proof.
  intros H. remember 0%nat as k eqn:Ek. destruct H as [|????????? Hk|??? ids H]; [done|lia|].
  pose proof (leaves_pos s). lia.
Qed.
Lemma status_full ts p i s fp : status ts p i s (leaves s) fp →
  ∃ ids, ts !! i = Some (sec_tracker (sec_name s) p ids CompletedSuccessfully) ∧ fp = {[i]}.
Proof.
  intros H. pose proof (leaves_pos s). remember (leaves s) as k eqn:Ek.
  destruct H as [|????????? Hk|??? ids H']; [lia|lia|eauto].
Qed.
Lemma status_le ts p i s k fp : status ts p i s k fp → (k ≤ leaves s)%nat.
Proof. pose proof (leaves_pos s). destruct 1; lia. Qed.
Lemma statuses_le ts p ids subs k fp : statuses ts p ids subs k fp → (k ≤ leaves_all subs)%nat.
Proof.
  induction 1 as [|p i ids s subs k1 k2 fp1 fp2 Hs%status_le Hss IH Hd Hk]; [done|].
  rewrite leaves_cons. lia.
Qed.

(** A section whose leaves are not all done can be opened: it is not complete. *)
Lemma status_open ts p i s k fp : status ts p i s k fp → (k < leaves s)%nat →
  ∃ ids st fp', ts !! i = Some (sec_tracker (sec_name s) p ids st) ∧
    (st = NotStarted ∨ st = ExecutingChildren) ∧
    rest_status ts i ids (sec_subs s) k fp' ∧ i ∉ fp' ∧ fp = {[i]} ∪ fp'.
Proof.
  intros H Hk. destruct H as [??? H|?????? H Hs Hi Hb|???? H].
  - exists [], NotStarted, ∅. split_and!; [done|by left|by left|set_solver|set_solver].
  - exists ids, ExecutingChildren, fp. split_and!; [done|by right|by right|done|done].
  - lia.
Qed.

(** The last child is complete exactly if all leaves are done. *)
Lemma statuses_last ts p ids subs k fp : statuses ts p ids subs k fp → subs ≠ [] →
  ∃ j t, head (rev ids) = Some j ∧ ts !! j = Some t ∧
    isComplete t = bool_decide (k = leaves_all subs).
Proof.
  induction 1 as [|p i ids s subs k1 k2 fp1 fp2 Hs Hss IH Hd Hk]; [done|]. intros _.
  pose proof (status_le _ _ _ _ _ _ Hs) as Hle1. pose proof (statuses_le _ _ _ _ _ _ Hss) as Hle2.
  destruct subs as [|s' subs].
  - inversion Hss; subst. cbn [rev app head]. rewrite leaves_cons. cbn [leaves_all List.map sum_list].
    destruct (decide (k1 = leaves s)) as [->|Hne].
    + destruct (status_full _ _ _ _ _ Hs) as (ids & Ht & _). eexists _, _. split_and!; [done|done|].
      rewrite bool_decide_eq_true_2 by (unfold leaves_all; cbn; lia). done.
    + destruct (status_open _ _ _ _ _ _ Hs) as (ids & st & fp' & Ht & Hst & _); [lia|].
      eexists _, _. split_and!; [done|done|].
      rewrite bool_decide_eq_false_2 by (unfold leaves_all; cbn; lia). by destruct Hst as [->| ->].
  - destruct IH as (j & t & Hj & Ht & Hc); [done|]. exists j, t. cbn [rev]. split_and!; [|done|].
    + destruct (rev ids) as [|j' l]; [done|]. by cbn in *.
    + rewrite Hc. apply bool_decide_ext. rewrite !leaves_cons in *.
      pose proof (leaves_pos s). pose proof (leaves_pos s'). lia.
Qed.

(** ** Finding or making the tracker of a section *)
Definition matches (ts : list TrackerBase) (nl : NameAndLocation) (j : nat) : bool :=
  match ts !! j with
  | Some t => sli_eq (location (m_nameAndLocation t)) (location nl) &&
              bool_decide (nl_name (m_nameAndLocation t) = nl_name nl)
  | None => false
  end.

Lemma matches_spec ts nl j : matches ts nl j = true ↔ named ts j nl.
Proof.
  unfold matches, named. destruct (ts !! j) as [t|]; [|naive_solver].
  unfold sli_eq. rewrite !andb_true_iff, !bool_decide_eq_true. split.
  - intros [[Hl Hf] Hn]. exists t. split; [done|].
    destruct (m_nameAndLocation t) as [n [f l]], nl as [n' [f' l']]. cbn in *. by subst.
  - intros (t' & [= <-] & <-). done.
Qed.

Lemma find_other ts ids names nl rest : Forall2 (named ts) ids names → nl ∉ names →
  List.find (matches ts nl) (ids ++ rest) = List.find (matches ts nl) rest.
Proof.
  induction 1 as [|j n ids names Hj _ IH]; intros Hnl; [done|]. cbn.
  apply not_elem_of_cons in Hnl as [Hne Hnl].
  destruct (matches ts nl j) eqn:E; [|by apply IH].
  apply matches_spec in E as (t & Ht & Hn). destruct Hj as (t' & Ht' & Hn'). naive_solver.
Qed.

Lemma findChild_eq ts root cur r i t nl : ts !! i = Some t →
  findChild i nl (mk_TrackerContext ts root cur r) =
    Done (inr (List.find (matches ts nl) (m_children t)), mk_TrackerContext ts root cur r).
Proof.
  intros H. unfold findChild. eapply ex_step; [by apply get_tracker_eq|].
  eapply ex_step; [reflexivity|]. reflexivity.
Qed.

Definition find_or_make (fuel : nat) (nl : NameAndLocation) (current : nat)
    : ex TrackerContext nat :=
  child ← findChild current nl;
  match child with
  | Some j => t ← get_tracker j; _ ← ex_assert (isSectionTracker t); mret j
  | None =>
      filters ← parent_filters fuel current;
      j ← new_tracker (addNextFilters filters
            (mk_TrackerBase nl (SectionTracker []) (Some current) [] NotStarted));
      _ ← update_tracker (with_child j) current;
      mret j
  end.

Lemma acquire_eq d nl ts root p r j c :
  find_or_make d nl p (mk_TrackerContext ts root (Some p) r) = Done (inr j, c) →
  acquire d nl (mk_TrackerContext ts root (Some p) r) =
    (_ ← (if completedCycle c then mret tt else tryOpen d j); mret j : ex TrackerContext nat) c.
Proof.
  unfold find_or_make. intros H. unfold acquire. eapply ex_step; [reflexivity|].
  apply ex_bind_inv in H as (child & c1 & H1 & H2).
  eapply ex_step; [exact H1|]. eapply ex_step; [exact H2|]. eapply ex_step; [reflexivity|]. done.
Qed.

Definition with_children (ids : list nat) (t : TrackerBase) : TrackerBase :=
  mk_TrackerBase (m_nameAndLocation t) (m_kind t) (m_parent t) ids (m_runState t).

(** Either way the section has a tracker among the children afterwards, and only the current
    tracker's children have changed. *)
Lemma find_or_make_ok d ts root r p tp ids1 names1 ids2 s rest k fp :
  ts !! p = Some (with_children (ids1 ++ ids2) tp) → m_kind tp = SectionTracker [] →
  Forall2 (named ts) ids1 names1 → sec_name s ∉ names1 → p ∉ fp →
  rest_status ts p ids2 (s :: rest) k fp →
  ∃ j ts1 ids2' k1 k2 fp1 fp2,
    find_or_make (S d) (sec_name s) p (mk_TrackerContext ts root (Some p) r) =
      Done (inr j, mk_TrackerContext ts1 root (Some p) r) ∧
    ts1 !! p = Some (with_children (ids1 ++ j :: ids2') tp) ∧
    status ts1 p j s k1 fp1 ∧ rest_status ts1 p ids2' rest k2 fp2 ∧ fp1 ## fp2 ∧ p ∉ fp1 ∪ fp2 ∧
    k = (k1 + k2)%nat ∧ (k2 = 0%nat ∨ k1 = leaves s) ∧
    same_outside {[p]} ts ts1 ∧ extends ts ts1 ∧ grows (length ts) fp (fp1 ∪ fp2).
Proof.
  intros Hp Hkind Hn Hnl Hpf [(-> & -> & ->)|H].
  - set (new := sec_tracker (sec_name s) p [] NotStarted).
    pose proof (lookup_lt_Some _ _ _ Hp) as Hlt.
    exists (length ts), (<[p := with_child (length ts) (with_children (ids1 ++ []) tp)]> (ts ++ [new])),
      [], 0%nat, 0%nat, {[length ts]}, ∅.
    assert (extends ts (<[p := with_child (length ts) (with_children (ids1 ++ []) tp)]> (ts ++ [new])))
      as Hext.
    { eapply extends_trans; [apply extends_app|].
      apply (extends_insert (ts ++ [new]) p (with_children (ids1 ++ []) tp) (with_child (length ts)));
        [by rewrite lookup_app_l|done]. }
    split_and!; [| | | |set_solver|set_solver by lia|done|by left| |done|].
    + unfold find_or_make. eapply ex_step; [by apply findChild_eq|]. cbv beta.
      cbn [m_children with_children]. rewrite (find_other _ _ _ _ _ Hn Hnl). cbn [List.find].
      eapply ex_step. { cbn [parent_filters]. eapply ex_step; [by apply get_tracker_eq|]. cbv beta.
        cbn [with_children m_kind]. rewrite Hkind. reflexivity. }
      eapply ex_step; [reflexivity|]. cbn [trackers m_rootTracker m_currentTracker ctx_runState].
      eapply ex_step; [by apply update_tracker_eq; rewrite lookup_app_l|]. done.
    + rewrite list_lookup_insert_eq by (rewrite length_app; lia). f_equal.
      unfold with_child, with_children. cbn. by rewrite app_nil_r.
    + apply st_new. rewrite list_lookup_insert_ne by lia. by rewrite lookup_app_r, Nat.sub_diag by lia.
    + by left.
    + intros x Hx Hxp. rewrite list_lookup_insert_ne by set_solver. by rewrite lookup_app_l.
    + intros x Hx. right. set_solver by lia.
  - inversion H as [|? j ids2' ? ? k1 k2 fp1 fp2 Hs Hss Hd Hk]; subst.
    exists j, ts, ids2', k1, k2, fp1, fp2.
    destruct (status_lookup _ _ _ _ _ _ Hs) as (ids & st & Hj & _).
    split_and!; [|done|done|by right|done|done|done|done|apply same_outside_refl|apply extends_refl|].
    + unfold find_or_make. eapply ex_step; [by apply findChild_eq|]. cbv beta.
      cbn [m_children with_children]. rewrite (find_other _ _ _ _ _ Hn Hnl). cbn [List.find].
      rewrite (proj2 (matches_spec ts (sec_name s) j)) by (by eapply status_named).
      eapply ex_step; [by apply get_tracker_eq|]. eapply ex_step; [reflexivity|]. done.
    + intros x Hx. by left.
Qed.

(** ** Entering a section, or passing it by *)
Lemma run_section_skip d ts root r p s j ts1 nl ids st :
  find_or_make d (sec_name s) p (mk_TrackerContext ts root (Some p) r) =
    Done (inr j, mk_TrackerContext ts1 root (Some p) r) →
  ts1 !! j = Some (sec_tracker nl p ids st) →
  (r = Run_CompletedCycle ∧ st = NotStarted) ∨ st = CompletedSuccessfully →
  run_section d s (mk_TrackerContext ts root (Some p) r) =
    Done (inr [], mk_TrackerContext ts1 root (Some p) r).
Proof.
  intros Hf Hj Hst. rewrite run_section_enter.
  eapply ex_step.
  { rewrite (acquire_eq _ _ _ _ _ _ _ _ Hf). eapply ex_step; [|reflexivity].
    unfold completedCycle. cbn [ctx_runState]. destruct Hst as [[-> ->]| ->]; [reflexivity|].
    destruct (bool_decide _); [reflexivity|]. unfold tryOpen.
    eapply ex_step; [by apply get_tracker_eq|]. reflexivity. }
  eapply ex_step; [by apply get_tracker_eq|]. cbv beta.
  by destruct Hst as [[_ ->]| ->].
Qed.

Lemma run_section_open d ts root r p s j ts1 tp1 ids st :
  find_or_make (S (S d)) (sec_name s) p (mk_TrackerContext ts root (Some p) r) =
    Done (inr j, mk_TrackerContext ts1 root (Some p) r) →
  r ≠ Run_CompletedCycle →
  ts1 !! j = Some (sec_tracker (sec_name s) p ids st) →
  st = NotStarted ∨ st = ExecutingChildren →
  ts1 !! p = Some tp1 → p ≠ j →
  match m_parent tp1 with
  | Some q => ∃ tq, ts1 !! q = Some tq ∧ m_runState tq = ExecutingChildren ∧ q ≠ j ∧ q ≠ p
  | None => True
  end →
  acquire (S (S d)) (sec_name s) (mk_TrackerContext ts root (Some p) r) =
    Done (inr j, mk_TrackerContext
      (<[p := with_state ExecutingChildren tp1]>
        (<[j := sec_tracker (sec_name s) p ids Executing]> ts1)) root (Some j) r) ∧
  run_section (S (S d)) s (mk_TrackerContext ts root (Some p) r) =
    enter (S (S d)) j s (mk_TrackerContext
      (<[p := with_state ExecutingChildren tp1]>
        (<[j := sec_tracker (sec_name s) p ids Executing]> ts1)) root (Some j) r).
Proof.
  intros Hf Hr Hj Hst Hp Hpj Hq.
  assert (acquire (S (S d)) (sec_name s) (mk_TrackerContext ts root (Some p) r) =
    Done (inr j, mk_TrackerContext
      (<[p := with_state ExecutingChildren tp1]>
        (<[j := sec_tracker (sec_name s) p ids Executing]> ts1)) root (Some j) r)) as Ha.
  { rewrite (acquire_eq _ _ _ _ _ _ _ _ Hf). eapply ex_step; [|reflexivity].
    unfold completedCycle. cbn [ctx_runState]. rewrite bool_decide_eq_false_2 by done.
    unfold tryOpen. eapply ex_step; [by apply get_tracker_eq|].
    transitivity (tracker_open (S (S d)) j (mk_TrackerContext ts1 root (Some p) r)).
    - by destruct Hst as [-> | ->].
    - by rewrite (tracker_open_eq d ts1 root (Some p) r j _ p tp1 Hj eq_refl Hp Hpj Hq). }
  split; [exact Ha|]. rewrite run_section_enter. eapply ex_step; [exact Ha|].
  eapply ex_step.
  - apply (get_tracker_eq _ _ _ _ _ (sec_tracker (sec_name s) p ids Executing)).
    rewrite list_lookup_insert_ne by done. apply list_lookup_insert_eq. by eapply lookup_lt_Some.
  - reflexivity.
Qed.

(** ** The rest of a cycle that has completed *)
Lemma run_subs_completed d rest : ∀ ts root p tp ids1 names1 ids2 fp,
  ts !! p = Some (with_children (ids1 ++ ids2) tp) → m_kind tp = SectionTracker [] →
  Forall2 (named ts) ids1 names1 → NoDup (names1 ++ List.map sec_name rest) → p ∉ fp →
  rest_status ts p ids2 rest 0 fp →
  ∃ ts' ids2' fp',
    run_subs (S d) rest (mk_TrackerContext ts root (Some p) Run_CompletedCycle) =
      Done (inr [], mk_TrackerContext ts' root (Some p) Run_CompletedCycle) ∧
    ts' !! p = Some (with_children (ids1 ++ ids2') tp) ∧ statuses ts' p ids2' rest 0 fp' ∧
    same_outside {[p]} ts ts' ∧ extends ts ts' ∧ grows (length ts) fp fp'.
Proof.
  induction rest as [|s rest IH]; intros ts root p tp ids1 names1 ids2 fp Hp Hk Hn Hnd Hpf Hr.
  - exists ts, [], ∅. assert (ids2 = []) as ->.
    { destruct Hr as [[-> _]|Hr]; [done|by inversion Hr]. }
    split_and!; [done|done|constructor|apply same_outside_refl|apply extends_refl|by intros ? ?%elem_of_empty].
  - assert (sec_name s ∉ names1 ∧ NoDup ((names1 ++ [sec_name s]) ++ List.map sec_name rest)) as [Hs Hnd'].
    { rewrite <-app_assoc. split; [|done]. apply list.NoDup_app in Hnd as (_ & Hd & _).
      intros Hin. apply (Hd _ Hin). left. }
    destruct (find_or_make_ok d ts root Run_CompletedCycle p tp ids1 names1 ids2 s rest 0 fp)
      as (j & ts1 & ids2' & k1 & k2 & fp1 & fp2 & Hf & Hp1 & Hst & Hrest & Hd & Hpf12 & Hk12 & _ & Hso & Hext & Hg);
      [done..|].
    assert (k1 = 0%nat ∧ k2 = 0%nat) as [-> ->] by lia.
    destruct (status_zero _ _ _ _ _ Hst) as [Hj Hfp1].
    destruct (IH ts1 root p tp (ids1 ++ [j]) (names1 ++ [sec_name s]) ids2' fp2)
      as (ts' & ids3 & fp3 & Hrun & Hp' & Hst' & Hso' & Hext' & Hg').
    + by rewrite <-app_assoc.
    + done.
    + apply Forall2_app; [by eapply Forall2_named_extends|].
      constructor; [by eapply status_named|done].
    + done.
    + set_solver.
    + done.
    + exists ts', (j :: ids3), (fp1 ∪ fp3). split_and!.
      * cbn [run_subs]. eapply ex_step; [eapply run_section_skip; [done|done|by left]|].
        eapply ex_step; [exact Hrun|]. done.
      * by rewrite <-app_assoc in Hp'.
      * assert (∀ x, x ∈ fp1 → x < length ts1)%nat as Hb by (by eapply status_bound).
        change 0%nat with (0 + 0)%nat. constructor; [|done| |by left].
        -- eapply status_frame; [done| |done]. set_solver.
        -- intros x Hx1 Hx3. destruct (Hg' x Hx3) as [Hx2|Hx2]; [set_solver|]. specialize (Hb x Hx1). lia.
      * eapply same_outside_trans; [done|done|done|done|]. intros x Hx. by left.
      * by eapply extends_trans.
      * destruct Hext as [Hl _]. intros x Hx. apply elem_of_union in Hx as [Hx|Hx].
        -- apply Hg. set_solver.
        -- destruct (Hg' x Hx) as [Hx2|Hx2]; [apply Hg; set_solver|right; lia].
Qed.

(** ** A cycle that has not completed: the next leaf is entered *)

(** What entering an open section does when [k] of its leaves are done. *)
Definition enters (s : section) : Prop := ∀ d ts root r p i tp ids k fp,
  r ≠ Run_CompletedCycle → (k < leaves s)%nat → distinct s →
  ts !! i = Some (sec_tracker (sec_name s) p ids Executing) →
  rest_status ts i ids (sec_subs s) k fp → i ∉ fp → p ∉ fp → p ≠ i →
  ts !! p = Some tp → m_runState tp = ExecutingChildren →
  ∃ ts' fp' path,
    enter (S (S d)) i s (mk_TrackerContext ts root (Some i) r) =
      Done (inr [path], mk_TrackerContext ts' root (Some p) Run_CompletedCycle) ∧
    leaf_paths s !! k = Some path ∧ status ts' p i s (S k) fp' ∧
    same_outside ({[i]} ∪ fp) ts ts' ∧ extends ts ts' ∧ grows (length ts) ({[i]} ∪ fp) fp'.

Lemma paths_all_cons s rest : paths_all (s :: rest) = leaf_paths s ++ paths_all rest.
Proof. done. Qed.

(** The section whose turn it is: it is opened, its next leaf runs, and it is closed again. *)
Lemma next_section d s ts root r i ti j ts1 ids k fp : enters s → distinct s →
  find_or_make (S (S d)) (sec_name s) i (mk_TrackerContext ts root (Some i) r) =
    Done (inr j, mk_TrackerContext ts1 root (Some i) r) →
  r ≠ Run_CompletedCycle → ts1 !! i = Some (with_children ids ti) →
  match m_parent ti with
  | Some p => ∃ tp, ts1 !! p = Some tp ∧ m_runState tp = ExecutingChildren ∧ p ∉ fp ∧ p ≠ i
  | None => True
  end →
  status ts1 i j s k fp → (k < leaves s)%nat → i ∉ fp →
  ∃ c2 ts3 fp3 path,
    acquire (S (S d)) (sec_name s) (mk_TrackerContext ts root (Some i) r) = Done (inr j, c2) ∧
    run_section (S (S d)) s (mk_TrackerContext ts root (Some i) r) = enter (S (S d)) j s c2 ∧
    enter (S (S d)) j s c2 =
      Done (inr [path], mk_TrackerContext ts3 root (Some i) Run_CompletedCycle) ∧
    leaf_paths s !! k = Some path ∧
    ts3 !! i = Some (with_state ExecutingChildren (with_children ids ti)) ∧
    status ts3 i j s (S k) fp3 ∧ same_outside ({[i]} ∪ fp) ts1 ts3 ∧ extends ts1 ts3 ∧
    grows (length ts1) fp fp3.
Proof.
  intros Hs Hds Hf Hr Hi1 Hpar Hst Hk Hif.
  destruct (status_open _ _ _ _ _ _ Hst Hk) as (idsj & st & fpj & Hj & Hstj & Hrj & Hjf & ->).
  assert (i ≠ j) as Hij by set_solver.
  destruct (run_section_open d ts root r i s j ts1 (with_children ids ti) idsj st)
    as [Hacq Hopen]; [done|done|done|done|done|done| |].
  { cbn [with_children m_parent]. destruct (m_parent ti) as [p|]; [|done].
    destruct Hpar as (tp & ? & ? & ? & ?). exists tp. set_solver. }
  set (ti2 := with_state ExecutingChildren (with_children ids ti)) in *.
  set (ts2 := <[i := ti2]> (<[j := sec_tracker (sec_name s) i idsj Executing]> ts1)) in *.
  pose proof (lookup_lt_Some _ _ _ Hi1) as Hilt.
  assert (ts2 !! i = Some ti2) as Hi2
    by (apply list_lookup_insert_eq; rewrite length_insert; lia).
  assert (same_outside {[i; j]} ts1 ts2) as Hso2.
  { intros x _ Hx. unfold ts2. rewrite !list_lookup_insert_ne by set_solver. done. }
  assert (extends ts1 ts2) as Hext2.
  { eapply extends_trans; [by apply (extends_insert ts1 j _ (λ _, sec_tracker (sec_name s) i idsj Executing) Hj)|].
    apply (extends_insert _ i (with_children ids ti) (λ _, ti2)); [|done].
    by rewrite list_lookup_insert_ne. }
  assert (length ts2 = length ts1) as Hlen2 by (unfold ts2; by rewrite !length_insert).
  destruct (Hs d ts2 root r i j ti2 idsj k fpj)
    as (ts3 & fp3 & path & Hent & Hpath & Hst3 & Hso3 & Hext3 & Hg3); [done|lia|done| | |done|set_solver|done|done|done|].
  { unfold ts2. rewrite list_lookup_insert_ne by done. apply list_lookup_insert_eq.
    by eapply lookup_lt_Some. }
  { eapply rest_frame; [exact Hso2| |done]. set_solver. }
  eexists _, ts3, fp3, path. split_and!; [exact Hacq|exact Hopen|exact Hent|done| |done| | |].
  - by rewrite Hso3 by (lia || set_solver).
  - intros x Hx Hxf. rewrite Hso3, Hso2 by (lia || set_solver). done.
  - by eapply extends_trans.
  - intros x Hx. rewrite <-Hlen2. by apply Hg3.
Qed.

(** The next leaf is in the first of the sections that are left, which [find_or_make] has found. *)
Lemma run_subs_here d s rest ts ts1 root r i ti p tp ids1 names1 ids2' j k1 fp fp1 fp2 :
  enters s → distinct s → r ≠ Run_CompletedCycle → (k1 < leaves s)%nat →
  find_or_make (S (S d)) (sec_name s) i (mk_TrackerContext ts root (Some i) r) =
    Done (inr j, mk_TrackerContext ts1 root (Some i) r) →
  ts1 !! i = Some (with_children (ids1 ++ j :: ids2') ti) → m_kind ti = SectionTracker [] → m_parent ti = Some p →
  ts1 !! p = Some tp → m_runState tp = ExecutingChildren → p ≠ i → p ∉ fp1 → i ∉ fp → i ∉ fp1 ∪ fp2 →
  Forall2 (named ts1) (ids1 ++ [j]) (names1 ++ [sec_name s]) →
  NoDup ((names1 ++ [sec_name s]) ++ List.map sec_name rest) →
  status ts1 i j s k1 fp1 → rest_status ts1 i ids2' rest 0 fp2 → fp1 ## fp2 → (i < length ts)%nat →
  same_outside {[i]} ts ts1 → extends ts ts1 → grows (length ts) fp (fp1 ∪ fp2) →
  ∃ ts' ids2' fp' path,
    run_subs (S (S d)) (s :: rest) (mk_TrackerContext ts root (Some i) r) =
      Done (inr [path], mk_TrackerContext ts' root (Some i) Run_CompletedCycle) ∧
    paths_all (s :: rest) !! k1 = Some path ∧
    ts' !! i = Some (with_state ExecutingChildren (with_children (ids1 ++ ids2') ti)) ∧
    statuses ts' i ids2' (s :: rest) (S k1) fp' ∧
    same_outside ({[i]} ∪ fp) ts ts' ∧ extends ts ts' ∧ grows (length ts) fp fp'.
Proof.
  intros Hs Hds Hr Hk1 Hf Hi1 Hkind Hpar Hp1 Hpst Hpi Hpf1 Hif Hif12 Hn1 Hnd' Hst Hrs Hd Hilt Hso Hext Hg.
  pose proof Hext as [Hlen _]. cbn [run_subs].
  destruct (next_section d s ts root r i ti j ts1 (ids1 ++ j :: ids2') k1 fp1)
    as (c2 & ts3 & fp3 & path & _ & Hopen & Hent & Hpath & Hi3 & Hst3 & Hso3 & Hext3 & Hg3);
    [done|done|done|done|done| |done|lia|set_solver|].
  { rewrite Hpar. exists tp. set_solver. }
  pose proof Hext3 as [Hlen3 _].
  destruct (run_subs_completed (S d) rest ts3 root i (with_state ExecutingChildren ti) (ids1 ++ [j])
    (names1 ++ [sec_name s]) ids2' fp2)
    as (ts' & ids3 & fp4 & Hrun & Hi' & Hst' & Hso' & Hext' & Hg').
  { rewrite Hi3. by rewrite <-app_assoc. }
  { done. }
  { by eapply Forall2_named_extends. }
  { done. }
  { set_solver. }
  { eapply rest_frame; [exact Hso3| |done]. set_solver. }
  exists ts', (j :: ids3), (fp3 ∪ fp4), path. split_and!.
  + eapply ex_step; [rewrite Hopen; exact Hent|]. eapply ex_step; [exact Hrun|]. done.
  + rewrite paths_all_cons, lookup_app_l by (rewrite length_leaf_paths; lia). done.
  + rewrite Hi'. unfold with_state, with_children. cbn. by rewrite <-app_assoc.
  + replace (S k1) with (S k1 + 0)%nat by lia.
    assert (∀ x, x ∈ fp3 → x < length ts3)%nat as Hb3 by (by eapply status_bound).
    constructor; [|done| |by left].
    * eapply status_frame; [done| |done]. intros x Hx ->%elem_of_singleton.
      destruct (Hg3 i Hx) as [Hx2|Hx2]; [set_solver|lia].
    * intros x Hx3 Hx4. specialize (Hb3 x Hx3). destruct (Hg' x Hx4) as [Hx2|Hx2]; [|lia].
      destruct (Hg3 x Hx3) as [Hx1|Hx1]; [set_solver|].
      assert (x < length ts1)%nat; [|lia]. destruct Hrs as [(_ & _ & ->)|Hrs]; [set_solver|].
      by eapply statuses_bound.
  + intros x Hx Hxn. assert (x ∉ fp1) by (intros Hx1; destruct (Hg x); [set_solver|set_solver|lia]).
    rewrite Hso', Hso3, Hso by (lia || set_solver). done.
  + exact (extends_trans _ _ _ Hext (extends_trans _ _ _ Hext3 Hext')).
  + intros x [Hx|Hx]%elem_of_union.
    * destruct (Hg3 x Hx) as [Hx2|Hx2]; [apply Hg; set_solver|right; lia].
    * destruct (Hg' x Hx) as [Hx2|Hx2]; [apply Hg; set_solver|right; lia].
Qed.

Lemma run_subs_next d rest : Forall enters rest → Forall distinct rest →
  ∀ ts root r i ti p tp ids1 names1 ids2 k fp,
  r ≠ Run_CompletedCycle → (k < leaves_all rest)%nat →
  ts !! i = Some (with_children (ids1 ++ ids2) ti) → m_kind ti = SectionTracker [] →
  m_parent ti = Some p → ts !! p = Some tp → m_runState tp = ExecutingChildren → p ≠ i →
  Forall2 (named ts) ids1 names1 → NoDup (names1 ++ List.map sec_name rest) →
  i ∉ fp → p ∉ fp → rest_status ts i ids2 rest k fp →
  ∃ ts' ids2' fp' path,
    run_subs (S (S d)) rest (mk_TrackerContext ts root (Some i) r) =
      Done (inr [path], mk_TrackerContext ts' root (Some i) Run_CompletedCycle) ∧
    paths_all rest !! k = Some path ∧
    ts' !! i = Some (with_state ExecutingChildren (with_children (ids1 ++ ids2') ti)) ∧
    statuses ts' i ids2' rest (S k) fp' ∧
    same_outside ({[i]} ∪ fp) ts ts' ∧ extends ts ts' ∧ grows (length ts) fp fp'.
Proof.
  induction 1 as [|s rest Hs Hrest IH]; intros Hdis ts root r i ti p tp ids1 names1 ids2 k fp
    Hr Hk Hi Hkind Hpar Hp Hpst Hpi Hn Hnd Hif Hpf Hr2; [cbn in Hk; lia|].
  apply Forall_cons_1 in Hdis as [Hds Hdis].
  assert (sec_name s ∉ names1 ∧ NoDup ((names1 ++ [sec_name s]) ++ List.map sec_name rest)) as [Hsn Hnd'].
  { rewrite <-app_assoc. split; [|done]. apply list.NoDup_app in Hnd as (_ & Hd & _).
    intros Hin. apply (Hd _ Hin). left. }
  destruct (find_or_make_ok (S d) ts root r i ti ids1 names1 ids2 s rest k fp)
    as (j & ts1 & ids2' & k1 & k2 & fp1 & fp2 & Hf & Hi1 & Hst & Hrs & Hd & Hif12 & -> & Hk12 & Hso & Hext & Hg);
    [done..|].
  pose proof Hext as [Hlen _].
  pose proof (lookup_lt_Some _ _ _ Hi) as Hilt. pose proof (lookup_lt_Some _ _ _ Hp) as Hplt.
  assert (p ∉ fp1 ∪ fp2) as Hpf12 by (intros Hx; destruct (Hg p Hx); [done|lia]).
  assert (ts1 !! p = Some tp) as Hp1 by (rewrite Hso; [done|done|set_solver]).
  assert (∀ x, x ∈ fp1 → x < length ts1)%nat as Hb1 by (by eapply status_bound).
  assert (Forall2 (named ts1) (ids1 ++ [j]) (names1 ++ [sec_name s])) as Hn1.
  { apply Forall2_app; [by eapply Forall2_named_extends|].
    constructor; [by eapply status_named|done]. }
  rewrite leaves_cons in Hk. cbn [run_subs].
  destruct (decide (k1 = leaves s)) as [->|Hk1].
  - (* this section is done *)
    destruct (status_full _ _ _ _ _ Hst) as (idsj & Hj & ->).
    destruct (IH Hdis ts1 root r i ti p tp (ids1 ++ [j]) (names1 ++ [sec_name s]) ids2' k2 fp2)
      as (ts' & ids3 & fp3 & path & Hrun & Hpath & Hi' & Hst' & Hso' & Hext' & Hg');
      [done|lia|by rewrite <-app_assoc|done|done|done|done|done|done|done|set_solver|set_solver|done|].
    exists ts', (j :: ids3), ({[j]} ∪ fp3), path. split_and!.
    + eapply ex_step; [eapply run_section_skip; [done|done|by right]|].
      eapply ex_step; [exact Hrun|]. done.
    + rewrite paths_all_cons, lookup_app_r, length_leaf_paths by (rewrite length_leaf_paths; lia).
      by rewrite Nat.add_comm, Nat.add_sub.
    + by rewrite <-app_assoc in Hi'.
    + rewrite <-Nat.add_succ_r. constructor; [|done| |by right].
      * eapply status_frame; [done| |done]. set_solver.
      * intros x Hx1 Hx3. destruct (Hg' x Hx3) as [Hx2|Hx2]; [set_solver|]. specialize (Hb1 x Hx1). lia.
    + eapply same_outside_trans; [done|done|done|set_solver|].
      intros x [Hx|Hx]%elem_of_union; [set_solver|]. destruct (Hg x); set_solver.
    + by eapply extends_trans.
    + intros x [Hx|Hx]%elem_of_union; [apply Hg; set_solver|].
      destruct (Hg' x Hx) as [Hx2|Hx2]; [apply Hg; set_solver|right; lia].
  - (* the next leaf is in this section *)
    pose proof (status_le _ _ _ _ _ _ Hst) as Hle.
    destruct Hk12 as [->|]; [|done]. rewrite Nat.add_0_r in *.
    apply (run_subs_here d s rest ts ts1 root r i ti p tp ids1 names1 ids2' j k1 fp fp1 fp2);
      (done || lia || set_solver).
Qed.

(** ** Closing the section *)
Lemma tracker_close_eq d ts root r i nl p ids st st' :
  ts !! i = Some (sec_tracker nl p ids st) →
  (st = Executing ∧ st' = CompletedSuccessfully ∨
   st = ExecutingChildren ∧ ∃ j t, head (rev ids) = Some j ∧ ts !! j = Some t ∧
     st' = if isComplete t then CompletedSuccessfully else ExecutingChildren) →
  tracker_close (S d) i (mk_TrackerContext ts root (Some i) r) =
    Done (inr tt, mk_TrackerContext (<[i := sec_tracker nl p ids st']> ts) root (Some p)
                    Run_CompletedCycle).
Proof.
  intros Hi Hst. cbn [tracker_close]. eapply ex_step; [reflexivity|].
  rewrite decide_False by (intros H; by apply H).
  assert (∀ ts', ts' !! i = Some (sec_tracker nl p ids st') →
    moveToParent i (mk_TrackerContext ts' root (Some i) r) =
      Done (inr tt, mk_TrackerContext ts' root (Some p) r)) as Hmove.
  { intros ts' H. unfold moveToParent. eapply ex_step; [by apply get_tracker_eq|]. done. }
  pose proof (list_lookup_insert_eq ts i (sec_tracker nl p ids st') (lookup_lt_Some _ _ _ Hi)) as Hi'.
  eapply ex_step.
  - unfold close_this. eapply ex_step; [by apply get_tracker_eq|]. cbn [sec_tracker m_runState m_children].
    eapply ex_step with (a := tt) (s' := mk_TrackerContext (<[i := sec_tracker nl p ids st']> ts) root (Some i) r).
    + destruct Hst as [[-> ->]|[-> (j & t & Hj & Ht & ->)]].
      * by apply (update_tracker_eq _ _ _ _ _ _ (with_state CompletedSuccessfully) Hi).
      * rewrite Hj. eapply ex_step; [by apply get_tracker_eq|]. cbv beta. destruct (isComplete t).
        -- by apply (update_tracker_eq _ _ _ _ _ _ (with_state CompletedSuccessfully) Hi).
        -- by rewrite list_insert_id.
    + eapply ex_step; [by apply Hmove|]. reflexivity.
  - unfold close_generator. eapply ex_step; [by apply get_tracker_eq|]. done.
Qed.

Lemma rest_nil ts p ids k fp : rest_status ts p ids [] k fp → ids = [] ∧ k = 0%nat ∧ fp = ∅.
Proof. intros [?|H]; [done|]. by inversion H. Qed.

(** Entering a section whose leaves are not all done runs the next one. *)
Lemma enters_all s : enters s.
Proof.
  induction s as [nl subs IH] using section_ind'.
  intros d ts root r p i tp ids k fp Hr Hk Hdis Hi Hrs Hif Hpf Hpi Hp Hpst. cbn [sec_name sec_subs] in *.
  apply distinct_Sec in Hdis as [Hnd Hdis].
  destruct (decide (subs = [])) as [->|Hne].
  - destruct (rest_nil _ _ _ _ _ Hrs) as (-> & -> & ->).
    exists (<[i := sec_tracker nl p [] CompletedSuccessfully]> ts), {[i]}, [nl]. split_and!.
    + unfold enter. cbn [sec_subs sec_name run_subs]. eapply ex_step; [reflexivity|].
      eapply ex_step; [apply (tracker_close_eq _ _ _ _ _ _ _ _ _ CompletedSuccessfully Hi); by left|]. done.
    + done.
    + apply (st_done _ p i (Sec nl []) []). apply list_lookup_insert_eq. by eapply lookup_lt_Some.
    + apply same_outside_insert. set_solver.
    + by apply (extends_insert ts i _ (λ _, sec_tracker nl p [] CompletedSuccessfully) Hi).
    + intros x Hx. left. set_solver.
  - rewrite leaves_Sec in Hk by done.
    destruct (run_subs_next d subs IH Hdis ts root r i (sec_tracker nl p ids Executing) p tp [] [] ids k fp)
      as (ts1 & ids1 & fp1 & path & Hrun & Hpath & Hi1 & Hst & Hso & Hext & Hg); [done..|].
    cbn [app] in Hi1. change (with_state _ _) with (sec_tracker nl p ids1 ExecutingChildren) in Hi1.
    destruct (statuses_last _ _ _ _ _ _ Hst Hne) as (j & t & Hj & Ht & Hc).
    set (st' := if isComplete t then CompletedSuccessfully else ExecutingChildren).
    pose proof Hext as [Hlen _]. pose proof (lookup_lt_Some _ _ _ Hi) as Hilt.
    assert (i ∉ fp1) as Hi1f by (intros Hx; destruct (Hg i Hx); [done|lia]).
    set (ts' := <[i := sec_tracker nl p ids1 st']> ts1).
    assert (ts' !! i = Some (sec_tracker nl p ids1 st')) as Hi'
      by (apply list_lookup_insert_eq; lia).
    assert (same_outside {[i]} ts1 ts') as Hso' by (apply same_outside_insert; set_solver).
    assert (grows (length ts) ({[i]} ∪ fp) ({[i]} ∪ fp1)) as Hg'.
    { intros x [Hx|Hx]%elem_of_union; [left; set_solver|]. destruct (Hg x Hx); [left; set_solver|by right]. }
    exists ts', (if isComplete t then {[i]} else {[i]} ∪ fp1), (nl :: path). split_and!.
    + unfold enter. cbn [sec_subs sec_name]. eapply ex_step; [exact Hrun|].
      eapply ex_step; [apply (tracker_close_eq _ _ _ _ _ _ _ _ _ st' Hi1); right;
        split; [done|by exists j, t]|].
      by destruct subs.
    + destruct subs; [done|]. change (leaf_paths _) with (cons nl <$> paths_all (s :: subs)).
      by rewrite list_lookup_fmap, Hpath.
    + subst st'. pose proof (statuses_le _ _ _ _ _ _ Hst) as Hle.
      destruct (isComplete t); symmetry in Hc;
        [apply bool_decide_eq_true in Hc|apply bool_decide_eq_false in Hc].
      * rewrite Hc, <-(leaves_Sec nl) by done. by apply (st_done _ p i (Sec nl subs) ids1).
      * apply (st_partial _ p i (Sec nl subs) ids1); [done| |done|rewrite leaves_Sec by done; lia].
        eapply statuses_frame; [exact Hso'| |exact Hst]. set_solver.
    + intros x Hx Hxf. rewrite Hso', Hso by (lia || set_solver). done.
    + eapply extends_trans; [exact Hext|].
      by apply (extends_insert ts1 i _ (λ _, sec_tracker nl p ids1 st') Hi1).
    + destruct (isComplete t); [intros x Hx; left; set_solver|exact Hg'].
Qed.

(** ** The cycles of a test case *)
Definition root_tracker (nl : NameAndLocation) (ids : list nat) (st : CycleState) : TrackerBase :=
  mk_TrackerBase nl (SectionTracker []) None ids st.

Lemma run_cycles_ok d s n : distinct s → ∀ ts r cur nl ids st k fp,
  ts !! 0%nat = Some (root_tracker nl ids st) → rest_status ts 0 ids [s] k fp → 0%nat ∉ fp →
  (k < leaves s)%nat → (leaves s ≤ k + n)%nat →
  ∃ c, run_cycles (S (S d)) n s (mk_TrackerContext ts (Some 0%nat) cur r) =
    Done (inr (List.map (λ p, [p]) (drop k (leaf_paths s))), c).
Proof.
  intros Hdis. induction n as [|n IH]; intros ts r cur nl ids st k fp H0 Hrs H0f Hk Hn; [lia|].
  destruct (find_or_make_ok (S d) ts (Some 0%nat) Run_Executing 0 (root_tracker nl ids st) [] [] ids s [] k fp)
    as (j & ts1 & ids2 & k1 & k2 & fp1 & fp2 & Hf & H1 & Hst & Hrs2 & Hd & H0f12 & -> & _ & Hso & Hext & Hg);
    [done|done|done|apply not_elem_of_nil|done|done|].
  destruct (rest_nil _ _ _ _ _ Hrs2) as (-> & -> & ->). rewrite Nat.add_0_r in *. cbn [app] in *.
  destruct (next_section d s ts (Some 0%nat) Run_Executing 0 (root_tracker nl ids st) j ts1 [j] k1 fp1)
    as (c2 & ts3 & fp3 & path & Hacq & _ & Hent & Hpath & H3 & Hst3 & Hso3 & Hext3 & Hg3);
    [apply enters_all|done|done|done|done|done|done|done|set_solver|].
  pose proof (lookup_lt_Some _ _ _ H1) as H1lt.
  assert (drop k1 (leaf_paths s) = path :: drop (S k1) (leaf_paths s)) as -> by by apply drop_S.
  assert (0%nat ∉ fp3) as H03 by (intros Hx; destruct (Hg3 _ Hx); [set_solver|lia]).
  cbn [run_cycles List.map]. destruct (decide (S k1 = leaves s)) as [Hk1|Hk1].
  - destruct (status_full ts3 0 j s fp3) as (ids4 & Hj4 & _); [by rewrite <-Hk1|].
    eexists. eapply ex_step; [reflexivity|]. eapply ex_step; [exact Hacq|].
    eapply ex_step; [exact Hent|]. eapply ex_step; [by apply get_tracker_eq|].
    cbn. rewrite drop_ge by (rewrite length_leaf_paths; lia). reflexivity.
  - destruct (status_open _ _ _ _ _ _ Hst3) as (ids4 & st4 & _ & Hj4 & Hst4 & _); [lia|].
    destruct (IH ts3 Run_CompletedCycle (Some 0%nat) nl [j] ExecutingChildren (S k1) fp3)
      as [c Hc]; [done| |done|lia|lia|].
    { right. replace (S k1) with (S k1 + 0)%nat by lia. replace fp3 with (fp3 ∪ ∅) by set_solver.
      constructor; [done|constructor|set_solver|by left]. }
    exists c. eapply ex_step; [reflexivity|]. eapply ex_step; [exact Hacq|].
    eapply ex_step; [exact Hent|]. eapply ex_step; [by apply get_tracker_eq|]. cbv beta.
    assert (isSuccessfullyCompleted (sec_tracker (sec_name s) 0 ids4 st4) = false) as ->
      by (by destruct Hst4 as [->| ->]).
    eapply ex_step; [exact Hc|]. done.
Qed.

Lemma run_test_cycles s internal_lineinfo fuel depth c :
  distinct s → (leaves s ≤ fuel)%nat → (2 ≤ depth)%nat →
  ∃ c', run_test depth fuel internal_lineinfo s c =
    Done (inr (List.map (λ p, [p]) (leaf_paths s)), c').
Proof.
  intros Hdis Hfuel Hd. destruct depth as [|[|d]]; [lia|lia|].
  destruct (run_cycles_ok d s fuel Hdis
    [root_tracker (mk_NameAndLocation (str "{root}") internal_lineinfo) [] NotStarted]
    Run_Executing None (mk_NameAndLocation (str "{root}") internal_lineinfo) [] NotStarted 0 ∅)
    as [c' Hc]; [done|by left|set_solver|apply leaves_pos|done|].
  rewrite drop_0 in Hc. exists c'. unfold run_test. eapply ex_step; [reflexivity|exact Hc].
Qed.

(** C9 (liveness): for every tree of sections in which sections of the same parent differ, the
    loop over the trackers ends by itself, after as many cycles as the tree has leaves, and
    the n-th cycle enters exactly the n-th leaf: each leaf runs once, none with another. *)
Theorem sections_run_once s internal_lineinfo fuel depth c :
  distinct s → (leaves s ≤ fuel)%nat → (2 ≤ depth)%nat →
  ∃ c', run_test depth fuel internal_lineinfo s c =
    Done (inr (List.map (λ p, [p]) (leaf_paths s)), c').
Proof. apply run_test_cycles. Qed.

(** A test case with three leaves, one of them nested. *)
Definition sample_sections : section :=
  let at_line n s := mk_NameAndLocation (str s) (mk_SourceLineInfo (str "test.cpp") n) in
  Sec (at_line 1%nat "PmemBuffer operations")
    [Sec (at_line 2%nat "write") [Sec (at_line 3%nat "empty") []; Sec (at_line 4%nat "full") []];
     Sec (at_line 5%nat "read") []].

Lemma sections_run_once_witness : ∃ c',
  run_test 2 3 (mk_SourceLineInfo (str "catch.hpp") 1) sample_sections new_context =
    Done (inr (List.map (λ p, [p]) (leaf_paths sample_sections)), c') ∧
  length (leaf_paths sample_sections) = 3%nat.
Proof.
  destruct (sections_run_once sample_sections (mk_SourceLineInfo (str "catch.hpp") 1) 3 2 new_context)
    as [c' Hc].
  - by repeat split; apply (bool_decide_eq_true_1 (NoDup _)).
  - cbn. lia.
  - lia.
  - by exists c'.
Defined.
