(* ===== verification/CatchRun.v ===== *)
(** * Catch: the run context (catch_run_context, catch_message, catch_section, runTests)

    A run context executes test cases: it counts assertions, keeps the messages in scope, drives
    the trackers and tells the reporter what happens.  The reporter is the list of what it was
    told; the operations a test performs are those of [IResultCapture].  Durations and redirected
    output are left out, and so is the benchmarking that the build does not enable. *)
From stdpp Require Import strings list.
From S2P Require Import Prelude CatchString CatchTest CatchResult CatchTracker.

(** ** Messages, sections, statistics *)
Record MessageInfo := mk_MessageInfo {
  mi_macroName : StringRef;
  mi_message : list byte;
  mi_lineInfo : SourceLineInfo;
  mi_type : Z;
  sequence : Z
}.
Definition message_eq (a b : MessageInfo) : bool := bool_decide (sequence a = sequence b).

Record SectionInfo := mk_SectionInfo { si_name : list byte; si_lineInfo : SourceLineInfo }.
Record SectionEndInfo := mk_SectionEndInfo { sectionInfo : SectionInfo; prevAssertions : Counts }.

Record AssertionStats := mk_AssertionStats {
  assertionResult : AssertionResult; infoMessages : list MessageInfo; as_totals : Totals
}.

Inductive event :=
| testRunStarting (name : list byte)
| testGroupStarting (name : list byte) (groupIndex groupsCount : nat)
| testCaseStarting (testInfo : TestCaseInfo)
| sectionStarting (info : SectionInfo)
| assertionStarting (info : AssertionInfo)
| assertionEnded_ (stats : AssertionStats)
| sectionEnded_ (info : SectionInfo) (assertions : Counts) (missingAssertions : bool)
| testCaseEnded (testInfo : TestCaseInfo) (totals : Totals) (aborting : bool)
| testGroupEnded_ (name : list byte) (groupIndex groupsCount : nat) (totals : Totals) (aborting : bool)
| testRunEnded (name : list byte) (totals : Totals) (aborting : bool)
| skipTest (testInfo : TestCaseInfo)
| noMatchingTestCases (spec : list byte)
| fatalErrorEncountered (message : list byte).

Record AssertionReaction := mk_AssertionReaction { shouldDebugBreak : bool; shouldThrow : bool }.

(** What a run asks of the configuration and of the reporter's preferences. *)
Record run_config := mk_run_config {
  base_config : IConfig;
  config_name : list byte;
  abortAfter : Z;
  includeSuccessfulResults : bool;
  shouldReportAllAssertions : bool;
  warnAboutMissingAssertions : bool;
  warnAboutNoTests : bool;
  config_debugBreak : bool;
  getSectionsToRun : list (list byte);
  config_testSpec : TestSpec;
  getTestsOrTags : list (list byte)
}.

(** ** The state *)
Record RunContext := mk_RunContext {
  m_config : run_config;
  m_activeTestCase : option TestCaseInfo;
  m_testCaseTracker : option nat;
  m_lastResult : option AssertionResult;
  m_totals : Totals;
  m_reporter : list event;
  m_messages : list MessageInfo;
  m_messageScopes : list MessageInfo;
  m_lastAssertionInfo : AssertionInfo;
  m_unfinishedSections : list SectionEndInfo;
  m_activeSections : list nat;
  m_trackerContext : TrackerContext;
  m_lastAssertionPassed : bool;
  m_shouldReportUnexpected : bool;
  globalCount : Z;
  uncaught_exceptions : bool
}.
Definition run (A : Type) : Type := ex RunContext A.

Definition set_activeTestCase x r := mk_RunContext (m_config r) x (m_testCaseTracker r)
  (m_lastResult r) (m_totals r) (m_reporter r) (m_messages r) (m_messageScopes r)
  (m_lastAssertionInfo r) (m_unfinishedSections r) (m_activeSections r) (m_trackerContext r)
  (m_lastAssertionPassed r) (m_shouldReportUnexpected r) (globalCount r) (uncaught_exceptions r).
Definition set_testCaseTracker x r := mk_RunContext (m_config r) (m_activeTestCase r) x
  (m_lastResult r) (m_totals r) (m_reporter r) (m_messages r) (m_messageScopes r)
  (m_lastAssertionInfo r) (m_unfinishedSections r) (m_activeSections r) (m_trackerContext r)
  (m_lastAssertionPassed r) (m_shouldReportUnexpected r) (globalCount r) (uncaught_exceptions r).
Definition set_lastResult x r := mk_RunContext (m_config r) (m_activeTestCase r)
  (m_testCaseTracker r) x (m_totals r) (m_reporter r) (m_messages r) (m_messageScopes r)
  (m_lastAssertionInfo r) (m_unfinishedSections r) (m_activeSections r) (m_trackerContext r)
  (m_lastAssertionPassed r) (m_shouldReportUnexpected r) (globalCount r) (uncaught_exceptions r).
Definition set_totals x r := mk_RunContext (m_config r) (m_activeTestCase r)
  (m_testCaseTracker r) (m_lastResult r) x (m_reporter r) (m_messages r) (m_messageScopes r)
  (m_lastAssertionInfo r) (m_unfinishedSections r) (m_activeSections r) (m_trackerContext r)
  (m_lastAssertionPassed r) (m_shouldReportUnexpected r) (globalCount r) (uncaught_exceptions r).
Definition report (e : event) r := mk_RunContext (m_config r) (m_activeTestCase r)
  (m_testCaseTracker r) (m_lastResult r) (m_totals r) (m_reporter r ++ [e]) (m_messages r)
  (m_messageScopes r) (m_lastAssertionInfo r) (m_unfinishedSections r) (m_activeSections r)
  (m_trackerContext r) (m_lastAssertionPassed r) (m_shouldReportUnexpected r) (globalCount r)
  (uncaught_exceptions r).
Definition set_messages x y r := mk_RunContext (m_config r) (m_activeTestCase r)
  (m_testCaseTracker r) (m_lastResult r) (m_totals r) (m_reporter r) x y
  (m_lastAssertionInfo r) (m_unfinishedSections r) (m_activeSections r) (m_trackerContext r)
  (m_lastAssertionPassed r) (m_shouldReportUnexpected r) (globalCount r) (uncaught_exceptions r).
Definition set_lastAssertionInfo x r := mk_RunContext (m_config r) (m_activeTestCase r)
  (m_testCaseTracker r) (m_lastResult r) (m_totals r) (m_reporter r) (m_messages r)
  (m_messageScopes r) x (m_unfinishedSections r) (m_activeSections r) (m_trackerContext r)
  (m_lastAssertionPassed r) (m_shouldReportUnexpected r) (globalCount r) (uncaught_exceptions r).
Definition set_sections x y r := mk_RunContext (m_config r) (m_activeTestCase r)
  (m_testCaseTracker r) (m_lastResult r) (m_totals r) (m_reporter r) (m_messages r)
  (m_messageScopes r) (m_lastAssertionInfo r) x y (m_trackerContext r)
  (m_lastAssertionPassed r) (m_shouldReportUnexpected r) (globalCount r) (uncaught_exceptions r).
Definition set_trackerContext x r := mk_RunContext (m_config r) (m_activeTestCase r)
  (m_testCaseTracker r) (m_lastResult r) (m_totals r) (m_reporter r) (m_messages r)
  (m_messageScopes r) (m_lastAssertionInfo r) (m_unfinishedSections r) (m_activeSections r) x
  (m_lastAssertionPassed r) (m_shouldReportUnexpected r) (globalCount r) (uncaught_exceptions r).
Definition set_flags passed unexpected r := mk_RunContext (m_config r) (m_activeTestCase r)
  (m_testCaseTracker r) (m_lastResult r) (m_totals r) (m_reporter r) (m_messages r)
  (m_messageScopes r) (m_lastAssertionInfo r) (m_unfinishedSections r) (m_activeSections r)
  (m_trackerContext r) passed unexpected (globalCount r) (uncaught_exceptions r).
Definition set_globalCount x r := mk_RunContext (m_config r) (m_activeTestCase r)
  (m_testCaseTracker r) (m_lastResult r) (m_totals r) (m_reporter r) (m_messages r)
  (m_messageScopes r) (m_lastAssertionInfo r) (m_unfinishedSections r) (m_activeSections r)
  (m_trackerContext r) (m_lastAssertionPassed r) (m_shouldReportUnexpected r) x
  (uncaught_exceptions r).
Definition set_uncaught x r := mk_RunContext (m_config r) (m_activeTestCase r)
  (m_testCaseTracker r) (m_lastResult r) (m_totals r) (m_reporter r) (m_messages r)
  (m_messageScopes r) (m_lastAssertionInfo r) (m_unfinishedSections r) (m_activeSections r)
  (m_trackerContext r) (m_lastAssertionPassed r) (m_shouldReportUnexpected r) (globalCount r) x.

Definition on_trackers {A} (m : ex TrackerContext A) : run A := λ r,
  match m (m_trackerContext r) with
  | Done (a, c) => Done (a, set_trackerContext c r)
  | Assert_failed => Assert_failed
  | Undefined => Undefined
  end.

Definition set_lastAssertionPassed (b : bool) (r : RunContext) : RunContext :=
  set_flags b (m_shouldReportUnexpected r) r.
Definition set_shouldReportUnexpected (b : bool) (r : RunContext) : RunContext :=
  set_flags (m_lastAssertionPassed r) b r.

(** ** Construction *)
Definition literal (s : string) : StringRef := StringRef_string (str s).
Definition no_assertion : AssertionInfo :=
  mk_AssertionInfo StringRef_empty (mk_SourceLineInfo [] 0) StringRef_empty Normal.

Definition make_run_context (config : run_config) : RunContext :=
  report (testRunStarting (config_name config))
    (mk_RunContext config None None None no_totals [] [] [] no_assertion [] [] new_context
       false true 0 false).

Definition m_includeSuccessfulResults (r : RunContext) : bool :=
  includeSuccessfulResults (m_config r) || shouldReportAllAssertions (m_config r).

(** [abortAfter()] is an [int]: a negative one never stops a run. *)
Definition aborting (r : RunContext) : bool :=
  bool_decide (u64 (abortAfter (m_config r)) ≤ failed (assertions (m_totals r))).

Definition close_run_context (r : RunContext) : RunContext :=
  report (testRunEnded (config_name (m_config r)) (m_totals r) (aborting r)) r.

Definition group_starting (testSpec : list byte) (groupIndex groupsCount : nat) : run unit :=
  ex_modify (report (testGroupStarting testSpec groupIndex groupsCount)).
Definition group_ended (testSpec : list byte) (totals : Totals) (groupIndex groupsCount : nat)
    : run unit :=
  ex_modify (λ r, report (testGroupEnded_ testSpec groupIndex groupsCount totals (aborting r)) r).

(** ** Messages *)
Definition new_sequence : run Z :=
  r ← ex_get;
  let n := u32 (globalCount r + 1) in
  _ ← ex_modify (set_globalCount n);
  mret n.

Definition pushScopedMessage (m : MessageInfo) : run unit :=
  ex_modify (λ r, set_messages (m_messages r ++ [m]) (m_messageScopes r) r).
Definition popScopedMessage (m : MessageInfo) : run unit :=
  ex_modify (λ r, set_messages (List.filter (λ x, negb (message_eq x m)) (m_messages r))
                    (m_messageScopes r) r).

(** [m_messageScopes.emplace_back( builder )]: the scoped message pushes itself. *)
Definition emplaceUnscopedMessage (m : MessageInfo) : run unit :=
  _ ← pushScopedMessage m;
  ex_modify (λ r, set_messages (m_messages r) (m_messageScopes r ++ [m]) r).

Fixpoint pop_all (ms : list MessageInfo) : run unit :=
  match ms with
  | [] => mret tt
  | m :: ms => _ ← popScopedMessage m; pop_all ms
  end.
(** Destroying scoped messages pops them unless an exception is on its way. *)
Definition clear_messageScopes : run unit :=
  r ← ex_get;
  _ ← (if uncaught_exceptions r then mret tt else pop_all (m_messageScopes r));
  ex_modify (λ r, set_messages (m_messages r) [] r).
Definition clear_messages : run unit :=
  ex_modify (λ r, set_messages [] (m_messageScopes r) r).

(** ** Assertions *)
Definition resetAssertionInfo : run unit :=
  ex_modify (λ r,
    let i := m_lastAssertionInfo r in
    set_lastAssertionInfo
      (mk_AssertionInfo StringRef_empty (ai_lineInfo i)
         (literal "{Unknown expression after the reported line}") (resultDisposition i)) r).

Definition set_assertions (f : Counts → Counts) (r : RunContext) : RunContext :=
  set_totals (mk_Totals (error (m_totals r)) (f (assertions (m_totals r))) (testCases (m_totals r))) r.

(** Copying an assertion result drops its expression. *)
Definition copy_result (result : AssertionResult) : AssertionResult :=
  let d := m_resultData result in
  mk_AssertionResult (m_info result)
    (mk_AssertionResultData (message d) (reconstructedExpression d) (copy_lazy (lazyExpression d))
       (resultType d)).

Definition make_assertion_stats (result : AssertionResult) : run AssertionStats :=
  r ← ex_get;
  if hasMessage result then
    n ← new_sequence;
    let m := mk_MessageInfo (macroName (m_info result)) (message (m_resultData result))
               (ai_lineInfo (m_info result)) (getResultType result) n in
    mret (mk_AssertionStats result (m_messages r ++ [m]) (m_totals r))
  else mret (mk_AssertionStats result (m_messages r) (m_totals r)).

Definition assertionEnded (result : AssertionResult) : run unit :=
  _ ← (if decide (getResultType result = Ok) then
         _ ← ex_modify (set_assertions count_passed);
         ex_modify (set_lastAssertionPassed true)
       else if negb (result_isOk result) then
         _ ← ex_modify (set_lastAssertionPassed false);
         r ← ex_get;
         t ← ex_deref (m_activeTestCase r);
         ex_modify (set_assertions (if okToFail t then count_failedButOk else count_failed))
       else ex_modify (set_lastAssertionPassed true));
  stats ← make_assertion_stats result;
  _ ← ex_modify (report (assertionEnded_ stats));
  _ ← (if decide (getResultType result ≠ Warning) then clear_messageScopes else mret tt);
  _ ← resetAssertionInfo;
  ex_modify (set_lastResult (Some (copy_result result))).

Definition assertionPassed : run unit :=
  _ ← ex_modify (set_lastAssertionPassed true);
  _ ← ex_modify (set_assertions count_passed);
  _ ← resetAssertionInfo;
  clear_messageScopes.

Definition populateReaction (r : RunContext) : AssertionReaction :=
  mk_AssertionReaction (config_debugBreak (m_config r))
    (aborting r || bool_decide (Z.land (resultDisposition (m_lastAssertionInfo r)) Normal ≠ 0)).
Definition populate : run (option AssertionReaction) := r ← ex_get; mret (Some (populateReaction r)).

Definition make_result (info : AssertionInfo) (type : Z) (isNegated : bool) (msg : list byte)
    : AssertionResult :=
  let d := make_result_data type (make_lazy isNegated) in
  mk_AssertionResult info
    (mk_AssertionResultData msg (reconstructedExpression d) (lazyExpression d) (resultType d)).

Definition reportExpr (info : AssertionInfo) (resultType_ : Z) (expr : ITransientExpression)
    (negated : bool) : run unit :=
  _ ← ex_modify (set_lastAssertionInfo info);
  let result := make_result info resultType_ negated [] in
  let d := m_resultData result in
  assertionEnded (mk_AssertionResult info
    (mk_AssertionResultData (message d) (reconstructedExpression d)
       (mk_LazyExpression (Some expr) negated) (resultType d))).

(** The handlers answer with the reaction if they fill it in. *)
Definition handleExpr (info : AssertionInfo) (expr : ITransientExpression)
    : run (option AssertionReaction) :=
  _ ← ex_modify (report (assertionStarting info));
  let negated := isFalseTest (resultDisposition info) in
  if negb (Bool.eqb (getResult expr) negated) then
    r ← ex_get;
    _ ← (if negb (m_includeSuccessfulResults r) then assertionPassed
         else reportExpr info Ok expr negated);
    mret None
  else _ ← reportExpr info ExpressionFailed expr negated; populate.

Definition handleMessage (info : AssertionInfo) (resultType_ : Z) (msg : list byte)
    : run (option AssertionReaction) :=
  _ ← ex_modify (report (assertionStarting info));
  _ ← ex_modify (set_lastAssertionInfo info);
  let result := make_result info resultType_ false msg in
  _ ← assertionEnded result;
  if negb (result_isOk result) then populate else mret None.

Definition handleUnexpectedInflightException (info : AssertionInfo) (msg : list byte)
    : run (option AssertionReaction) :=
  _ ← ex_modify (set_lastAssertionInfo info);
  _ ← assertionEnded (make_result info ThrewException false msg);
  populate.

Definition handleIncomplete (info : AssertionInfo) : run unit :=
  _ ← ex_modify (set_lastAssertionInfo info);
  assertionEnded (make_result info ThrewException false
    (str "Exception translation was disabled by CATCH_CONFIG_FAST_COMPILE")).

Definition handleNonExpr (info : AssertionInfo) (resultType_ : Z) : run (option AssertionReaction) :=
  _ ← ex_modify (set_lastAssertionInfo info);
  let result := make_result info resultType_ false [] in
  _ ← assertionEnded result;
  if negb (result_isOk result) then populate else mret None.

Definition handleUnexpectedExceptionNotThrown (info : AssertionInfo) : run (option AssertionReaction) :=
  handleNonExpr info DidntThrowException.

(** ** Sections *)
Section run.
(** Fuel for the trackers: more than the sections nest. *)
Context (depth : nat).

(** Whether the section is entered, with the assertions so far. *)
Definition sectionStarted (info : SectionInfo) : run (option Counts) :=
  i ← on_trackers (acquire depth (mk_NameAndLocation (si_name info) (si_lineInfo info)));
  t ← on_trackers (get_tracker i);
  if negb (isOpen t) then mret None
  else
    _ ← ex_modify (λ r, set_sections (m_unfinishedSections r) (m_activeSections r ++ [i]) r);
    _ ← ex_modify (λ r, let a := m_lastAssertionInfo r in
          set_lastAssertionInfo (mk_AssertionInfo (macroName a) (si_lineInfo info)
            (capturedExpression a) (resultDisposition a)) r);
    _ ← ex_modify (report (sectionStarting info));
    r ← ex_get;
    mret (Some (assertions (m_totals r))).

Definition acquireGeneratorTracker (lineInfo_ : SourceLineInfo) : run nat :=
  i ← on_trackers (acquire_generator depth (mk_NameAndLocation (str "generator") lineInfo_));
  t ← on_trackers (get_tracker i);
  _ ← ex_assert (isOpen t);
  _ ← ex_modify (λ r, let a := m_lastAssertionInfo r in
        set_lastAssertionInfo (mk_AssertionInfo (macroName a) lineInfo_ (capturedExpression a)
          (resultDisposition a)) r);
  mret i.

(** The counts it is given, adjusted, and whether assertions are missing. *)
Definition testForMissingAssertions (a : Counts) : run (Counts * bool) :=
  r ← ex_get;
  if negb (bool_decide (counts_total a = 0)) then mret (a, false)
  else if negb (warnAboutMissingAssertions (m_config r)) then mret (a, false)
  else
    i ← on_trackers currentTracker;
    t ← on_trackers (get_tracker i);
    if hasChildren t then mret (a, false)
    else
      _ ← ex_modify (set_assertions count_failed);
      mret (count_failed a, true).

Definition sectionEnded (endInfo : SectionEndInfo) : run unit :=
  r ← ex_get;
  let a := counts_sub (assertions (m_totals r)) (prevAssertions endInfo) in
  '(a, missing) ← testForMissingAssertions a;
  r ← ex_get;
  _ ← match rev (m_activeSections r) with
      | [] => mret tt
      | i :: rest =>
          _ ← on_trackers (tracker_close depth i);
          ex_modify (λ r, set_sections (m_unfinishedSections r) (rev rest) r)
      end;
  _ ← ex_modify (report (sectionEnded_ (sectionInfo endInfo) a missing));
  _ ← clear_messages;
  clear_messageScopes.

Definition sectionEndedEarly (endInfo : SectionEndInfo) : run unit :=
  r ← ex_get;
  match rev (m_activeSections r) with
  | [] => ex_undefined
  | i :: rest =>
      _ ← on_trackers (if decide (m_unfinishedSections r = []) then tracker_fail i
                       else tracker_close depth i);
      ex_modify (λ r, set_sections (m_unfinishedSections r ++ [endInfo]) (rev rest) r)
  end.

Fixpoint end_sections (sections : list SectionEndInfo) : run unit :=
  match sections with
  | [] => mret tt
  | s :: sections => _ ← sectionEnded s; end_sections sections
  end.
Definition handleUnfinishedSections : run unit :=
  r ← ex_get;
  _ ← end_sections (rev (m_unfinishedSections r));
  ex_modify (λ r, set_sections [] (m_activeSections r) r).

Definition handleFatalErrorCondition (msg : list byte) : run unit :=
  _ ← ex_modify (report (fatalErrorEncountered msg));
  r ← ex_get;
  _ ← assertionEnded (make_result (m_lastAssertionInfo r) FatalErrorCondition false msg);
  _ ← handleUnfinishedSections;
  r ← ex_get;
  t ← ex_deref (m_activeTestCase r);
  _ ← ex_modify (report (sectionEnded_ (mk_SectionInfo (name t) (lineInfo t)) (mk_Counts 0 1 0) false));
  _ ← ex_modify (report (testCaseEnded t (mk_Totals 0 (mk_Counts 0 1 0) (mk_Counts 0 1 0)) false));
  _ ← ex_modify (λ r, set_totals (mk_Totals (error (m_totals r)) (assertions (m_totals r))
        (count_failed (testCases (m_totals r)))) r);
  r ← ex_get;
  _ ← group_ended [] (m_totals r) 1 1;
  r ← ex_get;
  ex_modify (report (testRunEnded (config_name (m_config r)) (m_totals r) false)).

(** ** Test cases *)

(** How a test's code ends: it returns, a required assertion failed, or another exception
    leaves it, known by its translation. *)
Inductive body_exit := Returned | Test_failure | Threw (translated : list byte).
Definition body : Type := RunContext → outcome (body_exit * RunContext).

Definition what (e : exn) : list byte :=
  match e with Domain_error m | Logic_error m | Generator_exception m => m | Out_of_range => [] end.

(** The end of a destructor: throwing out of it terminates the program. *)
Definition leave (e : body_exit) (o : outcome (throwing unit * RunContext))
    : outcome (body_exit * RunContext) :=
  match o with
  | Done (inr _, r) => Done (e, r)
  | Done (inl _, _) => Assert_failed
  | Assert_failed => Assert_failed
  | Undefined => Undefined
  end.

(** [SECTION( ... ) { ... }]: the constructor and the destructor of [Section]. *)
Definition in_section (info : SectionInfo) (b : body) : body := λ r,
  match sectionStarted info r with
  | Done (inr None, r) => Done (Returned, r)
  | Done (inr (Some a), r) =>
      match b r with
      | Done (Returned, r) =>
          leave Returned (sectionEnded (mk_SectionEndInfo info a) r)
      | Done (e, r) =>
          leave e (sectionEndedEarly (mk_SectionEndInfo info a) (set_uncaught true r))
      | o => o
      end
  | Done (inl e, r) => Done (Threw (what e), r)
  | Assert_failed => Assert_failed
  | Undefined => Undefined
  end.

(** [AssertionHandler::complete]: a reaction that asks for it ends the test. *)
Definition complete (m_reaction : option AssertionReaction) : body_exit :=
  match m_reaction with
  | Some a => if shouldThrow a then Test_failure else Returned
  | None => Returned
  end.

(** [REQUIRE( ... )] and its kind: the handler is told the expression, then reacts; an exception
    on the way is reported instead. *)
Definition internal_catch_test (info : AssertionInfo) (expr : ITransientExpression) : body := λ r,
  match handleExpr info expr r with
  | Done (inr reaction, r) => Done (complete reaction, r)
  | Done (inl e, r) =>
      match handleUnexpectedInflightException info (what e) r with
      | Done (inr reaction, r) => Done (complete reaction, r)
      | Done (inl e, r) => Done (Threw (what e), r)
      | Assert_failed => Assert_failed
      | Undefined => Undefined
      end
  | Assert_failed => Assert_failed
  | Undefined => Undefined
  end.

Context (invoke : body).

(** Whatever leaves the test is caught: no exception is in flight afterwards. *)
Definition invokeActiveTestCase : run body_exit := λ r,
  match invoke r with
  | Done (e, r) => Done (inr e, set_uncaught false r)
  | Assert_failed => Assert_failed
  | Undefined => Undefined
  end.

Definition runCurrentTest : run unit :=
  r ← ex_get;
  t ← ex_deref (m_activeTestCase r);
  let section := mk_SectionInfo (name t) (lineInfo t) in
  _ ← ex_modify (report (sectionStarting section));
  r ← ex_get;
  let before := assertions (m_totals r) in
  _ ← ex_modify (set_shouldReportUnexpected true);
  _ ← ex_modify (set_lastAssertionInfo
        (mk_AssertionInfo (literal "TEST_CASE") (lineInfo t) StringRef_empty Normal));
  e ← invokeActiveTestCase;
  r ← ex_get;
  _ ← match e with
      | Threw msg =>
          if m_shouldReportUnexpected r
          then _ ← handleUnexpectedInflightException (m_lastAssertionInfo r) msg; mret tt
          else mret tt
      | _ => mret tt
      end;
  r ← ex_get;
  let a := counts_sub (assertions (m_totals r)) before in
  '(a, missing) ← testForMissingAssertions a;
  r ← ex_get;
  i ← ex_deref (m_testCaseTracker r);
  _ ← on_trackers (tracker_close depth i);
  _ ← handleUnfinishedSections;
  _ ← clear_messages;
  _ ← clear_messageScopes;
  ex_modify (report (sectionEnded_ section a missing)).

(** The loop of [runTest], with fuel: the number of times the test is run. *)
Fixpoint cycles (fuel : nat) (testInfo : TestCaseInfo) : run unit :=
  match fuel with
  | O => ex_undefined
  | S fuel =>
      _ ← on_trackers startCycle;
      i ← on_trackers (acquire depth (mk_NameAndLocation (name testInfo) (lineInfo testInfo)));
      _ ← ex_modify (set_testCaseTracker (Some i));
      _ ← runCurrentTest;
      t ← on_trackers (get_tracker i);
      r ← ex_get;
      if negb (isSuccessfullyCompleted t) && negb (aborting r) then cycles fuel testInfo
      else mret tt
  end.

(** A test that should fail and passed. *)
Definition adjust_expected (testInfo : TestCaseInfo) (d : Totals) : Totals :=
  if expectedToFail testInfo && bool_decide (0 < passed (testCases d)) then
    mk_Totals (error d) (count_failed (assertions d))
      (mk_Counts (u64 (passed (testCases d) - 1)) (u64 (failed (testCases d) + 1))
         (failedButOk (testCases d)))
  else d.

Definition runTest (fuel : nat) (internal_lineinfo : SourceLineInfo) (testInfo : TestCaseInfo)
    : run Totals :=
  r ← ex_get;
  let prevTotals := m_totals r in
  _ ← ex_modify (report (testCaseStarting testInfo));
  _ ← ex_modify (set_activeTestCase (Some testInfo));
  root ← on_trackers (startRun internal_lineinfo);
  r ← ex_get;
  _ ← on_trackers (update_tracker (addInitialFilters (getSectionsToRun (m_config r))) root);
  _ ← cycles fuel testInfo;
  r ← ex_get;
  let deltaTotals := adjust_expected testInfo (delta (m_totals r) prevTotals) in
  _ ← ex_modify (λ r, set_totals (mk_Totals (error (m_totals r)) (assertions (m_totals r))
        (counts_add (testCases (m_totals r)) (testCases deltaTotals))) r);
  r ← ex_get;
  _ ← ex_modify (report (testCaseEnded testInfo deltaTotals (aborting r)));
  _ ← ex_modify (λ r, set_testCaseTracker None (set_activeTestCase None r));
  mret deltaTotals.
End run.

(** ** The session's loop over the test cases

    [run_case] stands for [context.runTest( testCase )]. *)
Section session.
Context (run_case : TestCase → run Totals).

Definition selected (config : run_config) (testCase : TestCase) : bool :=
  (negb (hasFilters (config_testSpec config)) && negb (isHidden (info testCase))) ||
  (hasFilters (config_testSpec config) &&
   matchTest testCase (config_testSpec config) (base_config config)).

Fixpoint run_cases (allTestCases : list TestCase) (totals : Totals) : run Totals :=
  match allTestCases with
  | [] => mret totals
  | testCase :: allTestCases =>
      r ← ex_get;
      totals ← (if negb (aborting r) && selected (m_config r) testCase
                then d ← run_case testCase; mret (totals_add totals d)
                else _ ← ex_modify (report (skipTest (info testCase))); mret totals);
      run_cases allTestCases totals
  end.

Fixpoint join_inputs (inputs : list (list byte)) (first : bool) : list byte :=
  match inputs with
  | [] => []
  | i :: inputs => (if first then [] else [x20]) ++ i ++ join_inputs inputs false
  end.

Definition runTests (allTestCases : list TestCase) : run Totals :=
  r ← ex_get;
  let config := m_config r in
  _ ← group_starting (config_name config) 1 1;
  totals ← run_cases allTestCases no_totals;
  totals ← (if warnAboutNoTests config && bool_decide (counts_total (testCases totals) = 0) then
              _ ← ex_modify (report (noMatchingTestCases (join_inputs (getTestsOrTags config) true)));
              mret (mk_Totals (-1) (assertions totals) (testCases totals))
            else mret totals);
  _ ← group_ended (config_name config) totals 1 1;
  mret totals.
End session.
