(* ===== verification/CatchRunProps.v ===== *)
(** * Properties of Catch's run context: assertions, messages, the loop over the tests *)
From stdpp Require Import strings list.
From S2P Require Import Prelude CatchString CatchTest CatchResult CatchTracker CatchRun CatchSections.

(** ** Messages *)

(** What clearing the scoped messages leaves of the messages. *)
Definition without_scoped (scopes ms : list MessageInfo) : list MessageInfo :=
  foldl (λ ms m, List.filter (λ x, negb (message_eq x m)) ms) ms scopes.

Lemma pop_all_eq scopes : ∀ r, pop_all scopes r =
  Done (inr tt, set_messages (without_scoped scopes (m_messages r)) (m_messageScopes r) r).
Proof.
  induction scopes as [|m scopes IH]; intros r; [by destruct r|].
  cbn [pop_all]. eapply ex_step; [reflexivity|]. rewrite IH. done.
Qed.

Definition cleared (r : RunContext) : RunContext :=
  set_messages (if uncaught_exceptions r then m_messages r
                else without_scoped (m_messageScopes r) (m_messages r)) [] r.
Lemma clear_messageScopes_eq r : clear_messageScopes r = Done (inr tt, cleared r).
Proof.
  unfold clear_messageScopes, cleared. eapply ex_step; [reflexivity|]. cbv beta.
  destruct (uncaught_exceptions r).
  - eapply ex_step; [reflexivity|]. done.
  - eapply ex_step; [apply pop_all_eq|]. done.
Qed.

Lemma without_scoped_in scopes ms x :
  x ∈ without_scoped scopes ms ↔ x ∈ ms ∧ ∀ m, m ∈ scopes → sequence x ≠ sequence m.
Proof.
  unfold without_scoped. revert ms. induction scopes as [|m scopes IH]; intros ms; cbn [foldl].
  - split; [intros H; split; [done|by intros m ?%elem_of_nil]|by intros [? _]].
  - rewrite IH, !list_elem_of_In, filter_In. unfold message_eq.
    rewrite negb_true_iff, bool_decide_eq_false. setoid_rewrite elem_of_cons. naive_solver.
Qed.

(** ** Assertions *)
Definition reset_info (r : RunContext) : RunContext :=
  let i := m_lastAssertionInfo r in
  set_lastAssertionInfo
    (mk_AssertionInfo StringRef_empty (ai_lineInfo i)
       (literal "{Unknown expression after the reported line}") (resultDisposition i)) r.
Lemma resetAssertionInfo_eq r : resetAssertionInfo r = Done (inr tt, reset_info r).
Proof. done. Qed.

(** The statistics that go with a result: its own message comes last. *)
Lemma make_assertion_stats_eq result r : ∃ n messages,
  make_assertion_stats result r =
    Done (inr (mk_AssertionStats result (m_messages r ++ messages) (m_totals r)),
          set_globalCount n r) ∧
  List.map mi_message messages =
    if hasMessage result then [message (m_resultData result)] else [].
Proof.
  unfold make_assertion_stats. destruct (hasMessage result).
  - exists (u32 (globalCount r + 1)), [mk_MessageInfo (macroName (m_info result))
      (message (m_resultData result)) (ai_lineInfo (m_info result)) (getResultType result)
      (u32 (globalCount r + 1))]. by destruct r.
  - exists (globalCount r), []. split; [|done]. eapply ex_step; [reflexivity|]. rewrite app_nil_r.
    by destruct r.
Qed.

(** How an assertion's result counts: for a test that may fail, its failures do not matter. *)
Definition counted (t : TestCaseInfo) (result : AssertionResult) (c : Counts) : Counts :=
  if decide (getResultType result = Ok) then count_passed c
  else if result_isOk result then c
  else if okToFail t then count_failedButOk c else count_failed c.

Lemma result_ok_isOk result : getResultType result = Ok → result_isOk result = true.
Proof. unfold result_isOk, getResultType. intros ->. done. Qed.

(** The state [assertionEnded] leaves. *)
Definition after_count (t : TestCaseInfo) (result : AssertionResult) (r : RunContext) : RunContext :=
  set_lastAssertionPassed (result_isOk result)
    (set_totals (mk_Totals (error (m_totals r)) (counted t result (assertions (m_totals r)))
       (testCases (m_totals r))) r).
Definition after_report (result : AssertionResult) (stats : AssertionStats) (n : Z) (r : RunContext)
    : RunContext :=
  let r := report (assertionEnded_ stats) (set_globalCount n r) in
  set_lastResult (Some (copy_result result))
    (reset_info (if decide (getResultType result ≠ Warning) then cleared r else r)).

Lemma after_report_reporter result stats n r :
  m_reporter (after_report result stats n r) = m_reporter r ++ [assertionEnded_ stats].
Proof. unfold after_report. by destruct (decide _). Qed.

Lemma assertionEnded_eq result r t : m_activeTestCase r = Some t →
  ∃ n messages,
    assertionEnded result r =
      Done (inr tt, after_report result
        (mk_AssertionStats result (m_messages r ++ messages) (m_totals (after_count t result r))) n
        (after_count t result r)) ∧
    List.map mi_message messages =
      if hasMessage result then [message (m_resultData result)] else [].
Proof.
  intros Ht. destruct (make_assertion_stats_eq result (after_count t result r)) as (n & messages & Hs & Hm).
  exists n, messages. split; [|exact Hm].
  unfold assertionEnded. eapply ex_step with (a := tt) (s' := after_count t result r).
  - unfold after_count, counted. destruct (decide (getResultType result = Ok)) as [E|E].
    + eapply ex_step; [reflexivity|]. by rewrite result_ok_isOk.
    + destruct (result_isOk result); cbn [negb].
      * destruct r as [????[??[]]???????????]. done.
      * eapply ex_step; [reflexivity|]. eapply ex_step; [reflexivity|].
        eapply ex_step with (a := t); [cbn; by rewrite Ht|]. cbv beta. by destruct (okToFail t).
  - eapply ex_step; [exact Hs|]. eapply ex_step; [reflexivity|]. cbv beta.
    set (r2 := report _ _).
    eapply ex_step with (a := tt)
      (s' := if decide (getResultType result ≠ Warning) then cleared r2 else r2).
    + destruct (decide _); [apply clear_messageScopes_eq|done].
    + eapply ex_step; [reflexivity|]. done.
Qed.

(** Property (functional): the end of an assertion in a running test counts it exactly once, as its
    result and the test's tags demand, tells the reporter with the totals so updated and the
    messages in scope, remembers the result and, unless it was a warning, leaves no message
    scope behind. *)
Theorem assertion_ended_counts result r t :
  m_activeTestCase r = Some t →
  ∃ r' stats,
    assertionEnded result r = Done (inr tt, r') ∧
    m_totals r' = mk_Totals (error (m_totals r)) (counted t result (assertions (m_totals r)))
                    (testCases (m_totals r)) ∧
    m_lastAssertionPassed r' = result_isOk result ∧
    m_reporter r' = m_reporter r ++ [assertionEnded_ stats] ∧
    assertionResult stats = result ∧ as_totals stats = m_totals r' ∧
    List.map mi_message (infoMessages stats) = List.map mi_message (m_messages r) ++
      (if hasMessage result then [message (m_resultData result)] else []) ∧
    m_lastResult r' = Some (copy_result result) ∧
    m_trackerContext r' = m_trackerContext r ∧
    (getResultType result ≠ Warning → m_messageScopes r' = []) ∧
    (getResultType result = Warning → m_messages r' = m_messages r ∧
       m_messageScopes r' = m_messageScopes r).
Proof.
  intros Ht. destruct (assertionEnded_eq result r t Ht) as (n & messages & He & Hm).
  eexists _, (mk_AssertionStats result (m_messages r ++ messages) (m_totals (after_count t result r))).
  split; [exact He|]. unfold after_report, cleared.
  destruct (decide (getResultType result ≠ Warning)); cbn -[counted List.map];
    rewrite List.map_app, Hm; split_and!; try done; by intros [].
Qed.

(** A run for the examples, in a test that should fail. *)
Definition sample_config : run_config :=
  mk_run_config (mk_IConfig InDeclarationOrder true (λ l, l)) (str "tests") (-1) false false false
    true false [] [] [str "[kv]"].
Definition failing_info : TestCaseInfo :=
  mk_TestCaseInfo (str "refused put") [] [] [str "!shouldfail"] [str "!shouldfail"]
    (mk_SourceLineInfo (str "test.cpp") 7) ShouldFail.
Definition sample_run : RunContext :=
  set_activeTestCase (Some failing_info) (make_run_context sample_config).

Lemma assertion_ended_counts_witness : ∃ r',
  assertionEnded (make_result no_assertion ExpressionFailed false (str "why")) sample_run =
    Done (inr tt, r') ∧ assertions (m_totals r') = mk_Counts 0 0 1 ∧ m_messageScopes r' = [].
Proof.
  destruct (assertion_ended_counts (make_result no_assertion ExpressionFailed false (str "why"))
    sample_run failing_info eq_refl) as (r' & stats & H & Ht & _ & _ & _ & _ & _ & _ & _ & Hw & _).
  exists r'. split; [exact H|]. rewrite Ht. split; [reflexivity|]. by apply Hw.
Defined.

(** ** The loop over the test cases *)
Definition skip_all (ts : list TestCase) (r : RunContext) : RunContext :=
  foldl (λ r t, report (skipTest (info t)) r) r ts.

Lemma skip_all_config ts r : m_config (skip_all ts r) = m_config r ∧
  m_totals (skip_all ts r) = m_totals r ∧
  m_reporter (skip_all ts r) = m_reporter r ++ List.map (λ t, skipTest (info t)) ts.
Proof.
  revert r. induction ts as [|t ts IH]; intros r; [by cbn; rewrite app_nil_r|].
  change (skip_all (t :: ts) r) with (skip_all ts (report (skipTest (info t)) r)).
  destruct (IH (report (skipTest (info t)) r)) as (-> & -> & ->).
  cbn. by rewrite <-app_assoc.
Qed.

Lemma run_cases_skip run_case ts : ∀ totals r,
  (aborting r = true ∨ Forall (λ t, selected (m_config r) t = false) ts) →
  run_cases run_case ts totals r = Done (inr totals, skip_all ts r).
Proof.
  induction ts as [|t ts IH]; intros totals r Hr; [done|]. cbn [run_cases].
  eapply ex_step; [reflexivity|]. cbv beta.
  assert (negb (aborting r) && selected (m_config r) t = false) as ->.
  { destruct Hr as [->|Hr]; [done|]. apply Forall_cons_1 in Hr as [-> _]. by rewrite andb_false_r. }
  eapply ex_step with (a := totals) (s' := report (skipTest (info t)) r); [reflexivity|].
  apply IH. destruct Hr as [Hr|Hr]; [left; exact Hr|right]. by apply Forall_cons_1 in Hr as [_ Hr].
Qed.

Lemma run_none run_case ts r :
  aborting r = true ∨ Forall (λ t, selected (m_config r) t = false) ts →
  ∃ r', runTests run_case ts r =
      Done (inr (mk_Totals (if warnAboutNoTests (m_config r) then -1 else 0) no_counts no_counts), r') ∧
    m_totals r' = m_totals r ∧
    m_reporter r' = m_reporter r ++ [testGroupStarting (config_name (m_config r)) 1 1] ++
      List.map (λ t, skipTest (info t)) ts ++
      (if warnAboutNoTests (m_config r)
       then [noMatchingTestCases (join_inputs (getTestsOrTags (m_config r)) true)] else []) ++
      [testGroupEnded_ (config_name (m_config r)) 1 1
         (mk_Totals (if warnAboutNoTests (m_config r) then -1 else 0) no_counts no_counts)
         (aborting r)].
Proof.
  intros Hr. set (r1 := report (testGroupStarting (config_name (m_config r)) 1 1) r).
  destruct (skip_all_config ts r1) as (Hc & Ht & He).
  set (w := warnAboutNoTests (m_config r)).
  set (r2 := if w then report (noMatchingTestCases (join_inputs (getTestsOrTags (m_config r)) true))
                         (skip_all ts r1) else skip_all ts r1).
  eexists. split; [|split].
  - unfold runTests. eapply ex_step; [reflexivity|]. cbv beta zeta.
    eapply ex_step; [reflexivity|].
    eapply ex_step; [apply (run_cases_skip run_case ts no_totals r1 Hr)|]. cbv beta. fold w.
    eapply ex_step with (a := mk_Totals (if w then -1 else 0) no_counts no_counts) (s' := r2).
    { unfold r2. by destruct w. }
    eapply ex_step; [reflexivity|]. reflexivity.
  - cbn. unfold r2. destruct w; cbn; by rewrite Ht.
  - unfold aborting. cbn. fold w. unfold r2.
    destruct w; cbn; rewrite He, ?Hc, ?Ht; cbn; by rewrite <-!app_assoc.
Qed.

(** Property (error): when no test case is selected, or the run has failed too often already, nothing
    is run: every test case is reported as skipped, in order, the totals are empty, and the
    result is the error -1 exactly if the configuration warns about that. *)
Theorem no_test_selected run_case ts r :
  aborting r = true ∨ Forall (λ t, selected (m_config r) t = false) ts →
  ∃ r', runTests run_case ts r =
      Done (inr (mk_Totals (if warnAboutNoTests (m_config r) then -1 else 0) no_counts no_counts), r') ∧
    m_totals r' = m_totals r ∧
    m_reporter r' = m_reporter r ++ [testGroupStarting (config_name (m_config r)) 1 1] ++
      List.map (λ t, skipTest (info t)) ts ++
      (if warnAboutNoTests (m_config r)
       then [noMatchingTestCases (join_inputs (getTestsOrTags (m_config r)) true)] else []) ++
      [testGroupEnded_ (config_name (m_config r)) 1 1
         (mk_Totals (if warnAboutNoTests (m_config r) then -1 else 0) no_counts no_counts)
         (aborting r)].
Proof. apply run_none. Qed.

Lemma no_test_selected_witness : ∃ r',
  runTests (λ _, ex_undefined) [mk_TestCase failing_info 0] (set_totals (mk_Totals 0 (mk_Counts 0 18446744073709551615 0) no_counts) sample_run) =
    Done (inr (mk_Totals (-1) no_counts no_counts), r').
Proof.
  destruct (no_test_selected (λ _, ex_undefined) [mk_TestCase failing_info 0]
    (set_totals (mk_Totals 0 (mk_Counts 0 18446744073709551615 0) no_counts) sample_run)) as (r' & H & _);
    [left; reflexivity|by exists r'].
Defined.
