(* ===== verification/CatchRunSections.v ===== *)
(** * Catch: running a test case made of sections

    The run context drives the trackers exactly as CatchSections does, so a test case whose
    sections all pass ends by itself, with the assertion of every leaf counted once. *)
From stdpp Require Import strings list.
From S2P Require Import Prelude CatchString CatchTest CatchResult CatchTracker CatchRun.
From S2P Require Import CatchSections CatchRunProps.

(** ** The body of a test case *)
Definition seq_body (a b : body) : body := λ r,
  match a r with Done (Returned, r) => b r | o => o end.

Section bodies.
Context (depth : nat) (check : body).

(** A tree of sections as code: each leaf makes one check. *)
Fixpoint section_body (s : section) : body :=
  let 'Sec nl subs := s in
  in_section depth (mk_SectionInfo (nl_name nl) (location nl))
    match subs with
    | [] => check
    | _ => (fix all (subs : list section) : body :=
              match subs with
              | [] => λ r, Done (Returned, r)
              | s :: subs => seq_body (section_body s) (all subs)
              end) subs
    end.

Fixpoint sections_body (subs : list section) : body :=
  match subs with
  | [] => λ r, Done (Returned, r)
  | s :: subs => seq_body (section_body s) (sections_body subs)
  end.

(** The code of the test case itself. *)
Definition test_body (s : section) : body :=
  match sec_subs s with [] => check | subs => sections_body subs end.

Lemma section_body_Sec s : section_body s =
  in_section depth (mk_SectionInfo (nl_name (sec_name s)) (location (sec_name s))) (test_body s).
Proof. by destruct s as [nl []]. Qed.
End bodies.

(** ** The events of a test case

    Events that neither begin nor end anything, assertions of which [P] holds, and sections with
    such events in them, none of them reported for having no assertions. *)
Definition ignored (e : event) : bool :=
  match e with
  | assertionStarting _ | skipTest _ | noMatchingTestCases _ | fatalErrorEncountered _ => true
  | _ => false
  end.

Inductive nested (P : AssertionStats → Prop) : list event → Prop :=
| nested_done : nested P []
| nested_ignored e es : ignored e = true → nested P es → nested P (e :: es)
| nested_assertion stats es : P stats → nested P es → nested P (assertionEnded_ stats :: es)
| nested_section s c inner es : nested P inner → nested P es →
    nested P (sectionStarting s :: inner ++ sectionEnded_ s c false :: es).

Lemma nested_app P a b : nested P a → nested P b → nested P (a ++ b).
Proof.
  intros Ha Hb. induction Ha as [|e es He _ IH|stats es Hs _ IH|s c inner es Hi _ _ IH]; [done| | |].
  - by apply nested_ignored.
  - by apply nested_assertion.
  - cbn. rewrite <-app_assoc. by apply nested_section.
Qed.

(** The events of a test case as a whole: one outermost section or more. *)
Inductive cycled (P : AssertionStats → Prop) : list event → Prop :=
| cycled_last s c inner : nested P inner → cycled P (sectionStarting s :: inner ++ [sectionEnded_ s c false])
| cycled_more s c inner es : nested P inner → cycled P es →
    cycled P (sectionStarting s :: inner ++ sectionEnded_ s c false :: es).

Lemma cycled_nested P es : cycled P es → nested P es.
Proof. induction 1; apply nested_section; try done. constructor. Qed.

(** The assertions that check one expression and pass. *)
Definition checks (info : AssertionInfo) (stats : AssertionStats) : Prop :=
  m_info (assertionResult stats) = info ∧ getResultType (assertionResult stats) = Ok.

Section passing.
Context (P : AssertionStats → Prop).

(** What a run tells the reporter on the way from [r] to [r']. *)
Definition sends (r r' : RunContext) : Prop := ∃ es, m_reporter r' = m_reporter r ++ es ∧ nested P es.
Lemma sends_refl r r' : m_reporter r' = m_reporter r → sends r r'.
Proof. intros E. exists []. rewrite app_nil_r. split; [done|constructor]. Qed.
Lemma sends_trans r1 r2 r3 : sends r1 r2 → sends r2 r3 → sends r1 r3.
Proof.
  intros (a & Ea & Ha) (b & Eb & Hb). exists (a ++ b). rewrite Eb, Ea, app_assoc.
  split; [done|by apply nested_app].
Qed.
Lemma sends_section s c r r1 r2 r' : m_reporter r1 = m_reporter r ++ [sectionStarting s] →
  sends r1 r2 → m_reporter r' = m_reporter r2 ++ [sectionEnded_ s c false] → sends r r'.
Proof.
  intros E1 (es & E2 & He) E3. exists (sectionStarting s :: es ++ [sectionEnded_ s c false]).
  split; [|apply nested_section; [done|constructor]].
  rewrite E3, E2, E1, <-!app_assoc. done.
Qed.

(** The same for one outermost section, and for several. *)
Definition sends_cycle (r r' : RunContext) : Prop := ∃ s c es,
  m_reporter r' = m_reporter r ++ sectionStarting s :: es ++ [sectionEnded_ s c false] ∧ nested P es.
Definition sends_cycles (r r' : RunContext) : Prop := ∃ es, m_reporter r' = m_reporter r ++ es ∧ cycled P es.
Lemma sends_cycle_last r r1 r' : sends_cycle r r1 → m_reporter r' = m_reporter r1 → sends_cycles r r'.
Proof.
  intros (s & c & es & E & H) E'. eexists. split; [by rewrite E', E|by apply cycled_last].
Qed.
Lemma sends_cycle_more r r1 r2 r' : sends_cycle r r1 → m_reporter r2 = m_reporter r1 →
  sends_cycles r2 r' → sends_cycles r r'.
Proof.
  intros (s & c & es & E & H) E2 (es' & E' & H'). eexists. split; [|by apply (cycled_more P s c es es')].
  rewrite E', E2, E, <-app_assoc. cbn. by rewrite <-app_assoc.
Qed.

(** ** What passing code leaves unchanged *)
Fixpoint pass (n : nat) (c : Counts) : Counts :=
  match n with O => c | S n => count_passed (pass n c) end.

Record quiet (n : nat) (r r' : RunContext) : Prop := {
  q_config : m_config r' = m_config r;
  q_test : m_activeTestCase r' = m_activeTestCase r;
  q_tracker : m_testCaseTracker r' = m_testCaseTracker r;
  q_error : error (m_totals r') = error (m_totals r);
  q_cases : testCases (m_totals r') = testCases (m_totals r);
  q_count : assertions (m_totals r') = pass n (assertions (m_totals r));
  q_unfinished : m_unfinishedSections r' = m_unfinishedSections r;
  q_active : m_activeSections r' = m_activeSections r;
  q_uncaught : uncaught_exceptions r' = uncaught_exceptions r;
  q_events : sends r r'
}.

Lemma pass_add m n c : pass m (pass n c) = pass (m + n) c.
Proof. induction m as [|m IH]; [done|]. cbn. by rewrite IH. Qed.
Lemma pass_failed n c : failed (pass n c) = failed c ∧ failedButOk (pass n c) = failedButOk c.
Proof. induction n as [|n [IH1 IH2]]; [done|]. cbn. by rewrite IH1, IH2. Qed.
Lemma pass_passed n c : is_u64 (passed c) → passed (pass n c) = u64 (passed c + Z.of_nat n).
Proof.
  intros Hc. induction n as [|n IH]; [cbn; rewrite Z.add_0_r; by rewrite u64_id|].
  cbn [pass count_passed passed]. rewrite IH. word_lia.
Qed.

Lemma quiet_trans m n r1 r2 r3 : quiet m r1 r2 → quiet n r2 r3 → quiet (m + n) r1 r3.
Proof.
  intros [] []. split; try congruence; [|by eapply sends_trans].
  rewrite Nat.add_comm, <-pass_add. congruence.
Qed.
Lemma quiet_aborting n r r' : quiet n r r' → aborting r' = aborting r.
Proof. intros []. unfold aborting. rewrite q_config0, q_count0. by destruct (pass_failed n (assertions (m_totals r))) as [-> _]. Qed.

(** A body that passes [n] checks and brings the trackers from [c] to [c']. *)
Definition passes (b : body) (n : nat) (c c' : TrackerContext) : Prop := ∀ r,
  m_trackerContext r = c → uncaught_exceptions r = false → is_Some (m_activeTestCase r) →
  warnAboutMissingAssertions (m_config r) = false →
  ∃ r', b r = Done (Returned, r') ∧ quiet n r r' ∧ m_trackerContext r' = c'.

Lemma passes_seq a b m n c1 c2 c3 : passes a m c1 c2 → passes b n c2 c3 →
  passes (seq_body a b) (m + n) c1 c3.
Proof.
  intros Ha Hb r Hc Hu Ht Hw. destruct (Ha r Hc Hu Ht Hw) as (r2 & E2 & Q2 & T2).
  pose proof Q2 as [Qc Qt _ _ _ _ _ _ Qu _].
  destruct (Hb r2 T2) as (r3 & E3 & Q3 & T3); [congruence|by rewrite Qt|by rewrite Qc|].
  exists r3. unfold seq_body. rewrite E2, E3. split; [done|]. split; [|done]. by eapply quiet_trans.
Qed.

(** ** A check that passes *)
Lemma check_passes info expr c : (∀ stats, checks info stats → P stats) →
  getResult expr = negb (isFalseTest (resultDisposition info)) →
  passes (internal_catch_test info expr) 1 c c.
Proof.
  intros HP He r Hc Hu [t Ht] Hw. unfold internal_catch_test.
  assert (∃ r', handleExpr info expr r = Done (inr None, r') ∧ quiet 1 r r' ∧
    m_trackerContext r' = c) as (r' & -> & Q & T); [|by exists r'].
  assert (negb (Bool.eqb (getResult expr) (isFalseTest (resultDisposition info))) = true) as Hn
    by (rewrite He; by destruct (isFalseTest _)).
  set (r1 := report (assertionStarting info) r).
  destruct (m_includeSuccessfulResults r1) eqn:Ei.
  - set (res := mk_AssertionResult info (mk_AssertionResultData [] []
      (mk_LazyExpression (Some expr) (isFalseTest (resultDisposition info))) Ok)).
    set (r2 := set_lastAssertionInfo info r1).
    destruct (assertionEnded_eq res r2 t Ht) as (n & messages & Ha & _).
    eexists. split.
    + unfold handleExpr. eapply ex_step; [reflexivity|]. cbv zeta. rewrite Hn.
      eapply ex_step; [reflexivity|]. fold r1. rewrite Ei. cbn [negb].
      eapply ex_step; [|reflexivity]. unfold reportExpr. eapply ex_step; [reflexivity|]. exact Ha.
    + split; [|exact Hc]. split; try done.
      exists [assertionStarting info; assertionEnded_ (mk_AssertionStats res (m_messages r2 ++ messages)
        (m_totals (after_count t res r2)))]. split.
      * rewrite after_report_reporter. cbn. by rewrite <-app_assoc.
      * apply nested_ignored; [done|]. apply nested_assertion; [by apply HP|constructor].
  - exists (cleared (reset_info (set_assertions count_passed (set_lastAssertionPassed true r1)))). split.
    + unfold handleExpr. eapply ex_step; [reflexivity|]. cbv zeta. rewrite Hn.
      eapply ex_step; [reflexivity|]. fold r1. rewrite Ei. cbn [negb].
      eapply ex_step; [|reflexivity]. unfold assertionPassed. do 3 (eapply ex_step; [reflexivity|]).
      apply clear_messageScopes_eq.
    + split; [|exact Hc]. split; try done. exists [assertionStarting info]. split; [done|].
      apply nested_ignored; [done|constructor].
Qed.

(** ** Sections *)
Lemma on_trackers_eq {A} (m : ex TrackerContext A) r a c :
  m (m_trackerContext r) = Done (inr a, c) → on_trackers m r = Done (inr a, set_trackerContext c r).
Proof. intros E. unfold on_trackers. by rewrite E. Qed.

Lemma no_missing_assertions a r : warnAboutMissingAssertions (m_config r) = false →
  testForMissingAssertions a r = Done (inr (a, false), r).
Proof.
  intros Hw. unfold testForMissingAssertions. eapply ex_step; [reflexivity|]. cbv beta.
  rewrite Hw. by destruct (negb _).
Qed.

Lemma sectionEnded_eq d endInfo r i sections c' : warnAboutMissingAssertions (m_config r) = false →
  m_activeSections r = sections ++ [i] →
  tracker_close d i (m_trackerContext r) = Done (inr tt, c') →
  ∃ r' c, sectionEnded d endInfo r = Done (inr tt, r') ∧ m_trackerContext r' = c' ∧
    m_reporter r' = m_reporter r ++ [sectionEnded_ (sectionInfo endInfo) c false] ∧
    m_config r' = m_config r ∧ m_activeTestCase r' = m_activeTestCase r ∧
    m_testCaseTracker r' = m_testCaseTracker r ∧ m_totals r' = m_totals r ∧
    m_unfinishedSections r' = m_unfinishedSections r ∧ m_activeSections r' = sections ∧
    uncaught_exceptions r' = uncaught_exceptions r.
Proof.
  intros Hw Ha Hc. unfold sectionEnded.
  eexists _, _. split_and!.
  1: { eapply ex_step; [reflexivity|]. cbv beta zeta.
    eapply ex_step; [by apply no_missing_assertions|]. cbv beta iota.
    eapply ex_step; [reflexivity|]. cbv beta. rewrite Ha, rev_app_distr. cbn [rev app].
    eapply ex_step; [eapply ex_step; [by apply on_trackers_eq|]; reflexivity|].
    eapply ex_step; [reflexivity|]. eapply ex_step; [reflexivity|]. apply clear_messageScopes_eq. }
  all: try done. cbn. apply rev_involutive.
Qed.

(** The state in which the body of an entered section runs. *)
Definition section_opened (info : SectionInfo) (i : nat) (c : TrackerContext) (r : RunContext)
    : RunContext :=
  let a := m_lastAssertionInfo r in
  report (sectionStarting info)
    (set_lastAssertionInfo (mk_AssertionInfo (macroName a) (si_lineInfo info) (capturedExpression a)
       (resultDisposition a))
      (set_sections (m_unfinishedSections r) (m_activeSections r ++ [i]) (set_trackerContext c r))).

Lemma sectionStarted_eq d info r i c t :
  acquire d (mk_NameAndLocation (si_name info) (si_lineInfo info)) (m_trackerContext r) =
    Done (inr i, c) →
  get_tracker i c = Done (inr t, c) →
  sectionStarted d info r =
    if isOpen t then Done (inr (Some (assertions (m_totals r))), section_opened info i c r)
    else Done (inr None, set_trackerContext c r).
Proof.
  intros Ha Ht. unfold sectionStarted.
  destruct (isOpen t) eqn:Eo.
  - eapply ex_step; [by apply on_trackers_eq|].
    eapply ex_step; [apply on_trackers_eq; exact Ht|]. cbv beta. rewrite Eo. cbn [negb].
    do 3 (eapply ex_step; [reflexivity|]). done.
  - eapply ex_step; [by apply on_trackers_eq|].
    eapply ex_step; [apply on_trackers_eq; exact Ht|]. cbv beta. rewrite Eo. done.
Qed.

Lemma in_section_passes d nl b n c i c1 t :
  acquire d nl c = Done (inr i, c1) → get_tracker i c1 = Done (inr t, c1) →
  (isOpen t = false → passes (in_section d (mk_SectionInfo (nl_name nl) (location nl)) b) 0 c c1) ∧
  (isOpen t = true → ∀ c2 c3, passes b n c1 c2 → tracker_close d i c2 = Done (inr tt, c3) →
     passes (in_section d (mk_SectionInfo (nl_name nl) (location nl)) b) n c c3).
Proof.
  intros Ha Ht. set (info := mk_SectionInfo (nl_name nl) (location nl)).
  assert (∀ r, m_trackerContext r = c →
    sectionStarted d info r =
      if isOpen t then Done (inr (Some (assertions (m_totals r))), section_opened info i c1 r)
      else Done (inr None, set_trackerContext c1 r)) as Hs.
  { intros r Hc. apply sectionStarted_eq; [|done]. rewrite Hc. by destruct nl. }
  split; intros Ho.
  - intros r Hc _ _ _. exists (set_trackerContext c1 r). unfold in_section. rewrite Hs, Ho by done.
    split; [done|]. split; [|done]. split; try done. by apply sends_refl.
  - intros c2 c3 Hb Hclose r Hc Hu Hact Hw. unfold in_section. rewrite Hs, Ho by done.
    destruct (Hb (section_opened info i c1 r)) as (r2 & Eb & Q & T); [done..|]. rewrite Eb.
    pose proof Q as [Qc Qt Qk Qe Qs Qn Qf Qa Qu Qv].
    destruct (sectionEnded_eq d (mk_SectionEndInfo info (assertions (m_totals r))) r2 i
      (m_activeSections r) c3)
      as (r3 & cs & Ee & T3 & R3 & C3 & A3 & K3 & M3 & F3 & S3 & U3).
    { by rewrite Qc. } { done. } { by rewrite T. }
    rewrite Ee. cbn [leave]. exists r3. split; [done|]. split; [|done].
    cbn in *. split; cbn in *; try congruence.
    eapply (sends_section info); [|exact Qv|exact R3]. done.
Qed.

(** Whatever [run_section] does to the trackers, the section's code does, and each leaf entered
    is one check passed. *)
Section trees.
Context (d : nat) (check : body) (check_ok : ∀ c, passes check 1 c c).

Definition section_passes (s : section) : Prop := ∀ c l c',
  run_section d s c = Done (inr l, c') → passes (section_body d check s) (length l) c c'.

Lemma sections_body_passes subs : Forall section_passes subs → ∀ c l c',
  run_subs d subs c = Done (inr l, c') → passes (sections_body d check subs) (length l) c c'.
Proof.
  induction 1 as [|s subs Hs _ IH]; intros c l c' H.
  - injection H as <- <-. intros r Hc _ _ _. exists r. split; [done|].
    split; [|done]. split; try done. by apply sends_refl.
  - cbn [run_subs] in H. apply ex_bind_inv in H as (la & ca & Ha & H).
    apply ex_bind_inv in H as (lb & cb & Hb & H). injection H as <- <-.
    rewrite length_app. eapply passes_seq; [by apply Hs|by apply IH].
Qed.

(** The checks of the test case's code, the sections in it being fine. *)
Lemma test_body_passes nl subs : Forall section_passes subs → ∀ c l c',
  run_subs d subs c = Done (inr l, c') →
  passes (test_body d check (Sec nl subs)) (match subs with [] => 1 | _ => length l end) c c'.
Proof using check_ok.
  intros Hs c l c' H. unfold test_body. cbn [sec_subs]. destruct subs as [|s subs].
  - injection H as <- <-. apply check_ok.
  - by apply sections_body_passes.
Qed.

Lemma section_body_passes s : section_passes s.
Proof using check_ok.
  induction s as [nl subs IH] using section_ind'. intros c l c' H.
  rewrite section_body_Sec. cbn [sec_name].
  rewrite run_section_enter in H. cbn [sec_name] in H.
  apply ex_bind_inv in H as (i & c1 & Ha & H). apply ex_bind_inv in H as (t & c1' & Ht & H).
  assert (c1' = c1) as -> by (unfold get_tracker, ex_deref in Ht; by destruct (trackers c1 !! i); simplify_eq).
  destruct (isOpen t) eqn:Eo.
  - unfold enter in H. cbn [sec_subs sec_name] in H.
    apply ex_bind_inv in H as (ls & c2 & Hr & H). apply ex_bind_inv in H as ([] & c3 & Hclose & H).
    injection H as <- <-.
    apply (proj2 (in_section_passes d nl _ _ c i c1 t Ha Ht)) with c2; [done| |exact Hclose].
    destruct subs as [|s subs]; [exact (test_body_passes nl [] IH _ _ _ Hr)|].
    rewrite List.length_map. by apply (test_body_passes nl (s :: subs)).
  - injection H as <- <-. by apply (proj1 (in_section_passes d nl _ 0 c i c1 t Ha Ht)).
Qed.
End trees.

(** ** Test cases *)
Lemma runCurrentTest_passes d invoke r n c' t i c3 :
  m_activeTestCase r = Some t → m_testCaseTracker r = Some i → m_unfinishedSections r = [] →
  uncaught_exceptions r = false → warnAboutMissingAssertions (m_config r) = false →
  passes invoke n (m_trackerContext r) c' → tracker_close d i c' = Done (inr tt, c3) →
  ∃ r', runCurrentTest d invoke r = Done (inr tt, r') ∧ quiet n r r' ∧ m_trackerContext r' = c3 ∧
    sends_cycle r r'.
Proof.
  intros Ht Hi Hun Hu Hw Hb Hclose.
  set (r1 := set_lastAssertionInfo (mk_AssertionInfo (literal "TEST_CASE") (lineInfo t) StringRef_empty Normal)
    (set_shouldReportUnexpected true (report (sectionStarting (mk_SectionInfo (name t) (lineInfo t))) r))).
  destruct (Hb r1) as (r2 & Eb & Q & T); [done|done|by exists t|done|].
  pose proof Q as [Qc Qt Qk Qe Qs Qn Qf Qa Qu Qv]. cbn in *.
  eexists. split.
  - unfold runCurrentTest. eapply ex_step; [reflexivity|]. cbv beta.
    eapply ex_step with (a := t); [by rewrite Ht|]. cbv beta zeta.
    eapply ex_step; [reflexivity|]. eapply ex_step; [reflexivity|]. cbv beta zeta.
    eapply ex_step; [reflexivity|]. eapply ex_step; [reflexivity|].
    eapply ex_step with (a := Returned) (s' := set_uncaught false r2).
    { change (invokeActiveTestCase invoke r1 = Done (inr Returned, set_uncaught false r2)).
      unfold invokeActiveTestCase. by rewrite Eb. }
    eapply ex_step; [reflexivity|]. eapply ex_step; [reflexivity|].
    eapply ex_step; [reflexivity|]. cbv beta zeta.
    eapply ex_step; [by apply no_missing_assertions; cbn; rewrite Qc|]. cbv beta iota.
    eapply ex_step; [reflexivity|]. cbv beta.
    eapply ex_step with (a := i) (s' := set_uncaught false r2); [cbn; by rewrite Qk, Hi|].
    eapply ex_step; [apply on_trackers_eq; cbn; by rewrite T|].
    eapply ex_step with (a := tt) (s' := set_sections [] (m_activeSections r2)
      (set_trackerContext c3 (set_uncaught false r2))).
    { unfold handleUnfinishedSections. eapply ex_step; [reflexivity|]. cbn. by rewrite Qf, Hun. }
    eapply ex_step; [reflexivity|]. eapply ex_step; [apply clear_messageScopes_eq|]. reflexivity.
  - split; [|split; [done|]]. { split; cbn; try congruence.
      eapply (sends_section (mk_SectionInfo (name t) (lineInfo t))); [|exact Qv|]; done. }
    destruct Qv as (es & Ees & Hes). eexists (mk_SectionInfo (name t) (lineInfo t)), _, es.
    split; [|exact Hes]. cbn. rewrite Ees. cbn. by rewrite <-!app_assoc.
Qed.

Lemma cycles_pass d check s testInfo : (∀ c, passes check 1 c c) →
  sec_name s = mk_NameAndLocation (name testInfo) (lineInfo testInfo) → ∀ fuel r ls c',
  m_activeTestCase r = Some testInfo → m_unfinishedSections r = [] →
  uncaught_exceptions r = false → warnAboutMissingAssertions (m_config r) = false →
  aborting r = false →
  run_cycles d fuel s (m_trackerContext r) = Done (inr ls, c') →
  ∃ r', cycles d (test_body d check s) fuel testInfo r = Done (inr tt, r') ∧
    quiet (length (List.concat ls)) (set_testCaseTracker (m_testCaseTracker r') r) r' ∧
    m_trackerContext r' = c' ∧ sends_cycles r r'.
Proof.
  intros Hcheck Hname. destruct s as [nl subs]. cbn in Hname. subst nl.
  induction fuel as [|fuel IH]; intros r ls c' Ht Hun Hu Hw Hab H; [done|].
  cbn [run_cycles sec_name] in H.
  apply ex_bind_inv in H as ([] & c1 & Hs & H). injection Hs as <-.
  apply ex_bind_inv in H as (i & c2 & Ha & H). apply ex_bind_inv in H as (l & c4 & He & H).
  apply ex_bind_inv in H as (t & c5 & Hg & H).
  assert (c5 = c4) as -> by (unfold get_tracker, ex_deref in Hg; by destruct (trackers c4 !! i); simplify_eq).
  unfold enter in He. cbn [sec_subs sec_name] in He.
  apply ex_bind_inv in He as (la & c3 & Hr & He). apply ex_bind_inv in He as ([] & c6 & Hclose & He).
  injection He as <- ->.
  assert (length (match subs with [] => [[mk_NameAndLocation (name testInfo) (lineInfo testInfo)]]
    | _ => List.map (cons (mk_NameAndLocation (name testInfo) (lineInfo testInfo))) la end) =
    match subs with [] => 1 | _ => length la end)%nat as Hlen
    by (destruct subs; [done|apply List.length_map]).
  set (r1 := set_testCaseTracker (Some i) (set_trackerContext c2 r)).
  destruct (runCurrentTest_passes d (test_body d check (Sec (mk_NameAndLocation (name testInfo) (lineInfo testInfo)) subs))
    r1 (match subs with [] => 1 | _ => length la end) c3 testInfo i c4) as (r2 & E2 & Q2 & T2 & S2);
    [done|done|done|done|done| |done|].
  { apply test_body_passes; [done| |done]. apply Forall_forall. intros. by apply section_body_passes. }
  assert (aborting r2 = false) as Hab2 by (rewrite (quiet_aborting _ _ _ Q2); exact Hab).
  pose proof Q2 as [Qc Qt Qk Qe Qs Qn Qf Qa Qu Qv]. cbn in *.
  destruct (isSuccessfullyCompleted t) eqn:Et.
  - injection H as <- <-. exists (set_trackerContext c4 r2). split; [|split; [|split; [done|by eapply sends_cycle_last]]].
    + cbn [cycles]. eapply ex_step; [by apply on_trackers_eq|].
      eapply ex_step; [by apply on_trackers_eq|]. eapply ex_step; [reflexivity|].
      eapply ex_step; [exact E2|]. eapply ex_step; [apply on_trackers_eq; rewrite T2; exact Hg|].
      eapply ex_step; [reflexivity|]. cbv beta. by rewrite Et.
    + cbn [List.concat]. rewrite app_nil_r, Hlen. destruct Q2. cbn in *. split; cbn; try congruence. exact q_events0.
  - apply ex_bind_inv in H as (rest & c7 & Hrest & H). injection H as <- <-.
    destruct (IH (set_trackerContext c4 r2) rest c7) as (r3 & E3 & Q3 & T3 & S3);
      [cbn; congruence|cbn; congruence|cbn; congruence|by cbn; rewrite Qc|exact Hab2|exact Hrest|].
    exists r3. split; [|split; [|split; [done|by eapply sends_cycle_more]]].
    + cbn [cycles]. eapply ex_step; [by apply on_trackers_eq|].
      eapply ex_step; [by apply on_trackers_eq|]. eapply ex_step; [reflexivity|].
      eapply ex_step; [exact E2|]. eapply ex_step; [apply on_trackers_eq; rewrite T2; exact Hg|].
      eapply ex_step; [reflexivity|]. cbv beta. rewrite Et. cbn [negb andb].
      assert (aborting (set_trackerContext c4 r2) = false) as -> by exact Hab2. exact E3.
    + cbn [List.concat]. rewrite length_app, Hlen. destruct Q3. cbn in *.
      split; cbn; try congruence; [rewrite Nat.add_comm, <-pass_add; congruence|].
      by apply (sends_trans _ (set_trackerContext c4 r2)).
Qed.
End passing.

Lemma delta_passed prev n : 0 ≤ n < u64_modulus → counts_sub
  (mk_Counts (u64 (passed prev + n)) (failed prev) (failedButOk prev)) prev = mk_Counts n 0 0.
Proof.
  intros Hn. unfold counts_sub. cbn. rewrite !Z.sub_diag. f_equal.
  transitivity (u64 n); [word_lia|by apply u64_id].
Qed.

(** What holds of a run between two test cases, if all goes well. *)
Record between_tests (r : RunContext) : Prop := {
  b_unfinished : m_unfinishedSections r = [];
  b_uncaught : uncaught_exceptions r = false;
  b_warn : warnAboutMissingAssertions (m_config r) = false;
  b_sections : getSectionsToRun (m_config r) = [];
  b_aborting : aborting r = false;
  b_passed : is_u64 (passed (assertions (m_totals r)))
}.

Definition passed_test (n : nat) : Totals := mk_Totals 0 (mk_Counts (Z.of_nat n) 0 0) (mk_Counts 1 0 0).

(** What a test case comes to when its assertions counted [c]: a failed one, one that failed as it
    may, or a passed one - which is a failed one, with one more failed assertion, if it should have
    failed. *)
Definition verdict (t : TestCaseInfo) (c : Counts) : Totals :=
  if decide (0 < failed c) then mk_Totals 0 c (mk_Counts 0 1 0)
  else if decide (0 < failedButOk c) then mk_Totals 0 c (mk_Counts 0 0 1)
  else if expectedToFail t then mk_Totals 0 (count_failed c) (mk_Counts 0 1 0)
  else mk_Totals 0 c (mk_Counts 1 0 0).

Lemma verdict_adjusts t c : adjust_expected t (mk_Totals 0 c
    (if decide (0 < failed c) then mk_Counts 0 1 0
     else if decide (0 < failedButOk c) then mk_Counts 0 0 1 else mk_Counts 1 0 0)) = verdict t c.
Proof.
  unfold verdict, adjust_expected. destruct (expectedToFail t); [|by repeat case_decide].
  by repeat case_decide.
Qed.
Lemma verdict_passed t n : expectedToFail t = false → verdict t (mk_Counts (Z.of_nat n) 0 0) = passed_test n.
Proof. intros Ht. unfold verdict. by rewrite Ht. Qed.

Lemma delta_passes P n (r r' : RunContext) : quiet P n r r' →
  Z.of_nat n < u64_modulus → is_u64 (passed (assertions (m_totals r))) →
  assertions (m_totals r') = mk_Counts (u64 (passed (assertions (m_totals r)) + Z.of_nat n))
    (failed (assertions (m_totals r))) (failedButOk (assertions (m_totals r))) ∧
  delta (m_totals r') (m_totals r) = passed_test n.
Proof.
  intros [_ _ _ _ Qs Qn _ _ _ _] Hn Hp.
  destruct (pass_failed n (assertions (m_totals r))) as [Hf Ho].
  assert (assertions (m_totals r') = mk_Counts (u64 (passed (assertions (m_totals r)) + Z.of_nat n))
    (failed (assertions (m_totals r))) (failedButOk (assertions (m_totals r)))) as Ha.
  { rewrite Qn, <-(pass_passed _ _ Hp), <-Hf, <-Ho. by destruct (pass _ _). }
  split; [exact Ha|]. unfold delta, totals_sub. cbn [error assertions testCases].
  by rewrite Ha, delta_passed, Qs, counts_sub_self by lia.
Qed.

(** [runTest] around its loop. *)
Definition test_started (internal_lineinfo : SourceLineInfo) (testInfo : TestCaseInfo) (r : RunContext) : RunContext :=
  set_trackerContext
    (mk_TrackerContext [root_tracker (mk_NameAndLocation (str "{root}") internal_lineinfo) [] NotStarted]
       (Some 0%nat) None Run_Executing)
    (set_activeTestCase (Some testInfo) (report (testCaseStarting testInfo) r)).
Definition test_ended (testInfo : TestCaseInfo) (d : Totals) (r : RunContext) : RunContext :=
  let r := set_totals (mk_Totals (error (m_totals r)) (assertions (m_totals r))
             (counts_add (testCases (m_totals r)) (testCases d))) r in
  set_testCaseTracker None (set_activeTestCase None (report (testCaseEnded testInfo d (aborting r)) r)).

Lemma runTest_eq depth invoke fuel internal_lineinfo testInfo r r2 : getSectionsToRun (m_config r) = [] →
  cycles depth invoke fuel testInfo (test_started internal_lineinfo testInfo r) = Done (inr tt, r2) →
  let d := adjust_expected testInfo (delta (m_totals r2) (m_totals r)) in
  runTest depth invoke fuel internal_lineinfo testInfo r = Done (inr d, test_ended testInfo d r2).
Proof.
  intros Hsec Hcyc d. unfold runTest. eapply ex_step; [reflexivity|]. cbv beta zeta.
  set (r1 := set_activeTestCase (Some testInfo) (report (testCaseStarting testInfo) r)).
  eapply ex_step; [reflexivity|]. eapply ex_step; [reflexivity|].
  eapply ex_step; [exact (on_trackers_eq (startRun internal_lineinfo) r1 _ _ eq_refl)|]. cbv beta.
  eapply ex_step; [reflexivity|]. cbv beta.
  eapply ex_step with (a := tt) (s' := test_started internal_lineinfo testInfo r).
  { cbn [m_config r1 set_trackerContext set_activeTestCase report]. rewrite Hsec. done. }
  eapply ex_step; [exact Hcyc|]. eapply ex_step; [reflexivity|]. cbv beta zeta. fold d.
  do 4 (eapply ex_step; [reflexivity|]; cbv beta). reflexivity.
Qed.

Lemma runTest_sections d s testInfo check_info expr fuel internal_lineinfo r :
  getResult expr = negb (isFalseTest (resultDisposition check_info)) →
  sec_name s = mk_NameAndLocation (name testInfo) (lineInfo testInfo) → distinct s →
  (leaves s ≤ fuel)%nat → (2 ≤ d)%nat → Z.of_nat (leaves s) < u64_modulus → between_tests r →
  let totals := verdict testInfo (mk_Counts (Z.of_nat (leaves s)) 0 0) in
  ∃ r' es, runTest d (test_body d (internal_catch_test check_info expr) s) fuel internal_lineinfo
          testInfo r = Done (inr totals, r') ∧
    assertions (m_totals r') = mk_Counts (u64 (passed (assertions (m_totals r)) + Z.of_nat (leaves s)))
      (failed (assertions (m_totals r))) (failedButOk (assertions (m_totals r))) ∧
    testCases (m_totals r') = counts_add (testCases (m_totals r)) (testCases totals) ∧
    between_tests r' ∧ m_config r' = m_config r ∧
    m_reporter r' = m_reporter r ++ testCaseStarting testInfo :: es ++ [testCaseEnded testInfo totals false] ∧
    cycled (checks check_info) es.
Proof.
  intros Hexpr Hname Hdis Hfuel Hd Hn [Hun Hu Hw Hsec Hab Hp64] totals.
  set (r1 := set_activeTestCase (Some testInfo) (report (testCaseStarting testInfo) r)).
  destruct (run_test_cycles s internal_lineinfo fuel d (m_trackerContext r1) Hdis Hfuel Hd) as [c' Hc].
  unfold run_test in Hc. apply ex_bind_inv in Hc as (root & c1 & Hstart & Hc).
  pose proof Hstart as Hstart'. injection Hstart' as <- <-. cbv beta in Hc.
  set (c0 := mk_TrackerContext _ _ _ _) in *.
  destruct (cycles_pass (checks check_info) d (internal_catch_test check_info expr) s testInfo
    (λ c, check_passes _ check_info expr c (λ _ H, H) Hexpr) Hname fuel (set_trackerContext c0 r1) _ _
    eq_refl Hun Hu Hw Hab Hc) as (r2 & Hcyc & Q & T & Scyc).
  assert (length (List.concat (List.map (λ p, [p]) (leaf_paths s))) = leaves s) as Hlen.
  { rewrite <-length_leaf_paths. clear. induction (leaf_paths s) as [|p l IH]; [done|]. cbn. by rewrite IH. }
  rewrite Hlen in Q. pose proof Q as [Qc Qt Qk Qe Qs Qn Qf Qa Qu Qv]. cbn in *.
  destruct (delta_passes _ (leaves s) _ _ Q Hn Hp64) as [Ha Hdelta]. cbn in Ha, Hdelta.
  assert (adjust_expected testInfo (delta (m_totals r2) (m_totals r)) = totals) as Hadj.
  { rewrite Hdelta. apply verdict_adjusts. }
  assert (∀ tot, assertions tot = assertions (m_totals r2) →
    aborting (set_totals tot r2) = false) as Hab2.
  { intros tot E. unfold aborting in *. cbn. rewrite E, Ha, Qc. exact Hab. }
  destruct Scyc as (es & Ees & Hes). cbn in Ees.
  eexists _, es. split_and!; [| | | | | |exact Hes].
  - rewrite (runTest_eq d _ fuel internal_lineinfo testInfo r r2 Hsec Hcyc), Hadj. reflexivity.
  - exact Ha.
  - cbn. by rewrite Qs.
  - split; cbn; [congruence|congruence|by rewrite Qc|by rewrite Qc|by apply Hab2|].
    rewrite Ha. apply u64_range.
  - exact Qc.
  - cbn. rewrite Hab2, Ees by done. by rewrite <-!app_assoc.
Qed.

(** The same of a test that is not expected to fail. *)
Lemma runTest_passing d s testInfo check_info expr fuel internal_lineinfo r :
  getResult expr = negb (isFalseTest (resultDisposition check_info)) →
  sec_name s = mk_NameAndLocation (name testInfo) (lineInfo testInfo) → distinct s →
  (leaves s ≤ fuel)%nat → (2 ≤ d)%nat → Z.of_nat (leaves s) < u64_modulus →
  expectedToFail testInfo = false → between_tests r →
  ∃ r' es, runTest d (test_body d (internal_catch_test check_info expr) s) fuel internal_lineinfo
          testInfo r = Done (inr (passed_test (leaves s)), r') ∧
    assertions (m_totals r') = mk_Counts (u64 (passed (assertions (m_totals r)) + Z.of_nat (leaves s)))
      (failed (assertions (m_totals r))) (failedButOk (assertions (m_totals r))) ∧
    testCases (m_totals r') = counts_add (testCases (m_totals r)) (mk_Counts 1 0 0) ∧
    between_tests r' ∧ m_config r' = m_config r ∧
    m_reporter r' = m_reporter r ++
      testCaseStarting testInfo :: es ++ [testCaseEnded testInfo (passed_test (leaves s)) false] ∧
    cycled (checks check_info) es.
Proof.
  intros H1 H2 H3 H4 H5 H6 Hexp H8.
  pose proof (runTest_sections d s testInfo check_info expr fuel internal_lineinfo r H1 H2 H3 H4 H5 H6 H8) as H.
  by rewrite verdict_passed in H.
Qed.

(** C11 (termination): let a test case be made of sections, those in one section with different
    names or places, with a check that passes in every leaf, and the run be one that has not
    reached its abort limit, without the option -c and without the warning for missing
    assertions.  Then [runTest] ends after as many cycles as there are leaves, and every leaf's
    assertion is counted exactly once in the totals.  It reports one passed test case, or, of a
    test that is expected to fail ([!shouldfail]), one failed test case.  What it tells the
    reporter is nested: the sections are closed in the reverse of the order they were opened in. *)
Theorem run_test_of_sections d s testInfo check_info expr fuel internal_lineinfo r :
  getResult expr = negb (isFalseTest (resultDisposition check_info)) →
  sec_name s = mk_NameAndLocation (name testInfo) (lineInfo testInfo) → distinct s →
  (leaves s ≤ fuel)%nat → (2 ≤ d)%nat → Z.of_nat (leaves s) < u64_modulus → between_tests r →
  let n := Z.of_nat (leaves s) in
  let totals := if expectedToFail testInfo then mk_Totals 0 (mk_Counts n 1 0) (mk_Counts 0 1 0)
                else mk_Totals 0 (mk_Counts n 0 0) (mk_Counts 1 0 0) in
  ∃ r' es, runTest d (test_body d (internal_catch_test check_info expr) s) fuel internal_lineinfo
          testInfo r = Done (inr totals, r') ∧
    assertions (m_totals r') = mk_Counts (u64 (passed (assertions (m_totals r)) + n))
      (failed (assertions (m_totals r))) (failedButOk (assertions (m_totals r))) ∧
    testCases (m_totals r') = counts_add (testCases (m_totals r)) (testCases totals) ∧
    m_reporter r' = m_reporter r ++ testCaseStarting testInfo :: es ++ [testCaseEnded testInfo totals false] ∧
    nested (checks check_info) es.
Proof.
  intros H1 H2 H3 H4 H5 H6 H7 n totals.
  assert (totals = verdict testInfo (mk_Counts n 0 0)) as -> by done.
  destruct (runTest_sections d s testInfo check_info expr fuel internal_lineinfo r H1 H2 H3 H4 H5 H6 H7)
    as (r' & es & E & Hp & Ht & _ & _ & Hr & He).
  exists r', es. split_and!; try done. by apply cycled_nested.
Qed.

Definition passing_info : TestCaseInfo :=
  mk_TestCaseInfo (str "PmemBuffer operations") [] [] [str "kv"] [str "kv"]
    (mk_SourceLineInfo (str "test.cpp") 1) 0.
Definition true_expr : ITransientExpression := mk_ITransientExpression (str "1 == 1") true true.
Definition quiet_config : run_config :=
  mk_run_config (mk_IConfig InDeclarationOrder true (λ l, l)) (str "tests") (-1) false false false
    true false [] [] [].

Lemma run_test_of_sections_witness : ∃ r',
  runTest 2 (test_body 2 (internal_catch_test no_assertion true_expr) sample_sections) 3
      (mk_SourceLineInfo (str "catch.hpp") 1) passing_info (make_run_context quiet_config) =
    Done (inr (mk_Totals 0 (mk_Counts 3 0 0) (mk_Counts 1 0 0)), r') ∧
  passed (assertions (m_totals r')) = 3.
Proof.
  destruct (run_test_of_sections 2 sample_sections passing_info no_assertion true_expr 3
    (mk_SourceLineInfo (str "catch.hpp") 1) (make_run_context quiet_config)) as (r' & es & H & Hp & _).
  - reflexivity.
  - reflexivity.
  - by repeat split; apply (bool_decide_eq_true_1 (NoDup _)).
  - cbn. lia.
  - lia.
  - cbn. unfold u64_modulus. lia.
  - split; try reflexivity. cbn. unfold is_u64, u64_modulus. lia.
  - exists r'. split; [exact H|by rewrite Hp].
Defined.
