(* ===== verification/CatchXml.v ===== *)
(** * Catch: XmlEncode and XmlWriter (catch_xmlwriter of native/src/catch.hpp)

    What the JUnit and XML reporters write with.  The stream is the list of bytes written. *)
From stdpp Require Import strings list.
From S2P Require Import Prelude CatchString.

(** ** XmlEncode *)
Definition trailingBytes (c : Z) : throwing nat :=
  if decide (Z.land c 0xE0 = 0xC0) then mret 2%nat
  else if decide (Z.land c 0xF0 = 0xE0) then mret 3%nat
  else if decide (Z.land c 0xF8 = 0xF0) then mret 4%nat
  else inl (Logic_error (str "Invalid multibyte utf-8 start byte encountered")).

Definition headerValue (c : Z) : throwing Z :=
  if decide (Z.land c 0xE0 = 0xC0) then mret (Z.land c 0x1F)
  else if decide (Z.land c 0xF0 = 0xE0) then mret (Z.land c 0x0F)
  else if decide (Z.land c 0xF8 = 0xF0) then mret (Z.land c 0x07)
  else inl (Logic_error (str "Invalid multibyte utf-8 start byte encountered")).

Definition hex_digit (n : Z) : byte := z2b (if decide (n < 10) then 48 + n else 55 + n).
Definition hexEscapeChar (c : Z) : list byte := str "\x" ++ [hex_digit (c / 16); hex_digit (c mod 16)].

Inductive ForWhat := ForTextNodes | ForAttributes.
#[export] Instance ForWhat_eq_dec : EqDecision ForWhat.
Proof. solve_decision. Defined.

(** The loop over the bytes after the lead byte: whether they have the right pattern, and the
    value ([uint32_t]). *)
Fixpoint continuation (tail : list byte) (valid : bool) (value : Z) : bool * Z :=
  match tail with
  | [] => (valid, value)
  | nc :: tail =>
      continuation tail (valid && bool_decide (Z.land (b2z nc) 0xC0 = 0x80))
        (Z.lor (u32 (Z.shiftl value 6)) (Z.land (b2z nc) 0x3F))
  end.

Definition rejected (valid : bool) (value : Z) (encBytes : nat) : bool :=
  negb valid || bool_decide (value < 0x80) ||
  (bool_decide (0x80 ≤ value ∧ value < 0x800) && bool_decide (2 < encBytes)%nat) ||
  (bool_decide (0x800 < value ∧ value < 0x10000) && bool_decide (3 < encBytes)%nat) ||
  bool_decide (0x110000 ≤ value).

(** What the byte [c] at the head of [rest] gives, and how many bytes it takes. *)
Definition encode_multibyte (c : byte) (rest : list byte) : throwing (list byte * nat) :=
  let z := b2z c in
  if decide (z < 0xC0 ∨ 0xF8 ≤ z) then mret (hexEscapeChar z, 1%nat)
  else
    encBytes ← trailingBytes z;
    if decide (length rest ≤ encBytes - 1)%nat then mret (hexEscapeChar z, 1%nat)
    else
      h ← headerValue z;
      let '(valid, value) := continuation (take (encBytes - 1) (drop 1 rest)) true h in
      if rejected valid value encBytes then mret (hexEscapeChar z, 1%nat)
      else mret (take encBytes rest, encBytes).

Definition encode_char (m_forWhat : ForWhat) (m_str : list byte) (idx : nat)
    : throwing (list byte * nat) :=
  match m_str !! idx with
  | None => mret ([], 1%nat)
  | Some c =>
      let z := b2z c in
      if decide (c = x3c) then mret (str "&lt;", 1%nat)
      else if decide (c = x26) then mret (str "&amp;", 1%nat)
      else if decide (c = x3e) then
        if bool_decide (2 < idx)%nat && bool_decide (m_str !! (idx - 1)%nat = Some x5d) &&
           bool_decide (m_str !! (idx - 2)%nat = Some x5d)
        then mret (str "&gt;", 1%nat) else mret ([c], 1%nat)
      else if decide (c = x22) then
        if decide (m_forWhat = ForAttributes) then mret (str "&quot;", 1%nat)
        else mret ([c], 1%nat)
      else if decide (z < 0x09 ∨ (0x0D < z ∧ z < 0x20) ∨ z = 0x7F) then mret (hexEscapeChar z, 1%nat)
      else if decide (z < 0x7F) then mret ([c], 1%nat)
      else encode_multibyte c (drop idx m_str)
  end.

(** The loop from [idx] on; every round takes at least one byte. *)
Fixpoint encode_loop (fuel : nat) (m_forWhat : ForWhat) (m_str : list byte) (idx : nat)
    : throwing (list byte) :=
  match fuel with
  | O => mret []
  | S fuel =>
      if decide (idx < length m_str)%nat then
        '(out, n) ← encode_char m_forWhat m_str idx;
        rest ← encode_loop fuel m_forWhat m_str (idx + n);
        mret (out ++ rest)
      else mret []
  end.
Definition encodeTo (m_forWhat : ForWhat) (m_str : list byte) : throwing (list byte) :=
  encode_loop (length m_str) m_forWhat m_str 0.

(** ** XmlWriter *)
Record XmlWriter := mk_XmlWriter {
  m_tagIsOpen : bool;
  m_needsNewline : bool;
  m_tags : list (list byte);
  m_indent : list byte;
  m_os : list byte
}.

Definition put_os (out : list byte) (w : XmlWriter) : XmlWriter :=
  mk_XmlWriter (m_tagIsOpen w) (m_needsNewline w) (m_tags w) (m_indent w) (m_os w ++ out).
Definition set_tagIsOpen (b : bool) (w : XmlWriter) : XmlWriter :=
  mk_XmlWriter b (m_needsNewline w) (m_tags w) (m_indent w) (m_os w).
Definition set_needsNewline (b : bool) (w : XmlWriter) : XmlWriter :=
  mk_XmlWriter (m_tagIsOpen w) b (m_tags w) (m_indent w) (m_os w).

Definition writeDeclaration (w : XmlWriter) : XmlWriter :=
  put_os (str "<?xml version=" ++ [x22] ++ str "1.0" ++ [x22] ++ str " encoding=" ++ [x22] ++
          str "UTF-8" ++ [x22] ++ str "?>" ++ [x0a]) w.
Definition make_XmlWriter (os : list byte) : XmlWriter :=
  writeDeclaration (mk_XmlWriter false false [] [] os).

Definition ensureTagClosed (w : XmlWriter) : XmlWriter :=
  if m_tagIsOpen w then set_tagIsOpen false (put_os [x3e; x0a] w) else w.
Definition newlineIfNecessary (w : XmlWriter) : XmlWriter :=
  if m_needsNewline w then set_needsNewline false (put_os [x0a] w) else w.

Definition startElement (name : list byte) (w : XmlWriter) : XmlWriter :=
  let w := newlineIfNecessary (ensureTagClosed w) in
  let w := put_os (m_indent w ++ [x3c] ++ name) w in
  mk_XmlWriter true (m_needsNewline w) (m_tags w ++ [name]) (m_indent w ++ str "  ") (m_os w).

(** [back()] and [pop_back()] of an empty vector are undefined. *)
Definition endElement (w : XmlWriter) : outcome XmlWriter :=
  let w := newlineIfNecessary w in
  let indent := take (length (m_indent w) - 2) (m_indent w) in
  match rev (m_tags w) with
  | [] => Undefined
  | tag :: tags =>
      let out := if m_tagIsOpen w then str "/>" else indent ++ str "</" ++ tag ++ str ">" in
      Done (mk_XmlWriter false (m_needsNewline w) (rev tags) indent (m_os w ++ out ++ [x0a]))
  end.

Definition writeAttribute (name attribute : list byte) (w : XmlWriter) : throwing XmlWriter :=
  if bool_decide (name ≠ []) && bool_decide (attribute ≠ []) then
    a ← encodeTo ForAttributes attribute;
    mret (put_os ([x20] ++ name ++ [x3d; x22] ++ a ++ [x22]) w)
  else mret w.
Definition writeAttribute_bool (name : list byte) (attribute : bool) (w : XmlWriter) : XmlWriter :=
  put_os ([x20] ++ name ++ [x3d; x22] ++ str (if attribute then "true" else "false") ++ [x22]) w.

Definition xml_writeText (text : list byte) (indent : bool) (w : XmlWriter) : throwing XmlWriter :=
  if decide (text = []) then mret w
  else
    let tagWasOpen := m_tagIsOpen w in
    let w := ensureTagClosed w in
    let w := if tagWasOpen && indent then put_os (m_indent w) w else w in
    t ← encodeTo ForTextNodes text;
    mret (set_needsNewline true (put_os t w)).

Definition writeComment (text : list byte) (w : XmlWriter) : XmlWriter :=
  let w := ensureTagClosed w in
  set_needsNewline true (put_os (m_indent w ++ str "<!--" ++ text ++ str "-->") w).
Definition writeStylesheetRef (url : list byte) (w : XmlWriter) : XmlWriter :=
  put_os (str "<?xml-stylesheet type=" ++ [x22] ++ str "text/xsl" ++ [x22] ++ str " href=" ++ [x22]
          ++ url ++ [x22] ++ str "?>" ++ [x0a]) w.
Definition writeBlankLine (w : XmlWriter) : XmlWriter := put_os [x0a] (ensureTagClosed w).

(** The destructor's loop, with fuel: the open tags. *)
Fixpoint close_all (fuel : nat) (w : XmlWriter) : outcome XmlWriter :=
  match fuel with
  | O => if decide (m_tags w = []) then Done w else Undefined
  | S fuel => if decide (m_tags w = []) then Done w else w ← endElement w; close_all fuel w
  end.
Definition XmlWriter_delete (w : XmlWriter) : outcome XmlWriter := close_all (length (m_tags w)) w.

(** [ScopedElement]: the pointer is null or the one writer of the report. *)
Record ScopedElement := mk_ScopedElement { m_writer : bool }.
Definition new_scoped : ScopedElement := mk_ScopedElement true.
(** What the move constructor leaves in the new object and in [other]. *)
Definition scoped_move (other : ScopedElement) : ScopedElement * ScopedElement :=
  (mk_ScopedElement (m_writer other), mk_ScopedElement false).
Definition scoped_delete (e : ScopedElement) (w : XmlWriter) : outcome XmlWriter :=
  if m_writer e then endElement w else Done w.
Definition scoped_assign (this other : ScopedElement) (w : XmlWriter)
    : outcome (ScopedElement * ScopedElement * XmlWriter) :=
  w ← if m_writer this then endElement w else Done w;
  Done (scoped_move other, w).
Definition scoped_writeText (text : list byte) (indent : bool) (e : ScopedElement) (w : XmlWriter)
    : throwing (outcome XmlWriter) :=
  if m_writer e then w ← xml_writeText text indent w; mret (Done w) else mret Undefined.
Definition scopedElement (name : list byte) (w : XmlWriter) : ScopedElement * XmlWriter :=
  (new_scoped, startElement name w).
