(* ===== verification/CatchXmlProps.v ===== *)
(** * Properties of Catch's XML writer

    [encodeTo] never throws, writes no raw markup and no control character, and loses nothing
    of a well-formed UTF-8 string; a document written through the writer's operations comes out
    as the tree it was written from. *)
From stdpp Require Import strings list.
From S2P Require Import Prelude CatchString CatchStringProps CatchXml.

(** ** Bytes by their bits *)
Definition trail_class (c : byte) : nat :=
  if decide (b2z c < 0xE0) then 2%nat else if decide (b2z c < 0xF0) then 3%nat else 4%nat.
Definition head_bits (c : byte) : Z :=
  if decide (b2z c < 0xE0) then b2z c - 0xC0 else if decide (b2z c < 0xF0) then b2z c - 0xE0
  else b2z c - 0xF0.
Lemma lead_byte c : 0xC0 ≤ b2z c < 0xF8 →
  trailingBytes (b2z c) = inr (trail_class c) ∧ headerValue (b2z c) = inr (head_bits c).
Proof. intros H. destruct c; try (exfalso; cbn in H; lia); by split. Qed.

Definition tail_byte (c : byte) : bool := bool_decide (0x80 ≤ b2z c < 0xC0).
Lemma tail_bits c : bool_decide (Z.land (b2z c) 0xC0 = 0x80) = tail_byte c ∧
  Z.land (b2z c) 0x3F = b2z c mod 64.
Proof. by destruct c. Qed.

Lemma shift_in v k : 0 ≤ v < 2 ^ 26 → 0 ≤ k < 64 → Z.lor (u32 (Z.shiftl v 6)) k = v * 64 + k.
Proof.
  intros Hv Hk. rewrite Z.shiftl_mul_pow2 by lia. change (2 ^ 6) with 64.
  rewrite u32_id by (unfold is_u32, u32_modulus; lia).
  apply Z.bits_inj'. intros i Hi. rewrite Z.lor_spec.
  replace (v * 64 + k) with (k + v * 2 ^ 6) by lia. replace (v * 64) with (v * 2 ^ 6) by lia.
  destruct (decide (i < 6)).
  - rewrite Z.mul_pow2_bits_low by lia. cbn [orb].
    rewrite <-(Z.mod_pow2_bits_low (k + v * 2 ^ 6) 6 i) by lia.
    rewrite Z.mod_add by lia. by rewrite Z.mod_small by (cbn; lia).
  - rewrite Z.mul_pow2_bits by lia.
    assert (Z.testbit k i = false) as ->.
    { destruct (decide (k = 0)) as [->|]; [apply Z.bits_0|]. apply Z.bits_above_log2; [lia|].
      assert (Z.log2 k < 6) by (apply Z.log2_lt_pow2; cbn; lia). lia. }
    rewrite orb_false_r.
    replace v with ((k + v * 2 ^ 6) / 2 ^ 6) at 1.
    + rewrite Z.div_pow2_bits by lia. f_equal. lia.
    + rewrite Z.div_add by lia. rewrite Z.div_small by (cbn; lia). lia.
Qed.

Lemma continuation_cons nc l v : tail_byte nc = true → 0 ≤ v < 2 ^ 26 →
  continuation (nc :: l) true v = continuation l true (v * 64 + (b2z nc - 0x80)).
Proof.
  intros Ht Hv. cbn [continuation]. destruct (tail_bits nc) as [-> ->]. rewrite Ht.
  unfold tail_byte in Ht. apply bool_decide_eq_true_1 in Ht.
  rewrite shift_in; [|done|by apply Z.mod_pos_bound].
  do 2 f_equal. Z.div_mod_to_equations. lia.
Qed.

(** ** One character *)

(** What the escapes write: neither markup nor a control character. *)
Definition harmless (m_forWhat : ForWhat) (c : byte) : Prop :=
  c ≠ x3c ∧ (m_forWhat = ForAttributes → c ≠ x22) ∧
  ¬ (b2z c < 0x09 ∨ (0x0D < b2z c ∧ b2z c < 0x20) ∨ b2z c = 0x7F).

Lemma high_harmless m_forWhat c : 0x80 ≤ b2z c → harmless m_forWhat c.
Proof. intros H. repeat split; [intros ->; cbn in H; lia|intros _ ->; cbn in H; lia|lia]. Qed.

Definition harmlessb (c : byte) : bool :=
  bool_decide (c ≠ x3c) && bool_decide (c ≠ x22) &&
  negb (bool_decide (b2z c < 0x09 ∨ (0x0D < b2z c ∧ b2z c < 0x20) ∨ b2z c = 0x7F)).
Lemma harmlessb_ok m_forWhat l : forallb harmlessb l = true → Forall (harmless m_forWhat) l.
Proof.
  intros H. apply list.Forall_forall. intros c Hc. apply list_elem_of_In in Hc.
  rewrite List.forallb_forall in H. specialize (H c Hc). unfold harmlessb in H.
  rewrite !andb_true_iff, negb_true_iff in H. destruct H as [[H1 H2] H3].
  apply bool_decide_eq_true_1 in H1, H2. apply bool_decide_eq_false_1 in H3. by repeat split.
Qed.

Lemma hexEscape_harmless m_forWhat c : Forall (harmless m_forWhat) (hexEscapeChar (b2z c)).
Proof. apply harmlessb_ok. by destruct c. Qed.

(** The continuation bytes of an accepted sequence are continuation bytes. *)
Lemma continuation_valid l v : fst (continuation l true v) = true → Forall (λ c, tail_byte c = true) l.
Proof.
  assert (∀ l v b, fst (continuation l b v) = true → b = true ∧ Forall (λ c, tail_byte c = true) l) as H.
  { clear. induction l as [|c l IH]; intros v b H; [by split|]. cbn [continuation] in H.
    apply IH in H as [H Hl]. apply andb_true_iff in H as [-> H].
    destruct (tail_bits c) as [E _]. rewrite E in H. by repeat constructor. }
  intros Hc. by apply H in Hc as [_ ?].
Qed.

Definition takes (n : nat) (l : list byte) : Prop := (0 < n)%nat ∧ (n ≤ length l)%nat.

Lemma encode_multibyte_total m_forWhat c l : 0x80 ≤ b2z c → ∃ out n,
  encode_multibyte c (c :: l) = inr (out, n) ∧ Forall (harmless m_forWhat) out ∧ takes n (c :: l).
Proof.
  intros Hc. unfold encode_multibyte. cbv zeta.
  assert (takes 1 (c :: l)) as H1 by (split; cbn; lia).
  destruct (decide _) as [|Hlead]; [eauto using hexEscape_harmless|].
  destruct (lead_byte c) as [Ht Hh]; [lia|]. rewrite Ht. cbn [mbind throwing_bind].
  destruct (decide _) as [|Hlen]; [eauto using hexEscape_harmless|].
  rewrite Hh. cbn [mbind throwing_bind].
  destruct (continuation _ _ _) as [valid value] eqn:Ec.
  destruct (rejected _ _ _) eqn:Er; [eauto using hexEscape_harmless|].
  eexists _, _. split; [done|]. destruct valid; [|done].
  pose proof (continuation_valid (take (trail_class c - 1) (drop 1 (c :: l))) (head_bits c)) as Hv.
  rewrite Ec in Hv. specialize (Hv eq_refl). split.
  - assert (0 < trail_class c)%nat as Htc by (unfold trail_class; repeat case_decide; lia).
    destruct (trail_class c) as [|m] eqn:Em; [lia|]. cbn [take]. constructor; [by apply high_harmless|].
    cbn [drop] in Hv. rewrite Nat.sub_succ, Nat.sub_0_r, drop_0 in Hv.
    eapply Forall_impl; [|exact Hv]. intros b Hb. apply high_harmless.
    apply bool_decide_eq_true_1 in Hb. lia.
  - split; [unfold trail_class; repeat case_decide; lia|lia].
Qed.

Lemma encode_char_total m_forWhat s idx : (idx < length s)%nat → ∃ out n,
  encode_char m_forWhat s idx = inr (out, n) ∧ Forall (harmless m_forWhat) out ∧ takes n (drop idx s).
Proof.
  intros Hi. destruct (lookup_lt_is_Some_2 _ _ Hi) as [c Hc]. unfold encode_char. rewrite Hc. cbv zeta.
  assert (takes 1 (drop idx s)) as H1 by (split; [lia|rewrite length_drop; lia]).
  assert (∀ l, forallb harmlessb l = true → ∃ out n, @inr exn _ (l, 1%nat) = inr (out, n) ∧
    Forall (harmless m_forWhat) out ∧ takes n (drop idx s)) as Hlit.
  { intros l Hl. eexists _, _. split; [done|]. split; [by apply harmlessb_ok|done]. }
  destruct (decide (c = x3c)); [by apply Hlit|].
  destruct (decide (c = x26)); [by apply Hlit|].
  destruct (decide (c = x3e)) as [->|]; [destruct (_ && _); by apply Hlit|].
  destruct (decide (c = x22)) as [->|].
  { destruct (decide _); [by apply Hlit|]. eexists _, _. split; [done|]. split; [|done].
    repeat constructor; [done|done|cbn; lia]. }
  destruct (decide (b2z c < 0x09 ∨ _)) as [|Hctl].
  { eexists _, _. split; [done|]. split; [apply hexEscape_harmless|done]. }
  destruct (decide _).
  { eexists _, _. split; [done|]. split; [|done]. by repeat constructor. }
  rewrite (drop_S s c idx Hc). apply encode_multibyte_total. lia.
Qed.

Lemma encode_loop_total m_forWhat s fuel idx : (length s - idx ≤ fuel)%nat → ∃ out,
  encode_loop fuel m_forWhat s idx = inr out ∧ Forall (harmless m_forWhat) out.
Proof.
  revert idx. induction fuel as [|fuel IH]; intros idx Hf; [by exists []|]. cbn [encode_loop].
  destruct (decide _) as [Hi|]; [|by exists []].
  destruct (encode_char_total m_forWhat s idx Hi) as (out & n & -> & Ho & Hn & _).
  destruct (IH (idx + n)%nat) as (rest & E & Hr); [lia|].
  cbn [mbind throwing_bind]. rewrite E. eexists. split; [done|]. by apply Forall_app.
Qed.

(** ** Reading the text back *)

(** What an XML parser makes of character data: the named entities stand for their characters.
    [skip] counts the bytes of an entity still to pass over. *)
Fixpoint xml_decode (skip : nat) (s : list byte) : list byte :=
  match s, skip with
  | [], _ => []
  | _ :: s, S skip => xml_decode skip s
  | c :: s', O =>
      if prefixb (str "&lt;") s then x3c :: xml_decode 3 s'
      else if prefixb (str "&gt;") s then x3e :: xml_decode 3 s'
      else if prefixb (str "&amp;") s then x26 :: xml_decode 4 s'
      else if prefixb (str "&quot;") s then x22 :: xml_decode 5 s'
      else c :: xml_decode 0 s'
  end.

Lemma decode_plain c s : c ≠ x26 → xml_decode 0 (c :: s) = c :: xml_decode 0 s.
Proof.
  intros Hc. cbn [xml_decode]. unfold prefixb. cbn [str].
  assert (bool_decide (x26 = c) = false) as E by (apply bool_decide_eq_false; congruence).
  cbn. by rewrite E.
Qed.
Lemma decode_app l s : Forall (.≠ x26) l → xml_decode 0 (l ++ s) = l ++ xml_decode 0 s.
Proof. induction 1 as [|c l Hc _ IH]; [done|]. cbn [app]. by rewrite decode_plain, IH. Qed.

(** [out] is how the writer shows [l]. *)
Definition shows (out l : list byte) : Prop := ∀ s, xml_decode 0 (out ++ s) = l ++ xml_decode 0 s.

(** No control characters other than the blanks XML allows. *)
Definition printable (cp : Z) : Prop := ¬ (cp < 0x09 ∨ (0x0D < cp ∧ cp < 0x20) ∨ cp = 0x7F).

Lemma encode_char_ascii m_forWhat pre cp rest : 0 ≤ cp < 0x80 → printable cp → ∃ out,
  encode_char m_forWhat (pre ++ [z2b cp] ++ rest) (length pre) = inr (out, 1%nat) ∧ shows out [z2b cp].
Proof.
  intros Hcp Hp. unfold printable in Hp. unfold encode_char. cbn [app].
  rewrite list_lookup_middle by done. cbv zeta. rewrite b2z_z2b, Z.mod_small by lia.
  set (c := z2b cp).
  destruct (decide (c = x3c)) as [->|]; [by eexists|].
  destruct (decide (c = x26)) as [->|]; [by eexists|].
  assert (shows [c] [c]) as Hplain by (intros s; by apply decode_plain).
  destruct (decide (c = x3e)) as [E|]; [rewrite E in *; destruct (_ && _); by eexists|].
  destruct (decide (c = x22)) as [E|]; [rewrite E in *; destruct (decide _); by eexists|].
  rewrite decide_False by done. rewrite decide_True by lia. by eexists.
Qed.

Lemma tail_z2b k : 0 ≤ k < 64 → tail_byte (z2b (0x80 + k)) = true ∧ b2z (z2b (0x80 + k)) - 0x80 = k.
Proof.
  intros Hk. unfold tail_byte. rewrite b2z_z2b, Z.mod_small by lia.
  split; [apply bool_decide_eq_true_2|]; lia.
Qed.

Lemma continuation_z2b k l v : 0 ≤ k < 64 → 0 ≤ v < 2 ^ 26 →
  continuation (z2b (0x80 + k) :: l) true v = continuation l true (v * 64 + k).
Proof. intros Hk Hv. destruct (tail_z2b k Hk) as [Ht Hb]. by rewrite continuation_cons, Hb. Qed.

Lemma sequence_accepted c l rest value : 0xC0 ≤ b2z c < 0xF8 → S (length l) = trail_class c →
  continuation l true (head_bits c) = (true, value) → rejected true value (trail_class c) = false →
  encode_multibyte c (c :: l ++ rest) = inr (c :: l, S (length l)).
Proof.
  intros Hc Hl Hv Hr. destruct (lead_byte c Hc) as [Ht Hh]. unfold encode_multibyte. cbv zeta.
  rewrite decide_False by lia. rewrite Ht. cbn [mbind throwing_bind].
  rewrite decide_False by (cbn [length]; rewrite length_app; lia).
  rewrite Hh. cbn [mbind throwing_bind drop].
  replace (trail_class c - 1)%nat with (length l) by lia.
  rewrite drop_0, take_app_length, Hv, Hr, <-Hl. cbn [take]. by rewrite take_app_length.
Qed.

Lemma lead_z2b z : 0xC0 ≤ z < 0xF8 → b2z (z2b z) = z.
Proof. intros H. rewrite b2z_z2b, Z.mod_small; lia. Qed.

(** The byte sequence of [utf8] is accepted: the header is that of its length, the bytes after it
    give the code point, and the checks let it pass. *)
Ltac accepts cp :=
  match goal with |- encode_multibyte ?c (?c :: ?l ++ ?rest) = _ =>
    apply (sequence_accepted c l rest cp); clear rest;
    unfold trail_class, head_bits; rewrite ?lead_z2b by (Z.div_mod_to_equations; lia);
    [ Z.div_mod_to_equations; lia
    | repeat case_decide; try done; exfalso; Z.div_mod_to_equations; lia
    | repeat case_decide; try (exfalso; Z.div_mod_to_equations; lia);
      repeat (rewrite continuation_z2b by (Z.div_mod_to_equations; lia));
      cbn [continuation]; f_equal; Z.div_mod_to_equations; lia
    | unfold rejected; rewrite !orb_false_iff, !andb_false_iff, !bool_decide_eq_false;
      repeat case_decide; try (exfalso; Z.div_mod_to_equations; lia); repeat split;
      try done; try (left; lia); try (right; lia); lia ]
  end.

Lemma utf8_high cp : 0x80 ≤ cp < 0x110000 → Forall (λ c, 0x80 ≤ b2z c) (utf8 cp).
Proof.
  intros [Hlo Hhi]. unfold utf8. rewrite decide_False by lia.
  repeat case_decide; repeat constructor; rewrite b2z_z2b, Z.mod_small; Z.div_mod_to_equations; lia.
Qed.

Lemma encode_multibyte_utf8 cp rest : 0x80 ≤ cp < 0x110000 → ∃ c l, utf8 cp = c :: l ∧
  encode_multibyte c (c :: l ++ rest) = inr (c :: l, length (c :: l)).
Proof.
  intros [Hlo Hhi]. unfold utf8. rewrite decide_False by lia.
  repeat case_decide; eexists _, _; (split; [done|]); accepts cp.
Qed.

(** ** One character of a well-formed text *)
Lemma encode_char_utf8 m_forWhat pre cp rest : code_point cp → printable cp → ∃ out,
  encode_char m_forWhat (pre ++ utf8 cp ++ rest) (length pre) = inr (out, length (utf8 cp)) ∧
  shows out (utf8 cp) ∧ (0 < length (utf8 cp))%nat.
Proof.
  intros Hcp Hp. unfold code_point in Hcp. destruct (decide (cp < 0x80)) as [H|H].
  - assert (utf8 cp = [z2b cp]) as -> by (unfold utf8; by rewrite decide_True).
    destruct (encode_char_ascii m_forWhat pre cp rest) as (out & E & S); [lia|done|].
    exists out. split; [done|]. split; [done|cbn; lia].
  - pose proof (utf8_high cp) as Hh.
    destruct (encode_multibyte_utf8 cp rest) as (c & l & E & Henc); [lia|]. rewrite E in *.
    specialize (Hh ltac:(lia)). pose proof (Forall_inv Hh) as Hc. cbn beta in Hc.
    exists (c :: l). unfold encode_char. cbn [app]. rewrite list_lookup_middle by done. cbv zeta.
    assert (∀ b, b2z b < 0x80 → c ≠ b) as Hne by (intros b Hb ->; lia).
    rewrite !decide_False by (try apply Hne; cbn; lia).
    rewrite drop_app_length. split; [exact Henc|]. split; [|cbn; lia].
    intros s. apply decode_app. eapply Forall_impl; [|exact Hh].
    intros b Hb. cbn beta in Hb. intros ->. cbn in Hb. lia.
Qed.

Lemma encode_loop_utf8 m_forWhat cps : Forall code_point cps → Forall printable cps → ∀ fuel pre,
  (length (cps ≫= utf8) ≤ fuel)%nat → ∃ out,
  encode_loop fuel m_forWhat (pre ++ (cps ≫= utf8)) (length pre) = inr out ∧
  shows out (cps ≫= utf8).
Proof.
  induction 1 as [|cp cps Hcp _ IH]; intros Hp fuel pre Hf.
  - exists []. split; [|by intros s]. cbn. rewrite app_nil_r.
    destruct fuel as [|fuel]; [done|]. cbn. by rewrite decide_False by lia.
  - apply Forall_cons_1 in Hp as [Hp Hps]. cbn [mbind list_bind] in *.
    destruct (encode_char_utf8 m_forWhat pre cp (cps ≫= utf8) Hcp Hp) as (out & E & Hs & Hl).
    rewrite length_app in Hf. destruct fuel as [|fuel]; [lia|]. cbn [encode_loop].
    rewrite decide_True by (rewrite !length_app; lia). rewrite E. cbn [mbind throwing_bind].
    destruct (IH Hps fuel (pre ++ utf8 cp)) as (out' & E' & Hs'); [lia|].
    rewrite <-app_assoc, length_app in E'. rewrite E'. eexists. split; [done|].
    intros s. by rewrite <-!app_assoc, Hs, Hs'.
Qed.

(** ** Documents *)

(** An element holds elements, or text that may be indented. *)
Inductive xml_node :=
| Tree (name : list byte) (attributes : list (list byte * list byte)) (children : list xml_node)
| Leaf (name : list byte) (attributes : list (list byte * list byte)) (indented : bool) (text : list byte).

Definition and_then (m : throwing (outcome XmlWriter)) (f : XmlWriter → throwing (outcome XmlWriter))
    : throwing (outcome XmlWriter) :=
  match m with inr (Done w) => f w | o => o end.

Fixpoint write_attributes (attributes : list (list byte * list byte)) (w : XmlWriter)
    : throwing XmlWriter :=
  match attributes with
  | [] => mret w
  | (name, a) :: attributes => w ← writeAttribute name a w; write_attributes attributes w
  end.

(** The calls that write a node: a scoped element, its attributes, its content, and the
    destructor of the scoped element. *)
Fixpoint write_node (n : xml_node) (w : XmlWriter) : throwing (outcome XmlWriter) :=
  match n with
  | Tree name attributes children =>
      let '(e, w) := scopedElement name w in
      w ← write_attributes attributes w;
      and_then ((fix write_children (children : list xml_node) w :=
          match children with
          | [] => mret (Done w)
          | c :: children => and_then (write_node c w) (write_children children)
          end) children w) (λ w, mret (scoped_delete e w))
  | Leaf name attributes indented text =>
      let '(e, w) := scopedElement name w in
      w ← write_attributes attributes w;
      and_then (scoped_writeText text indented e w) (λ w, mret (scoped_delete e w))
  end.

(** The document as it should read. *)
Definition encoded (m_forWhat : ForWhat) (s : list byte) : list byte :=
  match encodeTo m_forWhat s with inr out => out | inl _ => [] end.
Definition attribute_text (attributes : list (list byte * list byte)) : list byte :=
  attributes ≫= λ '(name, a),
    if bool_decide (name ≠ []) && bool_decide (a ≠ []) then
      [x20] ++ name ++ [x3d; x22] ++ encoded ForAttributes a ++ [x22]
    else [].
Definition start_tag (indent name : list byte) (attributes : list (list byte * list byte)) : list byte :=
  indent ++ [x3c] ++ name ++ attribute_text attributes.
Definition end_tag (indent name : list byte) : list byte := indent ++ str "</" ++ name ++ str ">" ++ [x0a].

Fixpoint render (indent : list byte) (n : xml_node) : list byte :=
  match n with
  | Tree name attributes [] => start_tag indent name attributes ++ str "/>" ++ [x0a]
  | Tree name attributes children =>
      start_tag indent name attributes ++ [x3e; x0a] ++
      (children ≫= render (indent ++ str "  ")) ++ end_tag indent name
  | Leaf name attributes _ [] => start_tag indent name attributes ++ str "/>" ++ [x0a]
  | Leaf name attributes indented text =>
      start_tag indent name attributes ++ [x3e; x0a] ++
      (if indented then indent ++ str "  " else []) ++ encoded ForTextNodes text ++ [x0a] ++ end_tag indent name
  end.

Lemma encodeTo_encoded m_forWhat s : encodeTo m_forWhat s = inr (encoded m_forWhat s).
Proof.
  unfold encoded. destruct (encode_loop_total m_forWhat s (length s) 0) as (out & E & _); [lia|].
  unfold encodeTo. by rewrite E.
Qed.

Lemma write_attributes_ok attributes o nl tags indent os :
  write_attributes attributes (mk_XmlWriter o nl tags indent os) =
    inr (mk_XmlWriter o nl tags indent (os ++ attribute_text attributes)).
Proof.
  revert os. induction attributes as [|[name a] l IH]; intros os.
  - cbn. by rewrite app_nil_r.
  - cbn [write_attributes attribute_text mbind list_bind]. unfold writeAttribute.
    destruct (_ && _); cbn [mbind throwing_bind mret throwing_ret].
    + rewrite encodeTo_encoded. unfold put_os. cbn. rewrite IH. unfold attribute_text. cbn.
      by repeat (rewrite <-!app_assoc; cbn).
    + by rewrite IH.
Qed.

Definition pending (o : bool) : list byte := if o then [x3e; x0a] else [].

Lemma scopedElement_ok name o tags indent os :
  scopedElement name (mk_XmlWriter o false tags indent os) =
  (new_scoped, mk_XmlWriter true false (tags ++ [name]) (indent ++ str "  ")
     (os ++ pending o ++ indent ++ [x3c] ++ name)).
Proof. unfold scopedElement, startElement. destruct o; cbn; by rewrite <-?app_assoc. Qed.

Lemma endElement_ok name o nl tags indent os :
  scoped_delete new_scoped (mk_XmlWriter o nl (tags ++ [name]) (indent ++ str "  ") os) =
  Done (mk_XmlWriter false false tags indent
    (os ++ (if nl then [x0a] else []) ++ if o then str "/>" ++ [x0a] else end_tag indent name)).
Proof.
  unfold scoped_delete, endElement, end_tag. cbn [m_writer new_scoped].
  assert (take (length (indent ++ str "  ") - 2) (indent ++ str "  ") = indent) as Hi.
  { rewrite length_app. cbn. rewrite Nat.add_sub. apply take_app_length. }
  destruct nl, o; cbn -[str take]; rewrite ?rev_app_distr; cbn -[str take]; rewrite rev_involutive, Hi;
    by rewrite <-?app_assoc.
Qed.
Fixpoint write_children (children : list xml_node) (w : XmlWriter) : throwing (outcome XmlWriter) :=
  match children with
  | [] => mret (Done w)
  | c :: children => and_then (write_node c w) (write_children children)
  end.

Lemma write_children_cons c children w :
  write_children (c :: children) w = and_then (write_node c w) (write_children children).
Proof. done. Qed.

Lemma write_node_Tree name attributes children w :
  write_node (Tree name attributes children) w =
  let '(e, w) := scopedElement name w in
  w ← write_attributes attributes w;
  and_then (write_children children w) (λ w, mret (scoped_delete e w)).
Proof. done. Qed.

Lemma render_Tree indent name attributes children :
  render indent (Tree name attributes children) =
  start_tag indent name attributes ++
  match children with
  | [] => str "/>" ++ [x0a]
  | _ => [x3e; x0a] ++ (children ≫= render (indent ++ str "  ")) ++ end_tag indent name
  end.
Proof. by destruct children. Qed.

(** What writing a node does to a writer at rest, or one that has just written a start tag. *)
Definition writes (n : xml_node) : Prop := ∀ o tags indent os,
  write_node n (mk_XmlWriter o false tags indent os) =
    inr (Done (mk_XmlWriter false false tags indent (os ++ pending o ++ render indent n))).

Lemma write_children_ok c children : Forall writes (c :: children) → ∀ o tags indent os,
  write_children (c :: children) (mk_XmlWriter o false tags indent os) =
    inr (Done (mk_XmlWriter false false tags indent
      (os ++ pending o ++ ((c :: children) ≫= render indent)))).
Proof.
  intros H. inversion H as [|? ? Hc Hcs]; subst. clear H. revert c Hc.
  induction Hcs as [|d children Hd _ IH]; intros c Hc o tags indent os;
    rewrite write_children_cons, Hc; cbn [and_then].
  - cbn. by rewrite app_nil_r.
  - rewrite (IH d Hd). cbn [pending mbind list_bind app]. by rewrite <-!app_assoc.
Qed.

Ltac solve_out :=
  unfold start_tag; rewrite <-?app_assoc; cbn [app pending]; rewrite <-?app_assoc;
  cbn [app]; reflexivity.

Lemma node_writes : ∀ n, writes n.
Proof.
  fix self 1. intros [name attributes children|name attributes b text] o tags indent os.
  - rewrite write_node_Tree, render_Tree, scopedElement_ok.
    cbn [mbind throwing_bind]. rewrite write_attributes_ok. cbn [mbind throwing_bind].
    assert (Forall writes children) as Hch.
    { induction children as [|c children IH]; constructor; [apply self|exact IH]. }
    clear self. destruct children as [|c children].
    + cbn [write_children and_then mret throwing_ret]. rewrite endElement_ok.
      unfold start_tag. solve_out.
    + rewrite (write_children_ok c children Hch). cbn [and_then mret throwing_ret].
      rewrite endElement_ok. unfold start_tag. cbn [pending app]. solve_out.
  - clear self. cbn [write_node]. rewrite scopedElement_ok.
    cbn [mbind throwing_bind]. rewrite write_attributes_ok. cbn [mbind throwing_bind].
    unfold scoped_writeText, xml_writeText. cbn [m_writer new_scoped].
    destruct (decide (text = [])) as [->|Ht].
    + cbn [mbind throwing_bind mret throwing_ret and_then]. rewrite endElement_ok.
      cbn [render]. solve_out.
    + cbn [ensureTagClosed m_tagIsOpen put_os set_tagIsOpen m_needsNewline m_tags m_indent m_os andb].
      rewrite encodeTo_encoded.
      cbn [mbind throwing_bind mret throwing_ret and_then].
      unfold set_needsNewline, put_os, set_tagIsOpen.
      destruct b; cbn [m_tagIsOpen m_needsNewline m_tags m_indent m_os]; rewrite endElement_ok;
        (destruct text as [|c text]; [done|]); cbn [render]; solve_out.
Qed.

(** ** Properties *)

(** Property (safety): whatever the bytes, [encodeTo] throws nothing (the internal error of
    [trailingBytes] and [headerValue] cannot happen, and no byte past the end is read), and
    what it writes holds no raw angle bracket that could open markup, no quote if it is for an
    attribute, and no control character that XML forbids. *)
Theorem xml_encode_harmless m_forWhat s : ∃ out,
  encodeTo m_forWhat s = inr out ∧ Forall (harmless m_forWhat) out.
Proof. apply encode_loop_total. lia. Qed.

(** C37 (roundtrip): a well-formed UTF-8 text without control characters, encoded for an element
    or an attribute and read back with the entities resolved, is the same text: every valid
    sequence of one to four bytes passes the checks, and every escape is an entity. *)
Theorem xml_encode_roundtrip m_forWhat cps :
  Forall code_point cps → Forall printable cps →
  ∃ out, encodeTo m_forWhat (cps ≫= utf8) = inr out ∧ xml_decode 0 out = cps ≫= utf8.
Proof.
  intros Hc Hp.
  destruct (encode_loop_utf8 m_forWhat cps Hc Hp (length (cps ≫= utf8)) []) as (out & E & S); [done|].
  exists out. split; [exact E|]. specialize (S []). by rewrite !app_nil_r in S.
Qed.
Lemma xml_encode_roundtrip_witness : ∃ out,
  encodeTo ForAttributes ([0x3C; 0x26; 0x22; 0xE9; 0x20AC; 0x1F600; 0x3E] ≫= utf8) = inr out ∧
  xml_decode 0 out = [0x3C; 0x26; 0x22; 0xE9; 0x20AC; 0x1F600; 0x3E] ≫= utf8.
Proof.
  apply (xml_encode_roundtrip ForAttributes [0x3C; 0x26; 0x22; 0xE9; 0x20AC; 0x1F600; 0x3E]);
    repeat constructor; unfold code_point, printable; lia.
Defined.

(** The end of a CDATA section is escaped only from the fourth character on. *)
Lemma cdata_end_at_start : encodeTo ForTextNodes (str "]]>") = inr (str "]]>") ∧
  encodeTo ForTextNodes (str "x]]>") = inr (str "x]]&gt;").
Proof. by split. Qed.

(** The overlong form of U+0800 is accepted, those of its neighbours are not. *)
Lemma overlong_0800 :
  encodeTo ForTextNodes [xf0; x80; xa0; x80] = inr [xf0; x80; xa0; x80] ∧
  encodeTo ForTextNodes [xf0; x80; xa0; x81] = inr (str "\xF0\x80\xA0\x81").
Proof. by split. Qed.

(** Property (refinement): a document written with scoped elements, attributes and text, whatever the
    text holds, is exactly the rendering of its tree: every element closed with its own name at
    its own depth, empty ones as such, text and attribute values encoded; the writer ends as it
    was, with no element open. *)
Theorem xml_writer_renders n os : ∃ w,
  write_node n (make_XmlWriter os) = inr (Done w) ∧ m_tags w = [] ∧
  m_os w = m_os (make_XmlWriter os) ++ render [] n.
Proof.
  pose proof (node_writes n false [] [] (m_os (make_XmlWriter os))) as H.
  change (mk_XmlWriter false false [] [] (m_os (make_XmlWriter os))) with (make_XmlWriter os) in H.
  rewrite H. eexists. by split.
Qed.

Definition written (n : xml_node) : list byte :=
  match write_node n (mk_XmlWriter false false [] [] []) with inr (Done w) => m_os w | _ => [] end.
Example report_document :
  written (Tree (str "testsuite") [(str "name", str "a<b"); (str "id", [])]
    [Tree (str "testcase") [] []; Leaf (str "system-out") [] true (str "x&y")]) =
  str "<testsuite name=" ++ [x22] ++ str "a&lt;b" ++ [x22] ++ str ">" ++ [x0a] ++
  str "  <testcase/>" ++ [x0a] ++ str "  <system-out>" ++ [x0a] ++ str "    x&amp;y" ++ [x0a] ++
  str "  </system-out>" ++ [x0a] ++ str "</testsuite>" ++ [x0a].
Proof. vm_compute. reflexivity. Qed.
