(* ===== verification/CatchText.v ===== *)
(** * Catch: TextFlow, the wrapping of text into columns (clara_textflow of native/src/catch.hpp)

    [size_t] positions are naturals; the assertions of the iterator keep every subtraction from
    going below zero, and where the code has none the lower bound is proved.  An [npos] indent
    is [None]. *)
From stdpp Require Import strings list.
From S2P Require Import Prelude CatchString.

(** ** Characters *)
Definition isWhitespace (c : byte) : bool := bool_decide (c ∈ [x20; x09; x0a; x0d]).
Definition isBreakableBefore (c : byte) : bool := bool_decide (c ∈ str "[({<|").
Definition isBreakableAfter (c : byte) : bool := bool_decide (c ∈ str "])}>.,:;*+-=&/\").

(** [s[i]]: the terminator at [size()], undefined beyond. *)
Definition str_at (s : list byte) (i : nat) : outcome byte :=
  if decide (i < length s)%nat then or_undefined (s !! i)
  else if decide (i = length s) then Done x00 else Undefined.

(** ** Column *)
Record Column := mk_Column {
  m_strings : list (list byte);
  m_width : nat;
  c_indent : nat;
  m_initialIndent : option nat
}.
Definition CONSOLE_WIDTH : nat := 80.
(** What the width of a column is unless it is set. *)
Definition TEXTFLOW_CONSOLE_WIDTH : nat := CONSOLE_WIDTH - 1.

Definition new_Column (text : list byte) : Column := mk_Column [text] TEXTFLOW_CONSOLE_WIDTH 0 None.
Definition width (newWidth : nat) (c : Column) : outcome Column :=
  if decide (0 < newWidth)%nat
  then Done (mk_Column (m_strings c) newWidth (c_indent c) (m_initialIndent c)) else Assert_failed.
Definition indent (newIndent : nat) (c : Column) : Column :=
  mk_Column (m_strings c) (m_width c) newIndent (m_initialIndent c).
Definition initialIndent (newIndent : nat) (c : Column) : Column :=
  mk_Column (m_strings c) (m_width c) (c_indent c) (Some newIndent).
Definition Spacer (spaceWidth : nat) : outcome Column := width spaceWidth (new_Column []).

(** *** The iterator *)
Record iterator := mk_iterator {
  it_stringIndex : nat;
  it_pos : nat;
  it_len : nat;
  it_end : nat;
  it_suffix : bool
}.

Section iterator.
Context (m_column : Column).

(** Also the value of [end()]. *)
Definition make_iterator (stringIndex : nat) : iterator := mk_iterator stringIndex 0 0 0 false.
Definition col_end : iterator := make_iterator (length (m_strings m_column)).

Definition line (it : iterator) : outcome (list byte) := or_undefined (m_strings m_column !! it_stringIndex it).

Definition isBoundary (l : list byte) (at_ : nat) : outcome bool :=
  if decide (0 < at_)%nat then
    if decide (at_ ≤ length l)%nat then
      if decide (at_ = length l) then Done true
      else
        c ← str_at l at_;
        p ← str_at l (at_ - 1);
        Done ((isWhitespace c && negb (isWhitespace p)) || isBreakableBefore c || isBreakableAfter p)
    else Assert_failed
  else Assert_failed.

Definition iterator_indent (it : iterator) : nat :=
  let initial := if decide (it_pos it = 0%nat ∧ it_stringIndex it = 0%nat)
                 then m_initialIndent m_column else None in
  match initial with None => c_indent m_column | Some i => i end.

(** From [m_pos] on, past a newline in front, to the next newline or the end. *)
Fixpoint to_newline (l : list byte) : nat :=
  match l with
  | [] => 0
  | c :: l => if decide (c = x0a) then 0 else S (to_newline l)
  end.
Definition end_of_line (l : list byte) (pos : nat) : nat :=
  let start := if decide (l !! pos = Some x0a) then S pos else pos in
  (start + to_newline (drop start l))%nat.

(** The two loops that shorten a line. *)
Fixpoint back_to_boundary (l : list byte) (pos len : nat) : outcome nat :=
  match len with
  | O => Done O
  | S n => b ← isBoundary l (pos + len); if (b : bool) then Done len else back_to_boundary l pos n
  end.
Fixpoint strip_whitespace (l : list byte) (pos len : nat) : outcome nat :=
  match len with
  | O => Done O
  | S n =>
      c ← str_at l (pos + len - 1);
      if isWhitespace c then strip_whitespace l pos n else Done len
  end.

Definition calcLength (it : iterator) : outcome iterator :=
  if decide (it_stringIndex it < length (m_strings m_column))%nat then
    let width := (m_width m_column - iterator_indent it)%nat in
    l ← line it;
    _ ← str_at l (it_pos it);
    let m_end := end_of_line l (it_pos it) in
    if decide (m_end < it_pos it + width)%nat then
      Done (mk_iterator (it_stringIndex it) (it_pos it) (m_end - it_pos it) m_end false)
    else
      len ← back_to_boundary l (it_pos it) width;
      len ← strip_whitespace l (it_pos it) len;
      if decide (0 < len)%nat
      then Done (mk_iterator (it_stringIndex it) (it_pos it) len m_end false)
      else Done (mk_iterator (it_stringIndex it) (it_pos it) (width - 1) m_end true)
  else Assert_failed.

Definition begin : outcome iterator :=
  if decide (c_indent m_column < m_width m_column)%nat then
    if match m_initialIndent m_column with
       | None => true
       | Some i => bool_decide (i < m_width m_column)%nat
       end
    then
      it ← calcLength (make_iterator 0);
      Done (if decide (it_len it = 0%nat)
            then mk_iterator (S (it_stringIndex it)) (it_pos it) (it_len it) (it_end it) (it_suffix it)
            else it)
    else Assert_failed
  else Assert_failed.

Definition addIndentAndSuffix (it : iterator) (plain : list byte) : list byte :=
  replicate (iterator_indent it) x20 ++ (if it_suffix it then plain ++ [x2d] else plain).

(** What stands on the line, before indent and suffix; [substr] throws past the end. *)
Definition plain_line (it : iterator) : outcome (list byte) :=
  l ← line it;
  match substr l (it_pos it) (Some (it_len it)) with inr p => Done p | inl _ => Undefined end.
Definition deref (it : iterator) : outcome (list byte) :=
  if decide (it_stringIndex it < length (m_strings m_column))%nat then
    if decide (it_pos it ≤ it_end it)%nat then
      plain ← plain_line it;
      Done (addIndentAndSuffix it plain)
    else Assert_failed
  else Assert_failed.

Fixpoint leading_whitespace (l : list byte) : nat :=
  match l with
  | [] => 0
  | c :: l => if isWhitespace c then S (leading_whitespace l) else 0
  end.
(** Where the next line starts. *)
Definition next_pos (l : list byte) (pos : nat) : nat :=
  if decide (l !! pos = Some x0a) then S pos else (pos + leading_whitespace (drop pos l))%nat.

Definition increment (it : iterator) : outcome iterator :=
  l ← line it;
  let pos := next_pos l (it_pos it + it_len it) in
  let it :=
    if decide (pos = length l)
    then mk_iterator (S (it_stringIndex it)) 0 (it_len it) (it_end it) (it_suffix it)
    else mk_iterator (it_stringIndex it) pos (it_len it) (it_end it) (it_suffix it) in
  if decide (it_stringIndex it < length (m_strings m_column))%nat then calcLength it else Done it.

Definition iterator_eq (a b : iterator) : bool :=
  bool_decide (it_pos a = it_pos b) && bool_decide (it_stringIndex a = it_stringIndex b).

(** The range [for] over the lines of a column. *)
Fixpoint lines_from (fuel : nat) (it : iterator) : outcome (list (list byte)) :=
  match fuel with
  | O => Undefined
  | S fuel =>
      if iterator_eq it col_end then Done []
      else
        l ← deref it;
        it ← increment it;
        ls ← lines_from fuel it;
        Done (l :: ls)
  end.
End iterator.

Definition column_lines (fuel : nat) (c : Column) : outcome (list (list byte)) :=
  it ← begin c; lines_from c fuel it.

(** [os << "\n"] between the lines. *)
Fixpoint join_lines (ls : list (list byte)) : list byte :=
  match ls with
  | [] => []
  | [l] => l
  | l :: ls => l ++ [x0a] ++ join_lines ls
  end.
Definition column_toString (fuel : nat) (c : Column) : outcome (list byte) :=
  ls ← column_lines fuel c; Done (join_lines ls).

(** ** Columns *)
Definition Columns : Type := list Column.
Definition columns_add (cs : Columns) (c : Column) : Columns := cs ++ [c].
Definition column_add (a b : Column) : Columns := columns_add (columns_add [] a) b.

Fixpoint columns_begin (cs : Columns) : outcome (list iterator) :=
  match cs with
  | [] => Done []
  | c :: cs => it ← begin c; its ← columns_begin cs; Done (it :: its)
  end.
Definition columns_end (cs : Columns) : list iterator := col_end <$> cs.

Fixpoint iterators_eq (a b : list iterator) : bool :=
  match a, b with
  | [], [] => true
  | x :: a, y :: b => iterator_eq x y && iterators_eq a b
  | _, _ => false
  end.

(** A row: finished columns are blank, and the padding is written only before more text. *)
Fixpoint columns_row (cs : Columns) (its : list iterator) (row padding : list byte) : outcome (list byte) :=
  match cs, its with
  | c :: cs, it :: its =>
      if iterator_eq it (col_end c) then columns_row cs its row (padding ++ replicate (m_width c) x20)
      else
        col ← deref c it;
        columns_row cs its (row ++ padding ++ col)
          (if decide (length col < m_width c)%nat then replicate (m_width c - length col) x20 else [])
  | _, _ => Done row
  end.

Fixpoint columns_increment (cs : Columns) (its : list iterator) : outcome (list iterator) :=
  match cs, its with
  | c :: cs, it :: its =>
      it ← (if iterator_eq it (col_end c) then Done it else increment c it);
      its ← columns_increment cs its;
      Done (it :: its)
  | _, _ => Done []
  end.

Fixpoint rows_from (fuel : nat) (cs : Columns) (its : list iterator) : outcome (list (list byte)) :=
  match fuel with
  | O => Undefined
  | S fuel =>
      if iterators_eq its (columns_end cs) then Done []
      else
        row ← columns_row cs its [] [];
        its ← columns_increment cs its;
        rows ← rows_from fuel cs its;
        Done (row :: rows)
  end.
Definition columns_toString (fuel : nat) (cs : Columns) : outcome (list byte) :=
  its ← columns_begin cs; rows ← rows_from fuel cs its; Done (join_lines rows).
