(* ===== verification/CatchTextProps.v ===== *)
(** * Properties of Catch's text wrapping

    A column at least two characters wide beyond its indent always ends, fits, and keeps every
    visible character in order; one that leaves a single character loses text or never ends. *)
From stdpp Require Import strings list.
From S2P Require Import Prelude CatchString CatchText.

(** ** The loops of [calcLength] *)
Lemma str_at_lt l i : (i < length l)%nat → ∃ c, str_at l i = Done c.
Proof.
  intros H. unfold str_at. rewrite decide_True by done.
  destruct (lookup_lt_is_Some_2 _ _ H) as [c ->]. by exists c.
Qed.
Lemma str_at_le l i : (i ≤ length l)%nat → ∃ c, str_at l i = Done c.
Proof.
  intros H. destruct (decide (i < length l)%nat) as [Hi|Hi]; [by apply str_at_lt|].
  unfold str_at. rewrite decide_False, decide_True by lia. by exists x00.
Qed.

Lemma isBoundary_done l i : (0 < i)%nat → (i ≤ length l)%nat → ∃ b, isBoundary l i = Done b.
Proof.
  intros H0 H. unfold isBoundary. rewrite !decide_True by done.
  destruct (decide _) as [|Hne]; [by eexists|].
  destruct (str_at_lt l i) as [c ->]; [lia|]. destruct (str_at_lt l (i - 1)) as [p ->]; [lia|].
  by eexists.
Qed.

Lemma back_to_boundary_done l pos len : (pos + len ≤ length l)%nat →
  ∃ len', back_to_boundary l pos len = Done len' ∧ (len' ≤ len)%nat.
Proof.
  induction len as [|n IH]; intros H; [by exists 0%nat|]. cbn [back_to_boundary].
  destruct (isBoundary_done l (pos + S n)) as [b ->]; [lia|lia|]. cbn [mbind outcome_bind].
  destruct b; [by exists (S n)|]. destruct IH as (len' & E & Hl); [lia|]. exists len'. split; [done|lia].
Qed.

Lemma strip_whitespace_done l pos len : (pos + len ≤ length l)%nat →
  ∃ len', strip_whitespace l pos len = Done len' ∧ (len' ≤ len)%nat.
Proof.
  induction len as [|n IH]; intros H; [by exists 0%nat|]. cbn [strip_whitespace].
  destruct (str_at_lt l (pos + S n - 1)) as [c ->]; [lia|]. cbn [mbind outcome_bind].
  destruct (isWhitespace c); [|by exists (S n)].
  destruct IH as (len' & E & Hl); [lia|]. exists len'. split; [done|lia].
Qed.

Lemma to_newline_le l : (to_newline l ≤ length l)%nat.
Proof. induction l as [|c l IH]; cbn; [done|]. case_decide; lia. Qed.

Lemma end_of_line_range l pos : (pos < length l)%nat → (pos < end_of_line l pos ≤ length l)%nat.
Proof.
  intros H. unfold end_of_line. destruct (lookup_lt_is_Some_2 _ _ H) as [c Hc]. rewrite Hc.
  case_decide as E.
  - pose proof (to_newline_le (drop (S pos) l)) as Hn. rewrite length_drop in Hn. lia.
  - pose proof (to_newline_le (drop pos l)) as Hn. rewrite length_drop in Hn.
    rewrite (drop_S _ _ _ Hc) in *. cbn [to_newline] in *. case_decide; [congruence|]. lia.
Qed.

(** ** Where the next line starts *)
Definition visible (l : list byte) : list byte := List.filter (λ c, negb (isWhitespace c)) l.

Lemma visible_app a b : visible (a ++ b) = visible a ++ visible b.
Proof. apply List.filter_app. Qed.

Lemma leading_whitespace_visible l : (leading_whitespace l ≤ length l)%nat ∧
  visible (drop (leading_whitespace l) l) = visible l.
Proof.
  induction l as [|c l [IHl IHv]]; [done|]. cbn [leading_whitespace length visible List.filter].
  destruct (isWhitespace c) eqn:Ec; cbn [negb drop].
  - split; [lia|]. exact IHv.
  - split; [lia|]. unfold visible. cbn [List.filter]. by rewrite Ec.
Qed.

Lemma next_pos_ok l p : (p ≤ length l)%nat →
  (p ≤ next_pos l p ≤ length l)%nat ∧ visible (drop (next_pos l p) l) = visible (drop p l).
Proof.
  intros H. unfold next_pos. case_decide as E.
  - pose proof (lookup_lt_Some _ _ _ E). split; [lia|]. rewrite (drop_S _ _ _ E). done.
  - destruct (leading_whitespace_visible (drop p l)) as [Hl Hv]. rewrite length_drop in Hl.
    split; [lia|]. by rewrite <-drop_drop.
Qed.

(** ** One column over one text *)

(** A line of the layout: what of the text it shows, and whether a hyphen follows. *)
Record piece := mk_piece { shown : list byte; hyphen : bool }.
Definition piece_line (indent : nat) (p : piece) : list byte :=
  replicate indent x20 ++ shown p ++ (if hyphen p then [x2d] else []).
Definition layout (first rest : nat) (ps : list piece) : list (list byte) :=
  match ps with [] => [] | p :: ps => piece_line first p :: List.map (piece_line rest) ps end.
Definition piece_fits (width : nat) (p : piece) : Prop :=
  (0 < length (shown p))%nat ∧ (length (shown p) + (if hyphen p then 1 else 0) ≤ width)%nat.

Section column.
Context (c : Column) (text : list byte) (Hc : m_strings c = [text]).
Let first_indent : nat := default (c_indent c) (m_initialIndent c).
Context (Hindent : (c_indent c + 2 ≤ m_width c)%nat) (Hfirst : (first_indent + 2 ≤ m_width c)%nat).

Definition indent_at (pos : nat) : nat := if decide (pos = 0%nat) then first_indent else c_indent c.

Lemma iterator_indent_at it : it_stringIndex it = 0%nat → iterator_indent c it = indent_at (it_pos it).
Proof.
  intros Hi. unfold iterator_indent, indent_at, first_indent. rewrite Hi.
  destruct (decide (it_pos it = 0%nat)) as [->|]; [by destruct (m_initialIndent c)|].
  by rewrite decide_False by naive_solver.
Qed.

Lemma indent_at_fits pos : (indent_at pos + 2 ≤ m_width c)%nat.
Proof using Hindent Hfirst. unfold indent_at. case_decide; lia. Qed.

(** The iterator in the middle of the text: a line that fits and moves on. *)
Definition sits (it : iterator) : Prop :=
  it_stringIndex it = 0%nat ∧ (it_pos it + it_len it ≤ length text)%nat ∧ (it_pos it ≤ it_end it)%nat ∧
  (0 < it_len it)%nat ∧
  (it_len it + (if it_suffix it then 1 else 0) + indent_at (it_pos it) ≤ m_width c)%nat.

Lemma calcLength_sits it : it_stringIndex it = 0%nat → (it_pos it < length text)%nat →
  ∃ it', calcLength c it = Done it' ∧ sits it' ∧ it_pos it' = it_pos it.
Proof using Hc Hindent Hfirst.
  intros Hi Hp. pose proof (indent_at_fits (it_pos it)) as Hw.
  unfold calcLength, line. rewrite Hi, Hc, iterator_indent_at by done. cbn [length lookup list_lookup].
  rewrite decide_True by lia. cbn [or_undefined mbind outcome_bind].
  destruct (str_at_lt text (it_pos it)) as [b ->]; [done|]. cbn [mbind outcome_bind].
  destruct (end_of_line_range text (it_pos it) Hp) as [He1 He2].
  destruct (decide _) as [Hshort|Hlong].
  - eexists. split; [done|]. split; [|done]. unfold sits. cbn. repeat split; lia.
  - destruct (back_to_boundary_done text (it_pos it) (m_width c - indent_at (it_pos it)))
      as (n1 & -> & H1); [lia|]. cbn [mbind outcome_bind].
    destruct (strip_whitespace_done text (it_pos it) n1) as (n2 & -> & H2); [lia|].
    cbn [mbind outcome_bind].
    destruct (decide _); (eexists; split; [done|]; split; [|done]); unfold sits; cbn; repeat split; lia.
Qed.

Definition piece_of (it : iterator) : piece :=
  mk_piece (take (it_len it) (drop (it_pos it) text)) (it_suffix it).

Lemma deref_sits it : sits it → deref c it = Done (piece_line (indent_at (it_pos it)) (piece_of it)).
Proof using Hc Hindent Hfirst.
  intros (Hi & Hl & He & _ & _). unfold deref, plain_line, line. rewrite Hi, Hc.
  cbn [length lookup list_lookup or_undefined mbind outcome_bind].
  rewrite decide_True by lia. rewrite decide_True by done. unfold substr.
  rewrite decide_True by lia. cbn [outcome_bind]. unfold addIndentAndSuffix.
  rewrite iterator_indent_at by done. unfold piece_line, piece_of. cbn [shown hyphen].
  destruct (it_suffix it); by rewrite ?app_nil_r.
Qed.

Lemma piece_of_fits it : sits it →
  piece_fits (m_width c - indent_at (it_pos it)) (piece_of it) ∧
  visible (shown (piece_of it)) ++ visible (drop (it_pos it + it_len it) text) =
    visible (drop (it_pos it) text).
Proof using Hc Hindent Hfirst.
  intros (_ & Hl & _ & Hn & Hw). unfold piece_of, piece_fits. cbn [shown hyphen].
  rewrite length_take, length_drop. split; [split; [lia|destruct (it_suffix it); lia]|].
  rewrite <-visible_app, <-drop_drop. by rewrite take_drop.
Qed.

(** From a line on, the rest of the text is laid out. *)
Lemma lines_from_sits fuel it : sits it → (length text - it_pos it < fuel)%nat →
  ∃ p ps, lines_from c fuel it =
      Done (piece_line (indent_at (it_pos it)) p :: List.map (piece_line (c_indent c)) ps) ∧
    piece_fits (m_width c - indent_at (it_pos it)) p ∧
    Forall (piece_fits (m_width c - c_indent c)) ps ∧
    visible (List.concat (List.map shown (p :: ps))) = visible (drop (it_pos it) text).
Proof using Hc Hindent Hfirst.
  revert it. induction fuel as [|fuel IH]; intros it Hs Hf; [lia|]. cbn [lines_from].
  destruct (piece_of_fits it Hs) as [Hp Hv].
  pose proof Hs as (Hi & Hl & _ & Hn & _).
  assert (iterator_eq it (col_end c) = false) as ->.
  { unfold iterator_eq, col_end. rewrite Hi, Hc. cbn. by rewrite andb_false_r. }
  rewrite (deref_sits it Hs). cbn [mbind outcome_bind].
  unfold increment, line. rewrite Hi, Hc.
  cbn [lookup list_lookup or_undefined mbind outcome_bind length].
  destruct (next_pos_ok text (it_pos it + it_len it) Hl) as [Hnp Hnv].
  set (pos := next_pos text (it_pos it + it_len it)) in *.
  destruct (decide (pos = length text)) as [Hend|Hmid].
  - cbn [it_stringIndex]. rewrite decide_False by lia. cbn [mbind outcome_bind].
    assert (lines_from c fuel (mk_iterator 1 0 (it_len it) (it_end it) (it_suffix it)) = Done []) as ->.
    { destruct fuel; [lia|]. cbn [lines_from]. unfold iterator_eq, col_end. rewrite Hc. done. }
    exists (piece_of it), []. repeat split; try done; try apply Hp.
    cbn [List.map List.concat]. rewrite app_nil_r, <-Hv, <-Hnv, Hend, drop_all. cbn. by rewrite app_nil_r.
  - cbn [it_stringIndex]. rewrite decide_True by lia.
    destruct (calcLength_sits (mk_iterator 0 pos (it_len it) (it_end it) (it_suffix it)))
      as (it' & -> & Hs' & Hpos); [done|cbn; lia|]. cbn [it_pos] in Hpos. cbn [mbind outcome_bind].
    destruct (IH it' Hs') as (p & ps & E & Hpf & Hps & Hpv); [lia|]. rewrite E. cbn [mbind outcome_bind].
    assert (indent_at (it_pos it') = c_indent c) as Hind.
    { unfold indent_at. rewrite decide_False by lia. done. }
    rewrite Hind in *. exists (piece_of it), (p :: ps). split; [done|]. split; [done|].
    split; [by constructor|]. cbn [List.map List.concat] in *.
    rewrite visible_app, Hpv, Hpos. rewrite <-Hv. by f_equal.
Qed.

Lemma column_lines_layout fuel : (length text < fuel)%nat →
  ∃ ps, column_lines fuel c = Done (layout first_indent (c_indent c) ps) ∧
    Forall (λ l, length l ≤ m_width c)%nat (layout first_indent (c_indent c) ps) ∧
    visible (List.concat (List.map shown ps)) = visible text.
Proof using Hc Hindent Hfirst.
  intros Hf. unfold column_lines, begin. rewrite decide_True by lia.
  assert (match m_initialIndent c with
          | None => true
          | Some i => bool_decide (i < m_width c)%nat
          end = true) as ->.
  { unfold first_indent in Hfirst. destruct (m_initialIndent c); [|done].
    apply bool_decide_eq_true_2. cbn in Hfirst. lia. }
  destruct (decide (text = [])) as [Et|Et].
  - unfold calcLength, line. rewrite Hc. cbn [length make_iterator it_stringIndex].
    rewrite decide_True by lia. rewrite iterator_indent_at by done.
    pose proof (indent_at_fits 0) as Hw.
    rewrite Et. change (([[]] : list (list byte)) !! 0%nat) with (Some ([] : list byte)).
    cbn [or_undefined mbind outcome_bind it_pos make_iterator]. change (str_at [] 0) with (Done x00).
    change (end_of_line [] 0) with 0%nat. cbn [mbind outcome_bind].
    rewrite decide_True by lia. cbn [mbind outcome_bind it_len].
    rewrite decide_True by done.
    exists []. split; [|by split]. destruct fuel; [lia|]. cbn [lines_from].
    unfold iterator_eq, col_end. rewrite Hc. done.
  - assert (0 < length text)%nat as Ht by (destruct text; [done|cbn; lia]).
    destruct (calcLength_sits (make_iterator 0)) as (it & -> & Hs & Hp);
      [done|done|]. cbn [mbind outcome_bind it_pos make_iterator] in *.
    pose proof Hs as (Hi & _ & _ & Hn & _). rewrite decide_False by lia.
    destruct (lines_from_sits fuel it Hs) as (p & ps & E & Hpf & Hps & Hv); [lia|].
    assert (indent_at (it_pos it) = first_indent) as Hind by (by rewrite Hp).
    rewrite Hind in *. exists (p :: ps). split; [done|]. split.
    + assert (∀ i q, (i ≤ m_width c)%nat → piece_fits (m_width c - i) q →
        (length (piece_line i q) ≤ m_width c)%nat) as Hline.
      { intros i q Hi' [_ Hq]. unfold piece_line. rewrite !length_app, length_replicate.
        destruct (hyphen q); cbn [length]; lia. }
      cbn [layout]. constructor; [apply Hline; [lia|done]|].
      apply Forall_map. eapply Forall_impl; [|exact Hps]. intros q Hq. apply Hline; [lia|done].
    + by rewrite Hv, Hp, drop_0.
Qed.
End column.

(** ** Properties *)

(** C23 (termination): a column that leaves at least two characters beside each of its indents
    lays out any text in at most one line per character; every line fits in the column's
    width, starts with its indent, and the lines show the visible characters of the text,
    each once and in order, hyphens apart. *)
Theorem column_wraps text w i first fuel :
  (i + 2 ≤ w)%nat → (default i first + 2 ≤ w)%nat → (length text < fuel)%nat →
  ∃ ps, column_lines fuel (mk_Column [text] w i first) = Done (layout (default i first) i ps) ∧
    Forall (λ l, length l ≤ w)%nat (layout (default i first) i ps) ∧
    visible (List.concat (List.map shown ps)) = visible text.
Proof. intros Hi Hf Hl. by apply (column_lines_layout (mk_Column [text] w i first) text). Qed.

Lemma column_wraps_witness : ∃ ps,
  column_lines 40 (mk_Column [str "include successful tests (in) output"] 12 2 (Some 0%nat)) =
    Done (layout 0 2 ps) ∧
  Forall (λ l, length l ≤ 12)%nat (layout 0 2 ps) ∧
  visible (List.concat (List.map shown ps)) = visible (str "include successful tests (in) output").
Proof.
  apply (column_wraps (str "include successful tests (in) output") 12 2 (Some 0%nat) 40); cbn; lia.
Defined.

(** With room for one character only, a first word is lost and a later one repeats for ever. *)
Lemma one_character_loses_text : column_lines 1 (mk_Column [str "ab"] 1 0 None) = Done [].
Proof. by vm_compute. Qed.

Lemma one_character_diverges fuel : column_lines fuel (mk_Column [str "a bc"] 1 0 None) = Undefined.
Proof.
  assert (∀ fuel, lines_from (mk_Column [str "a bc"] 1 0 None) fuel (mk_iterator 0 2 0 4 true) =
    Undefined) as H.
  { clear fuel. induction fuel as [|fuel IH]; [done|].
    cbn [lines_from]. change (iterator_eq _ _) with false.
    change (deref _ _) with (Done [x2d]). cbn [mbind outcome_bind].
    change (increment _ _) with (Done (mk_iterator 0 2 0 4 true)). cbn [mbind outcome_bind].
    by rewrite IH. }
  destruct fuel as [|fuel]; [done|]. unfold column_lines.
  change (begin _) with (Done (mk_iterator 0 0 1 4 false)). cbn [mbind outcome_bind lines_from].
  change (iterator_eq _ _) with false. change (deref _ _) with (Done (str "a")).
  cbn [mbind outcome_bind].
  change (increment _ _) with (Done (mk_iterator 0 2 0 4 true)). cbn [mbind outcome_bind].
  by rewrite H.
Qed.
