(* ===== verification/CatchClara.v ===== *)
(** * Catch: clara, the parser of command lines (clara.hpp in native/src/catch.hpp)

    Parsers hold references into the program's configuration; here they are functions over a
    state [S], so parsing threads that state.  [shared_ptr]s to bound references are the
    references themselves, which never change. *)
From stdpp Require Import strings list.
From S2P Require Import Prelude CatchString CatchText.

(** ** Arguments and tokens *)
Record Args := mk_Args { args_exeName : list byte; m_args : list (list byte) }.
(** [argv[0]] of an empty [argv] is null. *)
Definition make_Args (argv : list (list byte)) : outcome Args :=
  match argv with exe :: args => Done (mk_Args exe args) | [] => Undefined end.
Definition exeName (a : Args) : list byte := args_exeName a.

Inductive TokenType := Option_ | Argument.
#[export] Instance TokenType_eq_dec : EqDecision TokenType.
Proof. solve_decision. Defined.
Record Token := mk_Token { tk_type : TokenType; token : list byte }.

Definition isOptPrefix (c : byte) : bool := bool_decide (c = x2d).

(** [it] is what is left of the arguments, the current one included. *)
Record TokenStream := mk_TokenStream { ts_it : list (list byte); m_tokenBuffer : list Token }.

Fixpoint find_first_of (chars s : list byte) : option nat :=
  match s with
  | [] => None
  | c :: s => if decide (c ∈ chars) then Some 0%nat else S <$> find_first_of chars s
  end.
Fixpoint skip_empty (it : list (list byte)) : list (list byte) :=
  match it with [] :: it => skip_empty it | _ => it end.

(** Each character of a group of short options, as an option of its own. *)
Definition short_options (next : list byte) : list Token :=
  (λ c, mk_Token Option_ [x2d; c]) <$> drop 1 next.

Definition load_token (next : list byte) : list Token :=
  if match next with c :: _ => isOptPrefix c | [] => false end then
    match find_first_of (str " :=") next with
    | Some delimiterPos =>
        [mk_Token Option_ (take delimiterPos next); mk_Token Argument (drop (S delimiterPos) next)]
    | None =>
        if negb (bool_decide (next !! 1%nat = Some x2d)) && bool_decide (2 < length next)%nat
        then short_options next
        else [mk_Token Option_ next]
    end
  else [mk_Token Argument next].

Definition loadBuffer (it : list (list byte)) : TokenStream :=
  let it := skip_empty it in
  mk_TokenStream it (match it with [] => [] | next :: _ => load_token next end).

Definition make_TokenStream (a : Args) : TokenStream := loadBuffer (m_args a).
Definition has_token (ts : TokenStream) : bool :=
  match m_tokenBuffer ts, ts_it ts with [], [] => false | _, _ => true end.
Definition ts_count (ts : TokenStream) : nat := (length (m_tokenBuffer ts) + length (ts_it ts))%nat.
Definition front (ts : TokenStream) : outcome Token :=
  match m_tokenBuffer ts with t :: _ => Done t | [] => Assert_failed end.
Definition next_token (ts : TokenStream) : TokenStream :=
  match m_tokenBuffer ts with
  | _ :: t :: buffer => mk_TokenStream (ts_it ts) (t :: buffer)
  | _ => loadBuffer (drop 1 (ts_it ts))
  end.

(** ** Results *)
Inductive BasicResult (T : Type) :=
| Result_ok (value : T)
| LogicError (message : list byte)
| RuntimeError (message : list byte).
Arguments Result_ok {T} value.
Arguments LogicError {T} message.
Arguments RuntimeError {T} message.

Definition result_value {T} (r : BasicResult T) : outcome T :=
  match r with Result_ok v => Done v | _ => Assert_failed end.
Definition errorMessage {T} (r : BasicResult T) : list byte :=
  match r with Result_ok _ => [] | LogicError m => m | RuntimeError m => m end.
(** A result of another type, for errors only. *)
Definition result_cast {T U} (r : BasicResult T) : outcome (BasicResult U) :=
  match r with
  | Result_ok _ => Assert_failed
  | LogicError m => Done (LogicError m)
  | RuntimeError m => Done (RuntimeError m)
  end.

Inductive ParseResultType := Matched | NoMatch | ShortCircuitAll | ShortCircuitSame.
#[export] Instance ParseResultType_eq_dec : EqDecision ParseResultType.
Proof. solve_decision. Defined.
Record ParseState := mk_ParseState { ps_type : ParseResultType; remainingTokens : TokenStream }.
Definition ParserResult : Type := BasicResult ParseResultType.
Definition InternalParseResult : Type := BasicResult ParseState.

(** ** Conversions

    Each takes the value the target has and gives the one it gets. *)
Definition converter (T : Type) : Type := list byte → T → ParserResult * T.

Definition convertInto_string : converter (list byte) := λ source _, (Result_ok Matched, source).

Definition convertInto_bool : converter bool := λ source target,
  let srcLC := toLower source in
  if decide (srcLC ∈ [str "y"; str "1"; str "true"; str "yes"; str "on"]) then (Result_ok Matched, true)
  else if decide (srcLC ∈ [str "n"; str "0"; str "false"; str "no"; str "off"]) then (Result_ok Matched, false)
  else (RuntimeError (str "Expected a boolean value but did not recognise: '" ++ source ++ str "'"), target).

Definition conversion_error (source : list byte) : ParserResult :=
  RuntimeError (str "Unable to convert '" ++ source ++ str "' to destination type").

(** [ss >> target] for an integer: blanks, a sign, digits.  The value is stored even when the
    extraction fails, unless there was nothing but blanks. *)
Definition isspace (c : byte) : bool := bool_decide (c = x20 ∨ 9 ≤ b2z c ≤ 13).
Fixpoint skip_blanks (s : list byte) : list byte :=
  match s with c :: s' => if isspace c then skip_blanks s' else s | [] => [] end.
Definition digit_value (c : byte) : option Z :=
  if decide (48 ≤ b2z c ≤ 57) then Some (b2z c - 48) else None.
Fixpoint read_digits (s : list byte) (acc : option Z) : option Z :=
  match s with
  | c :: s =>
      match digit_value c with
      | Some d => read_digits s (Some (default 0 acc * 10 + d))
      | None => acc
      end
  | [] => acc
  end.
Definition read_sign (s : list byte) : bool * list byte :=
  match s with
  | c :: s' => if decide (c = x2d) then (true, s') else if decide (c = x2b) then (false, s') else (false, s)
  | [] => (false, s)
  end.

Definition convertInto_int : converter Z := λ source target,
  match skip_blanks source with
  | [] => (conversion_error source, target)
  | s =>
      let '(negative, s) := read_sign s in
      match read_digits s None with
      | None => (conversion_error source, 0)
      | Some v =>
          let v := if (negative : bool) then - v else v in
          if decide (v < -2147483648) then (conversion_error source, -2147483648)
          else if decide (2147483647 < v) then (conversion_error source, 2147483647)
          else (Result_ok Matched, v)
      end
  end.
(** A minus sign is read and negates modulo 2^32. *)
Definition convertInto_unsigned : converter Z := λ source target,
  match skip_blanks source with
  | [] => (conversion_error source, target)
  | s =>
      let '(negative, s) := read_sign s in
      match read_digits s None with
      | None => (conversion_error source, 0)
      | Some v =>
          if decide (u32_modulus ≤ v) then (conversion_error source, u32_modulus - 1)
          else (Result_ok Matched, if (negative : bool) then u32 (- v) else v)
      end
  end.

(** ** Bound references, arguments and options *)
Inductive Optionality := Optional | Required.

Section parsers.
Context {S : Type}.

Inductive BoundRef :=
| BoundValueRef (isContainer : bool) (setValue : list byte → S → ParserResult * S)
| BoundFlagRef (setFlag : bool → S → ParserResult * S).
Definition ref_isContainer (r : BoundRef) : bool :=
  match r with BoundValueRef b _ => b | BoundFlagRef _ => false end.
Definition ref_isFlag (r : BoundRef) : bool :=
  match r with BoundValueRef _ _ => false | BoundFlagRef _ => true end.

Definition bound_value {T} (convert : converter T) (get : S → T) (set : T → S → S) : BoundRef :=
  BoundValueRef false (λ arg s, let '(r, t) := convert arg (get s) in (r, set t s)).
Definition bound_vector {T} (convert : converter T) (temp : T) (get : S → list T)
    (set : list T → S → S) : BoundRef :=
  BoundValueRef true (λ arg s,
    let '(r, t) := convert arg temp in
    match r with Result_ok _ => (r, set (get s ++ [t]) s) | _ => (r, s) end).
Definition invokeLambda {T} (convert : converter T) (temp : T) (lambda : T → S → ParserResult * S)
    (arg : list byte) (s : S) : ParserResult * S :=
  let '(r, t) := convert arg temp in
  match r with Result_ok _ => lambda t s | _ => (r, s) end.
Definition bound_lambda {T} (convert : converter T) (temp : T) (lambda : T → S → ParserResult * S) : BoundRef :=
  BoundValueRef false (invokeLambda convert temp lambda).
Definition bound_flag (set : bool → S → S) : BoundRef :=
  BoundFlagRef (λ flag s, (Result_ok Matched, set flag s)).
(** A lambda that returns nothing matches. *)
Definition invoke_void {T} (f : T → S → S) (arg : T) (s : S) : ParserResult * S :=
  (Result_ok Matched, f arg s).
Definition bound_flag_lambda (lambda : bool → S → ParserResult * S) : BoundRef := BoundFlagRef lambda.

Record ParserRefImpl := mk_ParserRefImpl {
  m_optionality : Optionality;
  m_ref : BoundRef;
  m_hint : list byte;
  m_description : list byte
}.
Definition new_ref (ref : BoundRef) (hint : list byte) : ParserRefImpl := mk_ParserRefImpl Optional ref hint [].
Definition described (description : list byte) (p : ParserRefImpl) : ParserRefImpl :=
  mk_ParserRefImpl (m_optionality p) (m_ref p) (m_hint p) description.
Definition optional (p : ParserRefImpl) : ParserRefImpl :=
  mk_ParserRefImpl Optional (m_ref p) (m_hint p) (m_description p).
Definition required (p : ParserRefImpl) : ParserRefImpl :=
  mk_ParserRefImpl Required (m_ref p) (m_hint p) (m_description p).
Definition isOptional (p : ParserRefImpl) : bool :=
  match m_optionality p with Optional => true | Required => false end.
Definition cardinality (p : ParserRefImpl) : nat := if ref_isContainer (m_ref p) then 0 else 1.

(** *** The name of the executable *)
Record ExeName := mk_ExeName { m_name : list byte; exe_ref : option BoundRef }.
Definition new_ExeName : ExeName := mk_ExeName (str "<executable>") None.
Fixpoint find_last_of (chars s : list byte) : option nat :=
  match s with
  | [] => None
  | c :: s =>
      match find_last_of chars s with
      | Some i => Some (Datatypes.S i)
      | None => if decide (c ∈ chars) then Some 0%nat else None
      end
  end.
Definition exe_set (newName : list byte) (e : ExeName) (s : S) : ParserResult * ExeName * S :=
  let filename :=
    match find_last_of (str "\/") newName with
    | None => newName
    | Some lastSlash => drop (Datatypes.S lastSlash) newName
    end in
  match exe_ref e with
  | Some (BoundValueRef _ setValue) =>
      let '(r, s) := setValue filename s in (r, mk_ExeName filename (exe_ref e), s)
  | _ => (Result_ok Matched, mk_ExeName filename (exe_ref e), s)
  end.

(** *** Arg *)
Definition Arg : Type := ParserRefImpl.

Definition parse_result : Type := outcome (InternalParseResult * S).
Definition parsed (type : ParseResultType) (ts : TokenStream) (s : S) : parse_result :=
  Done (Result_ok (mk_ParseState type ts), s).
Definition failed_parse {T} (r : BasicResult T) (s : S) : parse_result :=
  r ← result_cast r; Done (r, s).

Definition arg_parse (a : Arg) (tokens : TokenStream) (s : S) : parse_result :=
  t ← front tokens;
  if decide (tk_type t ≠ Argument) then parsed NoMatch tokens s
  else
    match m_ref a with
    | BoundFlagRef _ => Assert_failed
    | BoundValueRef _ setValue =>
        t ← front tokens;
        let '(r, s) := setValue (token t) s in
        match r with
        | Result_ok _ => parsed Matched (next_token tokens) s
        | _ => failed_parse r s
        end
    end.

(** *** Opt *)
Record Opt := mk_Opt { opt_ref : ParserRefImpl; m_optNames : list (list byte) }.
Definition new_Opt (ref : BoundRef) (hint : list byte) : Opt := mk_Opt (new_ref ref hint) [].
Definition opt_name (optName : list byte) (o : Opt) : Opt := mk_Opt (opt_ref o) (m_optNames o ++ [optName]).
Definition opt_described (description : list byte) (o : Opt) : Opt :=
  mk_Opt (described description (opt_ref o)) (m_optNames o).
Definition normaliseOpt (optName : list byte) : list byte := optName.
Definition isMatch (o : Opt) (optToken : list byte) : bool :=
  existsb (λ name, bool_decide (normaliseOpt name = normaliseOpt optToken)) (m_optNames o).

Record HelpColumns := mk_HelpColumns { left : list byte; right : list byte }.
Fixpoint join_names (names : list (list byte)) (first : bool) : list byte :=
  match names with
  | [] => []
  | n :: names => (if first then [] else str ", ") ++ n ++ join_names names false
  end.
Definition opt_getHelpColumns (o : Opt) : list HelpColumns :=
  let hint := m_hint (opt_ref o) in
  [mk_HelpColumns
     (join_names (m_optNames o) true ++
      (if decide (hint = []) then [] else str " <" ++ hint ++ str ">"))
     (m_description (opt_ref o))].

Fixpoint validate_names (names : list (list byte)) : BasicResult unit :=
  match names with
  | [] => Result_ok tt
  | name :: names =>
      match name with
      | [] => LogicError (str "Option name cannot be empty")
      | c :: _ =>
          if decide (c ≠ x2d) then LogicError (str "Option name must begin with '-'")
          else validate_names names
      end
  end.
Definition opt_validate (o : Opt) : BasicResult unit :=
  match m_optNames o with
  | [] => LogicError (str "No options supplied to Opt")
  | names => validate_names names
  end.

Definition expected_argument (t : Token) : InternalParseResult :=
  RuntimeError (str "Expected argument following " ++ token t).

Definition opt_flag (setFlag : bool → S → ParserResult * S) (tokens : TokenStream) (s : S) : parse_result :=
  let '(r, s) := setFlag true s in
  match r with
  | Result_ok v =>
      if decide (v = ShortCircuitAll) then parsed v tokens s else parsed Matched (next_token tokens) s
  | _ => failed_parse r s
  end.
Definition opt_value (setValue : list byte → S → ParserResult * S) (t : Token) (tokens : TokenStream) (s : S)
    : parse_result :=
  let tokens := next_token tokens in
  if negb (has_token tokens) then Done (expected_argument t, s)
  else
    argToken ← front tokens;
    if decide (tk_type argToken ≠ Argument) then Done (expected_argument t, s)
    else
      let '(r, s) := setValue (token argToken) s in
      match r with
      | Result_ok v =>
          if decide (v = ShortCircuitAll) then parsed v tokens s else parsed Matched (next_token tokens) s
      | _ => failed_parse r s
      end.

Definition opt_parse (o : Opt) (tokens : TokenStream) (s : S) : parse_result :=
  match opt_validate o with
  | Result_ok _ =>
      if negb (has_token tokens) then parsed NoMatch tokens s
      else
        t ← front tokens;
        if bool_decide (tk_type t = Option_) && isMatch o (token t) then
          match m_ref (opt_ref o) with
          | BoundFlagRef setFlag => opt_flag setFlag tokens s
          | BoundValueRef _ setValue => opt_value setValue t tokens s
          end
        else parsed NoMatch tokens s
  | r => failed_parse r s
  end.

Definition Help (set_showHelp : bool → S → S) : Opt :=
  mk_Opt (optional (described (str "display usage information")
    (new_ref (bound_flag_lambda (λ flag s, (Result_ok ShortCircuitAll, set_showHelp flag s))) [])))
    [str "-?"; str "-h"; str "--help"].

(** ** Parser *)
Record Parser := mk_Parser { m_exeName : ExeName; m_options : list Opt; p_args : list Arg }.
Definition new_Parser : Parser := mk_Parser new_ExeName [] [].
Definition with_exeName (e : ExeName) (p : Parser) : Parser := mk_Parser e (m_options p) (p_args p).
Definition with_arg (a : Arg) (p : Parser) : Parser := mk_Parser (m_exeName p) (m_options p) (p_args p ++ [a]).
Definition with_opt (o : Opt) (p : Parser) : Parser := mk_Parser (m_exeName p) (m_options p ++ [o]) (p_args p).
Definition with_parser (other p : Parser) : Parser :=
  mk_Parser (m_exeName p) (m_options p ++ m_options other) (p_args p ++ p_args other).

Definition getHelpColumns (p : Parser) : list HelpColumns := m_options p ≫= opt_getHelpColumns.

Fixpoint first_error (rs : list (BasicResult unit)) : BasicResult unit :=
  match rs with
  | [] => Result_ok tt
  | Result_ok _ :: rs => first_error rs
  | r :: _ => r
  end.
(** An [Arg] is always valid. *)
Definition validate (p : Parser) : BasicResult unit := first_error (List.map opt_validate (m_options p)).

(** *** The usage text *)
Fixpoint usage_args (args : list Arg) (required first : bool) : list byte * bool :=
  match args with
  | [] => ([], required)
  | a :: args =>
      let opens := isOptional a && required in
      let '(rest, required) := usage_args args (required && negb opens) false in
      ((if first then [] else str " ") ++ (if opens then str "[" else []) ++
       str "<" ++ m_hint a ++ str ">" ++ (if decide (cardinality a = 0%nat) then str " ... " else []) ++
       rest, required)
  end.
Definition usage (p : Parser) : list byte :=
  if decide (m_name (m_exeName p) = []) then []
  else
    let '(args, required) := usage_args (p_args p) true true in
    str "usage:" ++ [x0a] ++ str "  " ++ m_name (m_exeName p) ++ str " " ++ args ++
    (if (required : bool) then [] else str "]") ++
    (if decide (m_options p = []) then [] else str " options") ++
    [x0a; x0a] ++ str "where options are:" ++ [x0a].

Definition option_width (rows : list HelpColumns) : nat :=
  Nat.min (foldl (λ w cols, Nat.max w (length (left cols) + 2)) 0%nat rows) (CONSOLE_WIDTH / 2).
Definition help_row (fuel optWidth : nat) (cols : HelpColumns) : outcome (list byte) :=
  a ← width optWidth (new_Column (left cols));
  gap ← Spacer 4;
  b ← width (CONSOLE_WIDTH - 7 - optWidth) (new_Column (right cols));
  row ← columns_toString fuel (columns_add (column_add (indent 2 a) gap) b);
  Done (row ++ [x0a]).
Fixpoint help_rows (fuel optWidth : nat) (rows : list HelpColumns) : outcome (list byte) :=
  match rows with
  | [] => Done []
  | cols :: rows =>
      row ← help_row fuel optWidth cols;
      rest ← help_rows fuel optWidth rows;
      Done (row ++ rest)
  end.
Definition writeToStream (fuel : nat) (p : Parser) : outcome (list byte) :=
  let rows := getHelpColumns p in
  text ← help_rows fuel (option_width rows) rows;
  Done (usage p ++ text).

(** *** Parsing *)
Inductive ParserBase := POpt (o : Opt) | PArg (a : Arg).
Definition base_cardinality (p : ParserBase) : nat :=
  cardinality (match p with POpt o => opt_ref o | PArg a => a end).
Definition base_parse (p : ParserBase) (tokens : TokenStream) (s : S) : parse_result :=
  match p with POpt o => opt_parse o tokens s | PArg a => arg_parse a tokens s end.
Definition ParserInfo : Type := ParserBase * nat.

(** A round: the parsers that may still match are asked in turn until one takes the token.  The
    result with whether a token was parsed, and the counts. *)
Fixpoint offer (infos : list ParserInfo) (st : ParseState) (s : S)
    : outcome (BasicResult (ParseState * bool * list ParserInfo) * S) :=
  match infos with
  | [] => Done (Result_ok (st, false, []), s)
  | (p, count) :: infos =>
      if decide (base_cardinality p = 0 ∨ count < base_cardinality p)%nat then
        '(r, s) ← base_parse p (remainingTokens st) s;
        match r with
        | Result_ok st =>
            if decide (ps_type st ≠ NoMatch)
            then Done (Result_ok (st, true, (p, Datatypes.S count) :: infos), s)
            else
              '(r, s) ← offer infos st s;
              Done (match r with
                    | Result_ok (st, b, infos) => Result_ok (st, b, (p, count) :: infos)
                    | r => r
                    end, s)
        | LogicError m => Done (LogicError m, s)
        | RuntimeError m => Done (RuntimeError m, s)
        end
      else
        '(r, s) ← offer infos st s;
        Done (match r with
              | Result_ok (st, b, infos) => Result_ok (st, b, (p, count) :: infos)
              | r => r
              end, s)
  end.

(** One round for each token, with fuel. *)
Fixpoint parse_tokens (fuel : nat) (infos : list ParserInfo) (st : ParseState) (s : S) : parse_result :=
  match fuel with
  | O => Undefined
  | Datatypes.S fuel =>
      if has_token (remainingTokens st) then
        '(r, s) ← offer infos st s;
        match r with
        | Result_ok (st, tokenParsed, infos) =>
            if decide (ps_type st = ShortCircuitAll) then Done (Result_ok st, s)
            else if negb tokenParsed then
              t ← front (remainingTokens st);
              Done (RuntimeError (str "Unrecognised token: " ++ token t), s)
            else parse_tokens fuel infos st s
        | LogicError m => Done (LogicError m, s)
        | RuntimeError m => Done (RuntimeError m, s)
        end
      else Done (Result_ok st, s)
  end.

Definition parse_infos (p : Parser) : list ParserInfo :=
  List.map (λ o, (POpt o, 0%nat)) (m_options p) ++ List.map (λ a, (PArg a, 0%nat)) (p_args p).

Definition parser_parse (fuel : nat) (p : Parser) (exe : list byte) (tokens : TokenStream) (s : S)
    : outcome (InternalParseResult * Parser * S) :=
  if decide (length (m_options p) + length (p_args p) < 512)%nat then
    let '(_, e, s) := exe_set exe (m_exeName p) s in
    '(r, s) ← parse_tokens fuel (parse_infos p) (mk_ParseState NoMatch tokens) s;
    Done (r, with_exeName e p, s)
  else Assert_failed.
Definition parse_args (fuel : nat) (p : Parser) (a : Args) (s : S) : outcome (InternalParseResult * Parser * S) :=
  parser_parse fuel p (exeName a) (make_TokenStream a) s.
End parsers.
Arguments BoundRef : clear implicits.
Arguments ParserRefImpl : clear implicits.
Arguments ExeName : clear implicits.
Arguments Arg : clear implicits.
Arguments Opt : clear implicits.
Arguments Parser : clear implicits.
Arguments ParserBase : clear implicits.
Arguments ParserInfo : clear implicits.
