(* ===== verification/CatchClaraProps.v ===== *)
(** * Properties of the command-line parser

    The token stream is a list of tokens read one by one; parsing always ends; and a list of
    commands, written as arguments, is carried out in order. *)
From stdpp Require Import strings list.
From S2P Require Import Prelude CatchString CatchText CatchClara.

(** ** The token stream as a list of tokens *)
Definition arg_tokens (arg : list byte) : list Token := match arg with [] => [] | _ => load_token arg end.
Definition tokens_of (ts : TokenStream) : list Token := m_tokenBuffer ts ++ (drop 1 (ts_it ts) ≫= arg_tokens).
Definition stream_wf (ts : TokenStream) : Prop := ts_it ts = [] ↔ m_tokenBuffer ts = [].

Lemma load_token_nonempty next : load_token next ≠ [].
Proof.
  unfold load_token. destruct next as [|c next]; [done|].
  destruct (isOptPrefix c); [|done]. destruct (find_first_of _ _); [done|].
  case_match eqn:E; [|done]. apply andb_true_iff in E as [_ E]. apply bool_decide_eq_true_1 in E.
  unfold short_options. cbn in *. destruct next; [cbn in E; lia|done].
Qed.

Lemma skip_empty_tokens it :
  match skip_empty it with
  | [] => it ≫= arg_tokens = []
  | next :: rest => next ≠ [] ∧ it ≫= arg_tokens = load_token next ++ (rest ≫= arg_tokens)
  end.
Proof. induction it as [|[|c arg] it IH]; cbn; [done|exact IH|done]. Qed.

Lemma loadBuffer_tokens it : stream_wf (loadBuffer it) ∧ tokens_of (loadBuffer it) = it ≫= arg_tokens.
Proof.
  pose proof (skip_empty_tokens it) as H. unfold loadBuffer, stream_wf, tokens_of.
  destruct (skip_empty it) as [|next rest]; cbn [ts_it m_tokenBuffer drop app].
  - by rewrite H.
  - destruct H as [_ H]. rewrite H. split; [|by rewrite drop_0].
    split; [done|]. intros E. by destruct (load_token_nonempty next).
Qed.

Lemma next_token_tokens ts t l : stream_wf ts → tokens_of ts = t :: l →
  stream_wf (next_token ts) ∧ tokens_of (next_token ts) = l.
Proof.
  destruct ts as [it buffer]. unfold stream_wf, tokens_of, next_token. cbn [ts_it m_tokenBuffer].
  intros Hwf Ht. destruct buffer as [|t1 [|t2 buffer]].
  - rewrite (proj2 Hwf eq_refl) in Ht. done.
  - cbn [app] in Ht. injection Ht as _ Ht. destruct (loadBuffer_tokens (drop 1 it)) as [Hw Ht'].
    split; [exact Hw|]. unfold tokens_of in Ht'. by rewrite Ht'.
  - cbn in Ht. injection Ht as _ Ht. split; [|done]. cbn. split; [|done].
    intros E. by apply Hwf in E.
Qed.

Lemma front_tokens ts t l : stream_wf ts → tokens_of ts = t :: l →
  front ts = Done t ∧ has_token ts = true.
Proof.
  destruct ts as [it buffer]. unfold stream_wf, tokens_of, front, has_token. cbn [ts_it m_tokenBuffer].
  intros Hwf Ht. destruct buffer as [|t1 buffer]; [by rewrite (proj2 Hwf eq_refl) in Ht|].
  by injection Ht as -> _.
Qed.
Lemma no_tokens ts : stream_wf ts → tokens_of ts = [] → has_token ts = false.
Proof.
  destruct ts as [it buffer]. unfold stream_wf, tokens_of, has_token. cbn [ts_it m_tokenBuffer].
  intros Hwf Ht. apply app_eq_nil in Ht as [-> _]. by rewrite (proj2 Hwf eq_refl).
Qed.

Section parsers.
Context {S : Type}.
Implicit Types (s : S) (ts : TokenStream).

(** ** Every parser ends *)

(** What a parser may leave: an error, or a well-formed stream that is shorter if it matched. *)
Definition progress (ts : TokenStream) (o : outcome (InternalParseResult * S)) : Prop :=
  match o with
  | Done (Result_ok st, _) =>
      stream_wf (remainingTokens st) ∧
      (ps_type st = NoMatch → remainingTokens st = ts) ∧
      (ps_type st ≠ NoMatch → ps_type st ≠ ShortCircuitAll →
        length (tokens_of (remainingTokens st)) < length (tokens_of ts))%nat
  | Done _ => True
  | _ => False
  end.

Lemma failed_progress {T} ts (r : BasicResult T) s :
  match r with Result_ok _ => False | _ => True end → progress ts (failed_parse r s).
Proof. by destruct r. Qed.

Lemma parsed_progress ts v s : stream_wf ts → v = NoMatch ∨ v = ShortCircuitAll →
  progress ts (parsed v ts s).
Proof. intros Hwf Hv. cbn. destruct Hv as [->| ->]; naive_solver. Qed.

Lemma matched_progress ts t l s : stream_wf ts → tokens_of ts = t :: l →
  progress ts (parsed Matched (next_token ts) s).
Proof.
  intros Hwf Ht. destruct (next_token_tokens ts t l Hwf Ht) as [Hw Hl].
  cbn. rewrite Hl, Ht. split; [done|]. split; [done|]. intros _ _. cbn. lia.
Qed.

(** An argument that is not a flag. *)
Definition arg_ok (a : Arg S) : Prop := ref_isFlag (m_ref a) = false.

Lemma arg_parse_progress a ts s t l : arg_ok a → stream_wf ts → tokens_of ts = t :: l →
  progress ts (arg_parse a ts s).
Proof.
  intros Ha Hwf Ht. destruct (front_tokens ts t l Hwf Ht) as [Hf _]. unfold arg_parse. rewrite Hf.
  cbn [mbind outcome_bind]. destruct (decide _); [by apply parsed_progress; [|left]|].
  unfold arg_ok in Ha. destruct (m_ref a) as [b setValue|]; [|done].
  destruct (setValue (token t) s) as [[v|m|m] s']; [|done|done]. by eapply matched_progress.
Qed.

Lemma opt_parse_progress o ts s t l : stream_wf ts → tokens_of ts = t :: l →
  progress ts (opt_parse o ts s).
Proof.
  intros Hwf Ht. destruct (front_tokens ts t l Hwf Ht) as [Hf Hh]. unfold opt_parse.
  destruct (opt_validate o) eqn:Ev; [|done|done]. rewrite Hh, Hf. cbn [negb mbind outcome_bind].
  destruct (_ && _); [|by apply parsed_progress; [|left]].
  destruct (m_ref (opt_ref o)) as [b setValue|setFlag].
  - unfold opt_value. destruct (next_token_tokens ts t l Hwf Ht) as [Hw Hl].
    destruct l as [|t' l]; [by rewrite (no_tokens _ Hw Hl)|].
    destruct (front_tokens _ _ _ Hw Hl) as [Hf' ->]. rewrite Hf'. cbn [negb mbind outcome_bind].
    destruct (decide _); [done|].
    destruct (setValue (token t') s) as [[v|m|m] s']; [|done|done].
    destruct (decide _) as [->|]; [cbn; naive_solver|].
    destruct (next_token_tokens _ _ _ Hw Hl) as [Hw2 Hl2]. cbn. rewrite Hl2, Ht.
    split; [done|]. split; [done|]. intros _ _. cbn. lia.
  - unfold opt_flag. destruct (setFlag true s) as [[v|m|m] s']; [|done|done].
    destruct (decide _) as [->|]; [by apply parsed_progress; [|right]|]. by eapply matched_progress.
Qed.

Definition base_ok (p : ParserBase S) : Prop := match p with POpt _ => True | PArg a => arg_ok a end.

Lemma base_parse_progress p ts s t l : base_ok p → stream_wf ts → tokens_of ts = t :: l →
  progress ts (base_parse p ts s).
Proof. destruct p; intros Hp Hwf Ht; [by eapply opt_parse_progress|by eapply arg_parse_progress]. Qed.

Lemma offer_progress infos st s t l : Forall (λ i, base_ok (fst i)) infos →
  stream_wf (remainingTokens st) → tokens_of (remainingTokens st) = t :: l →
  match offer infos st s with
  | Done (Result_ok (st', b, infos'), _) =>
      Forall (λ i, base_ok (fst i)) infos' ∧ stream_wf (remainingTokens st') ∧
      (b = false → remainingTokens st' = remainingTokens st) ∧
      (b = true → ps_type st' ≠ ShortCircuitAll →
        (length (tokens_of (remainingTokens st')) < length (tokens_of (remainingTokens st)))%nat)
  | Done _ => True
  | _ => False
  end.
Proof.
  intros Hok. revert st s. induction Hok as [|[p count] infos Hp Hok IH]; intros st s Hwf Ht; [done|].
  cbn [offer]. destruct (decide _) as [_|_].
  - pose proof (base_parse_progress p (remainingTokens st) s t l Hp Hwf Ht) as Hpr.
    destruct (base_parse p (remainingTokens st) s) as [[[st'|m|m] s']| |]; cbn [mbind outcome_bind];
      [|done|done|done|done]. destruct Hpr as (Hw & Hno & Hyes).
    destruct (decide _) as [Hm|Hm].
    + split; [by constructor|]. split; [done|]. split; [done|]. by intros _; apply Hyes.
    + assert (remainingTokens st' = remainingTokens st) as Heq.
      { apply Hno. by destruct (ps_type st'); [exfalso; apply Hm| |exfalso; apply Hm|exfalso; apply Hm]. }
      specialize (IH st' s'). rewrite Heq in IH. specialize (IH Hwf Ht).
      destruct (offer infos st' s') as [[[[[st2 b2] infos2]|m|m] s2]| |]; cbn [mbind outcome_bind];
        [|done|done|done|done]. destruct IH as (H1 & H2). split; [by constructor|exact H2].
  - specialize (IH st s Hwf Ht).
    destruct (offer infos st s) as [[[[[st2 b2] infos2]|m|m] s2]| |]; cbn [mbind outcome_bind];
      [|done|done|done|done]. destruct IH as (H1 & H2). split; [by constructor|exact H2].
Qed.

Lemma parse_tokens_ends fuel infos st s : Forall (λ i, base_ok (fst i)) infos →
  stream_wf (remainingTokens st) → (length (tokens_of (remainingTokens st)) < fuel)%nat →
  is_done (parse_tokens fuel infos st s) = true.
Proof.
  revert infos st s. induction fuel as [|fuel IH]; intros infos st s Hok Hwf Hf; [lia|].
  cbn [parse_tokens]. destruct (tokens_of (remainingTokens st)) as [|t l] eqn:Ht.
  - by rewrite (no_tokens _ Hwf Ht).
  - destruct (front_tokens _ _ _ Hwf Ht) as [Hfr ->].
    pose proof (offer_progress infos st s t l Hok Hwf Ht) as H.
    destruct (offer infos st s) as [[[[[st' b] infos']|m|m] s']| |]; cbn [mbind outcome_bind];
      [|done|done|done|done]. destruct H as (Hok' & Hw & Hno & Hyes).
    destruct (decide _) as [|Hsc]; [done|]. destruct b; cbn [negb].
    + apply IH; [done|done|]. specialize (Hyes eq_refl Hsc). rewrite Ht in Hyes. cbn in *. lia.
    + rewrite (Hno eq_refl), Hfr. done.
Qed.

(** ** Commands

    What a user asks for: a flag, an option with its value, or an argument.  An option is known by
    its place in the parser. *)
Inductive command :=
| Flag (i : nat) (name : list byte)
| Value (i : nat) (name value : list byte)
| Positional (value : list byte).

Definition command_tokens (c : command) : list Token :=
  match c with
  | Flag _ name => [mk_Token Option_ name]
  | Value _ name value => [mk_Token Option_ name; mk_Token Argument value]
  | Positional value => [mk_Token Argument value]
  end.

Definition set_value (r : BoundRef S) (value : list byte) (s : S) : ParserResult * S :=
  match r with BoundValueRef _ set => set value s | BoundFlagRef _ => (Result_ok NoMatch, s) end.
Definition set_flag (r : BoundRef S) (s : S) : ParserResult * S :=
  match r with BoundFlagRef set => set true s | BoundValueRef _ _ => (Result_ok NoMatch, s) end.

(** What a command does to the state. *)
Definition apply_command (p : Parser S) (c : command) (s : S) : ParserResult * S :=
  match c with
  | Flag i _ =>
      match m_options p !! i with Some o => set_flag (m_ref (opt_ref o)) s | None => (Result_ok NoMatch, s) end
  | Value i _ value =>
      match m_options p !! i with Some o => set_value (m_ref (opt_ref o)) value s | None => (Result_ok NoMatch, s) end
  | Positional value =>
      match p_args p with a :: _ => set_value (m_ref a) value s | [] => (Result_ok NoMatch, s) end
  end.

Definition is_positional (c : command) : bool := match c with Positional _ => true | _ => false end.

(** The commands in order, to the first error or the first that ends the parsing. *)
Fixpoint run_commands (p : Parser S) (cs : list command) (s : S) : BasicResult unit * S :=
  match cs with
  | [] => (Result_ok tt, s)
  | c :: cs =>
      let '(r, s) := apply_command p c s in
      match r with
      | Result_ok v =>
          if bool_decide (v = ShortCircuitAll) && negb (is_positional c)
          then (Result_ok tt, s) else run_commands p cs s
      | LogicError m => (LogicError m, s)
      | RuntimeError m => (RuntimeError m, s)
      end
  end.

(** A parser with valid options, no name twice, and one argument that takes any number. *)
Record parser_ok (p : Parser S) : Prop := {
  ok_valid : Forall (λ o, opt_validate o = Result_ok tt) (m_options p);
  ok_names : NoDup (m_options p ≫= m_optNames);
  ok_arg : ∃ a setValue, p_args p = [a] ∧ m_ref a = BoundValueRef true setValue
}.

Definition command_ok (p : Parser S) (c : command) : Prop :=
  match c with
  | Flag i name => ∃ o, m_options p !! i = Some o ∧ name ∈ m_optNames o ∧
      ref_isFlag (m_ref (opt_ref o)) = true
  | Value i name _ => ∃ o, m_options p !! i = Some o ∧ name ∈ m_optNames o ∧
      ref_isFlag (m_ref (opt_ref o)) = false
  | Positional _ => True
  end.

(** The option a command uses up, if it may be given once only. *)
Definition once (p : Parser S) (c : command) : option nat :=
  match c with
  | Flag i _ | Value i _ _ =>
      match m_options p !! i with
      | Some o => if decide (cardinality (opt_ref o) = 0%nat) then None else Some i
      | None => None
      end
  | Positional _ => None
  end.

(** ** One command *)
Definition ignores (q : ParserBase S) (ts : TokenStream) (s : S) : Prop :=
  base_parse q ts s = parsed NoMatch ts s.

Lemma opt_ignores o ts s t l : opt_validate o = Result_ok tt → stream_wf ts → tokens_of ts = t :: l →
  tk_type t = Argument ∨ token t ∉ m_optNames o → ignores (POpt o) ts s.
Proof.
  intros Hv Hwf Ht Hno. destruct (front_tokens _ _ _ Hwf Ht) as [Hf Hh].
  unfold ignores, base_parse, opt_parse. rewrite Hv, Hh, Hf. cbn [negb mbind outcome_bind].
  assert (bool_decide (tk_type t = Option_) && isMatch o (token t) = false) as ->; [|done].
  apply andb_false_iff. destruct Hno as [->|Hno]; [by left|right].
  apply not_true_iff_false. unfold isMatch, normaliseOpt. rewrite existsb_exists.
  intros (n & Hn & E). apply bool_decide_eq_true_1 in E as ->. by apply Hno, list_elem_of_In.
Qed.

Definition lift (f : ParseState → ParseState * bool * list (ParserInfo S)) (r : InternalParseResult) :
    BasicResult (ParseState * bool * list (ParserInfo S)) :=
  match r with
  | Result_ok st => Result_ok (f st)
  | LogicError m => LogicError m
  | RuntimeError m => RuntimeError m
  end.

Lemma offer_reaches infos i q n st s r s' : infos !! i = Some (q, n) →
  (base_cardinality q = 0 ∨ n < base_cardinality q)%nat →
  (∀ j q' n', (j < i)%nat → infos !! j = Some (q', n') → ignores q' (remainingTokens st) s) →
  base_parse q (remainingTokens st) s = Done (r, s') →
  match r with Result_ok st' => ps_type st' ≠ NoMatch | _ => True end →
  offer infos st s = Done (lift (λ st', (st', true, <[i := (q, Datatypes.S n)]> infos)) r, s').
Proof.
  revert i st. induction infos as [|[q0 n0] infos IH]; intros i st Hi Hc Hbefore Hp Hr; [done|].
  cbn [offer]. destruct i as [|i].
  - injection Hi as -> ->. rewrite decide_True by done. rewrite Hp. cbn [mbind outcome_bind].
    destruct r as [st'|m|m]; [|done|done]. by rewrite decide_True.
  - assert (∀ j q' n', (j < i)%nat → infos !! j = Some (q', n') → ignores q' (remainingTokens st) s) as Hb'.
    { intros j q' n' Hj Hl. apply (Hbefore (Datatypes.S j) q' n'); [lia|done]. }
    destruct (decide _) as [_|_].
    + rewrite (Hbefore 0%nat q0 n0); [|lia|done]. cbn [parsed mbind outcome_bind ps_type].
      rewrite decide_False by (intros H; by apply H).
      rewrite (IH i (mk_ParseState NoMatch (remainingTokens st))); [|done|done|done|done|done].
      cbn [mbind outcome_bind]. by destruct r.
    + rewrite (IH i st) by done. cbn [mbind outcome_bind]. by destruct r.
Qed.

Definition outcome_of (v : ParserResult) (ts_same ts_next : TokenStream) (stops : bool) : InternalParseResult :=
  match v with
  | Result_ok v =>
      if bool_decide (v = ShortCircuitAll) && stops then Result_ok (mk_ParseState v ts_same)
      else Result_ok (mk_ParseState Matched ts_next)
  | LogicError m => LogicError m
  | RuntimeError m => RuntimeError m
  end.

Lemma match_names (o : Opt S) name : name ∈ m_optNames o → isMatch o name = true.
Proof.
  intros Hn. unfold isMatch, normaliseOpt. apply existsb_exists. exists name.
  split; [by apply list_elem_of_In|]. by apply bool_decide_eq_true_2.
Qed.

Lemma flag_parse o name ts s l : opt_validate o = Result_ok tt → name ∈ m_optNames o →
  ref_isFlag (m_ref (opt_ref o)) = true → stream_wf ts → tokens_of ts = mk_Token Option_ name :: l →
  let '(v, s') := set_flag (m_ref (opt_ref o)) s in
  base_parse (POpt o) ts s = Done (outcome_of v ts (next_token ts) true, s').
Proof.
  intros Hv Hn Hfl Hwf Ht. destruct (front_tokens _ _ _ Hwf Ht) as [Hf Hh].
  cbn [base_parse]. unfold opt_parse. rewrite Hv, Hh, Hf. cbn [negb mbind outcome_bind tk_type token].
  rewrite match_names by done. rewrite bool_decide_eq_true_2 by done. cbn [andb].
  destruct (m_ref (opt_ref o)) as [|set]; [done|]. cbn [set_flag]. unfold opt_flag.
  destruct (set true s) as [[v|m|m] s']; [|done|done]. cbn [outcome_of].
  destruct (decide (v = ShortCircuitAll)) as [->|Hne]; [done|].
  by rewrite bool_decide_eq_false_2.
Qed.

Lemma value_parse o name value ts s l : opt_validate o = Result_ok tt → name ∈ m_optNames o →
  ref_isFlag (m_ref (opt_ref o)) = false → stream_wf ts →
  tokens_of ts = mk_Token Option_ name :: mk_Token Argument value :: l →
  let '(v, s') := set_value (m_ref (opt_ref o)) value s in
  base_parse (POpt o) ts s = Done (outcome_of v (next_token ts) (next_token (next_token ts)) true, s').
Proof.
  intros Hv Hn Hfl Hwf Ht. destruct (front_tokens _ _ _ Hwf Ht) as [Hf Hh].
  destruct (next_token_tokens _ _ _ Hwf Ht) as [Hw2 Ht2].
  destruct (front_tokens _ _ _ Hw2 Ht2) as [Hf2 Hh2].
  cbn [base_parse]. unfold opt_parse. rewrite Hv, Hh, Hf. cbn [negb mbind outcome_bind tk_type token].
  rewrite match_names by done. rewrite bool_decide_eq_true_2 by done. cbn [andb].
  destruct (m_ref (opt_ref o)) as [b set|]; [|done]. cbn [set_value]. unfold opt_value.
  rewrite Hh2, Hf2. cbn [negb mbind outcome_bind tk_type token].
  rewrite decide_False by (intros H; by apply H).
  destruct (set value s) as [[v|m|m] s']; [|done|done]. cbn [outcome_of].
  destruct (decide (v = ShortCircuitAll)) as [->|Hne]; [done|].
  by rewrite bool_decide_eq_false_2.
Qed.

Lemma positional_parse a value ts s l : ref_isFlag (m_ref a) = false → stream_wf ts →
  tokens_of ts = mk_Token Argument value :: l →
  let '(v, s') := set_value (m_ref a) value s in
  base_parse (PArg a) ts s = Done (outcome_of v ts (next_token ts) false, s').
Proof.
  intros Hfl Hwf Ht. destruct (front_tokens _ _ _ Hwf Ht) as [Hf Hh].
  cbn [base_parse]. unfold arg_parse. rewrite Hf. cbn [mbind outcome_bind tk_type token].
  rewrite decide_False by (intros H; by apply H).
  destruct (m_ref a) as [b set|]; [|done]. cbn [set_value mbind outcome_bind token].
  destruct (set value s) as [[v|m|m] s']; [|done|done]. cbn [outcome_of].
  by rewrite andb_false_r.
Qed.

(** ** Commands in order *)
Definition bases (p : Parser S) : list (ParserBase S) :=
  (POpt <$> m_options p) ++ (PArg <$> p_args p).
Definition base_of (i : ParserInfo S) : ParserBase S := fst i.
Definition place (p : Parser S) (c : command) : nat :=
  match c with Flag i _ | Value i _ _ => i | Positional _ => length (m_options p) end.
Definition unused (infos : list (ParserInfo S)) (i : nat) : Prop :=
  ∀ q n, infos !! i = Some (q, n) → n = 0%nat.

Lemma bases_opt p i o : m_options p !! i = Some o → bases p !! i = Some (POpt o).
Proof. intros H. apply lookup_app_l_Some. rewrite list_lookup_fmap. by rewrite H. Qed.
Lemma bases_before p j q : (j < length (m_options p))%nat → bases p !! j = Some q →
  ∃ o, q = POpt o ∧ m_options p !! j = Some o.
Proof.
  intros Hj. unfold bases. rewrite lookup_app_l by (by rewrite length_fmap).
  rewrite list_lookup_fmap. intros (o & -> & Ho)%fmap_Some. by exists o.
Qed.
Lemma bases_info p infos i q : base_of <$> infos = bases p → bases p !! i = Some q →
  ∃ n, infos !! i = Some (q, n).
Proof.
  intros <- H. rewrite list_lookup_fmap in H. apply fmap_Some in H as ([q' n] & Hi & ->). by exists n.
Qed.
Lemma info_base p infos i q n : base_of <$> infos = bases p → infos !! i = Some (q, n) →
  bases p !! i = Some q.
Proof. intros <- H. rewrite list_lookup_fmap. apply fmap_Some. by exists (q, n). Qed.

(** A name belongs to one option. *)
Lemma name_elsewhere (os : list (Opt S)) i j o o' name : NoDup (os ≫= m_optNames) →
  os !! i = Some o → os !! j = Some o' → name ∈ m_optNames o → i ≠ j → name ∉ m_optNames o'.
Proof.
  revert i j. induction os as [|a os IH]; intros i j Hnd Hi Hj Hn Hne Hn'; [done|].
  cbn in Hnd. apply list.NoDup_app in Hnd as (_ & Hdis & Hnd).
  assert (∀ k b, os !! k = Some b → name ∈ m_optNames b → name ∈ os ≫= m_optNames) as Hin.
  { intros k b Hk Hb. apply list_elem_of_bind. exists b. split; [done|]. by eapply list_elem_of_lookup_2. }
  destruct i as [|i], j as [|j]; cbn in Hi, Hj; simplify_eq.
  - exact (Hdis _ Hn (Hin _ _ Hj Hn')).
  - exact (Hdis _ Hn' (Hin _ _ Hi Hn)).
  - eapply (IH i j); eauto.
Qed.

Lemma others_ignore p infos c st s l : parser_ok p → base_of <$> infos = bases p → command_ok p c →
  stream_wf (remainingTokens st) → tokens_of (remainingTokens st) = command_tokens c ++ l →
  ∀ j q n, (j < place p c)%nat → infos !! j = Some (q, n) → ignores q (remainingTokens st) s.
Proof.
  intros Hp Hb Hc Hwf Ht j q n Hj Hi. pose proof (info_base _ _ _ _ _ Hb Hi) as Hq.
  assert (j < length (m_options p))%nat as Hlt.
  { destruct c as [i name|i name value|value]; cbn in Hj, Hc; [| |done];
      destruct Hc as (o & Ho & _); apply lookup_lt_Some in Ho; lia. }
  destruct (bases_before _ _ _ Hlt Hq) as (o & -> & Ho).
  pose proof (Forall_lookup_1 _ _ _ _ (ok_valid p Hp) Ho) as Hv. cbn beta in Hv.
  destruct c as [i name|i name value|value]; cbn [command_tokens app] in Ht; cbn in Hj, Hc.
  - destruct Hc as (o' & Ho' & Hn & _). eapply opt_ignores; [done|done|exact Ht|right].
    eapply (name_elsewhere _ i j); eauto using ok_names. lia.
  - destruct Hc as (o' & Ho' & Hn & _). eapply opt_ignores; [done|done|exact Ht|right].
    eapply (name_elsewhere _ i j); eauto using ok_names. lia.
  - eapply opt_ignores; [done|done|exact Ht|by left].
Qed.

Lemma once_spec p c i : once p c = Some i ↔
  is_positional c = false ∧ place p c = i ∧ ∃ o, m_options p !! i = Some o ∧ cardinality (opt_ref o) ≠ 0%nat.
Proof.
  destruct c as [j name|j name value|value]; cbn; [| |naive_solver];
    (split; [destruct (m_options p !! j) as [o|] eqn:E; [|done]; case_decide; [done|]; intros [= <-];
             repeat split; by exists o
            |intros (_ & -> & o & -> & Hne); by rewrite decide_False]).
Qed.

Lemma once_eligible p c i o infos n :
  once p c = (if decide (cardinality (opt_ref o) = 0%nat) then None else Some i) →
  (∀ i, once p c = Some i → unused infos i) → infos !! i = Some (POpt o, n) →
  (base_cardinality (POpt o) = 0 ∨ n < base_cardinality (POpt o))%nat.
Proof.
  intros Honce Hun Hi. cbn [base_cardinality]. case_decide as E; [by left|right].
  rewrite (Hun i Honce _ _ Hi). apply Nat.neq_0_lt_0, E.
Qed.

Lemma command_step p infos c st s l : parser_ok p → base_of <$> infos = bases p → command_ok p c →
  (∀ i, once p c = Some i → unused infos i) →
  stream_wf (remainingTokens st) → tokens_of (remainingTokens st) = command_tokens c ++ l →
  ∃ q n ts_same ts_next, infos !! place p c = Some (q, n) ∧
    offer infos st s =
      Done (lift (λ st', (st', true, <[place p c := (q, Datatypes.S n)]> infos))
              (outcome_of (fst (apply_command p c s)) ts_same ts_next (negb (is_positional c))),
            snd (apply_command p c s)) ∧
    stream_wf ts_next ∧ tokens_of ts_next = l.
Proof.
  intros Hp Hb Hc Hun Hwf Ht. pose proof (others_ignore p infos c st s l Hp Hb Hc Hwf Ht) as Hbefore.
  assert (∀ v same next stops, match outcome_of v same next stops with
    | Result_ok st' => ps_type st' ≠ NoMatch | _ => True end) as Hout.
  { intros [v|m|m] same next stops; [|done|done]. cbn. case_bool_decide as E; [|done].
    destruct stops; [|done]. by subst v. }
  destruct c as [i name|i name value|value]; cbn [command_tokens app place is_positional negb] in *;
    cbn [apply_command].
  - destruct Hc as (o & Ho & Hn & Hfl). rewrite Ho.
    destruct (bases_info p infos i (POpt o) Hb (bases_opt _ _ _ Ho)) as [n Hi].
    pose proof (flag_parse o name (remainingTokens st) s l
      (Forall_lookup_1 _ _ _ _ (ok_valid p Hp) Ho) Hn Hfl Hwf Ht) as Hpa.
    destruct (set_flag _ s) as [v s']. destruct (next_token_tokens _ _ _ Hwf Ht) as [Hw2 Ht2].
    eexists _, n, _, _. split; [exact Hi|]. split; [|by split].
    eapply offer_reaches; [exact Hi| |exact Hbefore|exact Hpa|apply Hout].
    apply (once_eligible p (Flag i name) i o infos n); [|done|done]. cbn. by rewrite Ho.
  - destruct Hc as (o & Ho & Hn & Hfl). rewrite Ho.
    destruct (bases_info p infos i (POpt o) Hb (bases_opt _ _ _ Ho)) as [n Hi].
    pose proof (value_parse o name value (remainingTokens st) s l
      (Forall_lookup_1 _ _ _ _ (ok_valid p Hp) Ho) Hn Hfl Hwf Ht) as Hpa.
    destruct (set_value _ value s) as [v s']. destruct (next_token_tokens _ _ _ Hwf Ht) as [Hw2 Ht2].
    destruct (next_token_tokens _ _ _ Hw2 Ht2) as [Hw3 Ht3].
    eexists _, n, _, _. split; [exact Hi|]. split; [|by split].
    eapply offer_reaches; [exact Hi| |exact Hbefore|exact Hpa|apply Hout].
    apply (once_eligible p (Value i name value) i o infos n); [|done|done]. cbn. by rewrite Ho.
  - destruct (ok_arg p Hp) as (a & set & Ha & Hset). rewrite Ha. cbv beta iota.
    assert (bases p !! length (m_options p) = Some (PArg a)) as Hba.
    { unfold bases. rewrite Ha, lookup_app_r by (by rewrite length_fmap).
      by rewrite length_fmap, Nat.sub_diag. }
    destruct (bases_info p infos _ _ Hb Hba) as [n Hi].
    pose proof (positional_parse a value (remainingTokens st) s l) as Hpa.
    rewrite Hset in Hpa |- *. specialize (Hpa eq_refl Hwf Ht).
    destruct (set_value _ value s) as [v s']. destruct (next_token_tokens _ _ _ Hwf Ht) as [Hw2 Ht2].
    eexists _, n, _, _. split; [exact Hi|]. split; [|by split].
    eapply offer_reaches; [exact Hi| |exact Hbefore|exact Hpa|apply Hout].
    left. unfold base_cardinality, cardinality. by rewrite Hset.
Qed.

(** The result of parsing says what the commands say. *)
Definition agrees (r : InternalParseResult) (r' : BasicResult unit) : Prop :=
  match r, r' with
  | Result_ok _, Result_ok _ => True
  | LogicError m, LogicError m' => m = m'
  | RuntimeError m, RuntimeError m' => m = m'
  | _, _ => False
  end.

Lemma parse_commands p cs : parser_ok p → Forall (command_ok p) cs → NoDup (omap (once p) cs) →
  ∀ infos st s fuel, base_of <$> infos = bases p →
  (∀ i, i ∈ omap (once p) cs → unused infos i) →
  stream_wf (remainingTokens st) → tokens_of (remainingTokens st) = cs ≫= command_tokens →
  (length cs < fuel)%nat →
  ∃ r, parse_tokens fuel infos st s = Done (r, snd (run_commands p cs s)) ∧
    agrees r (fst (run_commands p cs s)).
Proof.
  intros Hp. induction cs as [|c cs IH]; intros Hok Hnd infos st s fuel Hb Hun Hwf Ht Hf;
    (destruct fuel as [|fuel]; [cbn in Hf; lia|]); cbn [parse_tokens].
  - rewrite (no_tokens _ Hwf Ht). by eexists.
  - apply Forall_cons_1 in Hok as [Hc Hok].
    assert (has_token (remainingTokens st) = true) as ->.
    { destruct (tokens_of (remainingTokens st)) as [|t l] eqn:E.
      - destruct c; done.
      - by apply (front_tokens _ _ _ Hwf E). }
    destruct (command_step p infos c st s (cs ≫= command_tokens) Hp Hb Hc) as
      (q & n & same & next & Hi & Hof & Hw & Htn); [|exact Hwf|exact Ht|].
    { intros i Hon. apply Hun. cbn. rewrite Hon. apply list_elem_of_here. }
    rewrite Hof. cbn [mbind outcome_bind run_commands].
    destruct (apply_command p c s) as [v s']. cbn [fst snd].
    destruct v as [v|m|m]; cbn [outcome_of lift]; [|by eexists|by eexists].
    destruct (bool_decide (v = ShortCircuitAll) && negb (is_positional c)) eqn:Esc; cbn [lift].
    + apply andb_true_iff in Esc as [E _]. apply bool_decide_eq_true_1 in E as ->.
      rewrite decide_True by done. by eexists.
    + rewrite decide_False by done. cbn [negb]. apply IH; try done.
      * cbn in Hnd. by destruct (once p c); [apply list.NoDup_cons in Hnd as [_ ?]|].
      * rewrite <-Hb. rewrite list_fmap_insert. apply list_insert_id.
        rewrite list_lookup_fmap. apply fmap_Some. by exists (q, n).
      * intros i Hin q' n' Hl. destruct (decide (i = place p c)) as [->|Hne].
        2:{ rewrite list_lookup_insert_ne in Hl by done. eapply Hun; [|exact Hl].
            cbn. destruct (once p c); [by apply list_elem_of_further|done]. }
        exfalso. cbn in Hnd.
        assert (once p c = Some (place p c)) as Hon.
        { apply list_elem_of_omap in Hin as (c' & Hc' & (_ & _ & o & Ho & Hne)%once_spec).
          apply once_spec. split; [|by split; [|exists o]].
          destruct c; [done|done|]. cbn in Ho. apply lookup_lt_Some in Ho. lia. }
        rewrite Hon in Hnd. apply list.NoDup_cons in Hnd as [Hnd _]. by apply Hnd.
      * cbn in Hf. lia.
Qed.
End parsers.

(** ** Commands as arguments *)

(** An option's value is an argument of its own, or joined to the name by an equals sign. *)
Definition spell (joined : bool) (c : command) : list (list byte) :=
  match c with
  | Flag _ name => [name]
  | Value _ name value => if joined then [name ++ x3d :: value] else [name; value]
  | Positional value => [value]
  end.
(** A name begins with a hyphen, has no delimiter in it, and is one character or long. *)
Definition name_ok (name : list byte) : bool :=
  match name with c :: _ => isOptPrefix c | [] => false end &&
  forallb (λ c, bool_decide (c ∉ str " :=")) name &&
  (bool_decide (length name ≤ 2)%nat || bool_decide (name !! 1%nat = Some x2d)).
Definition plain (value : list byte) : bool :=
  match value with c :: _ => negb (isOptPrefix c) | [] => false end.
Definition spellable (joined : bool) (c : command) : bool :=
  match c with
  | Flag _ name => name_ok name
  | Value _ name value => name_ok name && (joined || plain value)
  | Positional value => plain value
  end.

Lemma find_first_of_none chars s : Forall (.∉ chars) s → find_first_of chars s = None.
Proof. induction 1 as [|c s Hc _ IH]; cbn; [done|]. by rewrite decide_False, IH. Qed.
Lemma find_first_of_after chars s c rest : Forall (.∉ chars) s → c ∈ chars →
  find_first_of chars (s ++ c :: rest) = Some (length s).
Proof.
  induction 1 as [|d s Hd _ IH]; intros Hc; cbn; [by rewrite decide_True|].
  by rewrite decide_False, IH.
Qed.

Lemma name_ok_spec name : name_ok name = true →
  (∃ r, name = x2d :: r) ∧ Forall (.∉ str " :=") name ∧
  negb (bool_decide (name !! 1%nat = Some x2d)) && bool_decide (2 < length name)%nat = false.
Proof.
  unfold name_ok. rewrite !andb_true_iff. intros ((Hp & Hall) & Hl). split; [|split].
  - destruct name as [|c r]; [done|]. apply bool_decide_eq_true_1 in Hp as ->. by exists r.
  - apply list.Forall_forall. intros c Hc. apply list_elem_of_In in Hc.
    rewrite List.forallb_forall in Hall. by apply (bool_decide_eq_true_1 _ (Hall c Hc)).
  - apply orb_true_iff in Hl as [Hl| ->]; [|done]. apply bool_decide_eq_true_1 in Hl.
    rewrite (bool_decide_eq_false_2 (2 < length name)%nat) by lia. apply andb_false_r.
Qed.

Lemma arg_tokens_name name : name_ok name = true → arg_tokens name = [mk_Token Option_ name].
Proof.
  intros ((r & ->) & Hd & Hl)%name_ok_spec. unfold arg_tokens, load_token.
  change (isOptPrefix x2d) with true. cbv iota. rewrite find_first_of_none by done. by rewrite Hl.
Qed.
Lemma arg_tokens_joined name value : name_ok name = true →
  arg_tokens (name ++ x3d :: value) = [mk_Token Option_ name; mk_Token Argument value].
Proof.
  intros ((r & E) & Hd & _)%name_ok_spec. unfold arg_tokens, load_token.
  assert (find_first_of (str " :=") (name ++ x3d :: value) = Some (length name)) as Hf.
  { apply find_first_of_after; [done|]. by apply (bool_decide_eq_true_1 (x3d ∈ str " :=")). }
  rewrite Hf, take_app_length.
  assert (drop (S (length name)) (name ++ x3d :: value) = value) as ->.
  { rewrite drop_app_ge by lia. by rewrite Nat.sub_succ_l, Nat.sub_diag by lia. }
  by subst name.
Qed.
Lemma arg_tokens_plain value : plain value = true → arg_tokens value = [mk_Token Argument value].
Proof.
  destruct value as [|c v]; [done|]. cbn [plain]. rewrite negb_true_iff. intros H.
  unfold arg_tokens, load_token. by rewrite H.
Qed.

Lemma spell_tokens joined c : spellable joined c = true → spell joined c ≫= arg_tokens = command_tokens c.
Proof.
  destruct c as [i name|i name value|value]; cbn [spellable spell command_tokens].
  - intros H. cbn [mbind list_bind]. by rewrite arg_tokens_name.
  - rewrite andb_true_iff, orb_true_iff. intros [H [ ->|Hv]].
    + cbn [mbind list_bind]. by rewrite arg_tokens_joined.
    + destruct joined; cbn [mbind list_bind]; [by rewrite arg_tokens_joined|].
      by rewrite arg_tokens_name, arg_tokens_plain.
  - intros H. cbn [mbind list_bind]. by rewrite arg_tokens_plain.
Qed.

Lemma spelled_tokens (jcs : list (bool * command)) :
  Forall (λ jc, spellable (fst jc) (snd jc) = true) jcs →
  (jcs ≫= λ jc, spell (fst jc) (snd jc)) ≫= arg_tokens = List.map snd jcs ≫= command_tokens.
Proof.
  induction 1 as [|[j c] jcs H _ IH]; [done|]. cbn [mbind list_bind List.map fst snd] in *.
  by rewrite bind_app, spell_tokens, IH.
Qed.

(** ** Properties *)

(** Property (termination): parsing ends for every command line, whatever its arguments: after at most
    one round for each token there is a result or an error, with no failed assertion, unless the
    parser has too many options or an argument bound to a flag. *)
Theorem parsing_ends {S} (p : Parser S) a (s : S) fuel :
  (length (m_options p) + length (p_args p) < 512)%nat → Forall arg_ok (p_args p) →
  (length (m_args a ≫= arg_tokens) < fuel)%nat →
  is_done (parse_args fuel p a s) = true.
Proof.
  intros Hl Hok Hf. unfold parse_args, parser_parse. rewrite decide_True by done.
  destruct (exe_set _ _ s) as [[r e] s']. destruct (loadBuffer_tokens (m_args a)) as [Hw Ht].
  assert (is_done (parse_tokens fuel (parse_infos p) (mk_ParseState NoMatch (make_TokenStream a)) s') = true)
    as Hd.
  { apply parse_tokens_ends; [|exact Hw|unfold make_TokenStream; cbn [remainingTokens]; by rewrite Ht].
    unfold parse_infos. apply Forall_app. split; apply Forall_map; [by apply list.Forall_forall|].
    eapply Forall_impl; [|exact Hok]. done. }
  by destruct (parse_tokens _ _ _ _) as [[r' s'']| |].
Qed.

(** C22 (refinement): a command line of flags, options with their values and arguments, spelled as separate
    arguments or with an equals sign, each by a name it has and each flag or option that does not
    collect its values at most once (a second time it is an unrecognised token: [option_given_twice]),
    is carried out in the order given, on the configuration with the name
    of the executable set: the state after parsing is that of the commands, parsing succeeds or
    fails as they do, with the same message, and nothing after an error or after the help option
    has an effect.  The parser has fewer than 512 options and arguments, no two options of one name, all
    of them valid, and one argument, which may be repeated, as Catch's has; values and arguments are such as can be
    told from options. *)
Theorem command_line_carried_out {S} (p : Parser S) (jcs : list (bool * command)) exe (s : S) fuel :
  let cs := List.map snd jcs in
  let s0 := snd (exe_set exe (m_exeName p) s) in
  parser_ok p → (length (m_options p) + length (p_args p) < 512)%nat →
  Forall (command_ok p) cs → NoDup (omap (once p) cs) →
  Forall (λ jc, spellable (fst jc) (snd jc) = true) jcs → (length jcs < fuel)%nat →
  ∃ r p', parse_args fuel p (mk_Args exe (jcs ≫= λ jc, spell (fst jc) (snd jc))) s =
      Done (r, p', snd (run_commands p cs s0)) ∧
    agrees r (fst (run_commands p cs s0)).
Proof.
  intros cs s0 Hp Hl Hok Hnd Hsp Hf. unfold parse_args, parser_parse. rewrite decide_True by done.
  cbn [exeName args_exeName m_args]. destruct (exe_set exe (m_exeName p) s) as [[re e] s'] eqn:E.
  subst s0. cbn [snd].
  destruct (loadBuffer_tokens (jcs ≫= λ jc, spell (fst jc) (snd jc))) as [Hw Ht].
  rewrite spelled_tokens in Ht by done.
  destruct (parse_commands p cs Hp Hok Hnd (parse_infos p)
    (mk_ParseState NoMatch (loadBuffer (jcs ≫= λ jc, spell (fst jc) (snd jc)))) s' fuel)
    as (r & Hr & Ha).
  - unfold parse_infos, bases. rewrite fmap_app. f_equal; rewrite <-list_fmap_compose; done.
  - intros i _ q n Hi. unfold parse_infos in Hi.
    apply list_elem_of_lookup_2, elem_of_app in Hi as [H|H];
      apply list_elem_of_In, in_map_iff in H as (? & [= _ <-] & _); done.
  - exact Hw.
  - exact Ht.
  - unfold cs. by rewrite length_map.
  - unfold make_TokenStream. cbn [m_args]. rewrite Hr. cbn [mbind outcome_bind]. eauto.
Qed.
