(* ===== verification/CatchStreams.v ===== *)
(** * Catch: streams (catch_stream, catch_output_redirect)

    The buffer in front of a writer, the pool of string streams, and the redirection of the
    standard streams into two of them. *)
From stdpp Require Import strings list relations.
From S2P Require Import Prelude CatchString.

(** ** StreamBufImpl

    [pending]: what is between [pbase()] and [pptr()]; [written]: what the writer was called with. *)
Record StreamBufImpl := mk_StreamBufImpl { bufferSize : nat; pending : list byte; written : list (list byte) }.
Definition new_StreamBufImpl (bufferSize : nat) : StreamBufImpl := mk_StreamBufImpl bufferSize [] [].
Definition m_writer (s : list byte) (b : StreamBufImpl) : StreamBufImpl :=
  mk_StreamBufImpl (bufferSize b) (pending b) (written b ++ [s]).
Definition sync (b : StreamBufImpl) : StreamBufImpl :=
  if decide (pending b = []) then b
  else let b := m_writer (pending b) b in mk_StreamBufImpl (bufferSize b) [] (written b).
Definition put_char (c : byte) (b : StreamBufImpl) : StreamBufImpl :=
  mk_StreamBufImpl (bufferSize b) (pending b ++ [c]) (written b).
(** The buffer is empty when [sputc] is called again, so that there is room. *)
Definition overflow (c : option byte) (b : StreamBufImpl) : StreamBufImpl :=
  let b := sync b in
  match c with
  | None => b
  | Some c => if decide (bufferSize b = 0%nat) then m_writer [c] b else put_char c b
  end.
(** [std::streambuf]: one character, several of them, and [flush]. *)
Definition sputc (c : byte) (b : StreamBufImpl) : StreamBufImpl :=
  if decide (length (pending b) < bufferSize b)%nat then put_char c b else overflow (Some c) b.
Inductive stream_op := Write (s : list byte) | Flush.
Definition stream_do (b : StreamBufImpl) (op : stream_op) : StreamBufImpl :=
  match op with Write s => foldl (λ b c, sputc c b) b s | Flush => sync b end.
Definition delete_StreamBufImpl (b : StreamBufImpl) : StreamBufImpl := sync b.

(** ** makeStream

    [can_open]: whether a file of that name can be opened. *)
Inductive IStream := CoutStream | DebugOutStream | FileStream (filename : list byte).
Definition makeStream (can_open : list byte → bool) (filename : StringRef) : outcome (throwing IStream) :=
  name ← to_string filename;
  if decide (m_size filename = 0%nat) then Done (inr CoutStream)
  else
    c ← char_at filename 0;
    if decide (c = x25) then
      if decide (name = str "%debug") then Done (inr DebugOutStream)
      else Done (inl (Domain_error (str "Unrecognised stream: '" ++ name ++ str "'")))
    else if can_open name then Done (inr (FileStream name))
    else Done (inl (Domain_error (str "Unable to open file: '" ++ name ++ str "'"))).

(** ** The pool

    [fmt]: the flags, precision and fill that manipulators set. *)
Section pool.
Context {fmt : Type} (reference : fmt).

Record ostringstream := mk_ostringstream { contents : list byte; format : fmt }.
Definition new_ostringstream : ostringstream := mk_ostringstream [] reference.
Record StringStreams := mk_StringStreams { m_streams : list ostringstream; m_unused : list nat }.
Definition add (p : StringStreams) : nat * StringStreams :=
  match list.last (m_unused p) with
  | None => (length (m_streams p), mk_StringStreams (m_streams p ++ [new_ostringstream]) (m_unused p))
  | Some index => (index, mk_StringStreams (m_streams p) (removelast (m_unused p)))
  end.
Definition set_stream (f : ostringstream → ostringstream) (index : nat) (p : StringStreams) : StringStreams :=
  mk_StringStreams (alter f index (m_streams p)) (m_unused p).
Definition release (index : nat) (p : StringStreams) : StringStreams :=
  let p := set_stream (λ s, mk_ostringstream (contents s) reference) index p in
  mk_StringStreams (m_streams p) (m_unused p ++ [index]).

(** A [ReusableStringStream] is the index it has got. *)
Definition new_ReusableStringStream (p : StringStreams) : nat * StringStreams := add p.
Definition delete_ReusableStringStream (index : nat) (p : StringStreams) : StringStreams :=
  release index (set_stream (λ s, mk_ostringstream [] (format s)) index p).
Definition rss_str (index : nat) (p : StringStreams) : outcome (list byte) :=
  s ← or_undefined (m_streams p !! index); Done (contents s).
Definition rss_write (text : list byte) (index : nat) (p : StringStreams) : StringStreams :=
  set_stream (λ s, mk_ostringstream (contents s ++ text) (format s)) index p.
Definition rss_format (f : fmt) (index : nat) (p : StringStreams) : StringStreams :=
  set_stream (λ s, mk_ostringstream (contents s) f) index p.

(** ** Redirection

    The [rdbuf] of the three standard streams: the console's own, or that of a string stream of the pool. *)
Inductive buffer := Console (stdout : bool) | Pooled (index : nat).
Inductive ostream := Cout | Cerr | Clog.
Record streams := mk_streams {
  pool : StringStreams; buf_cout : buffer; buf_cerr : buffer; buf_clog : buffer;
  console_out : list byte; console_err : list byte
}.
Definition rdbuf (o : ostream) (s : streams) : buffer := match o with Cout => buf_cout s | Cerr => buf_cerr s | Clog => buf_clog s end.
Definition set_rdbuf (o : ostream) (b : buffer) (s : streams) : streams :=
  match o with
  | Cout => mk_streams (pool s) b (buf_cerr s) (buf_clog s) (console_out s) (console_err s)
  | Cerr => mk_streams (pool s) (buf_cout s) b (buf_clog s) (console_out s) (console_err s)
  | Clog => mk_streams (pool s) (buf_cout s) (buf_cerr s) b (console_out s) (console_err s)
  end.
Definition set_pool (p : StringStreams) (s : streams) : streams :=
  mk_streams p (buf_cout s) (buf_cerr s) (buf_clog s) (console_out s) (console_err s).
Definition write_to (o : ostream) (text : list byte) (s : streams) : streams :=
  match rdbuf o s with
  | Pooled index => set_pool (rss_write text index (pool s)) s
  | Console true => mk_streams (pool s) (buf_cout s) (buf_cerr s) (buf_clog s) (console_out s ++ text) (console_err s)
  | Console false => mk_streams (pool s) (buf_cout s) (buf_cerr s) (buf_clog s) (console_out s) (console_err s ++ text)
  end.

Record RedirectedStream := mk_RedirectedStream { m_originalStream : ostream; m_prevBuf : buffer }.
Definition new_RedirectedStream (original : ostream) (redirection : nat) (s : streams) : RedirectedStream * streams :=
  (mk_RedirectedStream original (rdbuf original s), set_rdbuf original (Pooled redirection) s).
Definition delete_RedirectedStream (r : RedirectedStream) (s : streams) : streams :=
  set_rdbuf (m_originalStream r) (m_prevBuf r) s.

Record RedirectedStdOut := mk_RedirectedStdOut { out_rss : nat; m_cout : RedirectedStream }.
Definition new_RedirectedStdOut (s : streams) : RedirectedStdOut * streams :=
  let '(rss, p) := new_ReusableStringStream (pool s) in
  let '(o, s) := new_RedirectedStream Cout rss (set_pool p s) in
  (mk_RedirectedStdOut rss o, s).
Definition delete_RedirectedStdOut (r : RedirectedStdOut) (s : streams) : streams :=
  let s := delete_RedirectedStream (m_cout r) s in
  set_pool (delete_ReusableStringStream (out_rss r) (pool s)) s.

Record RedirectedStdErr := mk_RedirectedStdErr { err_rss : nat; m_cerr : RedirectedStream; m_clog : RedirectedStream }.
Definition new_RedirectedStdErr (s : streams) : RedirectedStdErr * streams :=
  let '(rss, p) := new_ReusableStringStream (pool s) in
  let '(e, s) := new_RedirectedStream Cerr rss (set_pool p s) in
  let '(l, s) := new_RedirectedStream Clog rss s in
  (mk_RedirectedStdErr rss e l, s).
Definition delete_RedirectedStdErr (r : RedirectedStdErr) (s : streams) : streams :=
  let s := delete_RedirectedStream (m_clog r) s in
  let s := delete_RedirectedStream (m_cerr r) s in
  set_pool (delete_ReusableStringStream (err_rss r) (pool s)) s.

(** The strings the output is added to are those of who redirects. *)
Record RedirectedStreams := mk_RedirectedStreams {
  m_redirectedStdOut : RedirectedStdOut; m_redirectedStdErr : RedirectedStdErr
}.
Definition new_RedirectedStreams (s : streams) : RedirectedStreams * streams :=
  let '(o, s) := new_RedirectedStdOut s in
  let '(e, s) := new_RedirectedStdErr s in
  (mk_RedirectedStreams o e, s).
Definition delete_RedirectedStreams (r : RedirectedStreams) (redirectedCout redirectedCerr : list byte) (s : streams)
    : outcome (list byte * list byte * streams) :=
  o ← rss_str (out_rss (m_redirectedStdOut r)) (pool s);
  e ← rss_str (err_rss (m_redirectedStdErr r)) (pool s);
  let s := delete_RedirectedStdErr (m_redirectedStdErr r) s in
  let s := delete_RedirectedStdOut (m_redirectedStdOut r) s in
  Done (redirectedCout ++ o, redirectedCerr ++ e, s).
End pool.

(** * Properties of streams

    A buffered writer gets every character once; the pool never hands out a stream that is in use; redirection
    keeps the order of what is written and puts the streams back. *)

(** ** StreamBufImpl *)
Definition ops_text (ops : list stream_op) : list byte := ops ≫= λ op, match op with Write s => s | Flush => [] end.
Definition buffered (b : StreamBufImpl) : list byte := List.concat (written b) ++ pending b.
(** No call of the writer is for nothing, and none is longer than the buffer. *)
Definition chunks (b : StreamBufImpl) : Prop :=
  (length (pending b) ≤ bufferSize b)%nat ∧
  Forall (λ s, (0 < length s ≤ Nat.max 1 (bufferSize b))%nat) (written b).

Lemma sync_ok b : chunks b →
  chunks (sync b) ∧ buffered (sync b) = buffered b ∧ pending (sync b) = [] ∧ bufferSize (sync b) = bufferSize b.
Proof.
  intros [Hp Hw]. unfold sync. destruct (decide (pending b = [])) as [E|E]; [done|].
  split; [split; [cbn; lia|]|split; [|done]].
  - cbn. apply Forall_app_2; [done|]. apply Forall_singleton. destruct (pending b); [done|cbn in *; lia].
  - unfold buffered. cbn. rewrite concat_app. cbn. by rewrite !app_nil_r.
Qed.
Lemma sputc_ok c b : chunks b →
  chunks (sputc c b) ∧ buffered (sputc c b) = buffered b ++ [c] ∧ bufferSize (sputc c b) = bufferSize b.
Proof.
  intros H. unfold sputc. destruct (decide _) as [Hlt|Hge].
  - destruct H as [Hp Hw]. split; [split; [cbn; rewrite length_app; cbn; lia|done]|].
    unfold buffered. cbn. by rewrite app_assoc.
  - destruct (sync_ok b H) as ([Hp Hw] & Hb & Hn & Hs). unfold overflow. destruct (decide _) as [E|E].
    + split; [split; [cbn; by rewrite Hn; cbn; lia|]|].
      * cbn. apply Forall_app_2; [done|]. apply Forall_singleton. cbn. lia.
      * unfold buffered in *. cbn. rewrite concat_app, <- Hb, Hn. cbn. by rewrite !app_nil_r.
    + split; [split; [cbn; rewrite Hn; cbn; lia|done]|]. unfold buffered in *. cbn. by rewrite app_assoc, Hb.
Qed.
Lemma stream_do_ok op b : chunks b → chunks (stream_do b op) ∧
  buffered (stream_do b op) = buffered b ++ ops_text [op] ∧ bufferSize (stream_do b op) = bufferSize b.
Proof.
  intros H. destruct op as [s|]; cbn -[sync].
  - rewrite app_nil_r. revert b H. induction s as [|c s IH]; intros b H; cbn; [by rewrite app_nil_r|].
    destruct (sputc_ok c b H) as (H1 & H2 & H3). destruct (IH _ H1) as (H4 & H5 & H6).
    split; [done|]. split; [by rewrite H5, H2, <- app_assoc|congruence].
  - destruct (sync_ok b H) as (H1 & H2 & _ & H3). rewrite app_nil_r. done.
Qed.

(** Property (functional): whatever is written and flushed in between, by the time the buffer is destroyed its writer
    has got exactly those characters in that order, in calls that are neither empty nor longer than the
    buffer, which may be of any size. *)
Theorem stream_buffer_writes_all (n : nat) (ops : list stream_op) :
  let b := delete_StreamBufImpl (foldl stream_do (new_StreamBufImpl n) ops) in
  List.concat (written b) = ops_text ops ∧ pending b = [] ∧
  Forall (λ s, (0 < length s ≤ Nat.max 1 n)%nat) (written b).
Proof.
  assert (∀ ops b, chunks b → chunks (foldl stream_do b ops) ∧
    buffered (foldl stream_do b ops) = buffered b ++ ops_text ops ∧ bufferSize (foldl stream_do b ops) = bufferSize b) as H.
  { clear. induction ops as [|op ops IH]; intros b H; cbn [foldl]; [by rewrite app_nil_r|].
    destruct (stream_do_ok op b H) as (H1 & H2 & H3). destruct (IH _ H1) as (H4 & H5 & H6).
    split; [done|]. split; [|congruence]. rewrite H5, H2, <- app_assoc. f_equal. unfold ops_text. cbn.
    by rewrite app_nil_r. }
  intros b. destruct (H ops (new_StreamBufImpl n)) as (H1 & H2 & H3); [split; [cbn; lia|constructor]|].
  destruct (sync_ok _ H1) as ([_ Hw] & Hb & Hp & Hs). fold b in Hw, Hb, Hp, Hs. unfold b, delete_StreamBufImpl.
  unfold delete_StreamBufImpl in b. split; [|split; [done|]].
  - rewrite H2 in Hb. unfold buffered in Hb. rewrite Hp, app_nil_r in Hb. exact Hb.
  - rewrite Hs, H3 in Hw. exact Hw.
Qed.

(** ** The pool *)
Section pool.
Context {fmt : Type} (reference : fmt).
#[local] Abbreviation fresh := (new_ostringstream reference).

(** Every stream is in use or unused, and not both; the unused ones are as new. *)
Definition pool_ok (live : list nat) (p : @StringStreams fmt) : Prop :=
  live ++ m_unused p ≡ₚ seq 0 (length (m_streams p)) ∧ Forall (λ i, m_streams p !! i = Some fresh) (m_unused p).

Lemma pool_nodup live p : pool_ok live p → NoDup (live ++ m_unused p).
Proof. intros [H _]. rewrite H. apply NoDup_ListNoDup, seq_NoDup. Qed.
Lemma pool_range live p i : pool_ok live p → (i ∈ live ++ m_unused p) ↔ (i < length (m_streams p))%nat.
Proof. intros [H _]. rewrite H, elem_of_seq. lia. Qed.

Lemma add_fresh live p : pool_ok live p → let '(i, p') := new_ReusableStringStream reference p in
  pool_ok (i :: live) p' ∧ i ∉ live ∧ m_streams p' !! i = Some fresh ∧
  ∀ j, j ∈ live → m_streams p' !! j = m_streams p !! j.
Proof.
  intros H. pose proof (pool_nodup _ _ H) as Hn. pose proof (λ i, pool_range live p i H) as Hr. destruct H as [Hp Hu].
  unfold new_ReusableStringStream, add. destruct (list.last (m_unused p)) as [i|] eqn:El.
  - apply last_Some in El as [u Eu]. assert (removelast (m_unused p) = u) as Er by (rewrite Eu; apply removelast_last).
    rewrite Er, Eu in *. apply list.Forall_app in Hu as [Hu [Hi _]%list.Forall_cons].
    split; [split; [|done]|split; [|done]]; cbn.
    + rewrite <- Hp, (Permutation_cons_append (live ++ u)), app_assoc. done.
    + intros Hl. apply list.NoDup_app in Hn as (_ & Hn & _). apply (Hn i Hl). apply elem_of_app. right. constructor.
  - apply last_None in El. rewrite El, app_nil_r in *. split; [split; cbn; [|constructor]|split; [|split]]; cbn.
    + rewrite app_nil_r, length_app, seq_app, <- Hp. cbn. by rewrite Permutation_cons_append.
    + intros Hl%Hr. lia.
    + by rewrite lookup_app_r, Nat.sub_diag by lia.
    + intros j Hj%Hr. by rewrite lookup_app_l.
Qed.

Lemma set_stream_ok live p f i : pool_ok live p → i ∈ live → pool_ok live (set_stream f i p).
Proof.
  intros H Hi. pose proof (pool_nodup _ _ H) as Hn. destruct H as [Hp Hu]. split; cbn; [by rewrite length_alter|].
  apply list.Forall_forall. intros j Hj. rewrite list_lookup_alter_ne.
  - by apply (proj1 (list.Forall_forall _ _) Hu).
  - intros ->. apply list.NoDup_app in Hn as (_ & Hn & _). by apply (Hn j).
Qed.
Lemma delete_ok live1 i live2 p : pool_ok (live1 ++ i :: live2) p →
  pool_ok (live1 ++ live2) (delete_ReusableStringStream reference i p) ∧
  ∀ j, j ≠ i → m_streams (delete_ReusableStringStream reference i p) !! j = m_streams p !! j.
Proof.
  intros H. pose proof (pool_nodup _ _ H) as Hn. pose proof (proj1 (pool_range _ _ i H)) as Hr. destruct H as [Hp Hu].
  specialize (Hr ltac:(rewrite !elem_of_app; left; right; constructor)). split; [split|]; cbn.
  - rewrite !length_alter, <- Hp, <- !app_assoc. apply Permutation_app_head. cbn.
    by rewrite (Permutation_cons_append (live2 ++ m_unused p)), app_assoc.
  - apply list.Forall_app. split.
    + apply list.Forall_forall. intros j Hj. rewrite !list_lookup_alter_ne; [by apply (proj1 (list.Forall_forall _ _) Hu)|..];
        intros ->; apply list.NoDup_app in Hn as (_ & Hn & _); apply (Hn j); [|done| |done];
        rewrite elem_of_app; right; constructor.
    + apply list.Forall_singleton. rewrite !list_lookup_alter_eq.
      apply lookup_lt_is_Some in Hr as [x ->]. done.
  - intros j Hj. by rewrite !list_lookup_alter_ne.
Qed.

(** What is done with the pool: [live] are the streams handed out. *)
Inductive pool_step : list nat * @StringStreams fmt → list nat * @StringStreams fmt → Prop :=
| step_new live p : pool_step (live, p)
    (let '(i, p') := new_ReusableStringStream reference p in (i :: live, p'))
| step_write live p i text : i ∈ live → pool_step (live, p) (live, rss_write text i p)
| step_format live p i f : i ∈ live → pool_step (live, p) (live, rss_format f i p)
| step_delete live1 i live2 p : pool_step (live1 ++ i :: live2, p)
    (live1 ++ live2, delete_ReusableStringStream reference i p).

Lemma pool_step_ok x y : pool_step x y → pool_ok x.1 x.2 → pool_ok y.1 y.2.
Proof.
  intros [live p|live p i text Hi|live p i f Hi|live1 i live2 p] H; cbn in *.
  - pose proof (add_fresh live p H) as Ha. destruct (new_ReusableStringStream reference p). apply Ha.
  - by apply set_stream_ok.
  - by apply set_stream_ok.
  - by apply delete_ok.
Qed.

(** Property (invariant): a string stream that is made when others are in use - after any history of making, writing,
    formatting and destroying them in any order - is none of those, is empty and has the formatting of a new one, and
    making it changes none of them. *)
Theorem pooled_streams_apart (live : list nat) (p : StringStreams) :
  rtc pool_step ([], mk_StringStreams [] []) (live, p) →
  NoDup live ∧ let '(i, p') := new_ReusableStringStream reference p in
    i ∉ live ∧ m_streams p' !! i = Some (new_ostringstream reference) ∧
    ∀ j, j ∈ live → m_streams p' !! j = m_streams p !! j.
Proof.
  intros H. assert (pool_ok live p) as Hok.
  { assert (∀ x y, rtc pool_step x y → pool_ok x.1 x.2 → pool_ok y.1 y.2) as Hrtc.
    { intros x y. induction 1 as [|x y z Hs _ IH]; [done|]. intros Hx. apply IH. by eapply pool_step_ok. }
    apply (Hrtc _ _ H). split; [done|constructor]. }
  pose proof (pool_nodup _ _ Hok) as Hn. apply list.NoDup_app in Hn as [Hn _]. split; [exact Hn|].
  pose proof (add_fresh live p Hok) as Ha. destruct (new_ReusableStringStream reference p). apply Ha.
Qed.

(** ** Redirection *)
Definition sent_to (out : bool) (ws : list (ostream * list byte)) : list byte :=
  ws ≫= λ x, if decide (match x.1 with Cout => true | _ => false end = out) then x.2 else [].
Definition writes (s : @streams fmt) (ws : list (ostream * list byte)) : @streams fmt :=
  foldl (λ s x, write_to x.1 x.2 s) s ws.

(** While the streams are redirected to [i] and [j]. *)
Record redirected (live : list nat) (i j : nat) (s0 s : @streams fmt) (o e : list byte) : Prop := {
  rd_pool : pool_ok (j :: i :: live) (pool s);
  rd_out : ∃ f, m_streams (pool s) !! i = Some (mk_ostringstream o f);
  rd_err : ∃ f, m_streams (pool s) !! j = Some (mk_ostringstream e f);
  rd_bufs : buf_cout s = Pooled i ∧ buf_cerr s = Pooled j ∧ buf_clog s = Pooled j;
  rd_console : console_out s = console_out s0 ∧ console_err s = console_err s0;
  rd_others : ∀ n, n ∈ live → m_streams (pool s) !! n = m_streams (pool s0) !! n
}.

Lemma pool_distinct live i j p : pool_ok (j :: i :: live) p → i ≠ j ∧ i ∉ live ∧ j ∉ live.
Proof.
  intros H%pool_nodup. apply list.NoDup_app in H as [H _]. rewrite !list.NoDup_cons, !elem_of_cons in H. naive_solver.
Qed.
Lemma writes_redirected live i j s0 ws : ∀ s o e, redirected live i j s0 s o e →
  redirected live i j s0 (writes s ws) (o ++ sent_to true ws) (e ++ sent_to false ws).
Proof.
  induction ws as [|[w text] ws IH]; intros s o e H; [by rewrite !app_nil_r|].
  destruct H as [Hp [fo Ho] [fe He] (B1 & B2 & B3) Hc Hn]. destruct (pool_distinct _ _ _ _ Hp) as (Hij & Hi & Hj).
  assert (redirected live i j s0 (write_to w text s) (o ++ sent_to true [(w, text)]) (e ++ sent_to false [(w, text)])) as H1.
  { assert (i ∈ j :: i :: live ∧ j ∈ j :: i :: live) as [Ii Ij] by (split; [right|]; constructor).
    unfold write_to, sent_to. destruct w; cbn [rdbuf]; rewrite ?B1, ?B2, ?B3; cbn; rewrite ?app_nil_r.
    all: split; cbn;
      [by apply set_stream_ok
      |rewrite ?list_lookup_alter_eq, ?list_lookup_alter_ne, Ho by done; by eexists
      |rewrite ?list_lookup_alter_eq, ?list_lookup_alter_ne, He by done; by eexists
      |done|done|intros n Hl; rewrite list_lookup_alter_ne; [by apply Hn|intros ->; done]]. }
  specialize (IH _ _ _ H1). unfold sent_to in IH |- *. cbn [mbind list_bind] in IH |- *.
  rewrite !app_nil_r in IH. by rewrite <- !app_assoc in IH.
Qed.

(** C35 (safety): while the standard streams are redirected, what is written to them reaches neither console; it
    is given back, [cout] apart and [cerr] and [clog] together in the order they were written to, and then the streams are
    what they were, and so is every string stream that was in use. *)
Theorem redirection_captures (live : list nat) (s : streams) (ws : list (ostream * list byte)) (o e : list byte) :
  pool_ok live (pool s) → let '(r, s1) := new_RedirectedStreams reference s in
  ∃ s2, delete_RedirectedStreams reference r o e (writes s1 ws) =
      Done (o ++ sent_to true ws, e ++ sent_to false ws, s2) ∧
    (∀ x, rdbuf x s2 = rdbuf x s) ∧ console_out s2 = console_out s ∧ console_err s2 = console_err s ∧
    pool_ok live (pool s2) ∧ ∀ n, n ∈ live → m_streams (pool s2) !! n = m_streams (pool s) !! n.
Proof.
  intros H. unfold new_RedirectedStreams, new_RedirectedStdOut, new_RedirectedStdErr.
  pose proof (add_fresh live _ H) as H1. destruct (new_ReusableStringStream reference (pool s)) as [i p1].
  destruct H1 as (K1 & Hi & Hf1 & Ho1). cbn [new_RedirectedStream set_rdbuf set_pool pool].
  pose proof (add_fresh _ _ K1) as H2. destruct (new_ReusableStringStream reference p1) as [j p2].
  destruct H2 as (K2 & Hj & Hf2 & Ho2). cbn.
  match goal with |- context [writes ?s1 ws] => set (s1' := s1) end.
  assert (redirected live i j s s1' [] []) as Hr.
  { split; cbn; [exact K2| |by eexists|done|done|].
    - exists reference. rewrite Ho2; [exact Hf1|constructor].
    - intros n Hn. rewrite Ho2 by (by right). by apply Ho1. }
  destruct (writes_redirected live i j s ws s1' [] [] Hr) as [Kp [fo Eo] [fe Ee] _ [C1 C2] Hn].
  unfold delete_RedirectedStreams, rss_str. cbn [m_redirectedStdOut m_redirectedStdErr out_rss err_rss].
  rewrite Eo, Ee. cbn [or_undefined mbind outcome_bind contents app].
  destruct (delete_ok [] j (i :: live) _ Kp) as [Kd Hd]. cbn [app] in Kd.
  destruct (delete_ok [] i live _ Kd) as [Kd2 Hd2]. cbn [app] in Kd2.
  destruct (pool_distinct _ _ _ _ Kp) as (Hij & Hil & Hjl).
  eexists. split; [reflexivity|]. split; [by intros []|]. split; [exact C1|]. split; [exact C2|].
  split; [exact Kd2|]. intros n Hl. cbn [pool set_pool].
  etrans; [apply Hd2; intros ->; done|]. etrans; [apply Hd; intros ->; done|]. by apply Hn.
Qed.
End pool.

(** ** Examples: the format is a precision *)
Definition two_streams : @StringStreams nat :=
  mk_StringStreams [mk_ostringstream (str "a") 6%nat; mk_ostringstream [] 6%nat] [1%nat].
Lemma two_streams_reached : rtc (pool_step 6%nat) ([], mk_StringStreams [] []) ([0%nat], two_streams).
Proof.
  eapply rtc_l; [apply (step_new 6%nat [] (mk_StringStreams [] []))|].
  eapply rtc_l; [apply (step_write 6%nat _ _ 0%nat (str "a")); constructor|].
  eapply rtc_l; [apply (step_new 6%nat)|]. cbn.
  eapply rtc_l; [apply (step_format 6%nat _ _ 1%nat 3%nat); constructor|].
  eapply rtc_l; [apply (step_delete 6%nat [] 1%nat [0%nat])|]. apply rtc_refl.
Qed.
Lemma pooled_streams_apart_witness :
  NoDup [0%nat] ∧ (new_ReusableStringStream 6%nat two_streams).1 ∉ [0%nat] ∧
  m_streams (new_ReusableStringStream 6%nat two_streams).2 !! 1%nat = Some (mk_ostringstream [] 6%nat).
Proof.
  destruct (pooled_streams_apart 6%nat [0%nat] two_streams two_streams_reached) as (H1 & H2 & H3 & _).
  split; [exact H1|]. split; [exact H2|exact H3].
Defined.

Definition three_writes : list (ostream * list byte) := [(Cout, str "x"); (Cerr, str "1"); (Clog, str "2")].
Lemma redirection_captures_witness :
  let s := mk_streams two_streams (Console true) (Console false) (Console false) [] [] in
  let '(r, s1) := new_RedirectedStreams 6%nat s in
  ∃ s2, delete_RedirectedStreams 6%nat r (str "o") [] (writes s1 three_writes) = Done (str "ox", str "12", s2) ∧
    console_out s2 = [] ∧ console_err s2 = [].
Proof.
  pose proof (redirection_captures 6%nat [0%nat]
    (mk_streams two_streams (Console true) (Console false) (Console false) [] []) three_writes (str "o") []) as H.
  destruct H as (s2 & E & _ & C1 & C2 & _); [split; [done|by repeat constructor]|].
  exists s2. split; [exact E|]. split; [exact C1|exact C2].
Defined.

(** A name that begins with a percent sign is no file. *)
Lemma makeStream_cases can_open name : ∃ o, makeStream can_open (StringRef_string name) = Done o ∧
  (o = inr CoutStream ↔ name = []) ∧ (o = inr DebugOutStream ↔ name = str "%debug") ∧
  (∀ f, o = inr (FileStream f) ↔ f = name ∧ head name ≠ Some x25 ∧ name ≠ [] ∧ can_open name = true).
Proof.
  unfold makeStream. rewrite string_ref_to_string.
  cbn [mbind outcome_bind StringRef_string m_size]. destruct name as [|c name].
  - eexists. split; [reflexivity|]. naive_solver.
  - rewrite decide_False by done.
    assert (char_at (StringRef_string (c :: name)) 0 = Done c) as -> by done. cbn [mbind outcome_bind].
    destruct (decide (c = x25)) as [->|Hc].
    + destruct (decide (x25 :: name = str "%debug")) as [E|E]; eexists; (split; [reflexivity|]); naive_solver.
    + assert (c :: name ≠ str "%debug") as Hd by (intros [= -> _]; done).
      destruct (can_open (c :: name)) eqn:E; eexists; (split; [reflexivity|]); naive_solver.
Qed.
