(* ===== verification/CatchConfig.v ===== *)
(** * Catch: the configuration and its command line (catch_commandline, catch_config)

    [ConfigData] with one field for each member, the options of [makeCommandLineParser] bound to
    them, and the [Config] made from it.  Floating-point numbers, files, the clock and the
    reporters that are registered are parameters. *)
From stdpp Require Import strings list.
From S2P Require Import CatchStreams.
From S2P Require Import Prelude CatchString CatchTest CatchText CatchClara CatchClaraProps.

(** ** ConfigData *)
Inductive Verbosity := Quiet | Verbosity_Normal | High.
#[export] Instance Verbosity_eq_dec : EqDecision Verbosity.
Proof. solve_decision. Defined.
Inductive OrNot := DefaultForReporter | Always | Never.
Inductive YesOrNo := Auto | Yes | No.
(** Sets of flags: [WarnAbout] and [WaitForKeypress]. *)
Definition WarnNothing : Z := 0x00.
Definition NoAssertions : Z := 0x01.
Definition NoTests : Z := 0x02.
Definition NeverWait : Z := 0.
Definition BeforeStart : Z := 1.
Definition BeforeExit : Z := 2.
Definition BeforeStartAndExit : Z := Z.lor BeforeStart BeforeExit.

Section config.
Context {double : Type}.

Record ConfigData := mk_ConfigData {
  cd_listTests : bool;
  cd_listTags : bool;
  cd_listReporters : bool;
  cd_listTestNamesOnly : bool;
  cd_showSuccessfulTests : bool;
  cd_shouldDebugBreak : bool;
  cd_noThrow : bool;
  cd_showHelp : bool;
  cd_showInvisibles : bool;
  cd_filenamesAsTags : bool;
  cd_libIdentify : bool;
  cd_abortAfter : Z;
  cd_rngSeed : Z;
  cd_benchmarkNoAnalysis : bool;
  cd_benchmarkSamples : Z;
  cd_benchmarkConfidenceInterval : double;
  cd_benchmarkResamples : Z;
  cd_verbosity : Verbosity;
  cd_warnings : Z;
  cd_showDurations : OrNot;
  cd_runOrder : InWhatOrder;
  cd_useColour : YesOrNo;
  cd_waitForKeypress : Z;
  cd_outputFilename : list byte;
  cd_name : list byte;
  cd_processName : list byte;
  cd_reporterName : list byte;
  cd_testsOrTags : list (list byte);
  cd_sectionsToRun : list (list byte)
}.

Definition set_listTests (v : bool) (c : ConfigData) : ConfigData :=
  mk_ConfigData v (cd_listTags c) (cd_listReporters c) (cd_listTestNamesOnly c)
    (cd_showSuccessfulTests c) (cd_shouldDebugBreak c) (cd_noThrow c) (cd_showHelp c)
    (cd_showInvisibles c) (cd_filenamesAsTags c) (cd_libIdentify c) (cd_abortAfter c)
    (cd_rngSeed c) (cd_benchmarkNoAnalysis c) (cd_benchmarkSamples c)
    (cd_benchmarkConfidenceInterval c) (cd_benchmarkResamples c) (cd_verbosity c)
    (cd_warnings c) (cd_showDurations c) (cd_runOrder c) (cd_useColour c)
    (cd_waitForKeypress c) (cd_outputFilename c) (cd_name c) (cd_processName c)
    (cd_reporterName c) (cd_testsOrTags c) (cd_sectionsToRun c).
Definition set_listTags (v : bool) (c : ConfigData) : ConfigData :=
  mk_ConfigData (cd_listTests c) v (cd_listReporters c) (cd_listTestNamesOnly c)
    (cd_showSuccessfulTests c) (cd_shouldDebugBreak c) (cd_noThrow c) (cd_showHelp c)
    (cd_showInvisibles c) (cd_filenamesAsTags c) (cd_libIdentify c) (cd_abortAfter c)
    (cd_rngSeed c) (cd_benchmarkNoAnalysis c) (cd_benchmarkSamples c)
    (cd_benchmarkConfidenceInterval c) (cd_benchmarkResamples c) (cd_verbosity c)
    (cd_warnings c) (cd_showDurations c) (cd_runOrder c) (cd_useColour c)
    (cd_waitForKeypress c) (cd_outputFilename c) (cd_name c) (cd_processName c)
    (cd_reporterName c) (cd_testsOrTags c) (cd_sectionsToRun c).
Definition set_listReporters (v : bool) (c : ConfigData) : ConfigData :=
  mk_ConfigData (cd_listTests c) (cd_listTags c) v (cd_listTestNamesOnly c) (cd_showSuccessfulTests c)
    (cd_shouldDebugBreak c) (cd_noThrow c) (cd_showHelp c) (cd_showInvisibles c)
    (cd_filenamesAsTags c) (cd_libIdentify c) (cd_abortAfter c) (cd_rngSeed c)
    (cd_benchmarkNoAnalysis c) (cd_benchmarkSamples c) (cd_benchmarkConfidenceInterval c)
    (cd_benchmarkResamples c) (cd_verbosity c) (cd_warnings c) (cd_showDurations c)
    (cd_runOrder c) (cd_useColour c) (cd_waitForKeypress c) (cd_outputFilename c)
    (cd_name c) (cd_processName c) (cd_reporterName c) (cd_testsOrTags c)
    (cd_sectionsToRun c).
Definition set_listTestNamesOnly (v : bool) (c : ConfigData) : ConfigData :=
  mk_ConfigData (cd_listTests c) (cd_listTags c) (cd_listReporters c) v (cd_showSuccessfulTests c)
    (cd_shouldDebugBreak c) (cd_noThrow c) (cd_showHelp c) (cd_showInvisibles c)
    (cd_filenamesAsTags c) (cd_libIdentify c) (cd_abortAfter c) (cd_rngSeed c)
    (cd_benchmarkNoAnalysis c) (cd_benchmarkSamples c) (cd_benchmarkConfidenceInterval c)
    (cd_benchmarkResamples c) (cd_verbosity c) (cd_warnings c) (cd_showDurations c)
    (cd_runOrder c) (cd_useColour c) (cd_waitForKeypress c) (cd_outputFilename c)
    (cd_name c) (cd_processName c) (cd_reporterName c) (cd_testsOrTags c)
    (cd_sectionsToRun c).
Definition set_showSuccessfulTests (v : bool) (c : ConfigData) : ConfigData :=
  mk_ConfigData (cd_listTests c) (cd_listTags c) (cd_listReporters c) (cd_listTestNamesOnly c) v
    (cd_shouldDebugBreak c) (cd_noThrow c) (cd_showHelp c) (cd_showInvisibles c)
    (cd_filenamesAsTags c) (cd_libIdentify c) (cd_abortAfter c) (cd_rngSeed c)
    (cd_benchmarkNoAnalysis c) (cd_benchmarkSamples c) (cd_benchmarkConfidenceInterval c)
    (cd_benchmarkResamples c) (cd_verbosity c) (cd_warnings c) (cd_showDurations c)
    (cd_runOrder c) (cd_useColour c) (cd_waitForKeypress c) (cd_outputFilename c)
    (cd_name c) (cd_processName c) (cd_reporterName c) (cd_testsOrTags c)
    (cd_sectionsToRun c).
Definition set_shouldDebugBreak (v : bool) (c : ConfigData) : ConfigData :=
  mk_ConfigData (cd_listTests c) (cd_listTags c) (cd_listReporters c) (cd_listTestNamesOnly c)
    (cd_showSuccessfulTests c) v (cd_noThrow c) (cd_showHelp c) (cd_showInvisibles c)
    (cd_filenamesAsTags c) (cd_libIdentify c) (cd_abortAfter c) (cd_rngSeed c)
    (cd_benchmarkNoAnalysis c) (cd_benchmarkSamples c) (cd_benchmarkConfidenceInterval c)
    (cd_benchmarkResamples c) (cd_verbosity c) (cd_warnings c) (cd_showDurations c)
    (cd_runOrder c) (cd_useColour c) (cd_waitForKeypress c) (cd_outputFilename c)
    (cd_name c) (cd_processName c) (cd_reporterName c) (cd_testsOrTags c)
    (cd_sectionsToRun c).
Definition set_noThrow (v : bool) (c : ConfigData) : ConfigData :=
  mk_ConfigData (cd_listTests c) (cd_listTags c) (cd_listReporters c) (cd_listTestNamesOnly c)
    (cd_showSuccessfulTests c) (cd_shouldDebugBreak c) v (cd_showHelp c)
    (cd_showInvisibles c) (cd_filenamesAsTags c) (cd_libIdentify c) (cd_abortAfter c)
    (cd_rngSeed c) (cd_benchmarkNoAnalysis c) (cd_benchmarkSamples c)
    (cd_benchmarkConfidenceInterval c) (cd_benchmarkResamples c) (cd_verbosity c)
    (cd_warnings c) (cd_showDurations c) (cd_runOrder c) (cd_useColour c)
    (cd_waitForKeypress c) (cd_outputFilename c) (cd_name c) (cd_processName c)
    (cd_reporterName c) (cd_testsOrTags c) (cd_sectionsToRun c).
Definition set_showHelp (v : bool) (c : ConfigData) : ConfigData :=
  mk_ConfigData (cd_listTests c) (cd_listTags c) (cd_listReporters c) (cd_listTestNamesOnly c)
    (cd_showSuccessfulTests c) (cd_shouldDebugBreak c) (cd_noThrow c) v
    (cd_showInvisibles c) (cd_filenamesAsTags c) (cd_libIdentify c) (cd_abortAfter c)
    (cd_rngSeed c) (cd_benchmarkNoAnalysis c) (cd_benchmarkSamples c)
    (cd_benchmarkConfidenceInterval c) (cd_benchmarkResamples c) (cd_verbosity c)
    (cd_warnings c) (cd_showDurations c) (cd_runOrder c) (cd_useColour c)
    (cd_waitForKeypress c) (cd_outputFilename c) (cd_name c) (cd_processName c)
    (cd_reporterName c) (cd_testsOrTags c) (cd_sectionsToRun c).
Definition set_showInvisibles (v : bool) (c : ConfigData) : ConfigData :=
  mk_ConfigData (cd_listTests c) (cd_listTags c) (cd_listReporters c) (cd_listTestNamesOnly c)
    (cd_showSuccessfulTests c) (cd_shouldDebugBreak c) (cd_noThrow c) (cd_showHelp c) v
    (cd_filenamesAsTags c) (cd_libIdentify c) (cd_abortAfter c) (cd_rngSeed c)
    (cd_benchmarkNoAnalysis c) (cd_benchmarkSamples c) (cd_benchmarkConfidenceInterval c)
    (cd_benchmarkResamples c) (cd_verbosity c) (cd_warnings c) (cd_showDurations c)
    (cd_runOrder c) (cd_useColour c) (cd_waitForKeypress c) (cd_outputFilename c)
    (cd_name c) (cd_processName c) (cd_reporterName c) (cd_testsOrTags c)
    (cd_sectionsToRun c).
Definition set_filenamesAsTags (v : bool) (c : ConfigData) : ConfigData :=
  mk_ConfigData (cd_listTests c) (cd_listTags c) (cd_listReporters c) (cd_listTestNamesOnly c)
    (cd_showSuccessfulTests c) (cd_shouldDebugBreak c) (cd_noThrow c) (cd_showHelp c)
    (cd_showInvisibles c) v (cd_libIdentify c) (cd_abortAfter c) (cd_rngSeed c)
    (cd_benchmarkNoAnalysis c) (cd_benchmarkSamples c) (cd_benchmarkConfidenceInterval c)
    (cd_benchmarkResamples c) (cd_verbosity c) (cd_warnings c) (cd_showDurations c)
    (cd_runOrder c) (cd_useColour c) (cd_waitForKeypress c) (cd_outputFilename c)
    (cd_name c) (cd_processName c) (cd_reporterName c) (cd_testsOrTags c)
    (cd_sectionsToRun c).
Definition set_libIdentify (v : bool) (c : ConfigData) : ConfigData :=
  mk_ConfigData (cd_listTests c) (cd_listTags c) (cd_listReporters c) (cd_listTestNamesOnly c)
    (cd_showSuccessfulTests c) (cd_shouldDebugBreak c) (cd_noThrow c) (cd_showHelp c)
    (cd_showInvisibles c) (cd_filenamesAsTags c) v (cd_abortAfter c) (cd_rngSeed c)
    (cd_benchmarkNoAnalysis c) (cd_benchmarkSamples c) (cd_benchmarkConfidenceInterval c)
    (cd_benchmarkResamples c) (cd_verbosity c) (cd_warnings c) (cd_showDurations c)
    (cd_runOrder c) (cd_useColour c) (cd_waitForKeypress c) (cd_outputFilename c)
    (cd_name c) (cd_processName c) (cd_reporterName c) (cd_testsOrTags c)
    (cd_sectionsToRun c).
Definition set_abortAfter (v : Z) (c : ConfigData) : ConfigData :=
  mk_ConfigData (cd_listTests c) (cd_listTags c) (cd_listReporters c) (cd_listTestNamesOnly c)
    (cd_showSuccessfulTests c) (cd_shouldDebugBreak c) (cd_noThrow c) (cd_showHelp c)
    (cd_showInvisibles c) (cd_filenamesAsTags c) (cd_libIdentify c) v (cd_rngSeed c)
    (cd_benchmarkNoAnalysis c) (cd_benchmarkSamples c) (cd_benchmarkConfidenceInterval c)
    (cd_benchmarkResamples c) (cd_verbosity c) (cd_warnings c) (cd_showDurations c)
    (cd_runOrder c) (cd_useColour c) (cd_waitForKeypress c) (cd_outputFilename c)
    (cd_name c) (cd_processName c) (cd_reporterName c) (cd_testsOrTags c)
    (cd_sectionsToRun c).
Definition set_rngSeed (v : Z) (c : ConfigData) : ConfigData :=
  mk_ConfigData (cd_listTests c) (cd_listTags c) (cd_listReporters c) (cd_listTestNamesOnly c)
    (cd_showSuccessfulTests c) (cd_shouldDebugBreak c) (cd_noThrow c) (cd_showHelp c)
    (cd_showInvisibles c) (cd_filenamesAsTags c) (cd_libIdentify c) (cd_abortAfter c) v
    (cd_benchmarkNoAnalysis c) (cd_benchmarkSamples c) (cd_benchmarkConfidenceInterval c)
    (cd_benchmarkResamples c) (cd_verbosity c) (cd_warnings c) (cd_showDurations c)
    (cd_runOrder c) (cd_useColour c) (cd_waitForKeypress c) (cd_outputFilename c)
    (cd_name c) (cd_processName c) (cd_reporterName c) (cd_testsOrTags c)
    (cd_sectionsToRun c).
Definition set_benchmarkNoAnalysis (v : bool) (c : ConfigData) : ConfigData :=
  mk_ConfigData (cd_listTests c) (cd_listTags c) (cd_listReporters c) (cd_listTestNamesOnly c)
    (cd_showSuccessfulTests c) (cd_shouldDebugBreak c) (cd_noThrow c) (cd_showHelp c)
    (cd_showInvisibles c) (cd_filenamesAsTags c) (cd_libIdentify c) (cd_abortAfter c)
    (cd_rngSeed c) v (cd_benchmarkSamples c) (cd_benchmarkConfidenceInterval c)
    (cd_benchmarkResamples c) (cd_verbosity c) (cd_warnings c) (cd_showDurations c)
    (cd_runOrder c) (cd_useColour c) (cd_waitForKeypress c) (cd_outputFilename c)
    (cd_name c) (cd_processName c) (cd_reporterName c) (cd_testsOrTags c)
    (cd_sectionsToRun c).
Definition set_benchmarkSamples (v : Z) (c : ConfigData) : ConfigData :=
  mk_ConfigData (cd_listTests c) (cd_listTags c) (cd_listReporters c) (cd_listTestNamesOnly c)
    (cd_showSuccessfulTests c) (cd_shouldDebugBreak c) (cd_noThrow c) (cd_showHelp c)
    (cd_showInvisibles c) (cd_filenamesAsTags c) (cd_libIdentify c) (cd_abortAfter c)
    (cd_rngSeed c) (cd_benchmarkNoAnalysis c) v (cd_benchmarkConfidenceInterval c)
    (cd_benchmarkResamples c) (cd_verbosity c) (cd_warnings c) (cd_showDurations c)
    (cd_runOrder c) (cd_useColour c) (cd_waitForKeypress c) (cd_outputFilename c)
    (cd_name c) (cd_processName c) (cd_reporterName c) (cd_testsOrTags c)
    (cd_sectionsToRun c).
Definition set_benchmarkConfidenceInterval (v : double) (c : ConfigData) : ConfigData :=
  mk_ConfigData (cd_listTests c) (cd_listTags c) (cd_listReporters c) (cd_listTestNamesOnly c)
    (cd_showSuccessfulTests c) (cd_shouldDebugBreak c) (cd_noThrow c) (cd_showHelp c)
    (cd_showInvisibles c) (cd_filenamesAsTags c) (cd_libIdentify c) (cd_abortAfter c)
    (cd_rngSeed c) (cd_benchmarkNoAnalysis c) (cd_benchmarkSamples c) v
    (cd_benchmarkResamples c) (cd_verbosity c) (cd_warnings c) (cd_showDurations c)
    (cd_runOrder c) (cd_useColour c) (cd_waitForKeypress c) (cd_outputFilename c)
    (cd_name c) (cd_processName c) (cd_reporterName c) (cd_testsOrTags c)
    (cd_sectionsToRun c).
Definition set_benchmarkResamples (v : Z) (c : ConfigData) : ConfigData :=
  mk_ConfigData (cd_listTests c) (cd_listTags c) (cd_listReporters c) (cd_listTestNamesOnly c)
    (cd_showSuccessfulTests c) (cd_shouldDebugBreak c) (cd_noThrow c) (cd_showHelp c)
    (cd_showInvisibles c) (cd_filenamesAsTags c) (cd_libIdentify c) (cd_abortAfter c)
    (cd_rngSeed c) (cd_benchmarkNoAnalysis c) (cd_benchmarkSamples c)
    (cd_benchmarkConfidenceInterval c) v (cd_verbosity c) (cd_warnings c)
    (cd_showDurations c) (cd_runOrder c) (cd_useColour c) (cd_waitForKeypress c)
    (cd_outputFilename c) (cd_name c) (cd_processName c) (cd_reporterName c)
    (cd_testsOrTags c) (cd_sectionsToRun c).
Definition set_verbosity (v : Verbosity) (c : ConfigData) : ConfigData :=
  mk_ConfigData (cd_listTests c) (cd_listTags c) (cd_listReporters c) (cd_listTestNamesOnly c)
    (cd_showSuccessfulTests c) (cd_shouldDebugBreak c) (cd_noThrow c) (cd_showHelp c)
    (cd_showInvisibles c) (cd_filenamesAsTags c) (cd_libIdentify c) (cd_abortAfter c)
    (cd_rngSeed c) (cd_benchmarkNoAnalysis c) (cd_benchmarkSamples c)
    (cd_benchmarkConfidenceInterval c) (cd_benchmarkResamples c) v (cd_warnings c)
    (cd_showDurations c) (cd_runOrder c) (cd_useColour c) (cd_waitForKeypress c)
    (cd_outputFilename c) (cd_name c) (cd_processName c) (cd_reporterName c)
    (cd_testsOrTags c) (cd_sectionsToRun c).
Definition set_warnings (v : Z) (c : ConfigData) : ConfigData :=
  mk_ConfigData (cd_listTests c) (cd_listTags c) (cd_listReporters c) (cd_listTestNamesOnly c)
    (cd_showSuccessfulTests c) (cd_shouldDebugBreak c) (cd_noThrow c) (cd_showHelp c)
    (cd_showInvisibles c) (cd_filenamesAsTags c) (cd_libIdentify c) (cd_abortAfter c)
    (cd_rngSeed c) (cd_benchmarkNoAnalysis c) (cd_benchmarkSamples c)
    (cd_benchmarkConfidenceInterval c) (cd_benchmarkResamples c) (cd_verbosity c) v
    (cd_showDurations c) (cd_runOrder c) (cd_useColour c) (cd_waitForKeypress c)
    (cd_outputFilename c) (cd_name c) (cd_processName c) (cd_reporterName c)
    (cd_testsOrTags c) (cd_sectionsToRun c).
Definition set_showDurations (v : OrNot) (c : ConfigData) : ConfigData :=
  mk_ConfigData (cd_listTests c) (cd_listTags c) (cd_listReporters c) (cd_listTestNamesOnly c)
    (cd_showSuccessfulTests c) (cd_shouldDebugBreak c) (cd_noThrow c) (cd_showHelp c)
    (cd_showInvisibles c) (cd_filenamesAsTags c) (cd_libIdentify c) (cd_abortAfter c)
    (cd_rngSeed c) (cd_benchmarkNoAnalysis c) (cd_benchmarkSamples c)
    (cd_benchmarkConfidenceInterval c) (cd_benchmarkResamples c) (cd_verbosity c)
    (cd_warnings c) v (cd_runOrder c) (cd_useColour c) (cd_waitForKeypress c)
    (cd_outputFilename c) (cd_name c) (cd_processName c) (cd_reporterName c)
    (cd_testsOrTags c) (cd_sectionsToRun c).
Definition set_runOrder (v : InWhatOrder) (c : ConfigData) : ConfigData :=
  mk_ConfigData (cd_listTests c) (cd_listTags c) (cd_listReporters c) (cd_listTestNamesOnly c)
    (cd_showSuccessfulTests c) (cd_shouldDebugBreak c) (cd_noThrow c) (cd_showHelp c)
    (cd_showInvisibles c) (cd_filenamesAsTags c) (cd_libIdentify c) (cd_abortAfter c)
    (cd_rngSeed c) (cd_benchmarkNoAnalysis c) (cd_benchmarkSamples c)
    (cd_benchmarkConfidenceInterval c) (cd_benchmarkResamples c) (cd_verbosity c)
    (cd_warnings c) (cd_showDurations c) v (cd_useColour c) (cd_waitForKeypress c)
    (cd_outputFilename c) (cd_name c) (cd_processName c) (cd_reporterName c)
    (cd_testsOrTags c) (cd_sectionsToRun c).
Definition set_useColour (v : YesOrNo) (c : ConfigData) : ConfigData :=
  mk_ConfigData (cd_listTests c) (cd_listTags c) (cd_listReporters c) (cd_listTestNamesOnly c)
    (cd_showSuccessfulTests c) (cd_shouldDebugBreak c) (cd_noThrow c) (cd_showHelp c)
    (cd_showInvisibles c) (cd_filenamesAsTags c) (cd_libIdentify c) (cd_abortAfter c)
    (cd_rngSeed c) (cd_benchmarkNoAnalysis c) (cd_benchmarkSamples c)
    (cd_benchmarkConfidenceInterval c) (cd_benchmarkResamples c) (cd_verbosity c)
    (cd_warnings c) (cd_showDurations c) (cd_runOrder c) v (cd_waitForKeypress c)
    (cd_outputFilename c) (cd_name c) (cd_processName c) (cd_reporterName c)
    (cd_testsOrTags c) (cd_sectionsToRun c).
Definition set_waitForKeypress (v : Z) (c : ConfigData) : ConfigData :=
  mk_ConfigData (cd_listTests c) (cd_listTags c) (cd_listReporters c) (cd_listTestNamesOnly c)
    (cd_showSuccessfulTests c) (cd_shouldDebugBreak c) (cd_noThrow c) (cd_showHelp c)
    (cd_showInvisibles c) (cd_filenamesAsTags c) (cd_libIdentify c) (cd_abortAfter c)
    (cd_rngSeed c) (cd_benchmarkNoAnalysis c) (cd_benchmarkSamples c)
    (cd_benchmarkConfidenceInterval c) (cd_benchmarkResamples c) (cd_verbosity c)
    (cd_warnings c) (cd_showDurations c) (cd_runOrder c) (cd_useColour c) v
    (cd_outputFilename c) (cd_name c) (cd_processName c) (cd_reporterName c)
    (cd_testsOrTags c) (cd_sectionsToRun c).
Definition set_outputFilename (v : list byte) (c : ConfigData) : ConfigData :=
  mk_ConfigData (cd_listTests c) (cd_listTags c) (cd_listReporters c) (cd_listTestNamesOnly c)
    (cd_showSuccessfulTests c) (cd_shouldDebugBreak c) (cd_noThrow c) (cd_showHelp c)
    (cd_showInvisibles c) (cd_filenamesAsTags c) (cd_libIdentify c) (cd_abortAfter c)
    (cd_rngSeed c) (cd_benchmarkNoAnalysis c) (cd_benchmarkSamples c)
    (cd_benchmarkConfidenceInterval c) (cd_benchmarkResamples c) (cd_verbosity c)
    (cd_warnings c) (cd_showDurations c) (cd_runOrder c) (cd_useColour c)
    (cd_waitForKeypress c) v (cd_name c) (cd_processName c) (cd_reporterName c)
    (cd_testsOrTags c) (cd_sectionsToRun c).
Definition set_name (v : list byte) (c : ConfigData) : ConfigData :=
  mk_ConfigData (cd_listTests c) (cd_listTags c) (cd_listReporters c) (cd_listTestNamesOnly c)
    (cd_showSuccessfulTests c) (cd_shouldDebugBreak c) (cd_noThrow c) (cd_showHelp c)
    (cd_showInvisibles c) (cd_filenamesAsTags c) (cd_libIdentify c) (cd_abortAfter c)
    (cd_rngSeed c) (cd_benchmarkNoAnalysis c) (cd_benchmarkSamples c)
    (cd_benchmarkConfidenceInterval c) (cd_benchmarkResamples c) (cd_verbosity c)
    (cd_warnings c) (cd_showDurations c) (cd_runOrder c) (cd_useColour c)
    (cd_waitForKeypress c) (cd_outputFilename c) v (cd_processName c) (cd_reporterName c)
    (cd_testsOrTags c) (cd_sectionsToRun c).
Definition set_processName (v : list byte) (c : ConfigData) : ConfigData :=
  mk_ConfigData (cd_listTests c) (cd_listTags c) (cd_listReporters c) (cd_listTestNamesOnly c)
    (cd_showSuccessfulTests c) (cd_shouldDebugBreak c) (cd_noThrow c) (cd_showHelp c)
    (cd_showInvisibles c) (cd_filenamesAsTags c) (cd_libIdentify c) (cd_abortAfter c)
    (cd_rngSeed c) (cd_benchmarkNoAnalysis c) (cd_benchmarkSamples c)
    (cd_benchmarkConfidenceInterval c) (cd_benchmarkResamples c) (cd_verbosity c)
    (cd_warnings c) (cd_showDurations c) (cd_runOrder c) (cd_useColour c)
    (cd_waitForKeypress c) (cd_outputFilename c) (cd_name c) v (cd_reporterName c)
    (cd_testsOrTags c) (cd_sectionsToRun c).
Definition set_reporterName (v : list byte) (c : ConfigData) : ConfigData :=
  mk_ConfigData (cd_listTests c) (cd_listTags c) (cd_listReporters c) (cd_listTestNamesOnly c)
    (cd_showSuccessfulTests c) (cd_shouldDebugBreak c) (cd_noThrow c) (cd_showHelp c)
    (cd_showInvisibles c) (cd_filenamesAsTags c) (cd_libIdentify c) (cd_abortAfter c)
    (cd_rngSeed c) (cd_benchmarkNoAnalysis c) (cd_benchmarkSamples c)
    (cd_benchmarkConfidenceInterval c) (cd_benchmarkResamples c) (cd_verbosity c)
    (cd_warnings c) (cd_showDurations c) (cd_runOrder c) (cd_useColour c)
    (cd_waitForKeypress c) (cd_outputFilename c) (cd_name c) (cd_processName c) v
    (cd_testsOrTags c) (cd_sectionsToRun c).
Definition set_testsOrTags (v : list (list byte)) (c : ConfigData) : ConfigData :=
  mk_ConfigData (cd_listTests c) (cd_listTags c) (cd_listReporters c) (cd_listTestNamesOnly c)
    (cd_showSuccessfulTests c) (cd_shouldDebugBreak c) (cd_noThrow c) (cd_showHelp c)
    (cd_showInvisibles c) (cd_filenamesAsTags c) (cd_libIdentify c) (cd_abortAfter c)
    (cd_rngSeed c) (cd_benchmarkNoAnalysis c) (cd_benchmarkSamples c)
    (cd_benchmarkConfidenceInterval c) (cd_benchmarkResamples c) (cd_verbosity c)
    (cd_warnings c) (cd_showDurations c) (cd_runOrder c) (cd_useColour c)
    (cd_waitForKeypress c) (cd_outputFilename c) (cd_name c) (cd_processName c)
    (cd_reporterName c) v (cd_sectionsToRun c).
Definition set_sectionsToRun (v : list (list byte)) (c : ConfigData) : ConfigData :=
  mk_ConfigData (cd_listTests c) (cd_listTags c) (cd_listReporters c) (cd_listTestNamesOnly c)
    (cd_showSuccessfulTests c) (cd_shouldDebugBreak c) (cd_noThrow c) (cd_showHelp c)
    (cd_showInvisibles c) (cd_filenamesAsTags c) (cd_libIdentify c) (cd_abortAfter c)
    (cd_rngSeed c) (cd_benchmarkNoAnalysis c) (cd_benchmarkSamples c)
    (cd_benchmarkConfidenceInterval c) (cd_benchmarkResamples c) (cd_verbosity c)
    (cd_warnings c) (cd_showDurations c) (cd_runOrder c) (cd_useColour c)
    (cd_waitForKeypress c) (cd_outputFilename c) (cd_name c) (cd_processName c)
    (cd_reporterName c) (cd_testsOrTags c) v.

Definition default_config (confidence : double) : ConfigData :=
  mk_ConfigData false false false false false false false false false false false (-1) 0 false 100
    confidence 100000 Verbosity_Normal WarnNothing DefaultForReporter InDeclarationOrder Auto NeverWait
    [] [] [] (str "console") [] [].

(** ** What the options do *)
Definition setting : Type := ConfigData → ParserResult * ConfigData.
Definition done (f : ConfigData → ConfigData) : setting := λ c, (Result_ok Matched, f c).
Definition refuse (message : list byte) : setting := λ c, (RuntimeError message, c).
Definition quoted (s : list byte) : list byte := str "'" ++ s ++ str "'".

Definition setWarning (warning : list byte) : setting := λ c,
  let warningSet :=
    if decide (warning = str "NoAssertions") then NoAssertions
    else if decide (warning = str "NoTests") then NoTests else WarnNothing in
  if decide (warningSet = WarnNothing) then refuse (str "Unrecognised warning: " ++ quoted warning) c
  else done (set_warnings (Z.lor (cd_warnings c) warningSet)) c.

(** A line of the file, as a test to run; empty lines and comments are none. *)
Definition test_of_line (line : list byte) : throwing (list (list byte)) :=
  line ← trim line;
  mret (if negb (bool_decide (line = [])) && negb (startsWith_char line x23) then
          let line := if negb (startsWith_char line x22) then [x22] ++ line ++ [x22] else line in
          [line ++ [x2c]]
        else []).
Fixpoint tests_of_lines (lines : list (list byte)) : throwing (list (list byte)) :=
  match lines with
  | [] => mret []
  | line :: lines => a ← test_of_line line; b ← tests_of_lines lines; mret (a ++ b)
  end.
(** [read_file] gives the lines of a file that can be opened.  An exception ends the parsing too;
    [trim] has none. *)
Definition loadTestNamesFromFile (read_file : list byte → option (list (list byte)))
    (filename : list byte) : setting := λ c,
  match read_file filename with
  | None => refuse (str "Unable to load input file: " ++ quoted filename) c
  | Some lines =>
      match tests_of_lines lines with
      | inr tests => done (set_testsOrTags (cd_testsOrTags c ++ tests)) c
      | inl _ => refuse [] c
      end
  end.

Definition setTestOrder (order : list byte) : setting :=
  if startsWith (str "declared") order then done (set_runOrder InDeclarationOrder)
  else if startsWith (str "lexical") order then done (set_runOrder InLexicographicalOrder)
  else if startsWith (str "random") order then done (set_runOrder InRandomOrder)
  else refuse (str "Unrecognised ordering: " ++ quoted order).

Definition setRngSeed (time : Z) (seed : list byte) : setting := λ c,
  if decide (seed ≠ str "time") then
    let '(r, v) := convertInto_unsigned seed (cd_rngSeed c) in (r, set_rngSeed v c)
  else done (set_rngSeed (u32 time)) c.

Definition setColourUsage (useColour : list byte) : setting :=
  let mode := toLower useColour in
  if decide (mode = str "yes") then done (set_useColour Yes)
  else if decide (mode = str "no") then done (set_useColour No)
  else if decide (mode = str "auto") then done (set_useColour Auto)
  else refuse (str "colour mode must be one of: auto, yes or no. " ++ quoted useColour ++ str " not recognised").

Definition setWaitForKeypress (keypress : list byte) : setting :=
  let keypressLc := toLower keypress in
  if decide (keypressLc = str "start") then done (set_waitForKeypress BeforeStart)
  else if decide (keypressLc = str "exit") then done (set_waitForKeypress BeforeExit)
  else if decide (keypressLc = str "both") then done (set_waitForKeypress BeforeStartAndExit)
  else refuse (str "keypress argument must be one of: start, exit or both. " ++ quoted keypress ++
               str " not recognised").

Definition setVerbosity (verbosity : list byte) : setting :=
  let lcVerbosity := toLower verbosity in
  if decide (lcVerbosity = str "quiet") then done (set_verbosity Quiet)
  else if decide (lcVerbosity = str "normal") then done (set_verbosity Verbosity_Normal)
  else if decide (lcVerbosity = str "high") then done (set_verbosity High)
  else refuse (str "Unrecognised verbosity, " ++ quoted verbosity).

Definition setReporter (factories : list (list byte)) (reporter : list byte) : setting :=
  let lcReporter := toLower reporter in
  if decide (lcReporter ∈ factories) then done (set_reporterName lcReporter)
  else refuse (str "Unrecognized reporter, " ++ quoted reporter ++
               str ". Check available with --list-reporters").

(** ** The parser *)
Definition flag_opt (set : bool → ConfigData → ConfigData) : Opt ConfigData := new_Opt (bound_flag set) [].
Definition string_lambda (f : list byte → setting) (hint : list byte) : Opt ConfigData :=
  new_Opt (bound_lambda convertInto_string [] f) hint.
Definition names (ns : list (list byte)) (description : list byte) (o : Opt ConfigData) : Opt ConfigData :=
  opt_described description (foldl (λ o n, opt_name n o) o ns).

Section parser.
Context (convertInto_double : converter double) (factories : list (list byte)) (time : Z)
  (read_file : list byte → option (list (list byte))).

Definition options : list (Opt ConfigData) := [
  Help set_showHelp;
  names [str "-l"; str "--list-tests"] (str "list all/matching test cases") (flag_opt set_listTests);
  names [str "-t"; str "--list-tags"] (str "list all/matching tags") (flag_opt set_listTags);
  names [str "-s"; str "--success"] (str "include successful tests in output") (flag_opt set_showSuccessfulTests);
  names [str "-b"; str "--break"] (str "break into debugger on failure") (flag_opt set_shouldDebugBreak);
  names [str "-e"; str "--nothrow"] (str "skip exception tests") (flag_opt set_noThrow);
  names [str "-i"; str "--invisibles"] (str "show invisibles (tabs, newlines)") (flag_opt set_showInvisibles);
  names [str "-o"; str "--out"] (str "output filename")
    (new_Opt (bound_value convertInto_string cd_outputFilename set_outputFilename) (str "filename"));
  names [str "-r"; str "--reporter"] (str "reporter to use (defaults to console)")
    (string_lambda (setReporter factories) (str "name"));
  names [str "-n"; str "--name"] (str "suite name")
    (new_Opt (bound_value convertInto_string cd_name set_name) (str "name"));
  names [str "-a"; str "--abort"] (str "abort at first failure")
    (new_Opt (bound_flag_lambda (invoke_void (λ _, set_abortAfter 1))) []);
  names [str "-x"; str "--abortx"] (str "abort after x failures")
    (new_Opt (bound_lambda convertInto_int 0 (invoke_void set_abortAfter)) (str "no. failures"));
  names [str "-w"; str "--warn"] (str "enable warnings") (string_lambda setWarning (str "warning name"));
  names [str "-d"; str "--durations"] (str "show test durations")
    (new_Opt (bound_lambda convertInto_bool false
       (invoke_void (λ flag, set_showDurations (if (flag : bool) then Always else Never)))) (str "yes|no"));
  names [str "-f"; str "--input-file"] (str "load test names to run from a file")
    (string_lambda (loadTestNamesFromFile read_file) (str "filename"));
  names [str "-#"; str "--filenames-as-tags"] (str "adds a tag for the filename") (flag_opt set_filenamesAsTags);
  names [str "-c"; str "--section"] (str "specify section to run")
    (new_Opt (bound_vector convertInto_string [] cd_sectionsToRun set_sectionsToRun) (str "section name"));
  names [str "-v"; str "--verbosity"] (str "set output verbosity")
    (string_lambda setVerbosity (str "quiet|normal|high"));
  names [str "--list-test-names-only"] (str "list all/matching test cases names only")
    (flag_opt set_listTestNamesOnly);
  names [str "--list-reporters"] (str "list all reporters") (flag_opt set_listReporters);
  names [str "--order"] (str "test case order (defaults to decl)")
    (string_lambda setTestOrder (str "decl|lex|rand"));
  names [str "--rng-seed"] (str "set a specific seed for random numbers")
    (string_lambda (setRngSeed time) (str "'time'|number"));
  names [str "--use-colour"] (str "should output be colourised") (string_lambda setColourUsage (str "yes|no"));
  names [str "--libidentify"] (str "report name and version according to libidentify standard")
    (flag_opt set_libIdentify);
  names [str "--wait-for-keypress"] (str "waits for a keypress before exiting")
    (string_lambda setWaitForKeypress (str "start|exit|both"));
  names [str "--benchmark-samples"] (str "number of samples to collect (default: 100)")
    (new_Opt (bound_value convertInto_unsigned cd_benchmarkSamples set_benchmarkSamples) (str "samples"));
  names [str "--benchmark-resamples"] (str "number of resamples for the bootstrap (default: 100000)")
    (new_Opt (bound_value convertInto_unsigned cd_benchmarkResamples set_benchmarkResamples) (str "resamples"));
  names [str "--benchmark-confidence-interval"]
    (str "confidence interval for the bootstrap (between 0 and 1, default: 0.95)")
    (new_Opt (bound_value convertInto_double cd_benchmarkConfidenceInterval set_benchmarkConfidenceInterval)
       (str "confidence interval"));
  names [str "--benchmark-no-analysis"] (str "perform only measurements; do not perform any analysis")
    (flag_opt set_benchmarkNoAnalysis)].

Definition tests_arg : Arg ConfigData :=
  described (str "which test or tests to use")
    (new_ref (bound_vector convertInto_string [] cd_testsOrTags set_testsOrTags) (str "test name|pattern|tags")).

Definition makeCommandLineParser : Parser ConfigData :=
  with_arg tests_arg (foldl (λ p o, with_opt o p)
    (with_exeName (mk_ExeName (str "<executable>")
       (Some (bound_value convertInto_string cd_processName set_processName))) new_Parser) options).
End parser.

(** ** Config *)
Record Config := mk_Config {
  m_data : ConfigData;
  m_stream : IStream;
  m_hasTestFilters : bool;
  cfg_testSpec : TestSpec
}.
Fixpoint parse_specs (m_tagAliases : TagAliasRegistry) (args : list (list byte)) (p : TestSpecParser)
    : throwing TestSpecParser :=
  match args with
  | [] => mret p
  | arg :: args => p ← parse m_tagAliases arg p; parse_specs m_tagAliases args p
  end.
(** The stream is opened first. *)
Definition openStream (can_open : list byte → bool) (data : ConfigData) : outcome (throwing IStream) :=
  makeStream can_open (StringRef_string (cd_outputFilename data)).
Definition make_Config (can_open : list byte → bool) (m_tagAliases : TagAliasRegistry) (data : ConfigData)
    : outcome (throwing Config) :=
  stream ← openStream can_open data;
  Done (s ← stream;
        p ← parse_specs m_tagAliases (cd_testsOrTags data) new_parser;
        mret (mk_Config data s (negb (bool_decide (cd_testsOrTags data = []))) (testSpec p))).

Definition cfg_allowThrows (c : Config) : bool := negb (cd_noThrow (m_data c)).
Definition cfg_name (c : Config) : list byte :=
  if decide (cd_name (m_data c) = []) then cd_processName (m_data c) else cd_name (m_data c).
Definition cfg_warnAboutMissingAssertions (c : Config) : bool :=
  bool_decide (Z.land (cd_warnings (m_data c)) NoAssertions ≠ 0).
Definition cfg_warnAboutNoTests (c : Config) : bool :=
  bool_decide (Z.land (cd_warnings (m_data c)) NoTests ≠ 0).
End config.
Arguments ConfigData : clear implicits.
Arguments Config : clear implicits.

(** * Properties of the test programs' command line

    The parser of [makeCommandLineParser] is one that [command_line_carried_out] and
    [parsing_ends] apply to. *)

Section cli.
Context {double : Type} (convertInto_double : converter double) (factories : list (list byte)) (time : Z)
  (read_file : list byte → option (list (list byte))).

Let cli : Parser (ConfigData double) :=
  makeCommandLineParser convertInto_double factories time read_file.

Lemma cli_ok : parser_ok cli.
Proof.
  split.
  - repeat constructor.
  - apply (bool_decide_eq_true_1 (NoDup _)). vm_compute. reflexivity.
  - eexists _, _. split; reflexivity.
Qed.

Lemma cli_size : (length (m_options cli) + length (p_args cli) < 512)%nat.
Proof. vm_compute. lia. Qed.
End cli.

(** A number given as text stands for a double in the examples. *)
Definition sample_cli : Parser (ConfigData (list byte)) :=
  makeCommandLineParser convertInto_string [str "console"; str "junit"; str "xml"] 0 (λ _, None).
Definition sample_commands : list (bool * command) :=
  [(false, Flag 3 (str "-s")); (true, Value 11 (str "--abortx") (str "3"));
   (false, Value 12 (str "-w") (str "NoTests")); (false, Positional (str "[kv]"));
   (false, Value 20 (str "--order") (str "lex"))].

Lemma command_line_carried_out_witness : ∃ r p',
  let c := default_config (str "0.95") in
  parse_args 6 sample_cli
    (mk_Args (str "bin/tests") [str "-s"; str "--abortx=3"; str "-w"; str "NoTests"; str "[kv]"; str "--order"; str "lex"])
    c =
  Done (r, p', snd (run_commands sample_cli (List.map snd sample_commands)
                     (snd (exe_set (str "bin/tests") (m_exeName sample_cli) c)))) ∧
  agrees r (fst (run_commands sample_cli (List.map snd sample_commands)
                  (snd (exe_set (str "bin/tests") (m_exeName sample_cli) c)))).
Proof.
  apply (command_line_carried_out sample_cli sample_commands (str "bin/tests") (default_config (str "0.95")) 6).
  - apply cli_ok.
  - apply cli_size.
  - repeat constructor; try (eexists; split; [reflexivity|]; split; [|reflexivity];
      apply (bool_decide_eq_true_1 (_ ∈ _)); vm_compute; reflexivity).
  - apply (bool_decide_eq_true_1 (NoDup _)). vm_compute. reflexivity.
  - repeat constructor.
  - cbn. lia.
Defined.

(** What these commands come to. *)
Example sample_configuration :
  let c := snd (run_commands sample_cli (List.map snd sample_commands)
                 (snd (exe_set (str "bin/tests") (m_exeName sample_cli) (default_config (str "0.95"))))) in
  cd_showSuccessfulTests c = true ∧ cd_abortAfter c = 3 ∧ cd_warnings c = NoTests ∧
  cd_testsOrTags c = [str "[kv]"] ∧ cd_runOrder c = InLexicographicalOrder ∧ cd_processName c = str "tests".
Proof. by vm_compute. Qed.

(** An option that takes one value is refused the second time, as an unknown token. *)
Example option_given_twice :
  match parse_args 6 sample_cli (mk_Args (str "tests") [str "-s"; str "-s"]) (default_config []) with
  | Done (RuntimeError m, _, _) => m = str "Unrecognised token: -s"
  | _ => False
  end.
Proof. by vm_compute. Qed.

Lemma parsing_ends_witness :
  is_done (parse_args 4 sample_cli (mk_Args (str "tests") [str "-x="; str "--"; []]) (default_config [])) = true.
Proof.
  apply (parsing_ends sample_cli (mk_Args (str "tests") [str "-x="; str "--"; []])).
  - apply cli_size.
  - repeat constructor.
  - vm_compute. lia.
Defined.
