(* ===== verification/CatchList.v ===== *)
(** * Catch: listing tests, tags and reporters (catch_list)

    Each listing gives what it writes to the console, after its header, and the number of things
    listed.  [fuel] bounds the lines of a column; colours are left out. *)
From stdpp Require Import strings list.
From S2P Require Import Prelude CatchString CatchTest CatchText CatchClara CatchConfig.

(** Output and a count. *)
Definition listing : Type := outcome (list byte * nat).

Section list.
Context {double : Type} (shuffle : list TestCase → list TestCase) (fuel : nat).
Implicit Types (config : Config double) (all : list TestCase).

(** What the functions on test cases see of a configuration. *)
Definition to_IConfig config : IConfig :=
  mk_IConfig (cd_runOrder (m_data config)) (cfg_allowThrows config) shuffle.
Definition matched config all : list TestCase := filterTests all (cfg_testSpec config) (to_IConfig config).

Definition at_least_high (v : Verbosity) : bool := match v with High => true | _ => false end.

(** ** Tests *)
Definition print_column (c : Column) : outcome (list byte) := column_toString fuel c.

Definition list_test (verbosity : Verbosity) (t : TestCaseInfo) : outcome (list byte) :=
  name_text ← print_column (indent 4 (initialIndent 2 (new_Column (name t))));
  high ← (if at_least_high verbosity then
            where_ ← print_column (indent 4 (new_Column (print_sli (lineInfo t))));
            let d := if decide (description t = []) then str "(NO DESCRIPTION)" else description t in
            what ← print_column (indent 4 (new_Column d));
            Done (where_ ++ [x0a] ++ what ++ [x0a])
          else Done []);
  tag_text ← (if decide (tags t = []) then Done []
              else text ← print_column (indent 6 (new_Column (tagsAsString t))); Done (text ++ [x0a]));
  Done (name_text ++ [x0a] ++ high ++ tag_text).
Fixpoint list_each (f : TestCaseInfo → outcome (list byte)) (ts : list TestCase) : outcome (list byte) :=
  match ts with
  | [] => Done []
  | t :: ts => a ← f (info t); b ← list_each f ts; Done (a ++ b)
  end.

Definition tests_header config : list byte :=
  (if m_hasTestFilters config then str "Matching test cases:" else str "All available test cases:") ++ [x0a].
Definition listTests config all : listing :=
  let matchedTestCases := matched config all in
  text ← list_each (list_test (cd_verbosity (m_data config))) matchedTestCases;
  let n := length matchedTestCases in
  let label := if m_hasTestFilters config then str "matching test case" else str "test case" in
  Done (text ++ print_pluralise (mk_pluralise n label) ++ [x0a; x0a], n).

Definition list_name (verbosity : Verbosity) (t : TestCaseInfo) : list byte :=
  (if startsWith_char (name t) x23 then [x22] ++ name t ++ [x22] else name t) ++
  (if at_least_high verbosity then [x09; x40] ++ print_sli (lineInfo t) else []) ++ [x0a].
Definition listTestsNamesOnly config all : listing :=
  let matchedTestCases := matched config all in
  Done (matchedTestCases ≫= λ t, list_name (cd_verbosity (m_data config)) (info t), length matchedTestCases).

(** ** Tags

    [std::set] and [std::map] as lists in order. *)
Record TagInfo := mk_TagInfo { spellings : list (list byte); tag_count : nat }.
Definition no_TagInfo : TagInfo := mk_TagInfo [] 0.
Fixpoint set_insert (x : list byte) (l : list (list byte)) : list (list byte) :=
  match l with
  | [] => [x]
  | y :: l' => if decide (x = y) then l else if bytes_lt x y then x :: l else y :: set_insert x l'
  end.
Definition TagInfo_add (spelling : list byte) (t : TagInfo) : TagInfo :=
  mk_TagInfo (set_insert spelling (spellings t)) (S (tag_count t)).
Definition TagInfo_all (t : TagInfo) : list byte := spellings t ≫= λ s, str "[" ++ s ++ str "]".

Definition tag_map : Type := list (list byte * TagInfo).
(** The entry of a key, which is inserted if it is new, changed by [f]. *)
Fixpoint map_update (key : list byte) (f : TagInfo → TagInfo) (m : tag_map) : tag_map :=
  match m with
  | [] => [(key, f no_TagInfo)]
  | (k, v) :: m' =>
      if decide (key = k) then (k, f v) :: m'
      else if bytes_lt key k then (key, f no_TagInfo) :: m
      else (k, v) :: map_update key f m'
  end.
Definition count_tag (m : tag_map) (tagName : list byte) : tag_map :=
  map_update (toLower tagName) (TagInfo_add tagName) m.
Definition tag_counts (ts : list TestCase) : tag_map :=
  foldl count_tag [] (ts ≫= λ t, tags (info t)).

(** [std::setw( 2 )] *)
Definition pad_left (n : nat) (s : list byte) : list byte := replicate (n - length s) x20 ++ s.
Fixpoint print_tags (m : tag_map) : outcome (list byte) :=
  match m with
  | [] => Done []
  | (_, t) :: m =>
      let s := str "  " ++ pad_left 2 (decimal (tag_count t)) ++ str "  " in
      c ← width (CONSOLE_WIDTH - 10) (indent (length s) (initialIndent 0 (new_Column (TagInfo_all t))));
      text ← print_column c;
      rest ← print_tags m;
      Done (s ++ text ++ [x0a] ++ rest)
  end.
Definition tags_header config : list byte :=
  (if m_hasTestFilters config then str "Tags for matching test cases:" else str "All available tags:") ++ [x0a].
Definition listTags config all : listing :=
  let tagCounts := tag_counts (matched config all) in
  text ← print_tags tagCounts;
  let n := length tagCounts in
  Done (text ++ print_pluralise (mk_pluralise n (str "tag")) ++ [x0a; x0a], n).

(** ** Reporters

    [factories] has the names in order and what each says of itself.  The width left of the names
    is computed in [size_t]. *)
Definition max_name (factories : list (list byte * list byte)) : nat :=
  foldl (λ n f, Nat.max n (length (fst f))) 0%nat factories.
Definition list_reporter (maxNameLen : nat) (f : list byte * list byte) : outcome (list byte) :=
  a ← width (5 + maxNameLen) (indent 2 (new_Column (fst f ++ str ":")));
  b ← width (Z.to_nat (u64 (Z.of_nat CONSOLE_WIDTH - Z.of_nat maxNameLen - 8)))
        (indent 2 (initialIndent 0 (new_Column (snd f))));
  text ← columns_toString fuel (column_add a b);
  Done (text ++ [x0a]).
Fixpoint list_each_reporter (maxNameLen : nat) (factories : list (list byte * list byte)) : outcome (list byte) :=
  match factories with
  | [] => Done []
  | f :: factories =>
      a ← list_reporter maxNameLen f;
      b ← list_each_reporter maxNameLen factories;
      Done (a ++ b)
  end.
Definition reporters_header : list byte := str "Available reporters:" ++ [x0a].
Definition listReporters (factories : list (list byte * list byte)) : listing :=
  text ← list_each_reporter (max_name factories) factories;
  Done (text ++ [x0a], length factories).
End list.
