(* ===== verification/CatchReporters.v ===== *)
(** * Catch: reporters behind their interface (catch_interfaces_reporter, catch_reporter_registry,
      catch_reporter_listening, makeReporter of catch_session)

    What a run needs of a reporter is a class, so what is proved of listening to a run holds for
    every reporter.  The stream is shared by all of them and passed along. *)
From stdpp Require Import strings list.
From S2P Require Import Prelude CatchString CatchTest CatchRegistryProps CatchResult CatchTracker.
From S2P Require Import CatchRun CatchText CatchClara CatchConfig CatchList.

Record ReporterPreferences := mk_ReporterPreferences {
  shouldRedirectStdOut : bool;
  reportAllAssertions : bool
}.
Definition default_preferences : ReporterPreferences := mk_ReporterPreferences false false.

(** [R] are the reporters with their state, on a stream of bytes; only [assertionEnded] answers.
    [on_event] takes the other calls. *)
Definition reporting (R A : Type) : Type := ex (R * list byte) A.
Class IStreamingReporter (R : Type) := {
  getPreferences : R → ReporterPreferences;
  on_event : event → reporting R unit;
  on_assertionEnded : AssertionStats → reporting R bool
}.

(** ** Any event, and a sequence of them *)
Section any_reporter.
Context {R : Type} `{IStreamingReporter R}.

Definition deliver (e : event) : reporting R unit :=
  match e with
  | assertionEnded_ stats => _ ← on_assertionEnded stats; mret tt
  | e => on_event e
  end.
Fixpoint deliver_all (es : list event) : reporting R unit :=
  match es with
  | [] => mret tt
  | e :: es => _ ← deliver e; deliver_all es
  end.
End any_reporter.

(** ** ListeningReporter *)
Record ListeningReporter (R : Type) := mk_ListeningReporter {
  m_listeners : list R;
  lr_reporter : option R;
  m_preferences : ReporterPreferences
}.
Arguments mk_ListeningReporter {R} m_listeners lr_reporter m_preferences.
Arguments m_listeners {R} l.
Arguments lr_reporter {R} l.
Arguments m_preferences {R} l.

Section listening.
Context {R : Type} `{IStreamingReporter R}.

Definition new_ListeningReporter : ListeningReporter R :=
  mk_ListeningReporter [] None (mk_ReporterPreferences false true).
Definition addListener (listener : R) (l : ListeningReporter R) : ListeningReporter R :=
  mk_ListeningReporter (m_listeners l ++ [listener]) (lr_reporter l) (m_preferences l).
Definition addReporter (reporter : R) (l : ListeningReporter R) : outcome (ListeningReporter R) :=
  match lr_reporter l with
  | Some _ => Assert_failed
  | None =>
      Done (mk_ListeningReporter (m_listeners l) (Some reporter)
        (mk_ReporterPreferences (shouldRedirectStdOut (getPreferences reporter))
           (reportAllAssertions (m_preferences l))))
  end.

(** The same call to each listener in turn; the ones after a call that throws are not reached. *)
Fixpoint each_listener {A} (call : reporting R A) (ls : list R) (os : list byte)
    : outcome (throwing unit * (list R * list byte)) :=
  match ls with
  | [] => Done (inr tt, ([], os))
  | l :: ls =>
      match call (l, os) with
      | Done (inr _, (l, os)) =>
          '(a, (ls, os)) ← each_listener call ls os; Done (a, (l :: ls, os))
      | Done (inl e, (l, os)) => Done (inl e, (l :: ls, os))
      | Assert_failed => Assert_failed
      | Undefined => Undefined
      end
  end.
Definition set_listeners (ls : list R) (l : ListeningReporter R) : ListeningReporter R :=
  mk_ListeningReporter ls (lr_reporter l) (m_preferences l).
Definition set_reporter (r : R) (l : ListeningReporter R) : ListeningReporter R :=
  mk_ListeningReporter (m_listeners l) (Some r) (m_preferences l).

Definition to_listeners {A} (call : reporting R A) : reporting (ListeningReporter R) unit := λ '(l, os),
  '(a, (ls, os)) ← each_listener call (m_listeners l) os;
  Done (a, (set_listeners ls l, os)).
Definition to_reporter {A} (call : reporting R A) : reporting (ListeningReporter R) A := λ '(l, os),
  match lr_reporter l with
  | None => Undefined
  | Some r =>
      '(a, (r, os)) ← call (r, os); Done (a, (set_reporter r l, os))
  end.

(** The one call of the interface that is not passed on. *)
Definition passed_on (e : event) : bool := match e with fatalErrorEncountered _ => false | _ => true end.
Definition listening_event (e : event) : reporting (ListeningReporter R) unit :=
  if passed_on e then _ ← to_listeners (on_event e); to_reporter (on_event e) else mret tt.
Definition listening_assertionEnded (stats : AssertionStats) : reporting (ListeningReporter R) bool :=
  _ ← to_listeners (on_assertionEnded stats); to_reporter (on_assertionEnded stats).
End listening.

Definition listening_reporter `{IStreamingReporter R} : IStreamingReporter (ListeningReporter R) :=
  {| getPreferences := m_preferences; on_event := listening_event;
     on_assertionEnded := listening_assertionEnded |}.
#[export] Existing Instance listening_reporter.

(** ** One reporter or several behind one pointer *)
Definition by_variant {R T A} (f : reporting R A) (g : reporting T A) : reporting (R + T) A := λ '(x, os),
  match x with
  | inl r => '(a, (r, os)) ← f (r, os); Done (a, (inl r, os))
  | inr t => '(a, (t, os)) ← g (t, os); Done (a, (inr t, os))
  end.
Definition sum_reporter `{IStreamingReporter R} `{IStreamingReporter T} : IStreamingReporter (R + T) :=
  {| getPreferences := λ x, match x with inl r => getPreferences r | inr t => getPreferences t end;
     on_event := λ e, by_variant (on_event e) (on_event e);
     on_assertionEnded := λ stats, by_variant (on_assertionEnded stats) (on_assertionEnded stats) |}.
#[export] Existing Instance sum_reporter.

(** ** ReporterRegistry

    A factory makes a reporter for a configuration, which may write to the stream already; the map
    of the factories is in the order of the names. *)
Definition creating (A : Type) : Type := ex (list byte) A.

Section registry.
Context {double R : Type} `{IStreamingReporter R}.

Record IReporterFactory := mk_IReporterFactory {
  factory_description : list byte;
  factory_create : Config double → creating R
}.
Record ReporterRegistry := mk_ReporterRegistry {
  m_factories : list (list byte * IReporterFactory);
  registry_listeners : list IReporterFactory
}.
Definition new_ReporterRegistry : ReporterRegistry := mk_ReporterRegistry [] [].
Definition getListeners (rr : ReporterRegistry) : list IReporterFactory := registry_listeners rr.
(** What the listing of the reporters and the option [-r] make of [getFactories]. *)
Definition described (rr : ReporterRegistry) : list (list byte * list byte) :=
  (λ '(n, f), (n, factory_description f)) <$> m_factories rr.

Fixpoint find_factory (name : list byte) (m : list (list byte * IReporterFactory)) : option IReporterFactory :=
  match m with
  | [] => None
  | (k, f) :: m => if decide (name = k) then Some f else find_factory name m
  end.
(** [emplace], which leaves an entry as it is. *)
Fixpoint emplace (name : list byte) (f : IReporterFactory) (m : list (list byte * IReporterFactory))
    : list (list byte * IReporterFactory) :=
  match m with
  | [] => [(name, f)]
  | (k, g) :: m' =>
      if decide (name = k) then m
      else if bytes_lt name k then (name, f) :: m
      else (k, g) :: emplace name f m'
  end.

(** The null pointer is [None]. *)
Definition registry_create (name : list byte) (config : Config double) (rr : ReporterRegistry)
    : creating (option R) :=
  match find_factory name (m_factories rr) with
  | None => mret None
  | Some f => r ← factory_create f config; mret (Some r)
  end.
Definition registerReporter (name : list byte) (f : IReporterFactory) (rr : ReporterRegistry) : ReporterRegistry :=
  mk_ReporterRegistry (emplace name f (m_factories rr)) (registry_listeners rr).
Definition registerListener (f : IReporterFactory) (rr : ReporterRegistry) : ReporterRegistry :=
  mk_ReporterRegistry (m_factories rr) (registry_listeners rr ++ [f]).

(** The constructor of a reporter checks the configuration's verbosity. *)
Definition enforce_verbosity (supported : list Verbosity) (config : Config double) : creating unit :=
  if decide (cd_verbosity (m_data config) ∈ supported) then mret tt
  else ex_throw (Domain_error (str "Verbosity level not supported by this reporter")).

(** ** makeReporter *)
Definition createReporter (reporterName : list byte) (config : Config double) (rr : ReporterRegistry) : creating R :=
  reporter ← registry_create reporterName config rr;
  match reporter with
  | Some r => mret r
  | None => ex_throw (Domain_error (str "No reporter registered with name: '" ++ reporterName ++ str "'"))
  end.

Fixpoint add_listeners (listeners : list IReporterFactory) (config : Config double) (multi : ListeningReporter R)
    : creating (ListeningReporter R) :=
  match listeners with
  | [] => mret multi
  | listener :: listeners => l ← factory_create listener config; add_listeners listeners config (addListener l multi)
  end.
Definition lifted {A} (o : outcome A) : creating A := λ os, a ← o; Done (inr a, os).
Definition makeReporter (config : Config double) (rr : ReporterRegistry) : creating (R + ListeningReporter R) :=
  let name := cd_reporterName (m_data config) in
  match getListeners rr with
  | [] => r ← createReporter name config rr; mret (inl r)
  | listeners =>
      multi ← add_listeners listeners config new_ListeningReporter;
      r ← createReporter name config rr;
      multi ← lifted (addReporter r multi);
      mret (inr multi)
  end.
End registry.
Arguments IReporterFactory : clear implicits.
Arguments ReporterRegistry : clear implicits.

(** * Properties of reporters behind their interface *)

Lemma deliver_all_cons {R} `{IStreamingReporter R} e es (r : R) os : deliver_all (e :: es) (r, os) =
  match deliver e (r, os) with
  | Done (inr _, s) => deliver_all es s
  | Done (inl x, s) => Done (inl x, s)
  | Assert_failed => Assert_failed
  | Undefined => Undefined
  end.
Proof. cbn. unfold mbind, ex_bind. by destruct (deliver e (r, os)) as [[[|[]] ?]| |]. Qed.

(** ** Listening *)
Section listening.
Context {R : Type} `{IStreamingReporter R}.
Implicit Types (l r : R) (os : list byte).

(** Events that take a reporter from one state to another without a word. *)
Inductive silently : list event → R → R → Prop :=
| silent_done l : silently [] l l
| silent_more e es l l1 l2 : (∀ os, deliver e (l, os) = Done (inr tt, (l1, os))) → silently es l1 l2 →
    silently (e :: es) l l2.

Lemma each_listener_silent {A} (call : reporting R A) ls ls1 os :
  Forall2 (λ l l1, (_ ← call; mret tt) (l, os) = Done (inr tt, (l1, os))) ls ls1 →
  each_listener call ls os = Done (inr tt, (ls1, os)).
Proof.
  induction 1 as [|l l1 ls ls1 Hl _ IH]; [done|]. cbn [each_listener].
  unfold mbind, ex_bind in Hl. destruct (call (l, os)) as [[[|a] [l' os']]| |]; [done| |done|done].
  injection Hl as <- <-. cbn. by rewrite IH.
Qed.

(** One event: the listeners first, then the reporter. *)
Lemma listening_deliver e ls ls1 r p os : passed_on e = true →
  Forall2 (λ l l1, ∀ os, deliver e (l, os) = Done (inr tt, (l1, os))) ls ls1 →
  deliver e (mk_ListeningReporter ls (Some r) p, os) =
    '(a, (r, os)) ← deliver e (r, os); Done (a, (mk_ListeningReporter ls1 (Some r) p, os)).
Proof.
  intros He Hls.
  assert (∀ A (call : reporting R A), (∀ s, deliver e s = (_ ← call; mret tt) s) →
    to_listeners call (mk_ListeningReporter ls (Some r) p, os) =
      Done (inr tt, (mk_ListeningReporter ls1 (Some r) p, os))) as Hto.
  { intros A call Hc. unfold to_listeners. cbn [m_listeners]. rewrite (each_listener_silent call ls ls1); [done|].
    eapply list.Forall2_impl; [exact Hls|]. intros l l1 Hl. by rewrite <-Hc. }
  assert (∀ m : reporting R unit, ∀ s, m s = (_ ← m; mret tt) s) as Hunit.
  { intros m s. unfold mbind, ex_bind. by destruct (m s) as [[[|[]] ?]| |]. }
  destruct e; try discriminate He; cbn [deliver listening_reporter on_event on_assertionEnded];
    unfold listening_event, listening_assertionEnded; cbn [passed_on].
  6: { unfold mbind, ex_bind. rewrite (Hto bool (on_assertionEnded stats)) by done. unfold to_reporter. cbn.
    unfold mbind, ex_bind. by destruct (on_assertionEnded _ (r, os)) as [[[|b] [r' os']]| |]. }
  all: eapply ex_step; [apply Hto, Hunit|]; unfold to_reporter; cbn [lr_reporter];
    by destruct (on_event _ (r, os)) as [[a [r' os']]| |].
Qed.

Lemma listening_all es : ∀ ls ls2 r p os, Forall2 (silently (List.filter passed_on es)) ls ls2 →
  ∀ r' os', deliver_all (List.filter passed_on es) (r, os) = Done (inr tt, (r', os')) →
  deliver_all es (mk_ListeningReporter ls (Some r) p, os) =
    Done (inr tt, (mk_ListeningReporter ls2 (Some r') p, os')).
Proof.
  induction es as [|e es IH]; intros ls ls2 r p os Hls r' os' Hr.
  - injection Hr as <- <-. assert (ls = ls2) as ->; [|done].
    induction Hls as [|l l2 ls ls2 Hl _ IH]; [done|]. inversion Hl. by f_equal.
  - cbn [List.filter] in Hls, Hr. rewrite deliver_all_cons. destruct (passed_on e) eqn:He.
    + assert (∃ ls1, Forall2 (λ l l1, ∀ os, deliver e (l, os) = Done (inr tt, (l1, os))) ls ls1 ∧
        Forall2 (silently (List.filter passed_on es)) ls1 ls2) as (ls1 & H1 & H2).
      { clear IH Hr. induction Hls as [|l l2 ls ls2 Hl _ (ls1 & H1 & H2)]; [by exists []|].
        inversion Hl as [|? ? ? l1 ? Hd Hs]; subst. exists (l1 :: ls1). by split; constructor. }
      rewrite (listening_deliver e ls ls1 r p os He H1). rewrite deliver_all_cons in Hr.
      destruct (deliver e (r, os)) as [[[|[]] [r1 os1]]| |]; try done. cbn. by apply IH.
    + destruct e; try discriminate He. cbn. by apply IH.
Qed.
End listening.

(** ** Properties *)

(** C29 (refinement): listeners that write nothing do not change what is reported: through
    the listening reporter the real reporter, on the same stream, goes through the same states and
    writes the same bytes as alone, and every listener goes through the states it would go through
    alone - told of everything but a fatal error, which the listening reporter does not pass on to
    either. *)
Theorem listening_transparent {R} `{IStreamingReporter R} es (ls ls' : list R) r r' p os os' :
  Forall2 (silently (List.filter passed_on es)) ls ls' →
  deliver_all (List.filter passed_on es) (r, os) = Done (inr tt, (r', os')) →
  deliver_all es (mk_ListeningReporter ls (Some r) p, os) =
    Done (inr tt, (mk_ListeningReporter ls' (Some r') p, os')).
Proof. intros Hls Hr. by apply listening_all with (ls2 := ls'). Qed.
