(* ===== verification/CatchSession.v ===== *)
(** * Catch: the session (catch_session, catch_version)

    A run of a test program, from the arguments of [main] to its exit code.  The console is the
    bytes written to it; colours, the wait for a key and the seeding of the random numbers that
    [shuffle] stands for are left out. *)
From stdpp Require Import strings list.
From S2P Require Import Prelude CatchString CatchTest CatchResult CatchTracker CatchRun.
From S2P Require Import CatchText CatchClara CatchConfig CatchList CatchReporters.

(** ** Version *)
Record Version := mk_Version {
  majorVersion : nat;
  minorVersion : nat;
  patchNumber : nat;
  branchName : list byte;
  buildNumber : nat
}.
Definition print_version (v : Version) : list byte :=
  decimal (majorVersion v) ++ str "." ++ decimal (minorVersion v) ++ str "." ++ decimal (patchNumber v) ++
  (if decide (branchName v = []) then []
   else str "-" ++ branchName v ++ str "." ++ decimal (buildNumber v)).
Definition libraryVersion : Version := mk_Version 2 9 1 [] 0.

(** ** File names as tags *)
Definition filename_tag (file : list byte) : list byte :=
  let filename :=
    match find_last_of (str "\/") file with
    | None => file
    | Some lastSlash => x23 :: drop (S lastSlash) file
    end in
  match find_last_of (str ".") filename with
  | None => filename
  | Some lastDot => take lastDot filename
  end.
Definition tag_with_filename (t : TestCase) : TestCase :=
  mk_TestCase (setTags (info t) (tags (info t) ++ [filename_tag (file (lineInfo (info t)))])) (test t).

(** ** The exit code *)
Definition MaxExitCode : Z := 255.
Definition exit_code (totals : Totals) : Z :=
  Z.min MaxExitCode (Z.max (error totals) (i32 (failed (assertions totals)))).

Definition decimal_Z (z : Z) : list byte :=
  if decide (z < 0) then str "-" ++ decimal (Z.to_nat (- z)) else decimal (Z.to_nat z).
Definition what_ (e : exn) : list byte :=
  match e with Domain_error m | Logic_error m | Generator_exception m => m | Out_of_range => str "basic_string" end.

Section session.
Context {double R : Type} `{IStreamingReporter R} (confidence : double) (convertInto_double : converter double)
  (reporters : ReporterRegistry double R) (time : Z)
  (read_file : list byte → option (list (list byte))) (can_open : list byte → bool) (m_tagAliases : TagAliasRegistry)
  (shuffle : list TestCase → list TestCase)
  (run_case : TestCase → run Totals) (fuel : nat).

Record Session := mk_Session {
  m_cli : Parser (ConfigData double);
  m_configData : ConfigData double;
  ses_config : option (Config double);
  m_startupExceptions : bool;
  registry : TestRegistry;
  cout : list byte;
  cerr : list byte
}.
Definition ses (A : Type) : Type := ex Session A.
Definition make_Session (m_startupExceptions : bool) (registry : TestRegistry) : Session :=
  mk_Session (makeCommandLineParser convertInto_double (fst <$> described reporters) time read_file)
    (default_config confidence) None m_startupExceptions registry [] [].

Definition set_ses_config (c : option (Config double)) (s : Session) : Session :=
  mk_Session (m_cli s) (m_configData s) c (m_startupExceptions s) (registry s) (cout s) (cerr s).
Definition set_cli (p : Parser (ConfigData double)) (s : Session) : Session :=
  mk_Session p (m_configData s) (ses_config s) (m_startupExceptions s) (registry s) (cout s) (cerr s).
Definition set_configData (d : ConfigData double) (s : Session) : Session :=
  mk_Session (m_cli s) d (ses_config s) (m_startupExceptions s) (registry s) (cout s) (cerr s).
Definition set_registry (r : TestRegistry) (s : Session) : Session :=
  mk_Session (m_cli s) (m_configData s) (ses_config s) (m_startupExceptions s) r (cout s) (cerr s).
Definition print_out (b : list byte) (s : Session) : Session :=
  mk_Session (m_cli s) (m_configData s) (ses_config s) (m_startupExceptions s) (registry s) (cout s ++ b) (cerr s).
Definition print_err (b : list byte) (s : Session) : Session :=
  mk_Session (m_cli s) (m_configData s) (ses_config s) (m_startupExceptions s) (registry s) (cout s) (cerr s ++ b).

Definition from_outcome {A} (o : outcome A) : ses A := λ s,
  match o with Done a => Done (inr a, s) | Assert_failed => Assert_failed | Undefined => Undefined end.
Definition from_throwing {A} (m : throwing A) : ses A := λ s, Done (m, s).

Definition useConfigData (d : ConfigData double) (s : Session) : Session :=
  set_ses_config None (set_configData d s).
Definition config : ses (Config double) :=
  s ← ex_get;
  match ses_config s with
  | Some c => mret c
  | None =>
      c ← from_outcome (make_Config can_open m_tagAliases (m_configData s));
      c ← from_throwing c;
      _ ← ex_modify (set_ses_config (Some c));
      mret c
  end.

Definition showHelp : ses unit :=
  s ← ex_get;
  usage ← from_outcome (writeToStream fuel (m_cli s));
  ex_modify (print_out ([x0a] ++ str "Catch v" ++ print_version libraryVersion ++ [x0a] ++ usage ++ [x0a] ++
    str "For more detailed usage please see the project docs" ++ [x0a; x0a])).
Definition libIdentify : ses unit :=
  ex_modify (print_out (
    str "description:    A Catch test executable" ++ [x0a] ++
    str "category:       testframework" ++ [x0a] ++
    str "framework:      Catch Test" ++ [x0a] ++
    str "version:        " ++ print_version libraryVersion ++ [x0a])).

Definition applyCommandLine (argv : list (list byte)) : ses Z :=
  s ← ex_get;
  if m_startupExceptions s then mret 1
  else
    args ← from_outcome (make_Args argv);
    '(result, cli, data) ← from_outcome (parse_args fuel (m_cli s) args (m_configData s));
    _ ← ex_modify (λ s, set_configData data (set_cli cli s));
    match result with
    | Result_ok _ =>
        _ ← (if cd_showHelp data then showHelp else mret tt);
        _ ← (if cd_libIdentify data then libIdentify else mret tt);
        _ ← ex_modify (set_ses_config None);
        mret 0
    | r =>
        _ ← config;
        text ← from_outcome (column_toString fuel (indent 2 (new_Column (errorMessage r))));
        _ ← ex_modify (print_err ([x0a] ++ str "Error(s) in input:" ++ [x0a] ++ text ++ [x0a; x0a] ++
              str "Run with -? for usage" ++ [x0a; x0a]));
        mret MaxExitCode
    end.

(** ** Running the tests *)
Definition to_run_config (reportAll : bool) (c : Config double) : run_config :=
  mk_run_config (to_IConfig shuffle c) (cfg_name c) (cd_abortAfter (m_data c))
    (cd_showSuccessfulTests (m_data c)) reportAll (cfg_warnAboutMissingAssertions c)
    (cfg_warnAboutNoTests c) (cd_shouldDebugBreak (m_data c))
    (cd_sectionsToRun (m_data c)) (cfg_testSpec c) (cd_testsOrTags (m_data c)).

Definition allTestCases (c : Config double) : ses (list TestCase) :=
  s ← ex_get;
  '(ts, r) ← from_throwing (getAllTestsSorted (to_IConfig shuffle c) (registry s));
  _ ← ex_modify (set_registry r);
  mret ts.

Definition applyFilenamesAsTags (c : Config double) : ses unit :=
  ts ← allTestCases c;
  ex_modify (λ s, set_registry (mk_TestRegistry (m_functions (registry s)) (m_currentSortOrder (registry s))
    (tag_with_filename <$> ts) (m_unnamedCount (registry s))) s).

(** *** Listings *)
Definition show (text : list byte) : ses unit := ex_modify (print_out text).
(** One listing, if it was asked for, added to what has been listed. *)
Definition listed_also (wanted : bool) (header : list byte) (l : ses listing) (listed : option nat)
    : ses (option nat) :=
  if wanted then
    _ ← show header;
    l ← l;
    '(text, n) ← from_outcome l;
    _ ← show text;
    mret (Some (default 0%nat listed + n)%nat)
  else mret listed.
Definition of_tests (f : list TestCase → listing) (c : Config double) : ses listing :=
  ts ← allTestCases c; mret (f ts).
Definition list_ (c : Config double) : ses (option nat) :=
  let d := m_data c in
  listed ← listed_also (cd_listTests d) (tests_header c) (of_tests (listTests shuffle fuel c) c) None;
  listed ← listed_also (cd_listTestNamesOnly d) [] (of_tests (listTestsNamesOnly shuffle c) c) listed;
  listed ← listed_also (cd_listTags d) (tags_header c) (of_tests (listTags shuffle fuel c) c) listed;
  listed_also (cd_listReporters d) reporters_header (mret (listReporters fuel (described reporters))) listed.

(** The reporter is made first; what it writes, then and later, goes to its own stream. *)
Definition create_reporter (c : Config double) : ses (R + ListeningReporter R) := λ s,
  '(r, _) ← makeReporter c reporters []; Done (r, s).
(** The test cases run in a context of their own; the events for the reporter are not kept here. *)
Definition run_in_context (reporter : R + ListeningReporter R) (c : Config double) (ts : list TestCase)
    : ses Totals := λ s,
  '(t, _) ← runTests run_case ts
    (make_run_context (to_run_config (reportAllAssertions (getPreferences reporter)) c));
  Done (t, s).
Definition session_runTests (c : Config double) : ses Totals :=
  reporter ← create_reporter c; ts ← allTestCases c; run_in_context reporter c ts.

Definition runInternal_body : ses Z :=
  s ← ex_get;
  c ← config;
  _ ← (if cd_filenamesAsTags (m_configData s) then applyFilenamesAsTags c else mret tt);
  listed ← list_ c;
  match listed with
  | Some n => mret (i32 (Z.of_nat n))
  | None => t ← session_runTests c; mret (exit_code t)
  end.
(** Exceptions are told and give the largest exit code. *)
Definition caught (m : ses Z) : ses Z := λ s,
  match m s with
  | Done (inl e, s) => Done (inr MaxExitCode, print_err (what_ e ++ [x0a]) s)
  | o => o
  end.
Definition runInternal : ses Z :=
  s ← ex_get;
  if m_startupExceptions s then mret 1
  else if cd_showHelp (m_configData s) || cd_libIdentify (m_configData s) then mret 0
  else caught runInternal_body.

Definition session_run : ses Z :=
  s ← ex_get;
  let waits := cd_waitForKeypress (m_configData s) in
  _ ← (if decide (Z.land waits BeforeStart ≠ 0)
       then ex_modify (print_out (str "...waiting for enter/ return before starting" ++ [x0a])) else mret tt);
  exitCode ← runInternal;
  s ← ex_get;
  let waits := cd_waitForKeypress (m_configData s) in
  _ ← (if decide (Z.land waits BeforeExit ≠ 0)
       then ex_modify (print_out (str "...waiting for enter/ return before exiting, with code: " ++
              decimal_Z exitCode ++ [x0a])) else mret tt);
  mret exitCode.

(** [run( argc, argv )] *)
Definition main_run (argv : list (list byte)) : ses Z :=
  s ← ex_get;
  if m_startupExceptions s then mret 1
  else
    returnCode ← applyCommandLine argv;
    if decide (returnCode = 0) then session_run else mret returnCode.
End session.
