(* ===== verification/CatchXmlReporter.v ===== *)
(** * Catch: the XML reporter (catch_reporter_bases, catch_reporter_xml)

    What the reporter does with each event of the run context, on the XML writer.  Captured output
    and durations, which no event carries, are parameters. *)
From stdpp Require Import strings list.
From S2P Require Import Prelude CatchString CatchTest CatchResult CatchTracker CatchRun.
From S2P Require Import CatchText CatchClara CatchConfig CatchXml.

Definition getSourceInfo (r : AssertionResult) : SourceLineInfo := ai_lineInfo (m_info r).
Definition getTestMacroName (r : AssertionResult) : StringRef := macroName (m_info r).
Definition getMessage (r : AssertionResult) : list byte := message (m_resultData r).

(** ** The base class

    The names of the running test run and group, the test case and the stack of sections; a
    reporter may note that it has used one of the former. *)
Record LazyStat (A : Type) := mk_LazyStat { stat : option A; used : bool }.
Arguments mk_LazyStat {A} stat used.
Arguments stat {A} l.
Arguments used {A} l.
Definition lazy_set {A} (_value : A) : LazyStat A := mk_LazyStat (Some _value) false.
Definition lazy_reset {A} : LazyStat A := mk_LazyStat None false.

Record GroupInfo := mk_GroupInfo { gi_name : list byte; groupIndex : nat; groupsCounts : nat }.

Record StreamingReporterBase := mk_StreamingReporterBase {
  currentTestRunInfo : LazyStat (list byte);
  currentGroupInfo : LazyStat GroupInfo;
  currentTestCaseInfo : LazyStat TestCaseInfo;
  m_sectionStack : list SectionInfo
}.
Definition new_base : StreamingReporterBase := mk_StreamingReporterBase lazy_reset lazy_reset lazy_reset [].

Definition base_handle (e : event) (b : StreamingReporterBase) : outcome StreamingReporterBase :=
  match e with
  | testRunStarting name =>
      Done (mk_StreamingReporterBase (lazy_set name) (currentGroupInfo b) (currentTestCaseInfo b)
              (m_sectionStack b))
  | testGroupStarting name i n =>
      Done (mk_StreamingReporterBase (currentTestRunInfo b) (lazy_set (mk_GroupInfo name i n))
              (currentTestCaseInfo b) (m_sectionStack b))
  | testCaseStarting t =>
      Done (mk_StreamingReporterBase (currentTestRunInfo b) (currentGroupInfo b) (lazy_set t) (m_sectionStack b))
  | sectionStarting s =>
      Done (mk_StreamingReporterBase (currentTestRunInfo b) (currentGroupInfo b) (currentTestCaseInfo b)
              (m_sectionStack b ++ [s]))
  | sectionEnded_ _ _ _ =>
      match rev (m_sectionStack b) with
      | [] => Undefined
      | _ :: stack =>
          Done (mk_StreamingReporterBase (currentTestRunInfo b) (currentGroupInfo b) (currentTestCaseInfo b)
                  (rev stack))
      end
  | testCaseEnded _ _ _ =>
      Done (mk_StreamingReporterBase (currentTestRunInfo b) (currentGroupInfo b) lazy_reset (m_sectionStack b))
  | testGroupEnded_ _ _ _ _ _ =>
      Done (mk_StreamingReporterBase (currentTestRunInfo b) lazy_reset (currentTestCaseInfo b) (m_sectionStack b))
  | testRunEnded _ _ _ => Done (mk_StreamingReporterBase lazy_reset lazy_reset lazy_reset (m_sectionStack b))
  | assertionStarting _ | assertionEnded_ _ | skipTest _ | noMatchingTestCases _
  | fatalErrorEncountered _ => Done b
  end.

Fixpoint serialize (container : list (list byte)) (first : bool) : list byte :=
  match container with
  | [] => []
  | filter :: container => (if first then [] else [x20]) ++ filter ++ serialize container false
  end.
Definition serializeFilters (container : list (list byte)) : list byte := serialize container true.

(** ** Writing *)
Definition wr (A : Type) : Type := ex XmlWriter A.
Definition w_start (name : list byte) : wr unit := ex_modify (startElement name).
Definition w_attribute (name value : list byte) : wr unit := λ w,
  match writeAttribute name value w with inr w => Done (inr tt, w) | inl e => Done (inl e, w) end.
Definition w_bool (name : list byte) (value : bool) : wr unit := ex_modify (writeAttribute_bool name value).
Definition w_number (name : list byte) (value : nat) : wr unit := w_attribute name (decimal value).
Definition w_count (name : list byte) (value : Z) : wr unit := w_number name (Z.to_nat value).
Definition w_text (text : list byte) (indent : bool) : wr unit := λ w,
  match xml_writeText text indent w with inr w => Done (inr tt, w) | inl e => Done (inl e, w) end.
Definition w_close : wr unit := ex_modify ensureTagClosed.
Definition w_outcome {A} (o : outcome A) : wr A := λ w,
  match o with Done a => Done (inr a, w) | Assert_failed => Assert_failed | Undefined => Undefined end.
Definition w_throwing {A} (m : throwing A) : wr A := λ w, Done (m, w).
Definition w_end : wr unit := λ w,
  match endElement w with
  | Done w => Done (inr tt, w)
  | Assert_failed => Assert_failed
  | Undefined => Undefined
  end.

(** [m_xml.scopedElement( name )] with what is done to it before it is destroyed. *)
Definition w_scoped (name : list byte) (inside : wr unit) : wr unit :=
  _ ← w_start name; _ ← inside; w_end.

Definition writeSourceInfo (sourceInfo : SourceLineInfo) : wr unit :=
  _ ← w_attribute (str "filename") (CatchTest.file sourceInfo);
  w_number (str "line") (CatchTest.line sourceInfo).

Definition w_counts (c : Counts) : wr unit :=
  _ ← w_count (str "successes") (passed c);
  _ ← w_count (str "failures") (failed c);
  w_count (str "expectedFailures") (failedButOk c).

Section reporter.
Context {double : Type} (config : Config double)
  (section_seconds : SectionInfo → list byte) (test_seconds : TestCaseInfo → list byte)
  (stdOut stdErr : TestCaseInfo → list byte).

Definition durations_always : bool :=
  match cd_showDurations (m_data config) with Always => true | _ => false end.

(** [getStylesheetRef] is empty. *)
Definition x_testRunStarting : wr unit :=
  _ ← w_start (str "Catch");
  _ ← (if decide (cfg_name config = []) then mret tt else w_attribute (str "name") (cfg_name config));
  _ ← (if hasFilters (cfg_testSpec config)
       then w_attribute (str "filters") (serializeFilters (cd_testsOrTags (m_data config))) else mret tt);
  if decide (cd_rngSeed (m_data config) ≠ 0)
  then w_scoped (str "Randomness") (w_count (str "seed") (cd_rngSeed (m_data config))) else mret tt.

Definition x_testGroupStarting (name : list byte) : wr unit :=
  _ ← w_start (str "Group"); w_attribute (str "name") name.

Definition x_testCaseStarting (t : TestCaseInfo) : wr unit :=
  _ ← w_start (str "TestCase");
  n ← w_throwing (trim (name t));
  _ ← w_attribute (str "name") n;
  _ ← w_attribute (str "description") (description t);
  _ ← w_attribute (str "tags") (tagsAsString t);
  _ ← writeSourceInfo (lineInfo t);
  w_close.

Definition x_sectionStarting (s : SectionInfo) : wr unit :=
  _ ← w_start (str "Section");
  n ← w_throwing (trim (si_name s));
  _ ← w_attribute (str "name") n;
  _ ← writeSourceInfo (si_lineInfo s);
  w_close.

(** *** Assertions *)
Fixpoint write_messages (includeResults : bool) (ms : list MessageInfo) : wr unit :=
  match ms with
  | [] => mret tt
  | m :: ms =>
      _ ← (if bool_decide (mi_type m = Info) && includeResults
           then w_scoped (str "Info") (w_text (mi_message m) true)
           else if decide (mi_type m = Warning)
           then w_scoped (str "Warning") (w_text (mi_message m) true)
           else mret tt);
      write_messages includeResults ms
  end.

Definition write_expression (r : AssertionResult) : wr unit :=
  _ ← w_start (str "Expression");
  _ ← w_bool (str "success") (succeeded r);
  macro ← w_outcome (to_string (getTestMacroName r));
  _ ← w_attribute (str "type") macro;
  _ ← writeSourceInfo (getSourceInfo r);
  e ← w_outcome (getExpression r);
  _ ← w_scoped (str "Original") (w_text e true);
  x ← w_outcome (getExpandedExpression r);
  w_scoped (str "Expanded") (w_text x true).

Definition write_failure (name : list byte) (r : AssertionResult) : wr unit :=
  _ ← w_start name;
  _ ← writeSourceInfo (getSourceInfo r);
  _ ← w_text (getMessage r) true;
  w_end.

Definition write_result (r : AssertionResult) : wr unit :=
  let t := getResultType r in
  if decide (t = ThrewException) then write_failure (str "Exception") r
  else if decide (t = FatalErrorCondition) then write_failure (str "FatalErrorCondition") r
  else if decide (t = Info) then w_scoped (str "Info") (w_text (getMessage r) true)
  else if decide (t = ExplicitFailure) then write_failure (str "Failure") r
  else mret tt.

Definition x_assertionEnded (stats : AssertionStats) : wr unit :=
  let result := assertionResult stats in
  let includeResults := cd_showSuccessfulTests (m_data config) || negb (result_isOk result) in
  let warning := bool_decide (getResultType result = Warning) in
  _ ← (if includeResults || warning then write_messages includeResults (infoMessages stats) else mret tt);
  if negb includeResults && negb warning then mret tt
  else
    h ← w_outcome (hasExpression result);
    _ ← (if (h : bool) then write_expression result else mret tt);
    _ ← write_result result;
    h ← w_outcome (hasExpression result);
    if (h : bool) then w_end else mret tt.

(** *** Results

    The scoped element is destroyed after the explicit [endElement], which ends it, and so ends
    the element around it. *)
Definition x_sectionEnded (s : SectionInfo) (assertions : Counts) : wr unit :=
  _ ← w_start (str "OverallResults");
  _ ← w_counts assertions;
  _ ← (if durations_always then w_attribute (str "durationInSeconds") (section_seconds s) else mret tt);
  _ ← w_end;
  w_end.

Definition write_output (name : list byte) (out : list byte) : wr unit :=
  if decide (out = []) then mret tt
  else w_scoped name (t ← w_throwing (trim out); w_text t false).

Definition x_testCaseEnded (t : TestCaseInfo) (totals : Totals) : wr unit :=
  _ ← w_start (str "OverallResult");
  _ ← w_bool (str "success") (allOk (assertions totals));
  _ ← (if durations_always then w_attribute (str "durationInSeconds") (test_seconds t) else mret tt);
  _ ← write_output (str "StdOut") (stdOut t);
  _ ← write_output (str "StdErr") (stdErr t);
  _ ← w_end;
  w_end.

Definition x_ended (totals : Totals) : wr unit :=
  _ ← w_scoped (str "OverallResults") (w_counts (assertions totals));
  w_end.

(** ** The reporter *)
Record XmlReporter := mk_XmlReporter {
  m_xml : XmlWriter;
  m_sectionDepth : Z;
  xr_base : StreamingReporterBase
}.
Definition new_XmlReporter (os : list byte) : XmlReporter := mk_XmlReporter (make_XmlWriter os) 0 new_base.

Definition on_xml (m : wr unit) : ex XmlReporter unit := λ r,
  match m (m_xml r) with
  | Done (a, w) => Done (a, mk_XmlReporter w (m_sectionDepth r) (xr_base r))
  | Assert_failed => Assert_failed
  | Undefined => Undefined
  end.
Definition on_base (e : event) : ex XmlReporter unit := λ r,
  match base_handle e (xr_base r) with
  | Done b => Done (inr tt, mk_XmlReporter (m_xml r) (m_sectionDepth r) b)
  | Assert_failed => Assert_failed
  | Undefined => Undefined
  end.
Definition set_depth (d : Z) (r : XmlReporter) : XmlReporter := mk_XmlReporter (m_xml r) d (xr_base r).

Definition handle (e : event) : ex XmlReporter unit :=
  match e with
  | testRunStarting _ => _ ← on_base e; on_xml x_testRunStarting
  | testGroupStarting name _ _ => _ ← on_base e; on_xml (x_testGroupStarting name)
  | testCaseStarting t => _ ← on_base e; on_xml (x_testCaseStarting t)
  | sectionStarting s =>
      _ ← on_base e;
      r ← ex_get;
      _ ← ex_modify (set_depth (i32 (m_sectionDepth r + 1)));
      if decide (m_sectionDepth r > 0) then on_xml (x_sectionStarting s) else mret tt
  | assertionEnded_ stats => on_xml (x_assertionEnded stats)
  | sectionEnded_ s counts _ =>
      _ ← on_base e;
      r ← ex_get;
      let d := i32 (m_sectionDepth r - 1) in
      _ ← ex_modify (set_depth d);
      if decide (d > 0) then on_xml (x_sectionEnded s counts) else mret tt
  | testCaseEnded t totals _ => _ ← on_base e; on_xml (x_testCaseEnded t totals)
  | testGroupEnded_ _ _ _ totals _ => _ ← on_base e; on_xml (x_ended totals)
  | testRunEnded _ totals _ => _ ← on_base e; on_xml (x_ended totals)
  | assertionStarting _ | skipTest _ | noMatchingTestCases _ | fatalErrorEncountered _ => on_base e
  end.
Fixpoint handle_all (es : list event) : ex XmlReporter unit :=
  match es with
  | [] => mret tt
  | e :: es => _ ← handle e; handle_all es
  end.
End reporter.
