(* ===== verification/CatchXmlSteps.v ===== *)
(** * Steps of the XML writer

    What the pieces of a reporter do to the XML writer wherever they start, in terms of the tree
    of nodes they write: shared by the XML reporter and the JUnit reporter. *)
From stdpp Require Import strings list.
From S2P Require Import Prelude CatchString CatchStringProps CatchTest CatchResult CatchTracker.
From S2P Require Import CatchRun CatchText CatchClara CatchConfig CatchXml CatchXmlProps.
From S2P Require Import CatchXmlReporter.

(** ** Steps of the writer

    What a writer at rest becomes: nodes added to what it wrote, and an element [n] opened, its
    start tag closed or not, with the nodes [ns] in it. *)
Abbreviation W := mk_XmlWriter.
Definition attributes : Type := list (list byte * list byte).
Definition at_rest (w : XmlWriter) : Prop := m_needsNewline w = false.

Definition add_nodes (ns : list xml_node) (w : XmlWriter) : XmlWriter :=
  match ns with
  | [] => w
  | _ => W false false (m_tags w) (m_indent w)
           (m_os w ++ pending (m_tagIsOpen w) ++ (ns ≫= render (m_indent w)))
  end.
Definition inside (closed : bool) (n : list byte) (a : attributes) (ns : list xml_node)
    (w : XmlWriter) : XmlWriter :=
  add_nodes ns (W (negb closed) false (m_tags w ++ [n]) (m_indent w ++ str "  ")
    (m_os w ++ pending (m_tagIsOpen w) ++ start_tag (m_indent w) n a ++ pending closed)).

(** What a piece of the reporter does wherever it starts: it writes attributes, opens an element,
    or writes nodes. *)
Definition writes_attributes (m : wr unit) (a : attributes) : Prop := ∀ w,
  m w = Done (inr tt, put_os (attribute_text a) w).
Definition emits (m : wr unit) (ns : list xml_node) : Prop := ∀ w, at_rest w →
  m w = Done (inr tt, add_nodes ns w).

Lemma add_nodes_rest ns w : at_rest w → at_rest (add_nodes ns w).
Proof. by destruct ns. Qed.
Lemma inside_rest closed n a ns w : at_rest (inside closed n a ns w).
Proof. by apply add_nodes_rest. Qed.

Lemma add_nodes_app a b w : add_nodes (a ++ b) w = add_nodes b (add_nodes a w).
Proof.
  destruct a as [|x a]; [done|]. destruct b as [|y b]; [by rewrite app_nil_r|].
  cbn [app add_nodes m_tags m_indent m_os m_tagIsOpen pending]. f_equal.
  rewrite <-!app_assoc. do 2 f_equal. by rewrite <-bind_app.
Qed.

Lemma add_inside closed n a ns b w : add_nodes b (inside closed n a ns w) = inside closed n a (ns ++ b) w.
Proof. unfold inside. by rewrite add_nodes_app. Qed.

Lemma start_ok n w : at_rest w → w_start n w = Done (inr tt, inside false n [] [] w).
Proof.
  destruct w as [o nl tags ind os]. unfold at_rest. cbn. intros ->.
  pose proof (f_equal snd (scopedElement_ok n o tags ind os)) as H.
  unfold scopedElement in H. cbn [snd] in H. unfold w_start, ex_modify. rewrite H.
  unfold inside, start_tag. cbn. by rewrite !app_nil_r.
Qed.

(** *** Attributes *)
Lemma attribute_text_app a b : attribute_text (a ++ b) = attribute_text a ++ attribute_text b.
Proof. unfold attribute_text. by rewrite bind_app. Qed.

Lemma put_os_app a b w : put_os b (put_os a w) = put_os (a ++ b) w.
Proof. unfold put_os. cbn. by rewrite app_assoc. Qed.

Lemma attributes_nil : writes_attributes (mret tt) [].
Proof. intros []. unfold put_os. cbn. by rewrite app_nil_r. Qed.

Lemma attributes_app m1 m2 a b : writes_attributes m1 a → writes_attributes m2 b →
  writes_attributes (_ ← m1; m2) (a ++ b).
Proof.
  intros H1 H2 w. eapply ex_step; [apply H1|]. by rewrite H2, put_os_app, attribute_text_app.
Qed.

Lemma attribute_ok k v : writes_attributes (w_attribute k v) [(k, v)].
Proof.
  intros [o nl tags ind os]. unfold w_attribute.
  pose proof (write_attributes_ok [(k, v)] o nl tags ind os) as H.
  cbn [write_attributes mbind throwing_bind] in H. destruct (writeAttribute k v _) as [e|w]; [done|].
  cbn in H. by injection H as ->.
Qed.

Definition bool_text (v : bool) : list byte := str (if v then "true" else "false").
Lemma bool_ok k v : k ≠ [] → writes_attributes (w_bool k v) [(k, bool_text v)].
Proof.
  intros Hk w. unfold w_bool, ex_modify, writeAttribute_bool, attribute_text.
  cbn [mbind list_bind]. rewrite (bool_decide_eq_true_2 (k ≠ [])), app_nil_r by done. by destruct v.
Qed.

Definition given (c : bool) (a : attributes) : attributes := if c then a else [].
Lemma attributes_given (c : bool) m a : writes_attributes m a →
  writes_attributes (if c then m else mret tt) (given c a).
Proof. intros H. destruct c; [done|apply attributes_nil]. Qed.

Lemma inside_attributes m b n a w : writes_attributes m b →
  m (inside false n a [] w) = Done (inr tt, inside false n (a ++ b) [] w).
Proof.
  intros H. rewrite H. do 2 f_equal. unfold inside, put_os, start_tag.
  cbn [add_nodes negb pending m_os m_tagIsOpen m_needsNewline m_tags m_indent].
  by rewrite attribute_text_app, !app_nil_r, <-!app_assoc.
Qed.

Lemma close_ok n a w : w_close (inside false n a [] w) = Done (inr tt, inside true n a [] w).
Proof.
  unfold w_close, ex_modify, inside, ensureTagClosed, put_os, set_tagIsOpen.
  cbn [add_nodes negb pending m_os m_tagIsOpen m_needsNewline m_tags m_indent].
  by rewrite app_nil_r, <-!app_assoc.
Qed.

(** *** Elements *)
Lemma w_end_ok o nl tags n ind os :
  w_end (W o nl (tags ++ [n]) (ind ++ str "  ") os) =
  Done (inr tt, W false false tags ind
    (os ++ (if nl then [x0a] else []) ++ if o then str "/>" ++ [x0a] else end_tag ind n)).
Proof.
  unfold w_end. pose proof (endElement_ok n o nl tags ind os) as H.
  unfold scoped_delete, new_scoped in H. cbn [m_writer] in H. by rewrite H.
Qed.

(** The end of an element: its tree is written.  A start tag that was closed needs content. *)
Lemma end_ok closed n a ns w : (closed = true → ns ≠ []) →
  w_end (inside closed n a ns w) = Done (inr tt, add_nodes [Tree n a ns] w).
Proof.
  intros Hc. unfold inside. cbn [add_nodes mbind list_bind]. rewrite render_Tree.
  destruct ns as [|x ns]; cbn [add_nodes m_tags m_indent m_os m_tagIsOpen].
  - destruct closed; [by destruct Hc|]. rewrite w_end_ok. cbn [pending negb app].
    by rewrite !app_nil_r, <-!app_assoc.
  - rewrite w_end_ok. do 3 f_equal. rewrite app_nil_r, <-!app_assoc. by destruct closed.
Qed.

Lemma text_ok text b n a w : ∃ o nl os,
  w_text text b (inside false n a [] w) = Done (inr tt, W o nl (m_tags w ++ [n]) (m_indent w ++ str "  ") os) ∧
  os ++ (if nl then [x0a] else []) ++ (if o then str "/>" ++ [x0a] else end_tag (m_indent w) n) =
  m_os w ++ pending (m_tagIsOpen w) ++ render (m_indent w) (Leaf n a b text).
Proof.
  unfold w_text, xml_writeText, inside. cbn [add_nodes negb pending]. rewrite app_nil_r.
  destruct (decide (text = [])) as [->|Ht].
  - eexists true, false, _. split; [done|]. cbn [render app]. by rewrite <-!app_assoc.
  - rewrite encodeTo_encoded. cbn [mbind throwing_bind mret throwing_ret].
    unfold set_needsNewline, put_os, ensureTagClosed, set_tagIsOpen.
    cbn [m_tagIsOpen m_needsNewline m_tags m_indent m_os andb].
    destruct b; (eexists false, true, _; split; [done|]); (destruct text as [|c text]; [done|]);
      unfold put_os; cbn [render m_os m_indent app]; rewrite <-!app_assoc; done.
Qed.

Lemma text_end_ok m text b n a w w0 :
  m w0 = w_text text b (inside false n a [] w) →
  (_ ← m; w_end) w0 = Done (inr tt, add_nodes [Leaf n a b text] w).
Proof.
  destruct (text_ok text b n a w) as (o & nl & os & E & H). intros Hm.
  eapply ex_step; [by rewrite Hm|]. rewrite w_end_ok, H. cbn [add_nodes mbind list_bind].
  by rewrite app_nil_r.
Qed.

(** *** Nodes *)
Lemma emits_nil : emits (mret tt) [].
Proof. by intros w _. Qed.

Lemma emits_app m1 m2 a b : emits m1 a → emits m2 b → emits (_ ← m1; m2) (a ++ b).
Proof.
  intros H1 H2 w Hw. eapply ex_step; [by apply H1|]. rewrite H2 by by apply add_nodes_rest.
  by rewrite add_nodes_app.
Qed.

Lemma emits_given (c : bool) m ns : emits m ns → emits (if c then m else mret tt) (if c then ns else []).
Proof. intros H. destruct c; [done|apply emits_nil]. Qed.

Lemma emits_inside m b closed n a ns w : emits m b →
  m (inside closed n a ns w) = Done (inr tt, inside closed n a (ns ++ b) w).
Proof. intros H. by rewrite H, add_inside by apply inside_rest. Qed.

Lemma emits_element n m a : writes_attributes m a → emits (w_scoped n m) [Tree n a []].
Proof.
  intros Hm w Hw. eapply ex_step; [by apply start_ok|].
  eapply ex_step; [by apply inside_attributes|]. by rewrite end_ok.
Qed.

(** What leaves an element's attributes and nodes in it makes the element. *)
Lemma emits_tree n m a ns : (∀ w, m (inside false n [] [] w) = Done (inr tt, inside false n a ns w)) →
  emits (w_scoped n m) [Tree n a ns].
Proof.
  intros Hm w Hw. eapply ex_step; [by apply start_ok|]. eapply ex_step; [by apply Hm|]. by rewrite end_ok.
Qed.

Lemma emits_leaf n text b : emits (w_scoped n (w_text text b)) [Leaf n [] b text].
Proof. intros w Hw. eapply ex_step; [by apply start_ok|]. by apply text_end_ok. Qed.

(** ** Trimming throws nothing *)
Lemma first_not_of_bound chars s i : find_first_not_of chars s = Some i → (i < length s)%nat.
Proof.
  revert i. induction s as [|c s IH]; intros i H; [done|]. cbn in H |- *.
  case_decide; [|by simplify_eq; lia]. apply fmap_Some in H as (j & Hj & ->).
  apply IH in Hj. lia.
Qed.
Definition trimmed (s : list byte) : list byte := match trim s with inr t => t | inl _ => [] end.
Lemma trim_ok s : trim s = inr (trimmed s).
Proof.
  assert (∃ t, trim s = inr t) as [t E]; [|unfold trimmed; by rewrite E].
  unfold trim. destruct (find_first_not_of _ s) as [i|] eqn:Ei; [|by eexists].
  destruct (find_last_not_of _ s); [|by eexists].
  apply first_not_of_bound in Ei. unfold substr. rewrite decide_True by lia. by eexists.
Qed.
Lemma outcome_ok {A} (o : outcome A) a w : o = Done a → w_outcome o w = Done (inr a, w).
Proof. by intros ->. Qed.
Lemma trimming_ok s w : w_throwing (trim s) w = Done (inr (trimmed s), w).
Proof. unfold w_throwing. by rewrite trim_ok. Qed.
