(* ===== verification/CatchXmlReporterProps.v ===== *)
(** * Properties of the XML reporter

    The events of a whole run, nested as the run context sends them, come out as one document: the
    rendering of the tree of groups, test cases, sections and assertions. *)
From stdpp Require Import strings list.
From S2P Require Import CatchStreams.
From S2P Require Import Prelude CatchString CatchStringProps CatchTest CatchResult CatchTracker.
From S2P Require Import CatchRun CatchText CatchClara CatchConfig CatchXml CatchXmlProps.
From S2P Require Import CatchXmlReporter CatchXmlSteps CatchSections CatchRunProps CatchRunSections.

(** ** The document as it should be *)
Definition source_attributes (sl : SourceLineInfo) : attributes :=
  [(str "filename", CatchTest.file sl); (str "line", decimal (CatchTest.line sl))].
Definition count_attributes (c : Counts) : attributes :=
  [(str "successes", decimal (Z.to_nat (passed c))); (str "failures", decimal (Z.to_nat (failed c)));
   (str "expectedFailures", decimal (Z.to_nat (failedButOk c)))].

Definition message_nodes (includeResults : bool) (ms : list MessageInfo) : list xml_node :=
  ms ≫= λ m,
    if bool_decide (mi_type m = Info) && includeResults then [Leaf (str "Info") [] true (mi_message m)]
    else if decide (mi_type m = Warning) then [Leaf (str "Warning") [] true (mi_message m)]
    else [].

Definition result_nodes (r : AssertionResult) : list xml_node :=
  let failure name := [Leaf (str name) (source_attributes (getSourceInfo r)) true (getMessage r)] in
  let t := getResultType r in
  if decide (t = ThrewException) then failure "Exception"%string
  else if decide (t = FatalErrorCondition) then failure "FatalErrorCondition"%string
  else if decide (t = Info) then [Leaf (str "Info") [] true (getMessage r)]
  else if decide (t = ExplicitFailure) then failure "Failure"%string
  else [].

(** An expression holds the result; undefined if its strings are. *)
Definition result_tree (r : AssertionResult) : outcome (list xml_node) :=
  h ← hasExpression r;
  if (h : bool) then
    macro ← to_string (getTestMacroName r);
    e ← getExpression r;
    x ← getExpandedExpression r;
    Done [Tree (str "Expression")
      ((str "success", bool_text (succeeded r)) :: (str "type", macro) :: source_attributes (getSourceInfo r))
      (Leaf (str "Original") [] true e :: Leaf (str "Expanded") [] true x :: result_nodes r)]
  else Done (result_nodes r).

Section reporter.
Context {double : Type} (config : Config double)
  (section_seconds : SectionInfo → list byte) (test_seconds : TestCaseInfo → list byte)
  (stdOut stdErr : TestCaseInfo → list byte).

Definition assertion_nodes (stats : AssertionStats) : outcome (list xml_node) :=
  let r := assertionResult stats in
  let shown := cd_showSuccessfulTests (m_data config) || negb (result_isOk r) in
  if shown || bool_decide (getResultType r = Warning) then
    ns ← result_tree r; Done (message_nodes shown (infoMessages stats) ++ ns)
  else Done [].

Definition seconds (text : list byte) : attributes :=
  given (durations_always config) [(str "durationInSeconds", text)].

(** The section as it was started, [s], and as it was ended, [s']. *)
Definition section_node (s s' : SectionInfo) (c : Counts) (ns : list xml_node) : xml_node :=
  Tree (str "Section") ((str "name", trimmed (si_name s)) :: source_attributes (si_lineInfo s))
    (ns ++ [Tree (str "OverallResults") (count_attributes c ++ seconds (section_seconds s')) []]).

Definition output_nodes (name out : list byte) : list xml_node :=
  if decide (out = []) then [] else [Leaf name [] false (trimmed out)].
Definition test_case_node (t t' : TestCaseInfo) (totals : Totals) (ns : list xml_node) : xml_node :=
  Tree (str "TestCase")
    ((str "name", trimmed (name t)) :: (str "description", description t) ::
     (str "tags", tagsAsString t) :: source_attributes (lineInfo t))
    (ns ++ [Tree (str "OverallResult")
      ((str "success", bool_text (allOk (assertions totals))) :: seconds (test_seconds t'))
      (output_nodes (str "StdOut") (stdOut t') ++ output_nodes (str "StdErr") (stdErr t'))]).
Definition overall (totals : Totals) : xml_node :=
  Tree (str "OverallResults") (count_attributes (assertions totals)) [].
Definition group_node (name : list byte) (totals : Totals) (ns : list xml_node) : xml_node :=
  Tree (str "Group") [(str "name", name)] (ns ++ [overall totals]).

Definition run_attributes : attributes :=
  given (negb (bool_decide (cfg_name config = []))) [(str "name", cfg_name config)] ++
  given (hasFilters (cfg_testSpec config))
    [(str "filters", serializeFilters (cd_testsOrTags (m_data config)))].
Definition seed_nodes : list xml_node :=
  if decide (cd_rngSeed (m_data config) ≠ 0)
  then [Tree (str "Randomness") [(str "seed", decimal (Z.to_nat (cd_rngSeed (m_data config))))] []]
  else [].
Definition run_node (totals : Totals) (ns : list xml_node) : xml_node :=
  Tree (str "Catch") run_attributes (seed_nodes ++ ns ++ [overall totals]).

(** *** The events of a run

    The events inside a test case, with the nodes they stand for: the outermost section of a
    cycle ([top]) is the test case itself. *)
Inductive test_events : bool → list event → list xml_node → Prop :=
| test_done top : test_events top [] []
| test_ignored top e es ns : ignored e = true → test_events top es ns → test_events top (e :: es) ns
| test_assertion top stats ms es ns : assertion_nodes stats = Done ms → test_events top es ns →
    test_events top (assertionEnded_ stats :: es) (ms ++ ns)
| test_cycle s s' c m inner es ns1 ns2 : test_events false inner ns1 → test_events true es ns2 →
    test_events true (sectionStarting s :: inner ++ sectionEnded_ s' c m :: es) (ns1 ++ ns2)
| test_section s s' c m inner es ns1 ns2 : test_events false inner ns1 → test_events false es ns2 →
    test_events false (sectionStarting s :: inner ++ sectionEnded_ s' c m :: es)
      (section_node s s' c ns1 :: ns2).

Inductive group_events : list event → list xml_node → Prop :=
| group_done : group_events [] []
| group_ignored e es ns : ignored e = true → group_events es ns → group_events (e :: es) ns
| group_test t t' totals ab inner es ns1 ns2 : test_events true inner ns1 → group_events es ns2 →
    group_events (testCaseStarting t :: inner ++ testCaseEnded t' totals ab :: es)
      (test_case_node t t' totals ns1 :: ns2).

Inductive run_events : list event → list xml_node → Prop :=
| run_done : run_events [] []
| run_ignored e es ns : ignored e = true → run_events es ns → run_events (e :: es) ns
| run_group name name' i j n m totals ab inner es ns1 ns2 : group_events inner ns1 → run_events es ns2 →
    run_events (testGroupStarting name i n :: inner ++ testGroupEnded_ name' j m totals ab :: es)
      (group_node name totals ns1 :: ns2).

(** ** The handlers write their nodes *)
Lemma source_ok sl : writes_attributes (writeSourceInfo sl) (source_attributes sl).
Proof. apply (attributes_app _ _ [_] [_]); apply attribute_ok. Qed.
Lemma counts_ok c : writes_attributes (w_counts c) (count_attributes c).
Proof. apply (attributes_app _ _ [_] [_; _]), (attributes_app _ _ [_] [_]); apply attribute_ok. Qed.
Lemma seconds_ok text : writes_attributes
  (if durations_always config then w_attribute (str "durationInSeconds") text else mret tt) (seconds text).
Proof. apply attributes_given, attribute_ok. Qed.

Lemma messages_ok includeResults ms : emits (write_messages includeResults ms) (message_nodes includeResults ms).
Proof.
  induction ms as [|m ms IH]; [apply emits_nil|]. cbn [write_messages message_nodes mbind list_bind].
  apply emits_app; [|exact IH]. destruct (_ && _); [apply emits_leaf|].
  destruct (decide _); [apply emits_leaf|apply emits_nil].
Qed.

Lemma failure_ok name r : emits (write_failure name r)
  [Leaf name (source_attributes (getSourceInfo r)) true (getMessage r)].
Proof.
  intros w Hw. eapply ex_step; [by apply start_ok|].
  eapply ex_step; [by apply inside_attributes, source_ok|]. by apply text_end_ok.
Qed.

Lemma result_ok r : emits (write_result r) (result_nodes r).
Proof.
  unfold write_result, result_nodes. cbv zeta.
  repeat (destruct (decide _); [first [apply failure_ok|apply emits_leaf]|]). apply emits_nil.
Qed.

Lemma expression_ok r macro e x w : at_rest w → to_string (getTestMacroName r) = Done macro →
  getExpression r = Done e → getExpandedExpression r = Done x →
  write_expression r w = Done (inr tt, inside false (str "Expression")
    ((str "success", bool_text (succeeded r)) :: (str "type", macro) :: source_attributes (getSourceInfo r))
    [Leaf (str "Original") [] true e; Leaf (str "Expanded") [] true x] w).
Proof.
  intros Hw Hm He Hx. unfold write_expression.
  eapply ex_step; [by apply start_ok|].
  eapply ex_step; [by apply inside_attributes, bool_ok|].
  eapply ex_step; [by apply outcome_ok|].
  eapply ex_step; [by apply inside_attributes, attribute_ok|].
  eapply ex_step; [by apply inside_attributes, source_ok|].
  eapply ex_step; [by apply outcome_ok|].
  eapply ex_step; [apply emits_inside, emits_leaf|].
  eapply ex_step; [by apply outcome_ok|].
  by rewrite (emits_inside _ _ _ _ _ _ _ (emits_leaf _ _ _)).
Qed.

Lemma result_tree_ok r ns : result_tree r = Done ns →
  emits (h ← w_outcome (hasExpression r);
         _ ← (if (h : bool) then write_expression r else mret tt);
         _ ← write_result r;
         h ← w_outcome (hasExpression r);
         if (h : bool) then w_end else mret tt) ns.
Proof.
  intros H w Hw. unfold result_tree in H. apply bind_Done in H as (h & Hh & H).
  eapply ex_step; [by apply outcome_ok|]. destruct h.
  - apply bind_Done in H as (macro & Hm & H). apply bind_Done in H as (e & He & H).
    apply bind_Done in H as (x & Hx & [= <-]).
    eapply ex_step; [by eapply expression_ok|].
    eapply ex_step; [by apply emits_inside, result_ok|].
    eapply ex_step; [by apply outcome_ok|]. by apply end_ok.
  - injection H as <-. eapply ex_step; [done|].
    eapply ex_step; [by apply result_ok|]. by eapply ex_step; [by apply outcome_ok|].
Qed.

Lemma assertion_ok stats ns : assertion_nodes stats = Done ns → emits (x_assertionEnded config stats) ns.
Proof.
  unfold assertion_nodes, x_assertionEnded. cbv zeta. intros H.
  rewrite <-negb_orb. destruct (_ || _); cbn [negb].
  - apply bind_Done in H as (ms & H & [= <-]). apply emits_app; [apply messages_ok|].
    by apply result_tree_ok.
  - injection H as <-. apply (emits_app _ _ [] []); apply emits_nil.
Qed.

Lemma output_ok name out : emits (write_output name out) (output_nodes name out).
Proof.
  unfold write_output, output_nodes. destruct (decide _); [apply emits_nil|].
  intros w Hw. eapply ex_step; [by apply start_ok|].
  apply text_end_ok. by eapply ex_step; [by apply trimming_ok|].
Qed.
Lemma section_starts s w : at_rest w →
  x_sectionStarting s w = Done (inr tt, inside true (str "Section")
    ((str "name", trimmed (si_name s)) :: source_attributes (si_lineInfo s)) [] w).
Proof.
  intros Hw. eapply ex_step; [by apply start_ok|]. eapply ex_step; [by apply trimming_ok|].
  eapply ex_step; [by apply inside_attributes, attribute_ok|].
  eapply ex_step; [by apply inside_attributes, source_ok|]. apply close_ok.
Qed.

Lemma test_case_starts t w : at_rest w →
  x_testCaseStarting t w = Done (inr tt, inside true (str "TestCase")
    ((str "name", trimmed (name t)) :: (str "description", description t) ::
     (str "tags", tagsAsString t) :: source_attributes (lineInfo t)) [] w).
Proof.
  intros Hw. eapply ex_step; [by apply start_ok|]. eapply ex_step; [by apply trimming_ok|].
  do 3 (eapply ex_step; [by apply inside_attributes, attribute_ok|]).
  eapply ex_step; [by apply inside_attributes, source_ok|]. apply close_ok.
Qed.

Lemma section_ends s' c closed n a ns w :
  x_sectionEnded config section_seconds s' c (inside closed n a ns w) = Done (inr tt, add_nodes
    [Tree n a (ns ++ [Tree (str "OverallResults") (count_attributes c ++ seconds (section_seconds s')) []])] w).
Proof.
  eapply ex_step; [apply start_ok, inside_rest|].
  eapply ex_step; [by apply inside_attributes, counts_ok|].
  eapply ex_step; [by apply inside_attributes, seconds_ok|].
  eapply ex_step; [by apply end_ok|]. rewrite add_inside. apply end_ok. by destruct ns.
Qed.

Lemma test_case_ends t t' totals ns1 w :
  x_testCaseEnded config test_seconds stdOut stdErr t' totals (inside true (str "TestCase")
    ((str "name", trimmed (name t)) :: (str "description", description t) ::
     (str "tags", tagsAsString t) :: source_attributes (lineInfo t)) ns1 w) =
  Done (inr tt, add_nodes [test_case_node t t' totals ns1] w).
Proof.
  eapply ex_step; [apply start_ok, inside_rest|].
  eapply ex_step; [by apply inside_attributes, bool_ok|].
  eapply ex_step; [by apply inside_attributes, seconds_ok|].
  eapply ex_step; [by apply emits_inside, output_ok|].
  eapply ex_step; [by apply emits_inside, output_ok|].
  eapply ex_step; [by apply end_ok|]. rewrite add_inside. apply end_ok. by destruct ns1.
Qed.

Lemma ends_ok totals closed n a ns w :
  x_ended totals (inside closed n a ns w) = Done (inr tt, add_nodes [Tree n a (ns ++ [overall totals])] w).
Proof.
  eapply ex_step; [by apply emits_inside, emits_element, counts_ok|]. apply end_ok. by destruct ns.
Qed.

Lemma group_starts name w : at_rest w →
  x_testGroupStarting name w = Done (inr tt, inside false (str "Group") [(str "name", name)] [] w).
Proof.
  intros Hw. eapply ex_step; [by apply start_ok|].
  by rewrite (inside_attributes _ _ _ _ _ (attribute_ok _ _)).
Qed.

Lemma run_starts w : at_rest w →
  x_testRunStarting config w = Done (inr tt, inside false (str "Catch") run_attributes seed_nodes w).
Proof.
  intros Hw. eapply ex_step; [by apply start_ok|].
  eapply ex_step.
  { apply inside_attributes. instantiate (1 := given (negb (bool_decide (cfg_name config = []))) _).
    destruct (decide _) as [E|E].
    - rewrite bool_decide_eq_true_2 by done. apply attributes_nil.
    - rewrite bool_decide_eq_false_2 by done. apply attribute_ok. }
  eapply ex_step; [apply inside_attributes, attributes_given, attribute_ok|].
  unfold seed_nodes. destruct (decide _); [|done].
  unfold w_count, w_number.
  by rewrite (emits_inside _ _ _ _ _ _ _ (emits_element _ _ _ (attribute_ok _ _))).
Qed.
(** ** Handling events

    What a sequence of events does at section depth [d]: it adds nodes, and leaves the depth and
    the stack of sections as they were. *)
Definition handle_events (es : list event) : ex XmlReporter unit :=
  handle_all config section_seconds test_seconds stdOut stdErr es.
Definition tells (es : list event) (ns : list xml_node) (d : Z) : Prop := ∀ w b, at_rest w →
  ∃ b', m_sectionStack b' = m_sectionStack b ∧
  handle_events es (mk_XmlReporter w d b) = Done (inr tt, mk_XmlReporter (add_nodes ns w) d b').

Lemma handle_app es1 : ∀ es2 r r1, handle_events es1 r = Done (inr tt, r1) →
  handle_events (es1 ++ es2) r = handle_events es2 r1.
Proof.
  induction es1 as [|e es1 IH]; intros es2 r r1 H; [by injection H as ->|].
  apply ex_bind_inv in H as ([] & r2 & He & H). eapply ex_step; [exact He|]. by apply IH.
Qed.

Lemma tells_nil d : tells [] [] d.
Proof. intros w b _. by exists b. Qed.

Lemma tells_app es1 es2 ns1 ns2 d : tells es1 ns1 d → tells es2 ns2 d → tells (es1 ++ es2) (ns1 ++ ns2) d.
Proof.
  intros H1 H2 w b Hw. destruct (H1 w b Hw) as (b1 & E1 & R1).
  destruct (H2 (add_nodes ns1 w) b1) as (b2 & E2 & R2); [by apply add_nodes_rest|].
  exists b2. split; [congruence|]. rewrite (handle_app _ _ _ _ R1), R2. by rewrite add_nodes_app.
Qed.

Lemma tells_ignored e d : ignored e = true → tells [e] [] d.
Proof. intros H w b _. exists b. split; [done|]. by destruct e. Qed.

Lemma tells_assertion stats ns d : assertion_nodes stats = Done ns → tells [assertionEnded_ stats] ns d.
Proof.
  intros H w b Hw. exists b. split; [done|]. eapply ex_step; [|done].
  cbn [handle]. unfold on_xml. cbn [m_xml]. by rewrite (assertion_ok _ _ H w Hw).
Qed.

(** An event that opens something, events inside, and the event that ends it. *)
Lemma bracket x inner y ns w w1 w2 d d1 b b1 :
  handle config section_seconds test_seconds stdOut stdErr x (mk_XmlReporter w d b) =
    Done (inr tt, mk_XmlReporter w1 d1 b1) →
  at_rest w1 → tells inner ns d1 →
  (∀ b2, m_sectionStack b2 = m_sectionStack b1 → ∃ b', m_sectionStack b' = m_sectionStack b ∧
    handle config section_seconds test_seconds stdOut stdErr y (mk_XmlReporter (add_nodes ns w1) d1 b2) =
      Done (inr tt, mk_XmlReporter w2 d b')) →
  ∃ b', m_sectionStack b' = m_sectionStack b ∧
    handle_events (x :: inner ++ [y]) (mk_XmlReporter w d b) = Done (inr tt, mk_XmlReporter w2 d b').
Proof.
  intros Hx Hw1 Hi Hy. destruct (Hi w1 b1 Hw1) as (b2 & E2 & R2).
  destruct (Hy b2 E2) as (b' & E & R). exists b'. split; [exact E|].
  eapply ex_step; [exact Hx|]. change (handle_all _ _ _ _ _ ?es) with (handle_events es).
  rewrite (handle_app _ _ _ _ R2). by eapply ex_step; [exact R|].
Qed.

Lemma on_xml_ok m w w' d b : m w = Done (inr tt, w') →
  on_xml m (mk_XmlReporter w d b) = Done (inr tt, mk_XmlReporter w' d b).
Proof. intros H. unfold on_xml. cbn [m_xml]. by rewrite H. Qed.

Lemma section_tells s s' c m inner ns d : 0 ≤ d < 2 ^ 31 - 1 → tells inner ns (d + 1) →
  tells (sectionStarting s :: inner ++ [sectionEnded_ s' c m])
    (if decide (d = 0) then ns else [section_node s s' c ns]) d.
Proof.
  intros Hd Hi w b Hw.
  assert (i32 (d + 1) = d + 1 ∧ i32 (d + 1 - 1) = d) as [E1 E2].
  { split; [|replace (d + 1 - 1) with d by lia]; apply i32_id; unfold is_i32; lia. }
  eapply (bracket _ _ _ ns w (if decide (d = 0) then w else _)).
  - cbn [handle on_base base_handle]. eapply ex_step; [done|]. eapply ex_step; [done|].
    eapply ex_step; [done|]. unfold set_depth. cbn [m_sectionDepth xr_base m_xml]. rewrite E1.
    destruct (decide (d = 0)) as [->|]; [done|]. rewrite decide_True by lia.
    by apply on_xml_ok, section_starts.
  - destruct (decide (d = 0)); [done|apply inside_rest].
  - exact Hi.
  - intros b2 Hb. cbn [m_sectionStack] in Hb. eexists. split.
    2:{ cbn [handle on_base base_handle]. eapply ex_step.
        { unfold on_base, base_handle. cbn [xr_base]. by rewrite Hb, rev_app_distr. }
        eapply ex_step; [done|]. eapply ex_step; [done|]. unfold set_depth.
        cbn [m_sectionDepth xr_base m_xml]. rewrite E2.
        destruct (decide (d = 0)) as [->|]; [done|]. rewrite decide_True by lia.
        apply on_xml_ok. rewrite add_inside. apply section_ends. }
    cbn. apply rev_involutive.
Qed.

Lemma test_case_tells t t' totals ab inner ns : tells inner ns 0 →
  tells (testCaseStarting t :: inner ++ [testCaseEnded t' totals ab]) [test_case_node t t' totals ns] 0.
Proof.
  intros Hi w b Hw. eapply (bracket _ _ _ ns w).
  - eapply ex_step; [done|]. by apply on_xml_ok, test_case_starts.
  - apply inside_rest.
  - exact Hi.
  - intros b2 Hb. eexists. split; [|eapply ex_step; [done|]; apply on_xml_ok; rewrite add_inside;
      apply test_case_ends]. exact Hb.
Qed.

Lemma group_tells name name' i j n m totals ab inner ns : tells inner ns 0 →
  tells (testGroupStarting name i n :: inner ++ [testGroupEnded_ name' j m totals ab])
    [group_node name totals ns] 0.
Proof.
  intros Hi w b Hw. eapply (bracket _ _ _ ns w).
  - eapply ex_step; [done|]. by apply on_xml_ok, group_starts.
  - apply inside_rest.
  - exact Hi.
  - intros b2 Hb. eexists. split; [|eapply ex_step; [done|]; apply on_xml_ok; rewrite add_inside;
      apply ends_ok]. exact Hb.
Qed.

Lemma run_tells name name' totals ab inner ns : tells inner ns 0 →
  tells (testRunStarting name :: inner ++ [testRunEnded name' totals ab]) [run_node totals ns] 0.
Proof.
  intros Hi w b Hw. eapply (bracket _ _ _ ns w).
  - eapply ex_step; [done|]. by apply on_xml_ok, run_starts.
  - apply inside_rest.
  - exact Hi.
  - intros b2 Hb. eexists. split; [|eapply ex_step; [done|]; apply on_xml_ok; rewrite add_inside;
      unfold run_node; rewrite app_assoc; apply ends_ok]. exact Hb.
Qed.

(** The events between two brackets come first. *)
Lemma tells_bracketed x inner y es ns1 ns2 d : tells (x :: inner ++ [y]) ns1 d → tells es ns2 d →
  tells (x :: inner ++ y :: es) (ns1 ++ ns2) d.
Proof.
  intros H1 H2. replace (x :: inner ++ y :: es) with ((x :: inner ++ [y]) ++ es).
  - by apply tells_app.
  - cbn. by rewrite <-app_assoc.
Qed.
Lemma tells_cons e es ns1 ns2 d : tells [e] ns1 d → tells es ns2 d → tells (e :: es) (ns1 ++ ns2) d.
Proof. apply (tells_app [e]). Qed.

Lemma test_events_tell top es ns : test_events top es ns → ∀ d,
  (if top then d = 0 else 0 < d) → d + Z.of_nat (length es) < 2 ^ 31 → tells es ns d.
Proof.
  induction 1 as [top|top e es ns He _ IH|top stats ms es ns Ha _ IH
    |s s' c m inner es ns1 ns2 _ IHi _ IH|s s' c m inner es ns1 ns2 _ IHi _ IH]; intros d Hd Hl;
    cbn [length] in Hl; rewrite ?length_app in Hl; cbn [length] in Hl.
  - apply tells_nil.
  - apply (tells_cons e es []); [by apply tells_ignored|]. apply IH; [done|lia].
  - apply tells_cons; [by apply tells_assertion|]. apply IH; [done|lia].
  - subst d. apply tells_bracketed; [|apply IH; [done|lia]].
    apply (section_tells s s' c m inner ns1 0); [lia|]. apply IHi; lia.
  - apply (tells_bracketed _ _ _ _ [_]); [|apply IH; [done|lia]].
    pose proof (section_tells s s' c m inner ns1 d) as H. rewrite decide_False in H by lia.
    apply H; [lia|]. apply IHi; lia.
Qed.

Lemma group_events_tell es ns : group_events es ns → Z.of_nat (length es) < 2 ^ 31 → tells es ns 0.
Proof.
  induction 1 as [|e es ns He _ IH|t t' totals ab inner es ns1 ns2 Hi _ IH]; intros Hl;
    cbn [length] in Hl; rewrite ?length_app in Hl; cbn [length] in Hl.
  - apply tells_nil.
  - apply (tells_cons e es []); [by apply tells_ignored|]. apply IH; lia.
  - apply (tells_bracketed _ _ _ _ [_]); [|apply IH; lia].
    apply test_case_tells. eapply test_events_tell; [done|done|lia].
Qed.

Lemma run_events_tell es ns : run_events es ns → Z.of_nat (length es) < 2 ^ 31 → tells es ns 0.
Proof.
  induction 1 as [|e es ns He _ IH|name name' i j n m totals ab inner es ns1 ns2 Hi _ IH]; intros Hl;
    cbn [length] in Hl; rewrite ?length_app in Hl; cbn [length] in Hl.
  - apply tells_nil.
  - apply (tells_cons e es []); [by apply tells_ignored|]. apply IH; lia.
  - apply (tells_bracketed _ _ _ _ [_]); [|apply IH; lia].
    apply group_tells. apply group_events_tell; [done|lia].
Qed.
End reporter.

Lemma xml_document {double} (config : Config double) section_seconds test_seconds stdOut stdErr
    name name' totals ab es ns os :
  run_events config section_seconds test_seconds stdOut stdErr es ns →
  Z.of_nat (length es) < 2 ^ 31 →
  ∃ r, handle_all config section_seconds test_seconds stdOut stdErr
         (testRunStarting name :: es ++ [testRunEnded name' totals ab]) (new_XmlReporter os) =
       Done (inr tt, r) ∧
    m_os (m_xml r) = m_os (make_XmlWriter os) ++ render [] (run_node config totals ns) ∧
    m_tags (m_xml r) = [] ∧ m_sectionDepth r = 0 ∧ m_sectionStack (xr_base r) = [].
Proof.
  intros He Hl.
  destruct (run_tells config section_seconds test_seconds stdOut stdErr name name' totals ab es ns
    (run_events_tell _ _ _ _ _ es ns He Hl) (make_XmlWriter os) new_base) as (b' & Hb & R); [done|].
  eexists. split; [exact R|]. split; [|done]. cbn [m_xml add_nodes m_os]. f_equal.
  cbn [make_XmlWriter writeDeclaration put_os m_tagIsOpen m_indent pending app mbind list_bind].
  by rewrite app_nil_r.
Qed.

(** ** Properties *)

(** C26 (refinement): the events of a run, nested as the run context sends them - groups in the
    run, test cases in groups, in a test case one outermost section per cycle, further sections
    nested in it, assertions in any of them - make the reporter write exactly one document, the
    rendering of their tree: the outermost sections are not shown, every element is closed with
    its totals, the assertions that are shown carry their messages, expression and result; in the
    end no element is open and the section depth is 0 again.  At most [2 ^ 31] events fit in the
    depth, an [int]. *)
Theorem xml_report_of_run {double} (config : Config double) section_seconds test_seconds stdOut stdErr
    name name' totals ab es ns os :
  run_events config section_seconds test_seconds stdOut stdErr es ns →
  Z.of_nat (length es) < 2 ^ 31 →
  ∃ r, handle_all config section_seconds test_seconds stdOut stdErr
         (testRunStarting name :: es ++ [testRunEnded name' totals ab]) (new_XmlReporter os) =
       Done (inr tt, r) ∧
    m_os (m_xml r) = m_os (make_XmlWriter os) ++ render [] (run_node config totals ns) ∧
    m_tags (m_xml r) = [] ∧ m_sectionDepth r = 0 ∧ m_sectionStack (xr_base r) = [].
Proof. apply xml_document. Qed.

(** A refused put in a section, in a test case of one cycle. *)
Definition report_config : Config (list byte) :=
  mk_Config (set_showDurations Always (set_rngSeed 42 (default_config (str "0.95")))) CoutStream false [].
Definition report_info : TestCaseInfo :=
  mk_TestCaseInfo (str " put ") [] [] [str "kv"] [str "kv"] (mk_SourceLineInfo (str "t.cpp") 1) 0.
Definition report_section (n : string) : SectionInfo :=
  mk_SectionInfo (str n) (mk_SourceLineInfo (str "t.cpp") 2).
Definition report_failure : AssertionStats :=
  mk_AssertionStats
    (mk_AssertionResult
       (mk_AssertionInfo (StringRef_string (str "CHECK")) (mk_SourceLineInfo (str "t.cpp") 3)
          (StringRef_string (str "put(k) == 0")) Normal)
       (mk_AssertionResultData [] (str "-1 == 0") (make_lazy false) ExpressionFailed))
    [mk_MessageInfo (StringRef_string (str "INFO")) (str "a<b") (mk_SourceLineInfo (str "t.cpp") 3) Info 1]
    (mk_Totals 0 (mk_Counts 0 1 0) no_counts).
Definition one_failed : Totals := mk_Totals 0 (mk_Counts 0 1 0) (mk_Counts 0 1 0).

Definition report_events : list event :=
  [testGroupStarting (str "all") 1 1; testCaseStarting report_info;
   sectionStarting (report_section "put"); sectionStarting (report_section "full");
   assertionEnded_ report_failure;
   sectionEnded_ (report_section "full") (mk_Counts 0 1 0) false;
   sectionEnded_ (report_section "put") (mk_Counts 0 1 0) false;
   testCaseEnded report_info one_failed false; testGroupEnded_ (str "all") 1 1 one_failed false].

Definition report_nodes : list xml_node :=
  [group_node (str "all") one_failed
    [test_case_node report_config (λ _, str "0.2") (λ _, str " out") (λ _, []) report_info report_info one_failed
      [section_node report_config (λ _, str "0.1") (report_section "full") (report_section "full")
         (mk_Counts 0 1 0)
         [Leaf (str "Info") [] true (str "a<b");
          Tree (str "Expression")
            [(str "success", str "false"); (str "type", str "CHECK"); (str "filename", str "t.cpp");
             (str "line", str "3")]
            [Leaf (str "Original") [] true (str "put(k) == 0");
             Leaf (str "Expanded") [] true (str "-1 == 0")]]]]].

Lemma xml_report_of_run_witness : ∃ r,
  handle_all report_config (λ _, str "0.1") (λ _, str "0.2") (λ _, str " out") (λ _, [])
    (testRunStarting (str "kv") :: report_events ++ [testRunEnded (str "kv") one_failed false])
    (new_XmlReporter []) = Done (inr tt, r) ∧
  m_os (m_xml r) = m_os (make_XmlWriter []) ++ render [] (run_node report_config one_failed report_nodes) ∧
  m_tags (m_xml r) = [] ∧ m_sectionDepth r = 0 ∧ m_sectionStack (xr_base r) = [].
Proof.
  apply (xml_report_of_run report_config (λ _, str "0.1") (λ _, str "0.2") (λ _, str " out") (λ _, [])
    (str "kv") (str "kv") one_failed false report_events report_nodes []).
  - apply (run_group _ _ _ _ _ _ _ _ _ _ _ _ _
      [testCaseStarting report_info; sectionStarting (report_section "put");
       sectionStarting (report_section "full"); assertionEnded_ report_failure;
       sectionEnded_ (report_section "full") (mk_Counts 0 1 0) false;
       sectionEnded_ (report_section "put") (mk_Counts 0 1 0) false;
       testCaseEnded report_info one_failed false]); [|constructor].
    apply (group_test _ _ _ _ _ _ _ _ _
      [sectionStarting (report_section "put"); sectionStarting (report_section "full");
       assertionEnded_ report_failure; sectionEnded_ (report_section "full") (mk_Counts 0 1 0) false;
       sectionEnded_ (report_section "put") (mk_Counts 0 1 0) false]); [|constructor].
    apply (test_cycle _ _ _ _ _ _
      [sectionStarting (report_section "full"); assertionEnded_ report_failure;
       sectionEnded_ (report_section "full") (mk_Counts 0 1 0) false] [] [_] []); [|constructor].
    apply (test_section _ _ _ _ _ _ [assertionEnded_ report_failure] [] [_; _] []); [|constructor].
    apply (test_assertion _ _ _ _ [_; _] [] []); [reflexivity|constructor].
  - cbn. lia.
Defined.

Definition text_lines (l : list (list byte)) : list byte := l ≫= λ s, s ++ [x0a].
Definition qu (s : string) : list byte := [x22] ++ str s ++ [x22].
Example report_section_text : render [] (section_node report_config (λ _, str "0.1") (report_section "full")
    (report_section "full") (mk_Counts 0 1 0) [Leaf (str "Info") [] true (str "a<b")]) =
  text_lines
    [str "<Section name=" ++ qu "full" ++ str " filename=" ++ qu "t.cpp" ++ str " line=" ++ qu "2" ++ str ">";
     str "  <Info>"; str "    a&lt;b"; str "  </Info>";
     str "  <OverallResults successes=" ++ qu "0" ++ str " failures=" ++ qu "1" ++
       str " expectedFailures=" ++ qu "0" ++ str " durationInSeconds=" ++ qu "0.1" ++ str "/>";
     str "</Section>"].
Proof. vm_compute. reflexivity. Qed.
