(* ===== verification/CatchRunGroups.v ===== *)
(** * Catch: the events of a run

    The loop of [runTests] sends the events of a group: test cases, each with its cycles of nested
    events.  What the reporters are proved to make of the events of a run is proved against these
    relations. *)
From stdpp Require Import strings list.
From S2P Require Import Prelude CatchString CatchTest CatchResult CatchTracker CatchRun CatchSections.
From S2P Require Import CatchRunProps CatchRunSections.

(** With the test cases in the order they were run in. *)
Inductive grouped (P : AssertionStats → Prop) : list event → list TestCaseInfo → Prop :=
| grouped_done : grouped P [] []
| grouped_ignored e es ts : ignored e = true → grouped P es ts → grouped P (e :: es) ts
| grouped_test t totals ab inner es ts : cycled P inner → grouped P es ts →
    grouped P (testCaseStarting t :: inner ++ testCaseEnded t totals ab :: es) (t :: ts).

Lemma grouped_app P a b ts us : grouped P a ts → grouped P b us → grouped P (a ++ b) (ts ++ us).
Proof.
  intros Ha Hb. induction Ha as [|e es ts He _ IH|t totals ab inner es ts Hi _ IH]; [done| |].
  - by apply grouped_ignored.
  - cbn. rewrite <-app_assoc. by apply grouped_test.
Qed.

Section loop.
(** What is asked of running a test case: from every state between tests, whatever was reported,
    it ends in such a state, having sent the nested events of a test case. *)
Definition runs_nested (I : RunContext → Prop) (P : AssertionStats → Prop) (run_case : TestCase → run Totals)
    (t : TestCase) : Prop := ∀ r, I r → ∃ totals r' totals' ab es,
  run_case t r = Done (inr totals, r') ∧ I r' ∧ m_config r' = m_config r ∧
  m_reporter r' = m_reporter r ++ testCaseStarting (info t) :: es ++ [testCaseEnded (info t) totals' ab] ∧ cycled P es.

Context (I : RunContext → Prop) (P : AssertionStats → Prop) (run_case : TestCase → run Totals).
Hypothesis I_report : ∀ e r, I r → I (report e r).

Lemma run_cases_nested ts : Forall (runs_nested I P run_case) ts → ∀ totals r, I r →
  ∃ totals' r' es tis, run_cases run_case ts totals r = Done (inr totals', r') ∧
    I r' ∧ m_config r' = m_config r ∧ m_reporter r' = m_reporter r ++ es ∧ grouped P es tis ∧
    sublist tis (info <$> ts).
Proof using I_report.
  induction 1 as [|t ts Ht _ IH]; intros totals r Hr.
  { exists totals, r, [], []. rewrite app_nil_r. split_and!; try done. constructor. }
  cbn [run_cases]. destruct (negb (aborting r) && selected (m_config r) t) eqn:Es.
  - destruct (Ht r Hr) as (d & r1 & d' & ab & es & E & HI & Hc & Hrep & Hn).
    destruct (IH (totals_add totals d) r1 HI) as (totals' & r' & es' & tis & E' & HI' & Hc' & Hrep' & Hg & Hsub).
    eexists totals', r', _, (info t :: tis).
    split_and!; [|exact HI'|by rewrite Hc'| |eapply (grouped_app P _ _ [info t]); [|exact Hg]|by apply sublist_skip].
    + eapply ex_step; [reflexivity|]. cbv beta. rewrite Es.
      eapply ex_step; [eapply ex_step; [exact E|]; reflexivity|]. exact E'.
    + by rewrite Hrep', Hrep, <-app_assoc.
    + apply grouped_test; [exact Hn|constructor].
  - destruct (IH totals (report (skipTest (info t)) r)) as (totals' & r' & es & tis & E & HI & Hc & Hrep & Hg & Hsub);
      [by apply I_report|].
    exists totals', r', (skipTest (info t) :: es), tis.
    split_and!; [|exact HI|exact Hc| |by apply grouped_ignored|by apply sublist_cons].
    + eapply ex_step; [reflexivity|]. cbv beta. rewrite Es.
      eapply ex_step with (a := totals); [reflexivity|]. exact E.
    + rewrite Hrep. cbn. by rewrite <-app_assoc.
Qed.

(** A whole run: its events are those of a run with one group. *)
Lemma run_tests_nested ts r : Forall (runs_nested I P run_case) ts → I r →
  ∃ totals r' es tis, runTests run_case ts r = Done (inr totals, r') ∧ I r' ∧ m_config r' = m_config r ∧
    m_reporter r' = m_reporter r ++ testGroupStarting (config_name (m_config r)) 1 1 :: es ++
      [testGroupEnded_ (config_name (m_config r)) 1 1 totals (aborting r')] ∧ grouped P es tis ∧
    sublist tis (info <$> ts).
Proof using I_report.
  intros Hts Hr. set (name := config_name (m_config r)).
  destruct (run_cases_nested ts Hts no_totals (report (testGroupStarting name 1 1) r))
    as (totals & r1 & es & tis & E & HI & Hc & Hrep & Hg & Hsub); [by apply I_report|].
  set (none := warnAboutNoTests (m_config r) && bool_decide (counts_total (testCases totals) = 0)).
  set (no_match := noMatchingTestCases (join_inputs (getTestsOrTags (m_config r)) true)).
  set (r2 := if none then report no_match r1 else r1).
  set (totals' := if none then mk_Totals (-1) (assertions totals) (testCases totals) else totals).
  exists totals', (report (testGroupEnded_ name 1 1 totals' (aborting r2)) r2),
    (es ++ if none then [no_match] else []), tis. split_and!; [| | | | |exact Hsub].
  - unfold runTests. eapply ex_step; [reflexivity|]. cbv beta zeta.
    eapply ex_step; [reflexivity|]. eapply ex_step; [exact E|]. cbv beta.
    eapply ex_step with (a := totals') (s' := r2).
    { unfold r2, totals'. fold none. by destruct none. }
    eapply ex_step; [reflexivity|]. done.
  - apply I_report. unfold r2. destruct none; [by apply I_report|exact HI].
  - unfold r2. by destruct none.
  - cbn. unfold r2 at 1. destruct none; cbn; rewrite Hrep; cbn; by rewrite <-!app_assoc.
  - rewrite <-(app_nil_r tis). apply grouped_app; [exact Hg|]. destruct none; [apply grouped_ignored; [done|]|]; constructor.
Qed.
End loop.

(** ** Test cases made of sections *)
Definition suits (fuel : nat) (tree : TestCase → section) (t : TestCase) : Prop :=
  sec_name (tree t) = mk_NameAndLocation (name (info t)) (lineInfo (info t)) ∧ distinct (tree t) ∧
  (leaves (tree t) ≤ fuel)%nat ∧ Z.of_nat (leaves (tree t)) < u64_modulus ∧
  expectedToFail (info t) = false.

Section sections.
Context (d fuel : nat) (tree : TestCase → section) (check_info : AssertionInfo)
  (expr : ITransientExpression) (li : SourceLineInfo).
Hypotheses (passing : getResult expr = negb (isFalseTest (resultDisposition check_info))) (deep : (2 ≤ d)%nat).
Let run_case (t : TestCase) : run Totals :=
  runTest d (test_body d (internal_catch_test check_info expr) (tree t)) fuel li (info t).

Lemma sections_nested t : suits fuel tree t → runs_nested between_tests (checks check_info) run_case t.
Proof using passing deep.
  intros (Hn & Hdis & Hf & Hl & Hx) r Hr.
  destruct (runTest_passing d (tree t) (info t) check_info expr fuel li r passing Hn Hdis Hf deep Hl Hx Hr)
    as (r' & es & E & _ & _ & HI & Hc & Hrep & Hes).
  by eexists _, r', _, _, es.
Qed.

(** The same, when nothing has failed so far. *)
Definition unfailed (c : Counts) : Prop := is_u64 (passed c) ∧ failed c = 0 ∧ failedButOk c = 0.
Record all_well (r : RunContext) : Prop := {
  w_between : between_tests r;
  w_assertions : unfailed (assertions (m_totals r));
  w_tests : unfailed (testCases (m_totals r))
}.

Lemma sections_well t : suits fuel tree t → runs_nested all_well (checks check_info) run_case t.
Proof using passing deep.
  intros (Hn & Hdis & Hf & Hl & Hx) r [Hr (Ha1 & Ha2 & Ha3) (Ht1 & Ht2 & Ht3)].
  destruct (runTest_passing d (tree t) (info t) check_info expr fuel li r passing Hn Hdis Hf deep Hl Hx Hr)
    as (r' & es & E & Ha & Ht & HI & Hc & Hrep & Hes).
  eexists _, r', _, _, es. split_and!; [exact E| |exact Hc|exact Hrep|exact Hes].
  split; [exact HI| |]; rewrite ?Ha, ?Ht; unfold unfailed; cbn; rewrite ?Ha2, ?Ha3, ?Ht2, ?Ht3;
    (split; [apply u64_range|done]).
Qed.

Lemma all_well_report e r : all_well r → all_well (report e r).
Proof. intros [[] Ha Ht]. by split. Qed.
Lemma all_well_start rc : warnAboutMissingAssertions rc = false → getSectionsToRun rc = [] →
  aborting (make_run_context rc) = false → all_well (make_run_context rc).
Proof. intros. by repeat split. Qed.
End sections.
