(* ===== verification/CatchRunReport.v ===== *)
(** * Catch: from a run to its report

    The run context and the XML reporter together: the events a run of test cases sends are
    nested, so the reporter makes one document of them. *)
From stdpp Require Import strings list.
From S2P Require Import Prelude CatchString CatchTest CatchResult CatchTracker CatchRun CatchSections.
From S2P Require Import CatchRunProps CatchRunSections CatchRunGroups CatchText CatchClara CatchConfig CatchXml.
From S2P Require Import CatchXmlProps CatchXmlReporter CatchXmlSteps CatchXmlReporterProps.

(** ** Assertions that can be written *)
Lemma string_ref_first s : ∃ c, char_at (StringRef_string s) 0 = Done c.
Proof. by destruct s; eexists. Qed.

Definition literal_info (macro : list byte) (li : SourceLineInfo) (expr : list byte) (disposition : Z)
    : AssertionInfo :=
  mk_AssertionInfo (StringRef_string macro) li (StringRef_string expr) disposition.

Section report.
Context {double : Type} (config : Config double)
  (section_seconds : SectionInfo → list byte) (test_seconds : TestCaseInfo → list byte)
  (stdOut stdErr : TestCaseInfo → list byte).

Definition writable (stats : AssertionStats) : Prop := ∃ ns, assertion_nodes config stats = Done ns.

Lemma literal_writable macro li expr disposition stats :
  checks (literal_info macro li expr disposition) stats → writable stats.
Proof.
  unfold checks, writable, assertion_nodes. intros [Hi _].
  destruct (_ || _); [|by eexists]. unfold result_tree, hasExpression, getTestMacroName, getExpandedExpression,
    getExpression. rewrite Hi. cbn [literal_info macroName capturedExpression resultDisposition].
  destruct (string_ref_first expr) as [c ->]. rewrite !string_ref_to_string.
  cbn [mbind outcome_bind]. destruct (bool_decide _); [|by eexists].
  destruct (decide _); cbn; by eexists.
Qed.

(** Nested events stand for nodes, in a test case or in a section. *)
Lemma nested_test_events P es : (∀ stats, P stats → writable stats) → nested P es → ∀ top, ∃ ns,
  test_events config section_seconds top es ns.
Proof.
  intros HP. induction 1 as [|e es He _ IH|stats es Hs _ IH|s c inner es _ IHi _ IH]; intros top.
  - eexists. constructor.
  - destruct (IH top) as [ns Hns]. exists ns. by apply test_ignored.
  - destruct (IH top) as [ns Hns]. destruct (HP _ Hs) as [ms Hms]. eexists. by eapply test_assertion.
  - destruct (IHi false) as [ns1 H1]. destruct (IH top) as [ns2 H2].
    destruct top; eexists; [by apply test_cycle|by apply test_section].
Qed.

(** ** The group *)
Context (I : RunContext → Prop) (P : AssertionStats → Prop) (run_case : TestCase → run Totals).
Hypotheses (I_report : ∀ e r, I r → I (report e r)) (P_writable : ∀ stats, P stats → writable stats).

Lemma grouped_group es tis : grouped P es tis → ∃ ns,
  group_events config section_seconds test_seconds stdOut stdErr es ns.
Proof using P_writable.
  induction 1 as [|e es tis He _ [ns IH]|t totals ab inner es tis Hi _ [ns IH]].
  - eexists. constructor.
  - exists ns. by apply group_ignored.
  - destruct (nested_test_events P inner P_writable (cycled_nested P inner Hi) true) as [ns' Hns'].
    eexists. by apply group_test.
Qed.

Lemma run_reported ts r c os : Forall (runs_nested I P run_case) ts → I r → m_config r = c →
  m_reporter r = [testRunStarting (config_name c)] → ∃ totals r',
  runTests run_case ts r = Done (inr totals, r') ∧
  (Z.of_nat (length (m_reporter r')) < 2 ^ 31 → ∃ x ns,
   handle_all config section_seconds test_seconds stdOut stdErr (m_reporter (close_run_context r'))
     (new_XmlReporter os) = Done (inr tt, x) ∧
   m_os (m_xml x) = m_os (make_XmlWriter os) ++
     render [] (run_node config (m_totals r') [group_node (config_name c) totals ns]) ∧
   m_tags (m_xml x) = []).
Proof using I_report P_writable.
  intros Hts Hr Hc Hstart. destruct (run_tests_nested I P run_case I_report ts r Hts Hr)
    as (totals & r' & es & tis & E & _ & Hc' & Hrep & Hg & _). destruct (grouped_group es tis Hg) as [ns Hns].
  exists totals, r'. split; [exact E|]. intros Hl.
  rewrite Hc, Hstart in Hrep. set (name := config_name c) in *.
  set (evs := testGroupStarting name 1 1 :: es ++ [testGroupEnded_ name 1 1 totals (aborting r')]) in *.
  assert (run_events config section_seconds test_seconds stdOut stdErr evs [group_node name totals ns]) as Hrun.
  { apply run_group; [exact Hns|constructor]. }
  destruct (xml_document config section_seconds test_seconds stdOut stdErr name name (m_totals r')
    (aborting r') evs [group_node name totals ns] os Hrun) as (x & Hx & Hos & Htags & _).
  { rewrite Hrep in Hl. cbn [length app] in Hl. lia. }
  exists x, ns. split; [|by split]. rewrite <-Hx. f_equal.
  unfold close_run_context. cbn. rewrite Hrep, Hc', Hc. done.
Qed.
End report.

(** C15 (refinement): a run over test cases made of sections, each leaf with a check that passes,
    ends, and what it tells the XML reporter from its start to its end - the configuration may ask
    for all assertions or for failed ones, tests may be left out or none be selected - comes out
    as one document: the run's totals at its end, one group with the group's totals, all elements
    closed. *)
Theorem sections_report {double} (config : Config double) section_seconds test_seconds stdOut stdErr
    d fuel tree macro check_line text disposition expr li ts rc os :
  getResult expr = negb (isFalseTest disposition) → (2 ≤ d)%nat → Forall (suits fuel tree) ts →
  warnAboutMissingAssertions rc = false → getSectionsToRun rc = [] →
  aborting (make_run_context rc) = false →
  ∃ totals r',
    runTests (λ t, runTest d (test_body d (internal_catch_test
        (literal_info macro check_line text disposition) expr) (tree t)) fuel li (info t)) ts
      (make_run_context rc) = Done (inr totals, r') ∧
    (Z.of_nat (length (m_reporter r')) < 2 ^ 31 → ∃ x ns,
     handle_all config section_seconds test_seconds stdOut stdErr (m_reporter (close_run_context r'))
       (new_XmlReporter os) = Done (inr tt, x) ∧
     m_os (m_xml x) = m_os (make_XmlWriter os) ++
       render [] (run_node config (m_totals r') [group_node (config_name rc) totals ns]) ∧
     m_tags (m_xml x) = []).
Proof.
  intros He Hd Hts Hw Hs Ha.
  apply (run_reported config section_seconds test_seconds stdOut stdErr between_tests
    (checks (literal_info macro check_line text disposition))); [| | | |done|done].
  - intros e r []. by split.
  - intros stats. apply literal_writable.
  - revert Hts. apply List.Forall_impl. intros t Ht. by apply sections_nested.
  - by split.
Qed.

Definition report_test : TestCase := mk_TestCase passing_info 0.
Definition report_run_config : run_config :=
  mk_run_config (mk_IConfig InDeclarationOrder true (λ l, l)) (str "tests") (-1) false true false
    true false [] [] [].
Definition report_run : outcome (throwing Totals * RunContext) :=
  runTests (λ t, runTest 2 (test_body 2 (internal_catch_test
      (literal_info (str "CHECK") (mk_SourceLineInfo (str "t.cpp") 9) (str "1 == 1") ContinueOnFailure)
      true_expr) sample_sections) 3 (mk_SourceLineInfo (str "catch.hpp") 1) (info t)) [report_test]
    (make_run_context report_run_config).
Definition report_of (es : list event) : outcome (throwing unit * XmlReporter) :=
  handle_all report_config (λ _, str "0.1") (λ _, str "0.2") (λ _, []) (λ _, []) es (new_XmlReporter []).
Definition sent (o : outcome (throwing Totals * RunContext)) : list event :=
  match o with Done (_, r) => m_reporter r | _ => [] end.

Lemma sections_report_witness : ∃ totals r' x,
  report_run = Done (inr totals, r') ∧
  report_of (m_reporter (close_run_context r')) = Done (inr tt, x) ∧ m_tags (m_xml x) = [].
Proof.
  destruct (sections_report report_config (λ _, str "0.1") (λ _, str "0.2") (λ _, []) (λ _, [])
    2 3 (λ _, sample_sections) (str "CHECK") (mk_SourceLineInfo (str "t.cpp") 9) (str "1 == 1")
    ContinueOnFailure true_expr (mk_SourceLineInfo (str "catch.hpp") 1) [report_test]
    report_run_config []) as (totals & r' & E & H).
  - reflexivity.
  - lia.
  - constructor; [|constructor]. split; [reflexivity|].
    split; [by repeat split; apply (bool_decide_eq_true_1 (NoDup _))|].
    split; [cbn; lia|]. split; [cbn; unfold u64_modulus; lia|reflexivity].
  - reflexivity.
  - reflexivity.
  - reflexivity.
  - destruct H as (x & ns & Hx & _ & Ht).
    { change (m_reporter r') with (sent (Done (inr totals, r') : outcome (throwing Totals * RunContext))).
      rewrite <-E. vm_compute. reflexivity. }
    exists totals, r', x. split; [exact E|]. split; [exact Hx|exact Ht].
Defined.

(** What a test case without sections comes out as, as a whole. *)
Definition short_run : outcome (throwing Totals * RunContext) :=
  runTests (λ t, runTest 2 (test_body 2 (internal_catch_test
      (literal_info (str "CHECK") (mk_SourceLineInfo (str "t.cpp") 9) (str "1 == 1") ContinueOnFailure)
      true_expr) (Sec (mk_NameAndLocation (name passing_info) (lineInfo passing_info)) []))
      1 (mk_SourceLineInfo (str "catch.hpp") 1) (info t)) [report_test]
    (make_run_context report_run_config).
Definition counts_text (p f e : string) : list byte :=
  str "<OverallResults successes=" ++ qu p ++ str " failures=" ++ qu f ++ str " expectedFailures=" ++
  qu e ++ str "/>".
Example reported :
  match short_run with
  | Done (_, r) => match report_of (m_reporter (close_run_context r)) with
                   | Done (_, x) => m_os (m_xml x)
                   | _ => []
                   end
  | _ => []
  end = m_os (make_XmlWriter []) ++ text_lines
    [str "<Catch>"; str "  <Randomness seed=" ++ qu "42" ++ str "/>"; str "  <Group name=" ++ qu "tests" ++ str ">";
     str "    <TestCase name=" ++ qu "PmemBuffer operations" ++ str " tags=" ++ qu "[kv]" ++
       str " filename=" ++ qu "test.cpp" ++ str " line=" ++ qu "1" ++ str ">";
     str "      <OverallResult success=" ++ qu "true" ++ str " durationInSeconds=" ++ qu "0.2" ++ str "/>";
     str "    </TestCase>"; str "    " ++ counts_text "1" "0" "0"; str "  </Group>";
     str "  " ++ counts_text "1" "0" "0"; str "</Catch>"].
Proof. vm_compute. reflexivity. Qed.
