(* ===== verification/CatchGenerators.v ===== *)
(** * Catch: generators (catch_generators, catch_generators_generic, catch_generators_specific)

    The values a test is run with.  A generator class is its two virtual functions over its state;
    a generator that wraps another is a function of that one's.  Wrapped generators of different
    classes have a sum of their states.  Counters of values ([size_t]) are naturals.  The random
    generators, which are the standard library's, are left out. *)
From stdpp Require Import strings list.
From S2P Require Import Prelude CatchString CatchTracker.

Record IGenerator (S T : Type) := mk_IGenerator { get : ex S T; next : ex S bool }.
Arguments mk_IGenerator {S T}.
Arguments get {S T}.
Arguments next {S T}.

(** An operation on a part of a state. *)
Definition zoom {R S A} (part : R → S) (put : S → R → R) (m : ex S A) : ex R A := λ r,
  match m (part r) with
  | Done (a, s) => Done (a, put s r)
  | Assert_failed => Assert_failed
  | Undefined => Undefined
  end.

(** The call through [unique_ptr<IGenerator<T>>]. *)
Definition on_inl {S1 S2 A} (m1 : ex S1 A) (m2 : ex S2 A) : ex (S1 + S2) A := λ s,
  match s with
  | inl s => zoom (λ _, s) (λ s _, inl s) m1 (inl s)
  | inr s => zoom (λ _, s) (λ s _, inr s) m2 (inr s)
  end.
Definition virtual {S1 S2 T} (g1 : IGenerator S1 T) (g2 : IGenerator S2 T) : IGenerator (S1 + S2) T :=
  mk_IGenerator (on_inl (get g1) (get g2)) (on_inl (next g1) (next g2)).

(** ** catch_generators.hpp *)
Definition SingleValueGenerator (T : Type) : IGenerator T T :=
  mk_IGenerator ex_get (mret false).

Record FixedValues (T : Type) := mk_FixedValues { m_values : list T; m_idx : nat }.
Arguments mk_FixedValues {T}.
Arguments m_values {T}.
Arguments m_idx {T}.
Definition FixedValuesGenerator (T : Type) : IGenerator (FixedValues T) T :=
  mk_IGenerator
    (v ← ex_get; ex_deref (m_values v !! m_idx v))
    (_ ← ex_modify (λ v, mk_FixedValues (m_values v) (S (m_idx v)));
     v ← ex_get; mret (bool_decide (m_idx v < length (m_values v))%nat)).
Definition values {T} (l : list T) : FixedValues T := mk_FixedValues l 0.

Section wrapped.
Context {S T : Type} (m_generator : IGenerator S T).

Record Generators := mk_Generators { m_generators : list S; m_current : nat }.
Definition make_generators (gs : list S) : Generators := mk_Generators gs 0.

(** [m_generators[m_current]] and what is called of it. *)
Definition on_current {A} (m : ex S A) : ex Generators A := λ g,
  match m_generators g !! m_current g with
  | Some s =>
      zoom (λ _, s) (λ s g, mk_Generators (<[m_current g := s]> (m_generators g)) (m_current g)) m g
  | None => Undefined
  end.
Definition Generators_next : ex Generators bool :=
  g ← ex_get;
  if decide (length (m_generators g) ≤ m_current g)%nat then mret false
  else
    current_status ← on_current (next m_generator);
    _ ← (if (current_status : bool) then mret tt
         else ex_modify (λ g, mk_Generators (m_generators g) (m_current g + 1)));
    g ← ex_get;
    mret (bool_decide (m_current g < length (m_generators g))%nat).
Definition GeneratorsGenerator : IGenerator Generators T :=
  mk_IGenerator (on_current (get m_generator)) Generators_next.

(** ** catch_generators_generic.hpp *)
Record Take := mk_Take { t_generator : S; t_returned : nat; m_target : nat }.
Definition take_inner {A} : ex S A → ex Take A :=
  zoom t_generator (λ s t, mk_Take s (t_returned t) (m_target t)).
Definition set_returned (n : nat) (t : Take) : Take := mk_Take (t_generator t) n (m_target t).
Definition make_take (target : nat) (s : S) : outcome Take :=
  if decide (target ≠ 0%nat) then Done (mk_Take s 0 target) else Assert_failed.
Definition Take_next : ex Take bool :=
  _ ← ex_modify (λ t, set_returned (t_returned t + 1) t);
  t ← ex_get;
  if decide (m_target t ≤ t_returned t)%nat then mret false
  else
    success ← take_inner (next m_generator);
    _ ← (if (success : bool) then mret tt else ex_modify (λ t, set_returned (m_target t) t));
    mret success.
Definition TakeGenerator : IGenerator Take T := mk_IGenerator (take_inner (get m_generator)) Take_next.

(** The state of a filter is that of the generator.  Fuel: more than the values left. *)
Section filter.
Context (fuel : nat) (m_predicate : T → bool).
Fixpoint skip (fuel : nat) : ex S bool :=
  match fuel with
  | O => ex_undefined
  | Datatypes.S fuel =>
      x ← get m_generator;
      if m_predicate x then mret true
      else
        success ← next m_generator;
        if (success : bool) then skip fuel else mret false
  end.
Definition Filter_next : ex S bool :=
  success ← next m_generator;
  if (success : bool) then skip fuel else mret false.
Definition make_filter : ex S unit :=
  x ← get m_generator;
  if m_predicate x then mret tt
  else
    has_initial_value ← Filter_next;
    if (has_initial_value : bool) then mret tt
    else ex_throw (Generator_exception (str "No valid value found in filtered generator")).
Definition FilterGenerator : IGenerator S T := mk_IGenerator (get m_generator) Filter_next.
End filter.

(** [get] is const, and fills the cache. *)
Record Repeat := mk_Repeat {
  r_generator : S;
  r_returned : list T;
  m_target_repeats : nat;
  m_current_repeat : nat;
  m_repeat_index : nat
}.
Definition repeat_inner {A} : ex S A → ex Repeat A :=
  zoom r_generator (λ s r,
    mk_Repeat s (r_returned r) (m_target_repeats r) (m_current_repeat r) (m_repeat_index r)).
Definition push_returned (x : T) (r : Repeat) : Repeat :=
  mk_Repeat (r_generator r) (r_returned r ++ [x]) (m_target_repeats r) (m_current_repeat r) (m_repeat_index r).
Definition set_position (current index : nat) (r : Repeat) : Repeat :=
  mk_Repeat (r_generator r) (r_returned r) (m_target_repeats r) current index.
Definition make_repeat (repeats : nat) (s : S) : outcome Repeat :=
  if decide (0 < repeats)%nat then Done (mk_Repeat s [] repeats 0 0) else Assert_failed.
Definition Repeat_get : ex Repeat T :=
  r ← ex_get;
  if decide (m_current_repeat r = 0%nat) then
    x ← repeat_inner (get m_generator);
    _ ← ex_modify (push_returned x);
    mret x
  else ex_deref (r_returned r !! m_repeat_index r).
Definition Repeat_next : ex Repeat bool :=
  r ← ex_get;
  if decide (m_current_repeat r = 0%nat) then
    success ← repeat_inner (next m_generator);
    _ ← (if (success : bool) then mret tt
         else ex_modify (λ r, set_position (m_current_repeat r + 1) (m_repeat_index r) r));
    r ← ex_get;
    mret (bool_decide (m_current_repeat r < m_target_repeats r)%nat)
  else
    _ ← ex_modify (λ r, set_position (m_current_repeat r) (m_repeat_index r + 1) r);
    _ ← ex_modify (λ r,
          if decide (m_repeat_index r = length (r_returned r))
          then set_position (m_current_repeat r + 1) 0 r else r);
    r ← ex_get;
    mret (bool_decide (m_current_repeat r < m_target_repeats r)%nat).
Definition RepeatGenerator : IGenerator Repeat T := mk_IGenerator Repeat_get Repeat_next.

Record Map (U : Type) := mk_Map { map_generator : S; m_cache : U }.
Section map.
Context {U : Type} (m_function : T → U).
Definition map_inner {A} : ex S A → ex (Map U) A :=
  zoom (map_generator U) (λ s m, mk_Map U s (m_cache U m)).
(** The constructor calls [get()] of the generator it is given. *)
Definition make_map : ex S U := x ← get m_generator; mret (m_function x).
Definition Map_next : ex (Map U) bool :=
  success ← map_inner (next m_generator);
  _ ← (if (success : bool)
       then x ← map_inner (get m_generator); ex_modify (λ m, mk_Map U (map_generator U m) (m_function x))
       else mret tt);
  mret success.
Definition MapGenerator : IGenerator (Map U) U := mk_IGenerator (m ← ex_get; mret (m_cache U m)) Map_next.
End map.

Record Chunk := mk_Chunk { m_chunk : list T; m_chunk_size : nat; c_generator : S }.
Definition chunk_inner {A} : ex S A → ex Chunk A :=
  zoom c_generator (λ s c, mk_Chunk (m_chunk c) (m_chunk_size c) s).
Definition push_chunk (x : T) (c : Chunk) : Chunk := mk_Chunk (m_chunk c ++ [x]) (m_chunk_size c) (c_generator c).
(** [n] rounds of the loops, until the generator gives out. *)
Fixpoint fill (n : nat) : ex Chunk bool :=
  match n with
  | O => mret true
  | Datatypes.S n =>
      success ← chunk_inner (next m_generator);
      if (success : bool) then
        x ← chunk_inner (get m_generator);
        _ ← ex_modify (push_chunk x);
        fill n
      else mret false
  end.
Definition make_chunk : ex Chunk unit :=
  c ← ex_get;
  x ← chunk_inner (get m_generator);
  _ ← ex_modify (push_chunk x);
  full ← fill (m_chunk_size c - 1);
  if (full : bool) then mret tt
  else ex_throw (Generator_exception (str "Not enough values to initialize the first chunk")).
Definition new_chunk (size : nat) (s : S) : Chunk := mk_Chunk [] size s.
Definition Chunk_next : ex Chunk bool :=
  _ ← ex_modify (λ c, mk_Chunk [] (m_chunk_size c) (c_generator c));
  c ← ex_get;
  fill (m_chunk_size c).
Definition ChunkGenerator : IGenerator Chunk (list T) := mk_IGenerator (c ← ex_get; mret (m_chunk c)) Chunk_next.

(** [generate]: the tracker keeps the generator from cycle to cycle. *)
Definition generate (generatorExpression : outcome (throwing S)) : ex (option S) T := λ tracker,
  match tracker with
  | Some s => zoom (λ _, s) (λ s _, Some s) (get m_generator) (Some s)
  | None =>
      match generatorExpression with
      | Done (inr s) => zoom (λ _, s) (λ s _, Some s) (get m_generator) (Some s)
      | Done (inl e) => Done (inl e, None)
      | Assert_failed => Assert_failed
      | Undefined => Undefined
      end
  end.
End wrapped.

Arguments mk_Map {S U}.
Arguments map_generator {S U}.
Arguments m_cache {S U}.

(** ** catch_generators_specific.hpp

    [wrap] gives a number as the integer type [T] has it. *)
Record Range := mk_Range { g_current : Z; m_end : Z; m_step : Z; m_positive : bool }.
Section range.
Context (wrap : Z → Z).
Definition make_range_step (start end_ step : Z) : outcome Range :=
  let positive := bool_decide (step > 0) in
  if decide (start = end_) then Assert_failed
  else if decide (step = 0) then Assert_failed
  else if (positive && bool_decide (start ≤ end_)) || (negb positive && bool_decide (end_ ≤ start))
  then Done (mk_Range start end_ step positive) else Assert_failed.
Definition make_range (start end_ : Z) : outcome Range :=
  make_range_step start end_ (if decide (start < end_) then wrap 1 else wrap (-1)).
Definition Range_next : ex Range bool :=
  _ ← ex_modify (λ r, mk_Range (wrap (g_current r + m_step r)) (m_end r) (m_step r) (m_positive r));
  r ← ex_get;
  mret (if m_positive r then bool_decide (g_current r < m_end r) else bool_decide (g_current r > m_end r)).
Definition RangeGenerator : IGenerator Range Z := mk_IGenerator (r ← ex_get; mret (g_current r)) Range_next.
End range.
