(* ===== verification/CatchGeneratorsProps.v ===== *)
(** * Properties of Catch's generators

    What a generator promises its user: the values it stands for, one after the other.  Each
    generator over another keeps the promise if the other does; [RepeatGenerator] keeps it only
    for a user that asks once for each value. *)
From stdpp Require Import strings list.
From S2P Require Import Prelude CatchString CatchTracker CatchGenerators.

(** ** The contract

    A generator in state [s] stands for [x] and then [l]: it answers [x] as often as it is asked,
    and moves on while there are values left. *)
Fixpoint enumerates {S T} (g : IGenerator S T) (x : T) (l : list T) (s : S) : Prop :=
  get g s = Done (inr x, s) ∧
  match l with
  | [] => ∃ s', next g s = Done (inr false, s')
  | y :: l => ∃ s', next g s = Done (inr true, s') ∧ enumerates g y l s'
  end.

(** The same for a user that asks exactly once for each value. *)
Fixpoint enumerates_once {S T} (g : IGenerator S T) (x : T) (l : list T) (s : S) : Prop :=
  ∃ s1, get g s = Done (inr x, s1) ∧
  match l with
  | [] => ∃ s', next g s1 = Done (inr false, s')
  | y :: l => ∃ s', next g s1 = Done (inr true, s') ∧ enumerates_once g y l s'
  end.

Lemma enumerates_get {S T} (g : IGenerator S T) x l s : enumerates g x l s → get g s = Done (inr x, s).
Proof. by destruct l; intros [H _]. Qed.
Lemma enumerates_next {S T} (g : IGenerator S T) x l s : enumerates g x l s →
  match l with
  | [] => ∃ s', next g s = Done (inr false, s')
  | y :: l => ∃ s', next g s = Done (inr true, s') ∧ enumerates g y l s'
  end.
Proof. by destruct l; intros [_ H]. Qed.

Lemma enumerates_asked_once {S T} (g : IGenerator S T) l : ∀ x s, enumerates g x l s → enumerates_once g x l s.
Proof.
  induction l as [|y l IH]; intros x s [Hg Hn]; exists s; (split; [exact Hg|]); [exact Hn|].
  destruct Hn as (s' & Hn & H). exists s'. split; [exact Hn|]. by apply IH.
Qed.

(** ** Values *)
Lemma single_enumerates {T} (x : T) : enumerates (SingleValueGenerator T) x [] x.
Proof. split; [done|]. by exists x. Qed.

Lemma values_enumerates_from {T} (l : list T) : ∀ pre x,
  enumerates (FixedValuesGenerator T) x l (mk_FixedValues (pre ++ x :: l) (length pre)).
Proof.
  induction l as [|y l IH]; intros pre x; (split;
    [cbn; eapply ex_step; [done|]; cbn; by rewrite list_lookup_middle|]).
  - eexists. cbn. eapply ex_step; [done|]. eapply ex_step; [done|]. cbn. rewrite length_app. cbn.
    by rewrite bool_decide_eq_false_2 by lia.
  - eexists. split.
    + cbn. eapply ex_step; [done|]. eapply ex_step; [done|]. cbn. rewrite length_app. cbn.
      by rewrite bool_decide_eq_true_2 by lia.
    + specialize (IH (pre ++ [x]) y). rewrite <-app_assoc, length_app, Nat.add_1_r in IH. exact IH.
Qed.
Lemma values_enumerates {T} (x : T) l : enumerates (FixedValuesGenerator T) x l (values (x :: l)).
Proof. apply (values_enumerates_from l [] x). Qed.

(** ** Calls through the base class *)
Lemma virtual_inl {S1 S2 T} (g1 : IGenerator S1 T) (g2 : IGenerator S2 T) l : ∀ x s,
  enumerates g1 x l s → enumerates (virtual g1 g2) x l (inl s).
Proof.
  induction l as [|y l IH]; intros x s [Hg Hn]; (split; [cbn; unfold zoom; by rewrite Hg|]);
    destruct Hn as (s' & Hn); exists (inl s').
  - cbn. unfold zoom. by rewrite Hn.
  - destruct Hn as [Hn H]. split; [cbn; unfold zoom; by rewrite Hn|]. by apply IH.
Qed.
Lemma virtual_inr {S1 S2 T} (g1 : IGenerator S1 T) (g2 : IGenerator S2 T) l : ∀ x s,
  enumerates g2 x l s → enumerates (virtual g1 g2) x l (inr s).
Proof.
  induction l as [|y l IH]; intros x s [Hg Hn]; (split; [cbn; unfold zoom; by rewrite Hg|]);
    destruct Hn as (s' & Hn); exists (inr s').
  - cbn. unfold zoom. by rewrite Hn.
  - destruct Hn as [Hn H]. split; [cbn; unfold zoom; by rewrite Hn|]. by apply IH.
Qed.

Lemma zoom_eq {R S A} (part : R → S) put (m : ex S A) r a s : m (part r) = Done (a, s) →
  zoom part put m r = Done (a, put s r).
Proof. intros E. unfold zoom. by rewrite E. Qed.

(** ** Generators over a generator *)
Section wrapped.
Context {S T : Type} (g : IGenerator S T).

(** One after the other. *)
Definition stands_for (s : S) (part : T * list T) : Prop := enumerates g part.1 part.2 s.
Definition all_values (parts : list (T * list T)) : list T := parts ≫= λ p, p.1 :: p.2.

Lemma current_eq {A} (m : ex S A) before s after a s' : m s = Done (inr a, s') →
  on_current m (mk_Generators (before ++ s :: after) (length before)) =
    Done (inr a, mk_Generators (before ++ s' :: after) (length before)).
Proof.
  intros E. unfold on_current. cbn. rewrite list_lookup_middle by done.
  erewrite zoom_eq by exact E. cbn. by rewrite insert_app_r_alt, Nat.sub_diag by done.
Qed.

Lemma generators_enumerates_from after parts : Forall2 stands_for after parts → ∀ l before x s,
  enumerates g x l s → enumerates (GeneratorsGenerator g) x (l ++ all_values parts)
    (mk_Generators (before ++ s :: after) (length before)).
Proof.
  assert (∀ before (s : S) rest, ¬ (length (before ++ s :: rest) ≤ length before)%nat) as Hin.
  { intros. rewrite length_app. cbn. lia. }
  assert (∀ before (s : S) rest x, get g s = Done (inr x, s) →
    get (GeneratorsGenerator g) (mk_Generators (before ++ s :: rest) (length before)) =
      Done (inr x, mk_Generators (before ++ s :: rest) (length before))) as Hget.
  { intros. by apply current_eq. }
  assert (∀ before (s s' : S) rest b, next g s = Done (inr b, s') →
    next (GeneratorsGenerator g) (mk_Generators (before ++ s :: rest) (length before)) =
      Done (inr (b || negb (bool_decide (rest = []))),
        mk_Generators (before ++ s' :: rest) (if b then length before else length before + 1))) as Hnext.
  { intros before s s' rest b E. cbn. eapply ex_step; [done|]. cbn. rewrite decide_False by apply Hin.
    eapply ex_step; [by apply current_eq|]. cbv beta. destruct b; (eapply ex_step; [done|]).
    - eapply ex_step; [done|]. cbn. rewrite bool_decide_eq_true_2; [done|]. rewrite length_app. cbn. lia.
    - eapply ex_step; [done|]. cbn. rewrite length_app. cbn. do 3 f_equal.
      destruct rest; cbn; [by rewrite bool_decide_eq_false_2 by lia|by rewrite bool_decide_eq_true_2 by lia]. }
  induction 1 as [|s2 [x2 l2] after parts H2 _ IH]; induction l as [|y l IHl]; intros before x s [Hg Hn];
    (split; [by apply Hget|]); destruct Hn as (s' & Hn).
  - eexists. by apply (Hnext before s s' [] false).
  - destruct Hn as [Hn H]. eexists. split; [by apply (Hnext before s s' [] true)|]. by apply IHl.
  - eexists. split; [by apply (Hnext before s s' (s2 :: after) false)|]. cbn.
    specialize (IH l2 (before ++ [s']) x2 s2 H2). by rewrite <-app_assoc, length_app in IH.
  - destruct Hn as [Hn H]. eexists. split; [by apply (Hnext before s s' (s2 :: after) true)|]. by apply IHl.
Qed.

(** The first values. *)
Lemma take_enumerates_from l : ∀ x s returned target, (returned < target)%nat → enumerates g x l s →
  enumerates (TakeGenerator g) x (take (target - returned - 1) l) (mk_Take s returned target).
Proof.
  induction l as [|y l IH]; intros x s returned target Hr [Hg Hn]; destruct Hn as (s' & Hn).
  - rewrite take_nil. split; [exact (zoom_eq t_generator _ _ (mk_Take s returned target) _ _ Hg)|]. cbn.
    destruct (decide (target ≤ returned + 1)%nat) as [Ht|Ht].
    + eexists. eapply ex_step; [done|]. eapply ex_step; [done|]. cbn. by rewrite decide_True by lia.
    + eexists. eapply ex_step; [done|]. eapply ex_step; [done|]. cbn. rewrite decide_False by lia.
      eapply ex_step; [by apply zoom_eq|]. by eapply ex_step.
  - destruct (decide (target ≤ returned + 1)%nat) as [Ht|Ht].
    + replace (target - returned - 1)%nat with 0%nat by lia. cbn [take].
      split; [exact (zoom_eq t_generator _ _ (mk_Take s returned target) _ _ Hg)|]. eexists. cbn.
      eapply ex_step; [done|]. eapply ex_step; [done|]. cbn. by rewrite decide_True by lia.
    + replace (target - returned - 1)%nat with (Datatypes.S (target - (returned + 1) - 1)) by lia.
      cbn [take]. split; [exact (zoom_eq t_generator _ _ (mk_Take s returned target) _ _ Hg)|]. destruct Hn as [Hn H].
      eexists. split; [|apply IH; [|exact H]; lia]. cbn.
      eapply ex_step; [done|]. eapply ex_step; [done|]. cbn. rewrite decide_False by lia.
      eapply ex_step; [by apply zoom_eq|]. by eapply ex_step.
Qed.

(** The values of a function. *)
Lemma map_enumerates {U} (f : T → U) l : ∀ x s, enumerates g x l s →
  enumerates (MapGenerator g f) (f x) (f <$> l) (mk_Map s (f x)).
Proof.
  induction l as [|y l IH]; intros x s [Hg Hn]; (split; [done|]); destruct Hn as (s' & Hn).
  - eexists. cbn. eapply ex_step; [by apply zoom_eq|]. by eapply ex_step.
  - destruct Hn as [Hn H]. eexists. split; [|by apply IH]. cbn. eapply ex_step; [by apply zoom_eq|].
    eapply ex_step; [|done]. eapply ex_step; [apply zoom_eq; exact (enumerates_get _ _ _ _ H)|]. done.
Qed.

(** *** Filters *)
Section filter.
Context (p : T → bool).

Definition length_below (fuel : nat) (l : list T) : Prop := (length l < fuel)%nat.

(** Values that fail the predicate are passed over. *)
Lemma skip_ok l : ∀ x s fuel, enumerates g x l s → length_below fuel l →
  match List.filter p (x :: l) with
  | [] => ∃ s', skip g p fuel s = Done (inr false, s')
  | y :: m => ∃ s' l', skip g p fuel s = Done (inr true, s') ∧ enumerates g y l' s' ∧ p y = true ∧
      m = List.filter p l' ∧ (length l' ≤ length l)%nat
  end.
Proof.
  unfold length_below. induction l as [|z l IH]; intros x s fuel He Hf;
    (destruct fuel as [|fuel]; [cbn in Hf; lia|]); cbn [List.filter skip];
    pose proof (enumerates_get _ _ _ _ He) as Hg; destruct (p x) eqn:Ep.
  - exists s, []. split_and!; try done. by eapply ex_step; [exact Hg|]; cbv beta; rewrite Ep.
  - destruct (enumerates_next _ _ _ _ He) as (s' & Hn). exists s'.
    eapply ex_step; [exact Hg|]. cbv beta. rewrite Ep. by eapply ex_step; [exact Hn|].
  - exists s, (z :: l). split_and!; try done. by eapply ex_step; [exact Hg|]; cbv beta; rewrite Ep.
  - destruct (enumerates_next _ _ _ _ He) as (s1 & Hn & H). cbn in Hf.
    assert (∀ r, skip g p fuel s1 = r →
      (x0 ← get g; if p x0 then mret true else
         (success ← next g; if (success : bool) then skip g p fuel else mret false)) s = r) as Hstep.
    { intros r Hr. eapply ex_step; [exact Hg|]. cbv beta. rewrite Ep.
      by eapply ex_step; [exact Hn|]. }
    specialize (IH z s1 fuel H). cbn [List.filter] in IH.
    destruct (if p z then z :: List.filter p l else List.filter p l) as [|y m].
    + destruct IH as (s' & E); [lia|]. exists s'. by apply Hstep.
    + destruct IH as (s' & l' & E & H1 & H2 & H3 & H4); [lia|]. exists s', l'.
      split_and!; try done; [by apply Hstep|cbn; lia].
Qed.

Lemma filter_enumerates_from fuel n : ∀ l y s, (length l ≤ n)%nat → length_below fuel l →
  p y = true → enumerates g y l s → enumerates (FilterGenerator g fuel p) y (List.filter p l) s.
Proof.
  unfold length_below. induction n as [n IH] using lt_wf_ind. intros l y s Hl Hf Hy He.
  pose proof (enumerates_get _ _ _ _ He) as Hg. pose proof (enumerates_next _ _ _ _ He) as Hn.
  destruct l as [|z l].
  - destruct Hn as (s' & Hn). split; [exact Hg|]. exists s'. by eapply ex_step; [exact Hn|].
  - destruct Hn as (s1 & Hn & H). cbn in Hl, Hf.
    pose proof (skip_ok l z s1 fuel H) as Hs. destruct (List.filter p (z :: l)) as [|w m].
    + destruct Hs as (s' & E); [unfold length_below; lia|]. split; [exact Hg|]. exists s'.
      by eapply ex_step; [exact Hn|].
    + destruct Hs as (s' & l' & E & H1 & H2 & -> & H4); [unfold length_below; lia|].
      split; [exact Hg|]. exists s'. split; [by eapply ex_step; [exact Hn|]|].
      apply (IH (length l')); [lia|lia|lia|done|done].
Qed.

(** The constructor finds the first value, or throws. *)
Lemma make_filter_ok fuel l x s : enumerates g x l s → length_below fuel l →
  match List.filter p (x :: l) with
  | [] => ∃ s', make_filter g fuel p s =
      Done (inl (Generator_exception (str "No valid value found in filtered generator")), s')
  | y :: m => ∃ s', make_filter g fuel p s = Done (inr tt, s') ∧ enumerates (FilterGenerator g fuel p) y m s'
  end.
Proof.
  intros He Hf. pose proof (enumerates_get _ _ _ _ He) as Hg. unfold make_filter.
  cbn [List.filter]. destruct (p x) eqn:Ep.
  - exists s. split; [by eapply ex_step; [exact Hg|]; cbv beta; rewrite Ep|].
    by apply (filter_enumerates_from fuel (length l)).
  - pose proof (enumerates_next _ _ _ _ He) as Hn. destruct l as [|z l].
    + destruct Hn as (s' & Hn). exists s'. eapply ex_step; [exact Hg|]. cbv beta. rewrite Ep.
      eapply ex_step; [by eapply ex_step; [exact Hn|]|]. done.
    + destruct Hn as (s1 & Hn & H). unfold length_below in Hf. cbn in Hf.
      pose proof (skip_ok l z s1 fuel H) as Hs. destruct (List.filter p (z :: l)) as [|w m].
      * destruct Hs as (s' & E); [unfold length_below; lia|]. exists s'.
        eapply ex_step; [exact Hg|]. cbv beta. rewrite Ep.
        eapply ex_step; [by eapply ex_step; [exact Hn|]|]. done.
      * destruct Hs as (s' & l' & E & H1 & H2 & -> & H4); [unfold length_below; lia|]. exists s'.
        split; [|by apply (filter_enumerates_from fuel (length l')); [|unfold length_below; lia| |]].
        eapply ex_step; [exact Hg|]. cbv beta. rewrite Ep.
        eapply ex_step; [by eapply ex_step; [exact Hn|]|]. done.
Qed.
End filter.

(** *** Chunks *)

(** Groups of [n]; what is left over is dropped. *)
Fixpoint groups (fuel n : nat) (l : list T) : list (list T) :=
  match fuel with
  | O => []
  | Datatypes.S fuel => if decide (n ≤ length l)%nat then take n l :: groups fuel n (drop n l) else []
  end.

Lemma fill_ok k : ∀ x l s c size, enumerates g x l s →
  if decide (k ≤ length l)%nat
  then ∃ s' y, fill g k (mk_Chunk c size s) = Done (inr true, mk_Chunk (c ++ take k l) size s') ∧
         enumerates g y (drop k l) s'
  else ∃ r, fill g k (mk_Chunk c size s) = Done (inr false, r).
Proof.
  induction k as [|k IH]; intros x l s c size He.
  - rewrite decide_True by lia. exists s, x. cbn. by rewrite app_nil_r.
  - pose proof (enumerates_next _ _ _ _ He) as Hn. destruct l as [|y l].
    + destruct Hn as (s' & Hn). rewrite decide_False by (cbn; lia). eexists. cbn [fill].
      eapply ex_step; [exact (zoom_eq c_generator _ _ (mk_Chunk c size s) _ _ Hn)|]. done.
    + destruct Hn as (s1 & Hn & H). specialize (IH y l s1 (c ++ [y]) size H).
      assert (∀ r, fill g k (mk_Chunk (c ++ [y]) size s1) = r →
        fill g (Datatypes.S k) (mk_Chunk c size s) = r) as Hstep.
      { intros r Hr. cbn [fill].
        eapply ex_step; [exact (zoom_eq c_generator _ _ (mk_Chunk c size s) _ _ Hn)|]. cbv beta iota.
        eapply ex_step; [exact (zoom_eq c_generator _ _ (mk_Chunk c size s1) _ _ (enumerates_get _ _ _ _ H))|].
        by eapply ex_step. }
      cbn [length take drop]. destruct (decide (k ≤ length l)%nat) as [Hk|Hk].
      * rewrite decide_True by lia. destruct IH as (s' & w & E & H'). exists s', w.
        split; [|exact H']. rewrite (Hstep _ E), <-app_assoc. done.
      * rewrite decide_False by lia. destruct IH as (r & E). exists r. by apply Hstep.
Qed.

Lemma chunk_enumerates_from size fuel : (0 < size)%nat → ∀ c x l s, (length l < fuel)%nat →
  enumerates g x l s → enumerates (ChunkGenerator g) c (groups fuel size l) (mk_Chunk c size s).
Proof.
  intros Hsize. induction fuel as [|fuel IH]; intros c x l s Hl He; [lia|]. cbn [groups].
  pose proof (fill_ok size x l s [] size He) as Hf.
  destruct (decide (size ≤ length l)%nat) as [Hk|Hk].
  - destruct Hf as (s' & y & E & H). split; [done|]. eexists. split.
    + eapply ex_step; [done|]. eapply ex_step; [done|]. exact E.
    + apply (IH _ y); [|exact H]. rewrite length_drop. lia.
  - destruct Hf as (r & E). split; [done|]. exists r. eapply ex_step; [done|].
    eapply ex_step; [done|]. exact E.
Qed.

(** The constructor takes the first group, or throws. *)
Lemma make_chunk_ok size x l s : (0 < size)%nat → enumerates g x l s →
  if decide (size ≤ Datatypes.S (length l))%nat
  then ∃ c, make_chunk g (new_chunk size s) = Done (inr tt, c) ∧
    enumerates (ChunkGenerator g) (take size (x :: l))
      (groups (Datatypes.S (length l)) size (drop size (x :: l))) c
  else ∃ c, make_chunk g (new_chunk size s) =
    Done (inl (Generator_exception (str "Not enough values to initialize the first chunk")), c).
Proof.
  intros Hsize He. destruct size as [|size]; [lia|].
  pose proof (fill_ok size x l s [x] (Datatypes.S size) He) as Hf.
  assert (∀ b c, fill g size (mk_Chunk [x] (Datatypes.S size) s) = Done (inr b, c) →
    make_chunk g (new_chunk (Datatypes.S size) s) =
      (if b then mret tt else
         ex_throw (Generator_exception (str "Not enough values to initialize the first chunk"))) c) as Hstep.
  { intros b c E. eapply ex_step; [done|].
    eapply ex_step; [exact (zoom_eq c_generator _ _ (new_chunk (Datatypes.S size) s) _ _ (enumerates_get _ _ _ _ He))|].
    eapply ex_step; [done|]. eapply ex_step; [|done]. cbn. rewrite Nat.sub_0_r. exact E. }
  destruct (decide (size ≤ length l)%nat) as [Hk|Hk].
  - rewrite decide_True by lia. destruct Hf as (s' & y & E & H). eexists.
    split; [by rewrite (Hstep _ _ E)|]. apply (chunk_enumerates_from _ _ Hsize _ y); [|exact H].
    rewrite length_drop. cbn. lia.
  - rewrite decide_False by lia. destruct Hf as (r & E). exists r. by rewrite (Hstep _ _ E).
Qed.

(** *** Repeats *)
Fixpoint times (n : nat) (l : list T) : list T :=
  match n with O => [] | Datatypes.S n => l ++ times n l end.

Lemma cache_enumerates all n current l : ∀ x pre s, all = pre ++ x :: l → (0 < current < n)%nat →
  (∀ s, (current + 1 < n)%nat → ∀ x l, all = x :: l →
     enumerates_once (RepeatGenerator g) x (l ++ times (n - current - 2) all) (mk_Repeat s all n (current + 1) 0)) →
  enumerates_once (RepeatGenerator g) x (l ++ times (n - current - 1) all)
    (mk_Repeat s all n current (length pre)).
Proof.
  induction l as [|y l IH]; intros x pre s Hall Hc Hnext.
  - set (r := mk_Repeat s all n current (length pre)).
    assert (get (RepeatGenerator g) r = Done (inr x, r)) as Hget.
    { eapply ex_step; [done|]. cbn. rewrite decide_False by lia. by rewrite Hall, list_lookup_middle. }
    assert (length all = Datatypes.S (length pre)) as Hlen by (rewrite Hall, length_app; cbn; lia).
    assert (next (RepeatGenerator g) r =
      Done (inr (bool_decide (current + 1 < n)%nat), mk_Repeat s all n (current + 1) 0)) as Hn.
    { eapply ex_step; [done|]. cbn. rewrite decide_False by lia. eapply ex_step; [done|].
      eapply ex_step; [done|]. cbn. rewrite Nat.add_1_r, <-Hlen, decide_True by done.
      eapply ex_step; [done|]. cbn. by rewrite Nat.add_1_r. }
    cbn [app]. destruct (decide (current + 1 < n)%nat) as [H1|H1].
    + replace (n - current - 1)%nat with (Datatypes.S (n - current - 2)) by lia. cbn [times].
      destruct all as [|z rest] eqn:Ea; [by destruct pre|]. exists r. split; [exact Hget|]. cbn [app].
      exists (mk_Repeat s (z :: rest) n (current + 1) 0). rewrite bool_decide_eq_true_2 in Hn by done.
      split; [exact Hn|]. by apply Hnext.
    + replace (n - current - 1)%nat with 0%nat by lia. cbn [times]. exists r. split; [exact Hget|].
      rewrite bool_decide_eq_false_2 in Hn by done. eexists. exact Hn.
  - exists (mk_Repeat s all n current (length pre)). split.
    { eapply ex_step; [done|]. cbn. rewrite decide_False by lia. by rewrite Hall, list_lookup_middle. }
    cbn [app]. exists (mk_Repeat s all n current (length (pre ++ [x]))). split.
    + eapply ex_step; [done|]. cbn. rewrite decide_False by lia. eapply ex_step; [done|].
      eapply ex_step; [done|]. cbn. rewrite decide_False by (rewrite Hall, length_app; cbn; lia).
      eapply ex_step; [done|]. cbn. rewrite bool_decide_eq_true_2 by lia. by rewrite length_app.
    + apply IH; [by rewrite <-app_assoc|done|done].
Qed.

Lemma cache_enumerates_all all n k : ∀ current s x l, (n - current = k)%nat → (0 < current < n)%nat →
  all = x :: l →
  enumerates_once (RepeatGenerator g) x (l ++ times (n - current - 1) all) (mk_Repeat s all n current 0).
Proof.
  induction k as [|k IH]; intros current s x l Hk Hc Hall; [lia|].
  apply (cache_enumerates all n current l x [] s Hall Hc). intros s' Hn z m Hm.
  replace (n - current - 2)%nat with (n - (current + 1) - 1)%nat by lia. apply IH; [lia|lia|done].
Qed.

Lemma repeat_enumerates_from n l : (0 < n)%nat → ∀ x s returned, enumerates g x l s →
  enumerates_once (RepeatGenerator g) x (l ++ times (n - 1) (returned ++ x :: l)) (mk_Repeat s returned n 0 0).
Proof.
  intros Hn. induction l as [|y l IH]; intros x s returned He;
    pose proof (enumerates_get _ _ _ _ He) as Hg; pose proof (enumerates_next _ _ _ _ He) as Hx;
    (assert (get (RepeatGenerator g) (mk_Repeat s returned n 0 0) =
       Done (inr x, mk_Repeat s (returned ++ [x]) n 0 0)) as Hget;
     [eapply ex_step; [done|]; eapply ex_step; [exact (zoom_eq r_generator _ _ (mk_Repeat s returned n 0 0) _ _ Hg)|];
      by eapply ex_step; [done|]|]).
  - destruct Hx as (s' & Hx). set (all := returned ++ [x]) in *.
    assert (next (RepeatGenerator g) (mk_Repeat s all n 0 0) =
      Done (inr (bool_decide (1 < n)%nat), mk_Repeat s' all n 1 0)) as Hnext.
    { eapply ex_step; [done|]. eapply ex_step; [exact (zoom_eq r_generator _ _ (mk_Repeat s all n 0 0) _ _ Hx)|].
      eapply ex_step; [done|]. by eapply ex_step. }
    cbn [app]. destruct (decide (1 < n)%nat) as [H1|H1].
    + destruct n as [|[|n]]; [lia|lia|]. cbn [Nat.sub times].
      destruct all as [|z rest] eqn:Ea; [by destruct returned|]. cbn [app].
      rewrite bool_decide_eq_true_2 in Hnext by done.
      eexists. split; [exact Hget|]. eexists. split; [exact Hnext|].
      pose proof (cache_enumerates_all (z :: rest) (Datatypes.S (Datatypes.S n)) (Datatypes.S n) 1 s' z rest) as H.
      replace (Datatypes.S (Datatypes.S n) - 1 - 1)%nat with n in H by lia. apply H; [done|lia|done].
    + assert (n = 1%nat) as -> by lia. cbn [times Nat.sub]. rewrite bool_decide_eq_false_2 in Hnext by done.
      eexists. split; [exact Hget|]. eexists. exact Hnext.
  - destruct Hx as (s' & Hx & H). cbn [app]. eexists. split; [exact Hget|]. exists (mk_Repeat s' (returned ++ [x]) n 0 0). split.
    + eapply ex_step; [done|].
      eapply ex_step; [exact (zoom_eq r_generator _ _ (mk_Repeat s (returned ++ [x]) n 0 0) _ _ Hx)|].
      eapply ex_step; [done|]. eapply ex_step; [done|]. cbn. by rewrite bool_decide_eq_true_2 by lia.
    + specialize (IH y s' (returned ++ [x]) H). by rewrite <-app_assoc in IH.
Qed.
End wrapped.

(** ** Ranges *)

(** [n] numbers after [start]. *)
Fixpoint progression (n : nat) (start step : Z) : list Z :=
  match n with O => [] | S n => (start + step) :: progression n (start + step) step end.

Section range.
Context (wrap : Z → Z) (lo hi : Z) (wrap_id : ∀ z, lo ≤ z < hi → wrap z = z).

Lemma range_up n : ∀ current end_ step, 0 < step → lo ≤ current → end_ + step ≤ hi →
  current + Z.of_nat n * step < end_ ≤ current + Z.of_nat (S n) * step →
  enumerates (RangeGenerator wrap) current (progression n current step) (mk_Range current end_ step true).
Proof using wrap_id.
  induction n as [|n IH]; intros current end_ step Hs Hl Hh He; (split; [done|]);
    exists (mk_Range (current + step) end_ step true).
  - eapply ex_step; [done|]. eapply ex_step; [done|]. cbn. rewrite wrap_id by lia.
    by rewrite bool_decide_eq_false_2 by lia.
  - split; [|apply IH; lia]. eapply ex_step; [done|]. eapply ex_step; [done|]. cbn.
    rewrite wrap_id by lia. by rewrite bool_decide_eq_true_2 by lia.
Qed.

Lemma range_down n : ∀ current end_ step, step < 0 → current < hi → lo ≤ end_ + step →
  current + Z.of_nat (S n) * step ≤ end_ < current + Z.of_nat n * step →
  enumerates (RangeGenerator wrap) current (progression n current step) (mk_Range current end_ step false).
Proof using wrap_id.
  induction n as [|n IH]; intros current end_ step Hs Hl Hh He; (split; [done|]);
    exists (mk_Range (current + step) end_ step false).
  - eapply ex_step; [done|]. eapply ex_step; [done|]. cbn. rewrite wrap_id by lia.
    by rewrite bool_decide_eq_false_2 by lia.
  - split; [|apply IH; lia]. eapply ex_step; [done|]. eapply ex_step; [done|]. cbn.
    rewrite wrap_id by lia. by rewrite bool_decide_eq_true_2 by lia.
Qed.
End range.

(** ** A test and its generator

    The values of a test that reaches [GENERATE] once in each cycle; between cycles the tracker
    moves its generator on. *)
Section test.
Context {S T : Type} (g : IGenerator S T) (generatorExpression : outcome (throwing S)).

Definition move_on : ex (option S) bool := λ tracker,
  match tracker with
  | Some s => zoom (λ _, s) (λ s _, Some s) (next g) tracker
  | None => Undefined
  end.
Fixpoint test_values (fuel : nat) : ex (option S) (list T) :=
  match fuel with
  | O => ex_undefined
  | Datatypes.S fuel =>
      x ← generate g generatorExpression;
      more ← move_on;
      if (more : bool) then xs ← test_values fuel; mret (x :: xs) else mret [x]
  end.

Lemma test_values_kept fuel : ∀ l x s, (length l < fuel)%nat → enumerates_once g x l s →
  ∃ s', test_values fuel (Some s) = Done (inr (x :: l), Some s').
Proof.
  induction fuel as [|fuel IH]; intros l x s Hf He; [lia|]. destruct l as [|y l];
    destruct He as (s1 & Hg & He).
  - destruct He as (s' & Hn). exists s'.
    eapply ex_step; [exact (zoom_eq (λ _, s) (λ s _, Some s) _ (Some s) _ _ Hg)|].
    eapply ex_step; [exact (zoom_eq (λ _, s1) (λ s _, Some s) _ (Some s1) _ _ Hn)|]. done.
  - destruct He as (s2 & Hn & He). cbn in Hf. destruct (IH l y s2) as (s' & E); [lia|done|]. exists s'.
    eapply ex_step; [exact (zoom_eq (λ _, s) (λ s _, Some s) _ (Some s) _ _ Hg)|].
    eapply ex_step; [exact (zoom_eq (λ _, s1) (λ s _, Some s) _ (Some s1) _ _ Hn)|]. cbv beta iota.
    by eapply ex_step; [exact E|].
Qed.

(** The expression is evaluated in the first cycle only. *)
Lemma test_values_ok fuel l x s : generatorExpression = Done (inr s) → (length l < fuel)%nat →
  enumerates_once g x l s → ∃ s', test_values fuel None = Done (inr (x :: l), Some s').
Proof.
  intros He Hf H. destruct (test_values_kept fuel l x s Hf H) as (s' & E). exists s'. rewrite <-E.
  destruct fuel as [|fuel]; [lia|]. cbn [test_values mbind ex_bind].
  change (generate g generatorExpression None) with
    (match generatorExpression with
     | Done (inr s) => generate g generatorExpression (Some s)
     | Done (inl e) => Done (inl e, None)
     | Assert_failed => Assert_failed
     | Undefined => Undefined
     end). by rewrite He.
Qed.
End test.

(** ** Properties *)

(** C25 (refinement): a generator that stands for the values [x], [l] can be wrapped: [take] stands
    for the first ones, [map] for their images, [filter] for those that pass (and its constructor
    throws if there are none), [chunk] for the full groups in order (and throws if there is none;
    a rest is dropped), several generators for the values of one after the other - all again as
    generators that can be asked any number of times - and [repeat] for the values over and over,
    if it is asked exactly once for each. *)
Theorem generators_compose {S T} (g : IGenerator S T) x l s : enumerates g x l s →
  (∀ n, (0 < n)%nat → ∃ t, make_take n s = Done t ∧ enumerates (TakeGenerator g) x (take (n - 1) l) t) ∧
  (∀ U (f : T → U), make_map g f s = Done (inr (f x), s) ∧
     enumerates (MapGenerator g f) (f x) (f <$> l) (mk_Map s (f x))) ∧
  (∀ fuel p, (length l < fuel)%nat →
     match List.filter p (x :: l) with
     | [] => ∃ s', make_filter g fuel p s =
         Done (inl (Generator_exception (str "No valid value found in filtered generator")), s')
     | y :: m => ∃ s', make_filter g fuel p s = Done (inr tt, s') ∧
         enumerates (FilterGenerator g fuel p) y m s'
     end) ∧
  (∀ n, (0 < n)%nat → ∃ c,
     if decide (n ≤ length (x :: l))%nat
     then make_chunk g (new_chunk n s) = Done (inr tt, c) ∧
       enumerates (ChunkGenerator g) (take n (x :: l)) (groups (length (x :: l)) n (drop n (x :: l))) c
     else make_chunk g (new_chunk n s) =
       Done (inl (Generator_exception (str "Not enough values to initialize the first chunk")), c)) ∧
  (∀ ss parts, Forall2 (stands_for g) ss parts →
     enumerates (GeneratorsGenerator g) x (l ++ all_values parts) (make_generators (s :: ss))) ∧
  (∀ n, (0 < n)%nat → ∃ r, make_repeat n s = Done r ∧
     enumerates_once (RepeatGenerator g) x (l ++ times (n - 1) (x :: l)) r).
Proof.
  intros He. split_and!.
  - intros n Hn. unfold make_take. rewrite decide_True by lia. eexists. split; [done|].
    pose proof (take_enumerates_from g l x s 0 n Hn He) as H. by rewrite Nat.sub_0_r in H.
  - intros U f. split; [|by apply map_enumerates].
    by eapply ex_step; [exact (enumerates_get _ _ _ _ He)|].
  - intros fuel p Hf. by apply make_filter_ok.
  - intros n Hn. pose proof (make_chunk_ok g n x l s Hn He) as H. cbn [length].
    by destruct (decide _).
  - intros ss parts H. by apply (generators_enumerates_from g ss parts H l []).
  - intros n Hn. unfold make_repeat. rewrite decide_True by done. eexists. split; [done|].
    by apply (repeat_enumerates_from g n l Hn x s []).
Qed.

Lemma generators_compose_witness :
  (∃ t, make_take 3 (values [7; 8; 9; 10]) = Done t ∧
     enumerates (TakeGenerator (FixedValuesGenerator Z)) 7 [8; 9] t) ∧
  ∃ c, make_chunk (FixedValuesGenerator Z) (new_chunk 3 (values [7; 8; 9; 10])) = Done (inr tt, c) ∧
     enumerates (ChunkGenerator (FixedValuesGenerator Z)) [7; 8; 9] [] c.
Proof.
  destruct (generators_compose (FixedValuesGenerator Z) 7 [8; 9; 10] (values [7; 8; 9; 10])
    (values_enumerates 7 [8; 9; 10])) as (Ht & _ & _ & Hc & _).
  split.
  - apply (Ht 3%nat). lia.
  - destruct (Hc 3%nat) as (c & H); [lia|]. exists c. exact H.
Defined.

(** Property (bounds): a test over a range of [int]s is run once for each number from the start on, in
    steps, that lies before the end - provided the first number not before the end is still an
    [int]; then no addition overflows. *)
Theorem range_counts start end_ step n fuel :
  start ≠ end_ → step ≠ 0 → -2147483648 ≤ start < 2147483648 →
  (if decide (0 < step)
   then end_ + step ≤ 2147483648 ∧ start + Z.of_nat n * step < end_ ≤ start + Z.of_nat (S n) * step
   else -2147483648 ≤ end_ + step ∧ start + Z.of_nat (S n) * step ≤ end_ < start + Z.of_nat n * step) →
  (n < fuel)%nat →
  ∃ r s', make_range_step start end_ step = Done r ∧
    test_values (RangeGenerator i32) (Done (inr r)) fuel None =
      Done (inr (start :: progression n start step), Some s').
Proof.
  intros Hse Hs Hi Hr Hf. unfold make_range_step. rewrite !decide_False by done.
  assert (∀ n start, length (progression n start step) = n) as Hlen.
  { clear. induction n as [|n IH]; intros start; [done|]. cbn. by rewrite IH. }
  assert (∀ z, -2147483648 ≤ z < 2147483648 → i32 z = z) as Hid by (intros; apply i32_id; exact H).
  revert Hr. destruct (decide (0 < step)) as [Hp|Hp]; intros [Hw Hr].
  - rewrite (bool_decide_eq_true_2 (step > 0)), (bool_decide_eq_true_2 (start ≤ end_)) by nia.
    eexists _.
    destruct (test_values_ok (RangeGenerator i32) (Done (inr (mk_Range start end_ step true))) fuel
      (progression n start step) start (mk_Range start end_ step true) eq_refl) as (s' & E).
    { by rewrite Hlen. }
    { apply enumerates_asked_once, (range_up i32 _ _ Hid); [lia|lia|lia|exact Hr]. }
    exists s'. split; [done|exact E].
  - rewrite (bool_decide_eq_false_2 (step > 0)), (bool_decide_eq_true_2 (end_ ≤ start)) by nia.
    eexists _.
    destruct (test_values_ok (RangeGenerator i32) (Done (inr (mk_Range start end_ step false))) fuel
      (progression n start step) start (mk_Range start end_ step false) eq_refl) as (s' & E).
    { by rewrite Hlen. }
    { apply enumerates_asked_once, (range_down i32 _ _ Hid); [lia|lia|lia|exact Hr]. }
    exists s'. split; [done|exact E].
Qed.

Lemma range_counts_witness : ∃ r s', make_range_step 10 (-1) (-4) = Done r ∧
  test_values (RangeGenerator i32) (Done (inr r)) 3 None = Done (inr [10; 6; 2], Some s').
Proof. apply (range_counts 10 (-1) (-4) 2 3); [lia|lia|lia|rewrite decide_False by lia; cbn; lia|lia]. Defined.

(** Past the last [int] a range does not stop. *)
Lemma range_wraps : make_range_step 2147483645 2147483647 3 = Done (mk_Range 2147483645 2147483647 3 true) ∧
  next (RangeGenerator i32) (mk_Range 2147483645 2147483647 3 true) =
    Done (inr true, mk_Range (-2147483648) 2147483647 3 true).
Proof. by split. Qed.

(** A value asked for twice, here by the filter and by the test, is repeated twice. *)
Definition filtered_values (n : nat) (l : list Z) : option (list Z) :=
  let g := RepeatGenerator (FixedValuesGenerator Z) in
  match make_filter g 9 (λ _, true) (mk_Repeat (values l) [] n 0 0) with
  | Done (inr _, s) =>
      match test_values (FilterGenerator g 9 (λ _, true)) (Done (inr s)) 9 None with
      | Done (inr l, _) => Some l
      | _ => None
      end
  | _ => None
  end.
Lemma repeat_under_filter : filtered_values 2 [1] = Some [1; 1; 1].
Proof. vm_compute. reflexivity. Qed.

(** Chunks of nothing never end. *)
Lemma chunks_of_nothing {S T} (g : IGenerator S T) c s :
  next (ChunkGenerator g) (mk_Chunk c 0 s) = Done (inr true, mk_Chunk [] 0 s).
Proof. done. Qed.
