(* ===== verification/CatchToString.v ===== *)
(** * Catch: values as text (catch_tostring, catch_enum_values_registry)

    How the values of an assertion are printed.  A [char] is a byte; the text [std::fixed] gives
    for a floating-point number is a parameter.  Wide characters, pairs and tuples, durations and
    user-defined types are left out. *)
From stdpp Require Import strings list.
From S2P Require Import Prelude CatchString CatchText CatchClara.

Definition unprintableString : list byte := str "{?}".
Definition hexThreshold : Z := 255.

(** [operator<<] of a number that is not negative, in [base]: 64 digits hold 64 bits. *)
Definition digit_char (n : Z) : byte := z2b (if decide (n < 10) then 48 + n else 87 + n).
Fixpoint digits (fuel : nat) (base v : Z) (acc : list byte) : list byte :=
  match fuel with
  | O => acc
  | S fuel =>
      let acc := digit_char (v mod base) :: acc in
      if decide (v < base) then acc else digits fuel base (v / base) acc
  end.
Definition number (base v : Z) (rest : list byte) : list byte := digits 64 base v rest.
Definition signed_number (v : Z) (rest : list byte) : list byte :=
  if decide (v < 0) then [x2d] ++ number 10 (- v) rest else number 10 v rest.

(** The object representation, the last byte first: the host is little-endian. *)
Definition byte_text (b : byte) : list byte := [digit_char (b2z b / 16); digit_char (b2z b mod 16)].
Definition rawMemoryToString (object : list byte) : list byte :=
  str "0x" ++ (rev object ≫= byte_text).

(** The zeros at the end of the text [d] of a floating-point number. *)
Definition fpToString (nan : bool) (d : list byte) : throwing (list byte) :=
  if nan then mret (str "nan")
  else
    match find_last_not_of [x30] d with
    | Some i =>
        if decide (i ≠ length d - 1)%nat then
          let i := if decide (d !! i = Some x2e) then (i + 1)%nat else i in
          substr d 0 (Some (i + 1)%nat)
        else mret d
    | None => mret d
    end.

(** ** StringMaker *)
Definition quoted (s : list byte) : list byte := [x22] ++ s ++ [x22].
Definition visible (c : byte) : list byte :=
  if decide (c = x0a) then str "\n" else if decide (c = x09) then str "\t" else [c].
Definition convert_string (showInvisibles : bool) (s : list byte) : list byte :=
  quoted (if showInvisibles then s ≫= visible else s).
Definition convert_chars (showInvisibles : bool) (s : option (list byte)) : outcome (list byte) :=
  match s with
  | Some s => n ← strlen s; Done (convert_string showInvisibles (take n s))
  | None => Done (str "{null string}")
  end.

Definition convert_long_long (value : Z) : list byte :=
  signed_number value
    (if decide (hexThreshold < value) then str " (0x" ++ number 16 value (str ")") else []).
Definition convert_unsigned_long_long (value : Z) : list byte :=
  number 10 value (if decide (hexThreshold < value) then str " (0x" ++ number 16 value (str ")") else []).
Definition convert_int (value : Z) : list byte := convert_long_long value.
Definition convert_unsigned_int (value : Z) : list byte := convert_unsigned_long_long value.
Definition convert_bool (b : bool) : list byte := str (if b then "true" else "false").

Definition signed_char (c : byte) : Z := if decide (b2z c < 128) then b2z c else b2z c - 256.
Definition convert_signed_char (value : byte) : list byte :=
  if decide (value = x0d) then str "'\r'"
  else if decide (value = x0c) then str "'\f'"
  else if decide (value = x0a) then str "'\n'"
  else if decide (value = x09) then str "'\t'"
  else if decide (0 ≤ signed_char value < 32) then convert_unsigned_int (signed_char value)
  else [x27; value; x27].
Definition convert_nullptr : list byte := str "nullptr".

Fixpoint join_range (range : list (list byte)) : list byte :=
  match range with
  | [] => []
  | s :: range => str ", " ++ s ++ join_range range
  end.
(** The elements as they are stringified. *)
Definition rangeToString (range : list (list byte)) : list byte :=
  str "{ " ++ match range with [] => [] | s :: range => s ++ join_range range end ++ str " }".

(** ** Enumerations *)
Record EnumInfo := mk_EnumInfo { ei_name : StringRef; ei_values : list (Z * list byte) }.

(** [identifiers.back()] of no identifiers is undefined. *)
Fixpoint parse_values (enumValues : list StringRef) : outcome (throwing (list (list byte))) :=
  match enumValues with
  | [] => Done (mret [])
  | enumValue :: enumValues =>
      identifiers ← splitStringRef enumValue x3a;
      back ← or_undefined (head (rev identifiers));
      s ← to_string back;
      match trim s with
      | inl e => Done (inl e)
      | inr t => rest ← parse_values enumValues; Done (match rest with inl e => inl e | inr l => inr (t :: l) end)
      end
  end.
Definition parseEnums (enums : StringRef) : outcome (throwing (list (list byte))) :=
  enumValues ← splitStringRef enums x2c; parse_values enumValues.

Fixpoint lookup_value (m_values : list (Z * list byte)) (value : Z) : list byte :=
  match m_values with
  | [] => str "{** unexpected enum value **}"
  | (v, s) :: m_values => if decide (v = value) then s else lookup_value m_values value
  end.
Definition lookup_enum (e : EnumInfo) (value : Z) : list byte := lookup_value (ei_values e) value.

Definition makeEnumInfo (enumName allValueNames : StringRef) (values : list Z)
    : outcome (throwing EnumInfo) :=
  names ← parseEnums allValueNames;
  match names with
  | inl e => Done (inl e)
  | inr valueNames =>
      if decide (length valueNames = length values)
      then Done (inr (mk_EnumInfo enumName (zip values valueNames))) else Assert_failed
  end.
Definition registerEnum (enumName allValueNames : StringRef) (values : list Z) (m_enumInfos : list EnumInfo)
    : outcome (throwing (EnumInfo * list EnumInfo)) :=
  info ← makeEnumInfo enumName allValueNames values;
  match info with
  | inl e => Done (inl e)
  | inr e => Done (inr (e, m_enumInfos ++ [e]))
  end.

(** * Numbers read back, memory shows the number it holds, and an enumeration's values show their names *)

(** ** Digits *)
Lemma digit_char_value n : 0 ≤ n < 16 →
  b2z (digit_char n) = if decide (n < 10) then 48 + n else 87 + n.
Proof. intros Hn. unfold digit_char. rewrite b2z_z2b. case_decide; apply Z.mod_small; lia. Qed.

Lemma digits_S fuel base v acc : digits (S fuel) base v acc =
  if decide (v < base) then digit_char (v mod base) :: acc
  else digits fuel base (v / base) (digit_char (v mod base) :: acc).
Proof. done. Qed.

(** What hexadecimal digits say. *)
Definition hex_value (c : byte) : Z := if decide (b2z c < 58) then b2z c - 48 else b2z c - 87.
Definition read_hex (v : Z) (s : list byte) : Z := foldl (λ v c, 16 * v + hex_value c) v s.

Lemma hex_value_digit n : 0 ≤ n < 16 → hex_value (digit_char n) = n.
Proof. intros Hn. unfold hex_value. rewrite digit_char_value by done. repeat case_decide; lia. Qed.

Lemma read_digit n : 0 ≤ n < 10 → digit_value (digit_char n) = Some n.
Proof.
  intros Hn. unfold digit_value. rewrite digit_char_value, (decide_True (P := n < 10)) by lia.
  rewrite decide_True by lia. f_equal. lia.
Qed.

Lemma small_quotient fuel base v : 1 < base → 0 ≤ v < base ^ Z.of_nat (S fuel) →
  0 ≤ v / base < base ^ Z.of_nat fuel.
Proof.
  intros Hb Hv. rewrite Nat2Z.inj_succ, Z.pow_succ_r in Hv by lia.
  split; [apply Z.div_pos; lia|]. apply Z.div_lt_upper_bound; lia.
Qed.

Lemma read_digits_number fuel : ∀ v rest, 0 ≤ v < 10 ^ Z.of_nat (S fuel) →
  read_digits (digits (S fuel) 10 v rest) None = read_digits rest (Some v).
Proof.
  induction fuel as [|fuel IH]; intros v rest Hv; rewrite digits_S.
  - change (10 ^ Z.of_nat 1) with 10 in Hv. rewrite decide_True by lia. cbn [read_digits].
    rewrite Z.mod_small, read_digit by lia. f_equal.
  - pose proof (Z.mod_pos_bound v 10). destruct (decide (v < 10)) as [Hs|Hs].
    + cbn [read_digits]. rewrite Z.mod_small, read_digit by lia. f_equal.
    + rewrite IH by (apply small_quotient; lia). cbn [read_digits]. rewrite read_digit by lia.
      cbn [default]. unfold id. f_equal. f_equal. pose proof (Z.div_mod v 10 ltac:(lia)). lia.
Qed.

Lemma read_hex_number fuel : ∀ v rest, 0 ≤ v < 16 ^ Z.of_nat fuel →
  read_hex 0 (digits fuel 16 v rest) = read_hex v rest.
Proof.
  induction fuel as [|fuel IH]; intros v rest Hv; [|rewrite digits_S].
  - cbn in Hv. by replace v with 0 by lia.
  - pose proof (Z.mod_pos_bound v 16). destruct (decide (v < 16)) as [Hs|Hs].
    + unfold read_hex. cbn [foldl]. rewrite Z.mod_small, hex_value_digit by lia. f_equal.
    + rewrite IH by (apply small_quotient; lia). unfold read_hex. cbn [foldl].
      rewrite hex_value_digit by lia. f_equal. pose proof (Z.div_mod v 16 ltac:(lia)). lia.
Qed.

(** A number starts with a digit. *)
Lemma digits_first fuel base : ∀ v rest, 1 < base ≤ 10 → ∃ c l,
  digits (S fuel) base v rest = c :: l ∧ 48 ≤ b2z c < 58.
Proof.
  assert (∀ v, 1 < base ≤ 10 → 48 ≤ b2z (digit_char (v mod base)) < 58) as Hd.
  { intros v Hb. pose proof (Z.mod_pos_bound v base). rewrite digit_char_value by lia.
    rewrite decide_True by lia. lia. }
  induction fuel as [|fuel IH]; intros v rest Hb; rewrite digits_S.
  - destruct (decide _); eexists _, _; (split; [done|by apply Hd]).
  - destruct (decide _); [eexists _, _; split; [done|by apply Hd]|]. by apply IH.
Qed.

Lemma skip_no_blanks c l : 32 < b2z c → skip_blanks (c :: l) = c :: l.
Proof.
  intros Hc. cbn. unfold isspace. rewrite bool_decide_eq_false_2; [done|].
  intros [->|H]; [cbn in Hc|]; lia.
Qed.

(** ** Properties *)

(** Property (roundtrip): the text of an [int] - with the hexadecimal form after it, if it is above
    255 - reads back, with the stream that reads option values, as that number. *)
Theorem int_text_reads_back v target : -2147483648 ≤ v < 2147483648 →
  convertInto_int (convert_int v) target = (Result_ok Matched, v).
Proof.
  intros Hv. unfold convert_int, convert_long_long. set (rest := if decide _ then _ else _).
  assert (∀ w, read_digits rest (Some w) = Some w) as Hrest by (intros w; unfold rest; by case_decide).
  clearbody rest. unfold signed_number, number.
  assert (∀ w, 0 ≤ w ≤ 2147483648 → read_digits (digits 64 10 w rest) None = Some w) as Hread.
  { intros w Hw. rewrite (read_digits_number 63), Hrest; [done|].
    split; [lia|]. apply (Z.le_lt_trans _ 2147483648); [lia|]. by vm_compute. }
  unfold convertInto_int. destruct (decide (v < 0)) as [Hs|Hs].
  - cbn [app]. rewrite skip_no_blanks by (cbn; lia). cbn [read_sign]. rewrite decide_True by done.
    rewrite Hread, Z.opp_involutive by lia. by rewrite !decide_False by lia.
  - pose proof (Hread v) as Hr. destruct (digits_first 63 10 v rest) as (c & l & E & Hc); [lia|].
    rewrite E in *. rewrite skip_no_blanks by lia.
    assert (read_sign (c :: l) = (false, c :: l)) as ->.
    { cbn. rewrite !decide_False; [done| |]; intros ->; cbn in Hc; lia. }
    rewrite Hr by lia. by rewrite !decide_False by lia.
Qed.

(** Property (roundtrip): the text of an object of unknown type, after its prefix, is in hexadecimal
    the number that its bytes hold. *)
Theorem raw_memory_reads_back object : ∃ text,
  rawMemoryToString object = str "0x" ++ text ∧ read_hex 0 text = le_decode object.
Proof.
  eexists. split; [done|]. assert (∀ l v, read_hex v (rev l ≫= byte_text) =
    v * 256 ^ Z.of_nat (length l) + le_decode l) as H; [|by rewrite H].
  induction l as [|b l IH]; intros v; [cbn; lia|]. cbn [rev le_decode length].
  rewrite bind_app. unfold read_hex. rewrite foldl_app. fold (read_hex v (rev l ≫= byte_text)). rewrite IH.
  pose proof (b2z_range b). pose proof (Z.mod_pos_bound (b2z b) 16).
  assert (0 ≤ b2z b / 16 < 16) by (split; [apply Z.div_pos; lia|apply Z.div_lt_upper_bound; lia]).
  cbn [mbind list_bind byte_text app foldl]. rewrite !hex_value_digit by lia.
  rewrite Nat2Z.inj_succ, Z.pow_succ_r by lia. pose proof (Z.div_mod (b2z b) 16 ltac:(lia)). lia.
Qed.

(** A registered value shows its name, any other value is reported as such. *)
Lemma lookup_zip values names i v n : NoDup values → length names = length values →
  values !! i = Some v → names !! i = Some n → lookup_value (zip values names) v = n.
Proof.
  revert names i. induction values as [|w values IH]; intros [|m names] i Hd Hl Hv Hn; try done.
  apply list.NoDup_cons in Hd as [Hw Hd]. cbn [zip zip_with lookup_value]. destruct i as [|i].
  - cbn in Hv, Hn. simplify_eq. by rewrite decide_True.
  - cbn in Hv, Hn. rewrite decide_False; [by eapply IH; [|cbn in Hl; lia| |]|].
    intros ->. apply Hw. by apply list_elem_of_lookup_2 in Hv.
Qed.

Example enum_shown :
  match makeEnumInfo (StringRef_string (str "Mode")) (StringRef_string (str "Mode::Read, Mode::Write")) [1; 2] with
  | Done (inr e) => Some (lookup_enum e 2, lookup_enum e 3)
  | _ => None
  end = Some (str "Write", str "{** unexpected enum value **}").
Proof. vm_compute. reflexivity. Qed.

(** A first name of one character is dropped, and the assertion on their number fails. *)
Lemma short_enum_asserts :
  makeEnumInfo (StringRef_string (str "E")) (StringRef_string (str "A, B")) [1; 2] = Assert_failed.
Proof. vm_compute. reflexivity. Qed.

(** Escapes are not escaped: two strings show the same. *)
Lemma visible_ambiguous : convert_string true [x0a] = convert_string true (str "\n").
Proof. by vm_compute. Qed.
