(* ===== verification/CatchCompact.v ===== *)
(** * Catch: the compact reporter (catch_reporter_compact)

    One line per assertion that is shown and one for the totals.  The colours, which the console
    is told apart from the stream, are left out; durations, which no event carries, are a
    parameter. *)
From stdpp Require Import strings list.
From S2P Require Import Prelude CatchString CatchTest CatchResult CatchTracker CatchRun.
From S2P Require Import CatchText CatchClara CatchConfig CatchXml CatchXmlReporter.

Definition compact_getDescription : list byte :=
  str "Reports test results on a single line, suitable for IDEs".

Definition failedString : list byte := str "failed".
Definition passedString : list byte := str "passed".

Definition bothOrAll (count : Z) : list byte :=
  if decide (count = 1) then [] else if decide (count = 2) then str "both " else str "all ".

Definition plural (count : Z) (label : string) : list byte :=
  print_pluralise (mk_pluralise (Z.to_nat count) (str label)).

(** ** Totals *)
Definition printTotals (totals : Totals) : list byte :=
  let t := testCases totals in
  let a := assertions totals in
  if decide (counts_total t = 0) then str "No tests ran."
  else if decide (failed t = counts_total t) then
    let qualify_assertions_failed :=
      if decide (failed a = counts_total a) then bothOrAll (failed a) else [] in
    str "Failed " ++ bothOrAll (failed t) ++ plural (failed t) "test case" ++ str ", " ++
    str "failed " ++ qualify_assertions_failed ++ plural (failed a) "assertion" ++ str "."
  else if decide (counts_total a = 0) then
    str "Passed " ++ bothOrAll (counts_total t) ++ plural (counts_total t) "test case" ++
    str " (no assertions)."
  else if decide (failed a ≠ 0) then
    str "Failed " ++ plural (failed t) "test case" ++ str ", " ++
    str "failed " ++ plural (failed a) "assertion" ++ str "."
  else
    str "Passed " ++ bothOrAll (passed t) ++ plural (passed t) "test case" ++
    str " with " ++ plural (passed a) "assertion" ++ str ".".

(** ** AssertionPrinter

    [itMessage] is the list of messages from the iterator on. *)
Record AssertionPrinter := mk_AssertionPrinter {
  ap_stream : list byte;
  ap_result : AssertionResult;
  ap_messages : list MessageInfo;
  itMessage : list MessageInfo;
  printInfoMessages : bool
}.
Definition make_printer (stream : list byte) (stats : AssertionStats) (printInfo : bool)
    : AssertionPrinter :=
  mk_AssertionPrinter stream (assertionResult stats) (infoMessages stats) (infoMessages stats) printInfo.

Definition put (out : list byte) (p : AssertionPrinter) : AssertionPrinter :=
  mk_AssertionPrinter (ap_stream p ++ out) (ap_result p) (ap_messages p) (itMessage p) (printInfoMessages p).
Definition set_itMessage (it : list MessageInfo) (p : AssertionPrinter) : AssertionPrinter :=
  mk_AssertionPrinter (ap_stream p) (ap_result p) (ap_messages p) it (printInfoMessages p).

(** A message in quotes. *)
Definition quoted (m : MessageInfo) : list byte := str " '" ++ mi_message m ++ str "'".

Definition printSourceInfo (p : AssertionPrinter) : AssertionPrinter :=
  put (print_sli (getSourceInfo (ap_result p)) ++ str ":") p.
Definition printResultType (passOrFail : list byte) (p : AssertionPrinter) : AssertionPrinter :=
  if decide (passOrFail = []) then p else put (str " " ++ passOrFail ++ str ":") p.
Definition printIssue (issue : string) (p : AssertionPrinter) : AssertionPrinter :=
  put (str " " ++ str issue) p.

Definition printOriginalExpression (p : AssertionPrinter) : outcome AssertionPrinter :=
  h ← hasExpression (ap_result p);
  if (h : bool) then e ← getExpression (ap_result p); Done (put (str " " ++ e) p) else Done p.
Definition printExpressionWas (p : AssertionPrinter) : outcome AssertionPrinter :=
  h ← hasExpression (ap_result p);
  if (h : bool) then printOriginalExpression (put (str "; expression was:") p) else Done p.
Definition printReconstructedExpression (p : AssertionPrinter) : outcome AssertionPrinter :=
  h ← hasExpandedExpression (ap_result p);
  if (h : bool) then x ← getExpandedExpression (ap_result p); Done (put (str " for: " ++ x) p)
  else Done p.

Definition printMessage (p : AssertionPrinter) : AssertionPrinter :=
  match itMessage p with
  | [] => p
  | m :: rest => set_itMessage rest (put (quoted m) p)
  end.

(** One round of the loop of [printRemainingMessages]: a message that is left out is not
    stepped over. *)
Definition remaining_round (p : AssertionPrinter) : AssertionPrinter :=
  match itMessage p with
  | [] => p
  | m :: rest =>
      if printInfoMessages p || negb (bool_decide (mi_type m = Info)) then
        let p := set_itMessage rest (put (quoted m) p) in
        match rest with [] => p | _ => put (str " and") p end
      else p
  end.
(** The loop, with fuel for the rounds; [None] when it runs out. *)
Fixpoint remaining_loop (fuel : nat) (p : AssertionPrinter) : option AssertionPrinter :=
  match itMessage p with
  | [] => Some p
  | _ => match fuel with O => None | S fuel => remaining_loop fuel (remaining_round p) end
  end.

Section printing.
Context (fuel : nat).

Definition printRemainingMessages (p : AssertionPrinter) : option AssertionPrinter :=
  match itMessage p with
  | [] => Some p
  | its =>
      remaining_loop fuel (put (str " with " ++ plural (Z.of_nat (length its)) "message" ++ str ":") p)
  end.

(** What [print] writes before the remaining messages. *)
Definition print_head (p : AssertionPrinter) : outcome AssertionPrinter :=
  let result := ap_result p in
  let t := getResultType result in
  let p := set_itMessage (ap_messages p) (printSourceInfo p) in
  if decide (t = Ok) then
    p ← printOriginalExpression (printResultType passedString p);
    printReconstructedExpression p
  else if decide (t = ExpressionFailed) then
    let p := if result_isOk result then printResultType (failedString ++ str " - but was ok") p
             else printResultType failedString p in
    p ← printOriginalExpression p;
    printReconstructedExpression p
  else if decide (t = ThrewException) then
    printExpressionWas (printMessage (printIssue "unexpected exception with message:"
      (printResultType failedString p)))
  else if decide (t = FatalErrorCondition) then
    printExpressionWas (printMessage (printIssue "fatal error condition with message:"
      (printResultType failedString p)))
  else if decide (t = DidntThrowException) then
    printExpressionWas (printIssue "expected exception, got none" (printResultType failedString p))
  else if decide (t = Info) then Done (printMessage (printResultType (str "info") p))
  else if decide (t = Warning) then Done (printMessage (printResultType (str "warning") p))
  else if decide (t = ExplicitFailure) then
    Done (printIssue "explicitly" (printResultType failedString p))
  else Done (printResultType (str "** internal error **") p).

Definition has_remaining (t : Z) : bool :=
  bool_decide (t ∈ [Ok; ExpressionFailed; ThrewException; FatalErrorCondition; DidntThrowException;
                    Info; Warning; ExplicitFailure]).
Definition print (p : AssertionPrinter) : outcome (option AssertionPrinter) :=
  p ← print_head p;
  Done (if has_remaining (getResultType (ap_result p)) then printRemainingMessages p else Some p).

(** ** The reporter *)
Section reporter.
Context {double : Type} (config : Config double) (section_seconds : SectionInfo → list byte).

Record CompactReporter := mk_CompactReporter { cr_stream : list byte; cr_base : StreamingReporterBase }.
Definition new_CompactReporter (stream : list byte) : CompactReporter := mk_CompactReporter stream new_base.
Definition cr_put (out : list byte) (r : CompactReporter) : CompactReporter :=
  mk_CompactReporter (cr_stream r ++ out) (cr_base r).

(** Whether the assertion is shown, and with messages of type [Info]. *)
Definition compact_shows (stats : AssertionStats) : option bool :=
  let result := assertionResult stats in
  if negb (cd_showSuccessfulTests (m_data config)) && result_isOk result then
    if decide (getResultType result ≠ Warning) then None else Some false
  else Some true.

Definition c_assertionEnded (stats : AssertionStats) (r : CompactReporter)
    : outcome (option CompactReporter) :=
  match compact_shows stats with
  | None => Done (Some r)
  | Some printInfo =>
      p ← print (make_printer (cr_stream r) stats printInfo);
      Done (option_map (λ p, mk_CompactReporter (ap_stream p ++ [x0a]) (cr_base r)) p)
  end.

Definition c_noMatchingTestCases (spec : list byte) (r : CompactReporter) : CompactReporter :=
  cr_put (str "No test cases matched '" ++ spec ++ str "'" ++ [x0a]) r.

(** The base class is not told: its stack keeps the section. *)
Definition c_sectionEnded (s : SectionInfo) (r : CompactReporter) : CompactReporter :=
  if durations_always config then cr_put (section_seconds s ++ str " s: " ++ si_name s ++ [x0a]) r
  else r.

Definition c_base (e : event) (r : CompactReporter) : outcome (option CompactReporter) :=
  b ← base_handle e (cr_base r); Done (Some (mk_CompactReporter (cr_stream r) b)).
Definition c_testRunEnded (e : event) (totals : Totals) (r : CompactReporter)
    : outcome (option CompactReporter) :=
  c_base e (cr_put (printTotals totals ++ [x0a; x0a]) r).

Definition compact_handle (e : event) (r : CompactReporter) : outcome (option CompactReporter) :=
  match e with
  | assertionEnded_ stats => c_assertionEnded stats r
  | noMatchingTestCases spec => Done (Some (c_noMatchingTestCases spec r))
  | sectionEnded_ s _ _ => Done (Some (c_sectionEnded s r))
  | testRunEnded _ totals _ => c_testRunEnded e totals r
  | assertionStarting _ => Done (Some r)
  | _ => c_base e r
  end.
Fixpoint compact_handle_all (es : list event) (r : CompactReporter) : outcome (option CompactReporter) :=
  match es with
  | [] => Done (Some r)
  | e :: es =>
      r ← compact_handle e r;
      match r with None => Done None | Some r => compact_handle_all es r end
  end.
End reporter.
End printing.
