(* ===== verification/CatchCompactProps.v ===== *)
(** * Properties of the compact reporter

    What a line says, when printing it ends, and the report of a run as a whole. *)
From stdpp Require Import strings list.
From S2P Require Import CatchStreams.
From S2P Require Import Prelude CatchString CatchTest CatchResult CatchTracker CatchRun.
From S2P Require Import CatchRunProps CatchText CatchClara CatchConfig CatchXml CatchXmlReporter.
From S2P Require Import CatchCompact.

(** ** The line as it should be *)
Fixpoint joined (sep : list byte) (l : list (list byte)) : list byte :=
  match l with
  | [] => []
  | [s] => s
  | s :: l => s ++ sep ++ joined sep l
  end.

Definition with_messages (ms : list MessageInfo) : list byte :=
  match ms with
  | [] => []
  | _ => str " with " ++ plural (Z.of_nat (length ms)) "message" ++ str ":" ++
         joined (str " and") (quoted <$> ms)
  end.

(** The expression, and what it expanded to when that says more. *)
Definition original_text (r : AssertionResult) : outcome (list byte) :=
  h ← hasExpression r;
  if (h : bool) then e ← getExpression r; Done (str " " ++ e) else Done [].
Definition expanded_text (r : AssertionResult) : outcome (list byte) :=
  h ← hasExpandedExpression r;
  if (h : bool) then x ← getExpandedExpression r; Done (str " for: " ++ x) else Done [].
Definition expression_was_text (r : AssertionResult) : outcome (list byte) :=
  h ← hasExpression r;
  if (h : bool) then e ← original_text r; Done (str "; expression was:" ++ e) else Done [].

(** Results of these types show the first message for their own. *)
Definition own_message (t : Z) : bool :=
  bool_decide (t ∈ [ThrewException; FatalErrorCondition; Info; Warning]).

Definition verdict (r : AssertionResult) : list byte :=
  let t := getResultType r in
  let failed_as issue := str " failed: " ++ str issue in
  if decide (t = Ok) then str " passed:"
  else if decide (t = ExpressionFailed) then
    if result_isOk r then str " failed - but was ok:" else str " failed:"
  else if decide (t = ThrewException) then failed_as "unexpected exception with message:"%string
  else if decide (t = FatalErrorCondition) then failed_as "fatal error condition with message:"%string
  else if decide (t = DidntThrowException) then failed_as "expected exception, got none"%string
  else if decide (t = Info) then str " info:"
  else if decide (t = Warning) then str " warning:"
  else if decide (t = ExplicitFailure) then failed_as "explicitly"%string
  else str " ** internal error **:".

Definition result_text (r : AssertionResult) : outcome (list byte) :=
  let t := getResultType r in
  if bool_decide (t ∈ [Ok; ExpressionFailed]) then
    e ← original_text r; x ← expanded_text r; Done (e ++ x)
  else if bool_decide (t ∈ [ThrewException; FatalErrorCondition; DidntThrowException]) then
    expression_was_text r
  else Done [].

Definition line_text (stats : AssertionStats) : outcome (list byte) :=
  let r := assertionResult stats in
  let t := getResultType r in
  let ms := infoMessages stats in
  let own := if own_message t then take 1 ms else [] in
  let rest := if own_message t then drop 1 ms else ms in
  e ← result_text r;
  Done (print_sli (getSourceInfo r) ++ str ":" ++ verdict r ++ (own ≫= quoted) ++ e ++
        (if has_remaining t then with_messages rest else [])).

(** Nothing but warnings are shown without their messages of type [Info], and one of these after
    the first message is never stepped over. *)
Definition infos_left_out (ms : list MessageInfo) : Prop := Exists (λ m, mi_type m = Info) ms.
Definition hangs {double} (config : Config double) (stats : AssertionStats) : Prop :=
  compact_shows config stats = Some false ∧ infos_left_out (drop 1 (infoMessages stats)).

(** ** Printing *)
Lemma put_nil p : put [] p = p.
Proof. destruct p. unfold put. cbn. by rewrite app_nil_r. Qed.
Lemma put_put a b p : put b (put a p) = put (a ++ b) p.
Proof. unfold put. cbn. by rewrite app_assoc. Qed.
Lemma put_it a it p : set_itMessage it (put a p) = put a (set_itMessage it p).
Proof. done. Qed.

Lemma original_ok p e : original_text (ap_result p) = Done e → printOriginalExpression p = Done (put e p).
Proof.
  unfold original_text, printOriginalExpression. intros H. apply bind_Done in H as (h & -> & H). cbn.
  destruct h; [|injection H as <-; by rewrite put_nil].
  by apply bind_Done in H as (x & -> & [= <-]).
Qed.
Lemma expanded_ok p e : expanded_text (ap_result p) = Done e → printReconstructedExpression p = Done (put e p).
Proof.
  unfold expanded_text, printReconstructedExpression. intros H. apply bind_Done in H as (h & -> & H). cbn.
  destruct h; [|injection H as <-; by rewrite put_nil].
  by apply bind_Done in H as (x & -> & [= <-]).
Qed.
Lemma expression_was_ok p e : expression_was_text (ap_result p) = Done e →
  printExpressionWas p = Done (put e p).
Proof.
  unfold expression_was_text, printExpressionWas. intros H. apply bind_Done in H as (h & -> & H). cbn.
  destruct h; [|injection H as <-; by rewrite put_nil].
  apply bind_Done in H as (x & H & [= <-]).
  by rewrite (original_ok (put _ p) x), put_put by exact H.
Qed.

Lemma at_end s r ms b : Some (mk_AssertionPrinter s r ms [] b) =
  Some (set_itMessage [] (put (joined (str " and") (quoted <$> [])) (mk_AssertionPrinter s r ms [] b))).
Proof. cbn [fmap list_fmap joined]. by rewrite put_nil. Qed.

(** The loop: every round writes a message when all of them are shown. *)
Lemma loop_ends fuel : ∀ p, (length (itMessage p) ≤ fuel)%nat →
  printInfoMessages p = true ∨ ¬ infos_left_out (itMessage p) →
  remaining_loop fuel p =
    Some (set_itMessage [] (put (joined (str " and") (quoted <$> itMessage p)) p)).
Proof.
  induction fuel as [|fuel IH]; intros [s r ms its b]; cbn [itMessage printInfoMessages]; intros Hl Hs.
  { destruct its; [apply at_end|cbn in Hl; lia]. }
  destruct its as [|m its]; [apply at_end|].
  cbn [length] in Hl. cbn [remaining_loop itMessage].
  assert (b || negb (bool_decide (mi_type m = Info)) = true) as Hm.
  { destruct Hs as [->|Hs]; [done|]. rewrite (bool_decide_eq_false_2 (_ = _)); [apply orb_true_r|].
    contradict Hs. by left. }
  unfold remaining_round. cbn [itMessage printInfoMessages]. rewrite Hm.
  destruct its as [|m' its].
  - rewrite IH; [|cbn; lia|right; by inversion 1]. cbn [itMessage set_itMessage fmap list_fmap joined].
    by rewrite put_nil.
  - rewrite IH; [|cbn in *; lia|].
    2:{ destruct Hs as [Hb|Hs]; [by left|right]. intros Hx. apply Hs. by right. }
    change (joined (str " and") (quoted <$> m :: m' :: its)) with
      (quoted m ++ str " and" ++ joined (str " and") (quoted <$> m' :: its)).
    unfold set_itMessage, put.
    cbn [itMessage ap_stream ap_result ap_messages printInfoMessages]. by rewrite !app_assoc.
Qed.

(** A message that is not shown is met again for ever. *)
Lemma loop_hangs fuel : ∀ p, printInfoMessages p = false → infos_left_out (itMessage p) →
  remaining_loop fuel p = None.
Proof.
  induction fuel as [|fuel IH]; intros [s r ms its b]; cbn [itMessage printInfoMessages]; intros -> Hx;
    (destruct its as [|m its]; [by inversion Hx|]); [done|]. cbn [remaining_loop itMessage].
  unfold remaining_round. cbn [itMessage printInfoMessages orb].
  destruct (bool_decide (mi_type m = Info)) eqn:Em; cbn [negb].
  - by apply IH.
  - apply bool_decide_eq_false in Em. apply Exists_cons in Hx as [Hx|Hx]; [done|].
    destruct its; [by inversion Hx|]. by apply IH.
Qed.

Definition remaining (stats : AssertionStats) : list MessageInfo :=
  if own_message (getResultType (assertionResult stats)) then drop 1 (infoMessages stats)
  else infoMessages stats.

(** What stands before the remaining messages, and where it leaves the iterator. *)
Definition head_text (stats : AssertionStats) : outcome (list byte) :=
  let r := assertionResult stats in
  e ← result_text r;
  Done (print_sli (getSourceInfo r) ++ str ":" ++ verdict r ++
        ((if own_message (getResultType r) then take 1 (infoMessages stats) else []) ≫= quoted) ++ e).

Lemma print_message_ok p : printMessage p = set_itMessage (drop 1 (itMessage p)) (put (take 1 (itMessage p) ≫= quoted) p).
Proof.
  destruct p as [s r ms [|m its] b]; unfold printMessage; cbn [itMessage drop take mbind list_bind].
  - by rewrite put_nil.
  - by rewrite app_nil_r.
Qed.

(** Membership of a result type: of a known one, computed; of one that is none of them. *)
Ltac decide_types :=
  repeat match goal with
    | H : context [bool_decide (?t ∈ ?l)] |- _ =>
        first [ let v := eval vm_compute in (bool_decide (t ∈ l)) in
                match v with true => idtac | false => idtac end;
                change (bool_decide (t ∈ l)) with v in H
              | rewrite (bool_decide_eq_false_2 (t ∈ l)) in H by (rewrite !list_elem_of_In; cbn; intuition congruence) ]
    | |- context [bool_decide (?t ∈ ?l)] =>
        first [ let v := eval vm_compute in (bool_decide (t ∈ l)) in
                match v with true => idtac | false => idtac end;
                change (bool_decide (t ∈ l)) with v
              | rewrite (bool_decide_eq_false_2 (t ∈ l)) by (rewrite !list_elem_of_In; cbn; intuition congruence) ]
    end.

Lemma result_type_ok text p : text ≠ [] → printResultType text p = put (str " " ++ text ++ str ":") p.
Proof. intros H. unfold printResultType. by rewrite decide_False by done. Qed.

(** What is written adds up. *)
Ltac written :=
  unfold put, set_itMessage; cbn [ap_stream ap_result ap_messages itMessage printInfoMessages];
  rewrite ?app_nil_r, <-?app_assoc; reflexivity.

Lemma print_head_ok s stats b h : head_text stats = Done h →
  print_head (make_printer s stats b) =
    Done (mk_AssertionPrinter (s ++ h) (assertionResult stats) (infoMessages stats) (remaining stats) b).
Proof.
  unfold head_text, remaining, print_head, make_printer. cbv zeta. cbn [ap_result ap_messages].
  set (r := assertionResult stats). set (ms := infoMessages stats). intros H.
  apply bind_Done in H as (e & He & [= <-]). unfold result_text, verdict, own_message in *.
  remember (getResultType r) as t eqn:Et. unfold printSourceInfo, printIssue.
  rewrite !result_type_ok by done. cbn [ap_result].
  repeat (destruct (decide (t = _)) as [->|?]; [decide_types|]); [| | | | | | | |decide_types].
  - apply bind_Done in He as (e1 & H1 & He). apply bind_Done in He as (e2 & H2 & [= <-]).
    erewrite original_ok by exact H1. cbn [mbind outcome_bind]. erewrite expanded_ok by exact H2. written.
  - apply bind_Done in He as (e1 & H1 & He). apply bind_Done in He as (e2 & H2 & [= <-]).
    destruct (result_isOk r); (erewrite original_ok by exact H1); cbn [mbind outcome_bind];
      (erewrite expanded_ok by exact H2); written.
  - rewrite print_message_ok. erewrite expression_was_ok by exact He. written.
  - rewrite print_message_ok. erewrite expression_was_ok by exact He. written.
  - erewrite expression_was_ok by exact He. written.
  - injection He as <-. rewrite print_message_ok. written.
  - injection He as <-. rewrite print_message_ok. written.
  - injection He as <-. written.
  - injection He as <-. written.
Qed.

(** The remaining messages are all shown, or one of them stops the loop. *)
Lemma remaining_ends fuel p : (length (itMessage p) ≤ fuel)%nat →
  printInfoMessages p = true ∨ ¬ infos_left_out (itMessage p) →
  printRemainingMessages fuel p = Some (set_itMessage [] (put (with_messages (itMessage p)) p)).
Proof.
  intros Hl Hs. unfold printRemainingMessages.
  destruct p as [s r ms [|m its] b]; [unfold set_itMessage, put; cbn; by rewrite app_nil_r|]. cbn [itMessage].
  rewrite loop_ends by done. f_equal. cbn [put itMessage]. unfold with_messages. by rewrite put_put, <-!app_assoc.
Qed.
Lemma remaining_hangs fuel p : printInfoMessages p = false → infos_left_out (itMessage p) →
  printRemainingMessages fuel p = None.
Proof.
  intros Hb Hx. unfold printRemainingMessages. destruct (itMessage p) eqn:E; [by inversion Hx|].
  apply loop_hangs; [done|]. cbn. by rewrite E.
Qed.

Section reporter.
Context {double : Type} (config : Config double) (section_seconds : SectionInfo → list byte).

(** Only warnings are shown without messages of type [Info]. *)
Lemma shown_without_infos stats : compact_shows config stats = Some false →
  getResultType (assertionResult stats) = Warning.
Proof. unfold compact_shows. destruct (_ && _); [|done]. by destruct (decide _) as [|H%dec_stable]. Qed.

Lemma head_of_line stats line : line_text stats = Done line → ∃ h, head_text stats = Done h ∧
  line = h ++ (if has_remaining (getResultType (assertionResult stats))
               then with_messages (remaining stats) else []).
Proof.
  unfold line_text, head_text. cbv zeta. intros H. apply bind_Done in H as (e & -> & [= <-]).
  eexists. split; [reflexivity|]. unfold remaining. by rewrite <-!app_assoc.
Qed.

Lemma assertion_printed fuel stats shown line r : compact_shows config stats = Some shown →
  line_text stats = Done line → ¬ hangs config stats → (length (infoMessages stats) ≤ fuel)%nat →
  c_assertionEnded fuel config stats r = Done (Some (cr_put (line ++ [x0a]) r)).
Proof.
  intros Hs Hline Hh Hf. apply head_of_line in Hline as (h & Hhead & ->).
  unfold c_assertionEnded, print. rewrite Hs, (print_head_ok _ _ _ _ Hhead). cbn [mbind outcome_bind ap_result].
  destruct (has_remaining _).
  - rewrite remaining_ends.
    + cbn. unfold cr_put. by rewrite <-!app_assoc.
    + cbn. unfold remaining. destruct (own_message _); [rewrite length_drop|]; lia.
    + cbn. destruct shown; [by left|right]. contradict Hh. split; [done|]. revert Hh.
      unfold remaining. by rewrite (shown_without_infos stats Hs).
  - cbn. unfold cr_put. by rewrite app_nil_r, <-!app_assoc.
Qed.

Lemma assertion_hangs fuel stats line r : line_text stats = Done line → hangs config stats →
  c_assertionEnded fuel config stats r = Done None.
Proof.
  intros Hline [Hs Hx]. apply head_of_line in Hline as (h & Hhead & _).
  unfold c_assertionEnded, print. rewrite Hs, (print_head_ok _ _ _ _ Hhead). cbn [mbind outcome_bind ap_result].
  rewrite (shown_without_infos stats Hs). change (has_remaining Warning) with true. cbn iota.
  rewrite remaining_hangs; [done|done|]. cbn. unfold remaining. by rewrite (shown_without_infos stats Hs).
Qed.

(** ** What an event adds to the report *)
Definition line_of (stats : AssertionStats) : list byte :=
  match compact_shows config stats, line_text stats with
  | Some _, Done line => line ++ [x0a]
  | _, _ => []
  end.
Definition event_text (e : event) : list byte :=
  match e with
  | assertionEnded_ stats => line_of stats
  | noMatchingTestCases spec => str "No test cases matched '" ++ spec ++ str "'" ++ [x0a]
  | sectionEnded_ s _ _ =>
      if durations_always config then section_seconds s ++ str " s: " ++ si_name s ++ [x0a] else []
  | testRunEnded _ totals _ => printTotals totals ++ [x0a; x0a]
  | _ => []
  end.

(** What is asked of an assertion to be printed with so much fuel. *)
Definition printable (fuel : nat) (e : event) : Prop :=
  match e with
  | assertionEnded_ stats =>
      (∃ line, line_text stats = Done line) ∧ ¬ hangs config stats ∧ (length (infoMessages stats) ≤ fuel)%nat
  | _ => True
  end.

Lemma line_printed fuel stats r : printable fuel (assertionEnded_ stats) →
  c_assertionEnded fuel config stats r = Done (Some (cr_put (line_of stats) r)).
Proof.
  intros ((line & Hl) & Hh & Hf). destruct (compact_shows config stats) as [shown|] eqn:Es.
  - unfold line_of. rewrite Es, Hl. by eapply assertion_printed.
  - unfold c_assertionEnded, line_of, cr_put. rewrite Es, app_nil_r. by destruct r.
Qed.

(** Which base handlers are called does not matter to the stream: they fail for none of these. *)
Lemma event_printed fuel e r : printable fuel e → ∃ r',
  compact_handle fuel config section_seconds e r = Done (Some r') ∧
  cr_stream r' = cr_stream r ++ event_text e.
Proof.
  intros Hp. destruct e as [| | | | |stats|s c m| | | | | |]; cbn [compact_handle event_text] in *;
    try (by eexists; split; [reflexivity|cbn; by rewrite ?app_nil_r]).
  - rewrite line_printed by done. by eexists.
  - unfold c_sectionEnded. destruct (durations_always config); (eexists; split; [reflexivity|]);
      cbn; by rewrite ?app_nil_r.
Qed.

Lemma events_printed fuel es : Forall (printable fuel) es → ∀ r, ∃ r',
  compact_handle_all fuel config section_seconds es r = Done (Some r') ∧
  cr_stream r' = cr_stream r ++ (es ≫= event_text).
Proof.
  induction 1 as [|e es He _ IH]; intros r.
  { exists r. split; [done|]. cbn. by rewrite app_nil_r. }
  destruct (event_printed fuel e r He) as (r1 & E1 & H1). destruct (IH r1) as (r' & E & H).
  exists r'. cbn [compact_handle_all mbind list_bind]. rewrite E1. cbn [mbind outcome_bind].
  split; [exact E|]. by rewrite H, H1, <-app_assoc.
Qed.
End reporter.

(** ** Properties *)

(** Property (termination): the compact reporter's handling of an assertion whose strings can be read
    ends, and does so with as many rounds as there are messages, exactly if no message of type
    [Info] comes after the first one of a warning that is shown only for being a warning.  If it
    ends, the line is written that the assertion's layout asks for, if any; if not, no number of
    rounds is enough. *)
Theorem compact_assertion_ends {double} (config : Config double) stats line r :
  line_text stats = Done line →
  (hangs config stats → ∀ fuel, c_assertionEnded fuel config stats r = Done None) ∧
  (¬ hangs config stats → ∀ fuel, (length (infoMessages stats) ≤ fuel)%nat →
   c_assertionEnded fuel config stats r = Done (Some (cr_put
     (match compact_shows config stats with Some _ => line ++ [x0a] | None => [] end) r))).
Proof.
  intros Hl. split; [intros Hh fuel; by eapply assertion_hangs|]. intros Hh fuel Hf.
  rewrite line_printed by (repeat split; [by eexists|done|done]). unfold line_of. by rewrite Hl.
Qed.

(** Property (functional): for events whose assertions can be printed, the compact reporter writes one
    line per assertion that is shown and nothing else but the line of each filter that matched
    nothing, of each section's duration where these are asked for, and of the totals: its report
    is the concatenation of these lines in the order of the events. *)
Theorem compact_report {double} (config : Config double) section_seconds fuel es os :
  Forall (printable config fuel) es →
  ∃ r, compact_handle_all fuel config section_seconds es (new_CompactReporter os) = Done (Some r) ∧
       cr_stream r = os ++ (es ≫= event_text config section_seconds).
Proof. intros H. by apply events_printed. Qed.

(** Property (error): a warning in a running test, with two messages in scope of which the second is an
    [INFO], hangs the compact reporter unless successful assertions are shown too: the run
    context sends it the warning with these messages, and the reporter's loop does not end. *)
Theorem warning_in_scope_hangs {double} (config : Config double) info msg r t :
  m_activeTestCase r = Some t → infos_left_out (drop 1 (m_messages r)) →
  cd_showSuccessfulTests (m_data config) = false →
  ∃ r' stats, handleMessage info Warning msg r = Done (inr None, r') ∧
    m_reporter r' = m_reporter r ++ [assertionStarting info; assertionEnded_ stats] ∧
    ∀ fuel section_seconds c,
      compact_handle fuel config section_seconds (assertionEnded_ stats) c = Done None.
Proof.
  intros Ht Hm Hc. set (result := make_result info Warning false msg).
  set (r1 := set_lastAssertionInfo info (report (assertionStarting info) r)).
  destruct (assertionEnded_eq result r1 t Ht) as (n & ms & E & _).
  set (stats := mk_AssertionStats result (m_messages r1 ++ ms) (m_totals (after_count t result r1))) in *.
  eexists _, stats. split; [|split].
  - do 2 (eapply ex_step; [reflexivity|]). eapply ex_step; [exact E|]. reflexivity.
  - rewrite after_report_reporter. cbn. by rewrite <-app_assoc.
  - intros fuel section_seconds c. eapply assertion_hangs; [reflexivity|]. split.
    + unfold compact_shows. by rewrite Hc.
    + cbn [stats infoMessages]. change (m_messages r1) with (m_messages r). revert Hm. unfold infos_left_out.
      destruct (m_messages r) as [|m l]; cbn; rewrite ?drop_0; [by inversion 1|].
      rewrite Exists_app. by left.
Qed.

(** *** Witnesses *)
Definition compact_config : Config (list byte) := mk_Config (default_config (str "0.95")) CoutStream false [].
Definition info_message (text : string) (n : Z) : MessageInfo :=
  mk_MessageInfo (StringRef_string (str "INFO")) (str text) (mk_SourceLineInfo (str "t.cpp") 2) Info n.
Definition warn_message (text : string) (n : Z) : MessageInfo :=
  mk_MessageInfo (StringRef_string (str "WARN")) (str text) (mk_SourceLineInfo (str "t.cpp") 4) Warning n.
Definition warn_info : AssertionInfo :=
  mk_AssertionInfo (StringRef_string (str "WARN")) (mk_SourceLineInfo (str "t.cpp") 4) StringRef_empty
    ContinueOnFailure.
Definition warned (ms : list MessageInfo) : AssertionStats :=
  mk_AssertionStats (make_result warn_info Warning false (str "slow")) ms no_totals.
Definition failed_put : AssertionStats :=
  mk_AssertionStats
    (mk_AssertionResult
       (mk_AssertionInfo (StringRef_string (str "CHECK")) (mk_SourceLineInfo (str "t.cpp") 3)
          (StringRef_string (str "put(k) == 0")) Normal)
       (mk_AssertionResultData [] (str "-1 == 0") (make_lazy false) ExpressionFailed))
    [info_message "full" 1; info_message "twice" 2] no_totals.

(** A failed check shows its messages; a warning after one message in scope shows that message
    for its own. *)
Example failed_line : line_text failed_put =
  Done (str "t.cpp:3: failed: put(k) == 0 for: -1 == 0 with 2 messages: 'full' and 'twice'").
Proof. vm_compute. reflexivity. Qed.
Example warned_line : line_text (warned [info_message "k" 1; warn_message "slow" 2]) =
  Done (str "t.cpp:4: warning: 'k' with 1 message: 'slow'").
Proof. vm_compute. reflexivity. Qed.

Lemma compact_assertion_ends_witness :
  (∀ fuel, c_assertionEnded fuel compact_config
     (warned [info_message "k" 1; info_message "l" 2; warn_message "slow" 3]) (new_CompactReporter []) = Done None) ∧
  c_assertionEnded 2 compact_config failed_put (new_CompactReporter []) =
    Done (Some (cr_put
      (str "t.cpp:3: failed: put(k) == 0 for: -1 == 0 with 2 messages: 'full' and 'twice'" ++ [x0a])
      (new_CompactReporter []))).
Proof.
  split.
  - destruct (compact_assertion_ends compact_config
      (warned [info_message "k" 1; info_message "l" 2; warn_message "slow" 3])
      (str "t.cpp:4: warning: 'k' with 2 messages: 'l' and 'slow'") (new_CompactReporter [])) as [H _];
      [vm_compute; reflexivity|].
    apply H. split; [reflexivity|]. left. reflexivity.
  - destruct (compact_assertion_ends compact_config failed_put
      (str "t.cpp:3: failed: put(k) == 0 for: -1 == 0 with 2 messages: 'full' and 'twice'")
      (new_CompactReporter [])) as [_ H]; [vm_compute; reflexivity|].
    apply H; [|cbn; lia]. intros [E _]. revert E. vm_compute. discriminate.
Defined.

Definition compact_events : list event :=
  [testRunStarting (str "kv"); assertionEnded_ failed_put;
   testRunEnded (str "kv") (mk_Totals 0 (mk_Counts 3 1 0) (mk_Counts 1 1 0)) false].
Lemma compact_report_witness : ∃ r,
  compact_handle_all 2 compact_config (λ _, str "0.1") compact_events (new_CompactReporter []) = Done (Some r) ∧
  cr_stream r =
    str "t.cpp:3: failed: put(k) == 0 for: -1 == 0 with 2 messages: 'full' and 'twice'" ++ [x0a] ++
    str "Failed 1 test case, failed 1 assertion." ++ [x0a; x0a].
Proof.
  destruct (compact_report compact_config (λ _, str "0.1") 2 compact_events []) as (r & E & H).
  - repeat constructor.
    + exists (str "t.cpp:3: failed: put(k) == 0 for: -1 == 0 with 2 messages: 'full' and 'twice'").
      vm_compute. reflexivity.
    + intros [E _]. revert E. vm_compute. discriminate.
  - exists r. split; [exact E|]. rewrite H. vm_compute. reflexivity.
Defined.

Definition scoped_run : RunContext :=
  set_messages [info_message "k" 1; info_message "l" 2] [] sample_run.
Lemma warning_in_scope_hangs_witness : ∃ r' stats,
  handleMessage warn_info Warning (str "slow") scoped_run = Done (inr None, r') ∧
  m_reporter r' = m_reporter scoped_run ++ [assertionStarting warn_info; assertionEnded_ stats] ∧
  ∀ fuel, compact_handle fuel compact_config (λ _, []) (assertionEnded_ stats) (new_CompactReporter []) =
    Done None.
Proof.
  destruct (warning_in_scope_hangs compact_config warn_info (str "slow") scoped_run failing_info)
    as (r' & stats & E & H & Hh); [reflexivity|left; reflexivity|reflexivity|].
  exists r', stats. split; [exact E|]. split; [exact H|]. intros fuel. apply Hh.
Defined.
