(* ===== verification/CatchCumulative.v ===== *)
(** * Catch: the cumulative base of reporters (CumulativeReporterBase)

    What the JUnit reporter is built on.  The base keeps the
    sections of a test case in nodes that shared pointers connect: here a node is known by its
    number among all that were made, so that a change of it is seen through every pointer.
    Durations, captured output and the clock, which no event carries, are given per event by its
    number. *)
From stdpp Require Import strings list.
From S2P Require Import Prelude CatchString CatchTest CatchResult CatchTracker CatchRun.
From S2P Require Import CatchText CatchClara CatchConfig CatchXml CatchXmlReporter.

(** What is measured when an event comes: a duration, the output of the test case, the time. *)
Record measured := mk_measured {
  ms_seconds : list byte; ms_stdOut : list byte; ms_stdErr : list byte; ms_timestamp : list byte
}.

(** ** Statistics and nodes *)
Record SectionStats := mk_SectionStats {
  ss_sectionInfo : SectionInfo; ss_assertions : Counts; ss_seconds : list byte; ss_missing : bool
}.
Record TestCaseStats := mk_TestCaseStats {
  tcs_testInfo : TestCaseInfo; tcs_totals : Totals; tcs_stdOut : list byte; tcs_stdErr : list byte;
  tcs_aborting : bool
}.
Record TestGroupStats := mk_TestGroupStats {
  tgs_name : list byte; tgs_index : nat; tgs_count : nat; tgs_totals : Totals; tgs_aborting : bool
}.
Record TestRunStats := mk_TestRunStats {
  trs_name : list byte; trs_totals : Totals; trs_aborting : bool
}.

Record SectionNode := mk_SectionNode {
  stats : SectionStats;
  childSections : list nat;
  node_assertions : list AssertionStats;
  node_stdOut : list byte;
  node_stdErr : list byte
}.
Definition new_SectionNode (_stats : SectionStats) : SectionNode := mk_SectionNode _stats [] [] [] [].

(** The root section of a test case may be a null pointer. *)
Record TestCaseNode := mk_TestCaseNode { tcn_value : TestCaseStats; tcn_children : list (option nat) }.
Record TestGroupNode := mk_TestGroupNode { tgn_value : TestGroupStats; tgn_children : list TestCaseNode }.
Record TestRunNode := mk_TestRunNode { trn_value : TestRunStats; trn_children : list TestGroupNode }.

Definition BySectionInfo (m_other : SectionInfo) (node : SectionNode) : bool :=
  bool_decide (si_name (ss_sectionInfo (stats node)) = si_name m_other) &&
  sli_eq (si_lineInfo (ss_sectionInfo (stats node))) (si_lineInfo m_other).

Definition SectionNode_eq (a b : SectionNode) : bool :=
  sli_eq (si_lineInfo (ss_sectionInfo (stats a))) (si_lineInfo (ss_sectionInfo (stats b))).

Definition with_stats (s : SectionStats) (n : SectionNode) : SectionNode :=
  mk_SectionNode s (childSections n) (node_assertions n) (node_stdOut n) (node_stdErr n).
Definition with_child (i : nat) (n : SectionNode) : SectionNode :=
  mk_SectionNode (stats n) (childSections n ++ [i]) (node_assertions n) (node_stdOut n) (node_stdErr n).
Definition with_assertion (a : AssertionStats) (n : SectionNode) : SectionNode :=
  mk_SectionNode (stats n) (childSections n) (node_assertions n ++ [a]) (node_stdOut n) (node_stdErr n).
Definition with_output (out err : list byte) (n : SectionNode) : SectionNode :=
  mk_SectionNode (stats n) (childSections n) (node_assertions n) out err.

(** ** CumulativeReporterBase *)
Record CumulativeReporterBase := mk_CumulativeReporterBase {
  nodes : list SectionNode;
  m_testCases : list TestCaseNode;
  m_testGroups : list TestGroupNode;
  m_testRuns : list TestRunNode;
  m_rootSection : option nat;
  m_deepestSection : option nat;
  cm_sectionStack : list nat
}.
Definition cum (A : Type) : Type := st CumulativeReporterBase A.
Definition new_cumulative : CumulativeReporterBase := mk_CumulativeReporterBase [] [] [] [] None None [].

Definition set_nodes x c := mk_CumulativeReporterBase x (m_testCases c) (m_testGroups c)
  (m_testRuns c) (m_rootSection c) (m_deepestSection c) (cm_sectionStack c).
Definition set_testCases x c := mk_CumulativeReporterBase (nodes c) x (m_testGroups c)
  (m_testRuns c) (m_rootSection c) (m_deepestSection c) (cm_sectionStack c).
Definition set_testGroups x c := mk_CumulativeReporterBase (nodes c) (m_testCases c) x
  (m_testRuns c) (m_rootSection c) (m_deepestSection c) (cm_sectionStack c).
Definition set_testRuns x c := mk_CumulativeReporterBase (nodes c) (m_testCases c) (m_testGroups c)
  x (m_rootSection c) (m_deepestSection c) (cm_sectionStack c).
Definition set_rootSection x c := mk_CumulativeReporterBase (nodes c) (m_testCases c) (m_testGroups c)
  (m_testRuns c) x (m_deepestSection c) (cm_sectionStack c).
Definition set_deepestSection x c := mk_CumulativeReporterBase (nodes c) (m_testCases c) (m_testGroups c)
  (m_testRuns c) (m_rootSection c) x (cm_sectionStack c).
Definition set_sectionStack x c := mk_CumulativeReporterBase (nodes c) (m_testCases c) (m_testGroups c)
  (m_testRuns c) (m_rootSection c) (m_deepestSection c) x.

(** Access through a pointer, and [std::make_shared]. *)
Definition get_node (i : nat) : cum SectionNode := c ← st_get; st_lift (or_undefined (nodes c !! i)).
Definition update_node (f : SectionNode → SectionNode) (i : nat) : cum unit :=
  n ← get_node i; st_modify (λ c, set_nodes (<[i := f n]> (nodes c)) c).
Definition make_shared (s : SectionStats) : cum nat :=
  c ← st_get;
  _ ← st_modify (set_nodes (nodes c ++ [new_SectionNode s]));
  mret (length (nodes c)).

(** [std::find_if] over the child sections. *)
Fixpoint find_child (s : SectionInfo) (children : list nat) : cum (option nat) :=
  match children with
  | [] => mret None
  | i :: children =>
      n ← get_node i;
      if BySectionInfo s n then mret (Some i) else find_child s children
  end.

Definition prepareExpandedExpression (r : AssertionResult) : outcome AssertionResult :=
  _ ← getExpandedExpression r;
  Done (mk_AssertionResult (m_info r) (reconstructExpression (m_resultData r)).2).

Section base.
(** The duration of a section that has not ended, [0], as text. *)
Context (no_seconds : list byte).

Definition cum_sectionStarting (sectionInfo : SectionInfo) : cum unit :=
  let incompleteStats := mk_SectionStats sectionInfo no_counts no_seconds false in
  c ← st_get;
  node ← match rev (cm_sectionStack c) with
         | [] =>
             match m_rootSection c with
             | Some i => mret i
             | None => i ← make_shared incompleteStats;
                       _ ← st_modify (set_rootSection (Some i)); mret i
             end
         | parent :: _ =>
             parentNode ← get_node parent;
             it ← find_child sectionInfo (childSections parentNode);
             match it with
             | None => i ← make_shared incompleteStats; _ ← update_node (with_child i) parent; mret i
             | Some i => mret i
             end
         end;
  _ ← st_modify (λ c, set_sectionStack (cm_sectionStack c ++ [node]) c);
  st_modify (set_deepestSection (Some node)).

(** The copy in the node is without the expression, which is why it is expanded before. *)
Definition cum_assertionEnded (assertionStats : AssertionStats) : cum unit :=
  c ← st_get;
  match rev (cm_sectionStack c) with
  | [] => st_assert false
  | i :: _ =>
      r ← st_lift (prepareExpandedExpression (assertionResult assertionStats));
      update_node (with_assertion
        (mk_AssertionStats (copy_result r) (infoMessages assertionStats) (as_totals assertionStats))) i
  end.

Definition cum_sectionEnded (sectionStats : SectionStats) : cum unit :=
  c ← st_get;
  match rev (cm_sectionStack c) with
  | [] => st_assert false
  | i :: stack => _ ← update_node (with_stats sectionStats) i; st_modify (set_sectionStack (rev stack))
  end.

Definition cum_testCaseEnded (testCaseStats : TestCaseStats) : cum unit :=
  c ← st_get;
  _ ← st_assert (bool_decide (length (cm_sectionStack c) = 0%nat));
  let node := mk_TestCaseNode testCaseStats [m_rootSection c] in
  _ ← st_modify (set_testCases (m_testCases c ++ [node]));
  _ ← st_modify (set_rootSection None);
  c ← st_get;
  match m_deepestSection c with
  | None => st_assert false
  | Some i => update_node (with_output (tcs_stdOut testCaseStats) (tcs_stdErr testCaseStats)) i
  end.

Definition cum_testGroupEnded (testGroupStats : TestGroupStats) : cum unit :=
  st_modify (λ c, set_testCases []
    (set_testGroups (m_testGroups c ++ [mk_TestGroupNode testGroupStats (m_testCases c)]) c)).
Definition cum_testRunEnded (testRunStats : TestRunStats) : cum unit :=
  st_modify (λ c, set_testGroups []
    (set_testRuns (m_testRuns c ++ [mk_TestRunNode testRunStats (m_testGroups c)]) c)).

Definition cum_handle (m : measured) (e : event) : cum unit :=
  match e with
  | sectionStarting s => cum_sectionStarting s
  | assertionEnded_ stats => cum_assertionEnded stats
  | sectionEnded_ s c missing => cum_sectionEnded (mk_SectionStats s c (ms_seconds m) missing)
  | testCaseEnded t totals ab =>
      cum_testCaseEnded (mk_TestCaseStats t totals (ms_stdOut m) (ms_stdErr m) ab)
  | testGroupEnded_ n i k totals ab => cum_testGroupEnded (mk_TestGroupStats n i k totals ab)
  | testRunEnded n totals ab => cum_testRunEnded (mk_TestRunStats n totals ab)
  | testRunStarting _ | testGroupStarting _ _ _ | testCaseStarting _ | assertionStarting _
  | skipTest _ | noMatchingTestCases _ | fatalErrorEncountered _ => mret tt
  end.
End base.

Definition supportedVerbosities : list Verbosity := [Verbosity_Normal].
