(* ===== verification/CatchCumulativeProps.v ===== *)
(** * The nodes of the cumulative reporters as trees

    What a test case's events leave behind in the shared nodes: the tree of its sections, each
    with the assertions of all cycles.  A representation predicate ties the numbered nodes to the
    tree. *)
From stdpp Require Import strings list.
From S2P Require Import Prelude CatchString CatchTest CatchResult CatchTracker CatchRun.
From S2P Require Import CatchText CatchClara CatchConfig CatchXml CatchXmlReporter CatchCumulative.
From S2P Require Import CatchRunSections.

(** ** Trees of sections, with the numbers of their nodes *)
Inductive stree :=
| SNode (i : nat) (s : SectionStats) (l : list AssertionStats) (out err : list byte)
    (children : list stree).

Definition tid (t : stree) : nat := match t with SNode i _ _ _ _ _ => i end.
Definition tchildren (t : stree) : list stree := match t with SNode _ _ _ _ _ cs => cs end.
Definition tnode (t : stree) : SectionNode :=
  match t with SNode _ s l out err cs => mk_SectionNode s (tid <$> cs) l out err end.
Fixpoint entries (t : stree) : list (nat * SectionNode) :=
  match t with
  | SNode i s l out err cs =>
      (i, mk_SectionNode s (tid <$> cs) l out err) :: concat (entries <$> cs)
  end.
Definition ids (t : stree) : list nat := (entries t).*1.

Definition fresh (i : nat) (s : SectionStats) : stree := SNode i s [] [] [] [].
Definition t_stats (s : SectionStats) (t : stree) : stree :=
  match t with SNode i _ l out err cs => SNode i s l out err cs end.
Definition t_assertion (a : AssertionStats) (t : stree) : stree :=
  match t with SNode i s l out err cs => SNode i s (l ++ [a]) out err cs end.
Definition with_children (cs : list stree) (t : stree) : stree :=
  match t with SNode i s l out err _ => SNode i s l out err cs end.
(** The output goes to the node with the number [j]. *)
Fixpoint t_output (j : nat) (o e : list byte) (t : stree) : stree :=
  match t with
  | SNode i s l out err cs =>
      let cs := t_output j o e <$> cs in
      if decide (i = j) then SNode i s l o e cs else SNode i s l out err cs
  end.

Lemma stree_induction (P : stree → Prop) :
  (∀ i s l out err cs, Forall P cs → P (SNode i s l out err cs)) → ∀ t, P t.
Proof.
  intros H. fix IH 1. intros [i s l out err cs]. apply H. induction cs; constructor; [apply IH|done].
Qed.

Lemma entries_eq t : entries t = (tid t, tnode t) :: concat (entries <$> tchildren t).
Proof. by destruct t. Qed.

(** ** The representation predicate *)
Definition rep (Σ : list SectionNode) (t : stree) : Prop := Forall (λ '(i, n), Σ !! i = Some n) (entries t).

Lemma rep_root Σ t : rep Σ t → Σ !! tid t = Some (tnode t).
Proof. unfold rep. rewrite entries_eq. by inversion 1. Qed.
Lemma rep_frame Σ Σ' t : rep Σ t → (∀ i, i ∈ ids t → Σ' !! i = Σ !! i) → rep Σ' t.
Proof.
  unfold rep, ids. rewrite !list.Forall_forall. intros H Hf [i n] Hin.
  rewrite Hf by (apply list_elem_of_fmap; by exists (i, n)). exact (H _ Hin).
Qed.
Lemma rep_bound Σ t i : rep Σ t → i ∈ ids t → (i < length Σ)%nat.
Proof.
  unfold rep, ids. rewrite list.Forall_forall. intros H Hi. apply list_elem_of_fmap in Hi as ([j n] & -> & Hin).
  specialize (H _ Hin). cbn in H |- *. by apply lookup_lt_Some in H.
Qed.
Lemma rep_child Σ t c : rep Σ t → c ∈ tchildren t → rep Σ c.
Proof.
  unfold rep. rewrite entries_eq. intros H Hc. apply list.Forall_cons in H as [_ H].
  rewrite Forall_concat, Forall_fmap in H. by eapply list.Forall_forall in H.
Qed.

(** One child and what is around it. *)
Definition around (pre : list stree) (j : nat) (post : list stree) (t : stree) : list (nat * SectionNode) :=
  match t with
  | SNode i s l out err _ =>
      (i, mk_SectionNode s ((tid <$> pre) ++ j :: (tid <$> post)) l out err) ::
      concat (entries <$> pre) ++ concat (entries <$> post)
  end.
Lemma middle_first {A} (x : A) a b c : x :: a ++ b ++ c ≡ₚ b ++ x :: a ++ c.
Proof. solve_Permutation. Qed.
Lemma entries_focus pre c post t :
  entries (with_children (pre ++ c :: post) t) ≡ₚ entries c ++ around pre (tid c) post t.
Proof.
  destruct t. cbn [with_children entries around]. rewrite !fmap_app, !fmap_cons, concat_app. cbn [concat].
  apply middle_first.
Qed.
Lemma rep_focus Σ pre c post t :
  rep Σ (with_children (pre ++ c :: post) t) ↔
  rep Σ c ∧ Forall (λ '(i, n), Σ !! i = Some n) (around pre (tid c) post t).
Proof. unfold rep. by rewrite entries_focus, Forall_app. Qed.
Lemma ids_focus pre c post t :
  ids (with_children (pre ++ c :: post) t) ≡ₚ ids c ++ (around pre (tid c) post t).*1.
Proof. unfold ids. by rewrite entries_focus, fmap_app. Qed.
Lemma with_children_self t : with_children (tchildren t) t = t.
Proof. by destruct t. Qed.

(** A change of the root of a tree that keeps its children. *)
Lemma rep_update Σ t t' f : rep Σ t → NoDup (ids t) → tid t' = tid t → tchildren t' = tchildren t →
  tnode t' = f (tnode t) → rep (<[tid t := f (tnode t)]> Σ) t'.
Proof.
  unfold rep, ids. rewrite !(entries_eq t), (entries_eq t'). intros H Hd Hi Hc Hn. rewrite Hi, Hc, Hn.
  cbn [fmap list_fmap] in Hd. apply list.NoDup_cons in Hd as [Hd _].
  apply list.Forall_cons in H as [Hr H]. constructor.
  - rewrite list_lookup_insert, decide_True; [done|]. split; [done|]. by eapply lookup_lt_Some.
  - rewrite list.Forall_forall in H |- *. intros [i n] Hin. rewrite list_lookup_insert_ne; [exact (H _ Hin)|].
    intros <-. apply Hd, list_elem_of_fmap. by exists (tid t, n).
Qed.

(** ** Trees that grow

    From one tree to the next, while nodes are made with numbers from [n] to [n']. *)
Definition all_assertions (Q : AssertionStats → Prop) (t : stree) : Prop :=
  Forall (λ '(_, n), Forall Q (node_assertions n)) (entries t).

Record grows (Q : AssertionStats → Prop) (n : nat) (t : stree) (n' : nat) (t' : stree) : Prop := {
  grows_number : (n ≤ n')%nat;
  grows_tid : tid t' = tid t;
  grows_distinct : NoDup (ids t');
  grows_keeps : ∀ i, i ∈ ids t → i ∈ ids t';
  grows_new : ∀ i, i ∈ ids t' → i ∈ ids t ∨ (n ≤ i < n')%nat;
  grows_readable : all_assertions Q t → all_assertions Q t'
}.

Lemma grows_refl Q n t : NoDup (ids t) → grows Q n t n t.
Proof. intros H. split; try done. by left. Qed.
Lemma grows_trans Q n t n1 t1 n2 t2 : grows Q n t n1 t1 → grows Q n1 t1 n2 t2 → grows Q n t n2 t2.
Proof.
  intros [] []. split; [lia|congruence|done|by eauto| |by eauto].
  intros i Hi. destruct (grows_new1 i Hi) as [H|H]; [|right; lia].
  destruct (grows_new0 i H); [by left|right; lia].
Qed.

(** A change of the root alone. *)
Lemma ids_root t t' : tid t' = tid t → tchildren t' = tchildren t → ids t' = ids t.
Proof. unfold ids. rewrite (entries_eq t), (entries_eq t'). by intros -> ->. Qed.
Lemma grows_root Q n t t' : NoDup (ids t) → tid t' = tid t → tchildren t' = tchildren t →
  (Forall Q (node_assertions (tnode t)) → Forall Q (node_assertions (tnode t'))) → grows Q n t n t'.
Proof.
  intros Hd Hi Hc HQ. assert (ids t' = ids t) as E by by apply ids_root. split; rewrite ?E; try done; [by left|].
  unfold all_assertions. rewrite (entries_eq t), (entries_eq t'), Hc, !list.Forall_cons. intros []. auto.
Qed.

Lemma all_assertions_focus Q pre c post t :
  all_assertions Q (with_children (pre ++ c :: post) t) ↔
  all_assertions Q c ∧ Forall (λ '(_, n), Forall Q (node_assertions n)) (around pre (tid c) post t).
Proof. unfold all_assertions. by rewrite entries_focus, Forall_app. Qed.

(** A child that grows makes its parent grow. *)
Lemma grows_child Q n n' pre c c' post t : grows Q n c n' c' →
  NoDup (ids (with_children (pre ++ c :: post) t)) →
  (∀ i, i ∈ ids (with_children (pre ++ c :: post) t) → (i < n)%nat) →
  grows Q n (with_children (pre ++ c :: post) t) n' (with_children (pre ++ c' :: post) t).
Proof.
  intros [] Hd Hb. assert (∀ i, i ∈ (around pre (tid c) post t).*1 → (i < n)%nat) as Ha.
  { intros i Hi. apply Hb. rewrite ids_focus. set_solver. }
  rewrite ids_focus in Hd. apply list.NoDup_app in Hd as (_ & Hx & Hr).
  split; [done|by destruct t| | | |].
  - rewrite ids_focus, grows_tid0, list.NoDup_app. split_and!; [done| |done].
    intros i Hi Hi'. destruct (grows_new0 i Hi) as [H|H]; [by eapply Hx|]. specialize (Ha i Hi'). lia.
  - intros i. rewrite !ids_focus, grows_tid0. rewrite !elem_of_app. intuition.
  - intros i. rewrite !ids_focus, grows_tid0. rewrite !elem_of_app. intros [H|H]; [|by intuition].
    destruct (grows_new0 i H); intuition.
  - rewrite !all_assertions_focus, grows_tid0. intuition.
Qed.

(** ** What the events inside a section do

    [gathers k es n t d n' t' d']: the events [es], the first one being number [k], make [t] into
    [t'] and the last started section [d] into [d'], while nodes [n] to [n'] are made. *)
Section gathering.
Context (no_seconds : list byte) (measure : nat → measured) (Q : AssertionStats → Prop).

Definition started (s : SectionInfo) : SectionStats := mk_SectionStats s no_counts no_seconds false.
Definition ended (s : SectionInfo) (c : Counts) (missing : bool) (k : nat) : SectionStats :=
  mk_SectionStats s c (ms_seconds (measure k)) missing.

(** What is kept of an assertion. *)
Definition kept (stats : AssertionStats) : outcome AssertionStats :=
  r ← prepareExpandedExpression (assertionResult stats);
  Done (mk_AssertionStats (copy_result r) (infoMessages stats) (as_totals stats)).

(** A section is a child met in an earlier cycle, or a new one. *)
Inductive enters (s : SectionInfo) (n : nat) (t : stree) : list stree → stree → list stree → nat → Prop :=
| enters_again pre c post :
    tchildren t = pre ++ c :: post → Forall (λ x, BySectionInfo s (tnode x) = false) pre →
    BySectionInfo s (tnode c) = true → enters s n t pre c post n
| enters_new :
    Forall (λ x, BySectionInfo s (tnode x) = false) (tchildren t) →
    enters s n t (tchildren t) (fresh n (started s)) [] (S n).

Inductive gathers : nat → list event → nat → stree → option nat → nat → stree → option nat → Prop :=
| gathers_done k n t d : gathers k [] n t d n t d
| gathers_ignored k e es n t d n' t' d' : ignored e = true →
    gathers (S k) es n t d n' t' d' → gathers k (e :: es) n t d n' t' d'
| gathers_assertion k stats a es n t d n' t' d' : kept stats = Done a → Q a →
    gathers (S k) es n (t_assertion a t) d n' t' d' →
    gathers k (assertionEnded_ stats :: es) n t d n' t' d'
| gathers_section k s inner s' cnt mis es n t d pre c post n1 n2 c' d2 n' t' d' :
    enters s n t pre c post n1 →
    gathers (S k) inner n1 c (Some (tid c)) n2 c' d2 →
    gathers (S (S k + length inner)) es n2
      (with_children (pre ++ t_stats (ended s' cnt mis (S k + length inner)) c' :: post) t) d2 n' t' d' →
    gathers k (sectionStarting s :: inner ++ sectionEnded_ s' cnt mis :: es) n t d n' t' d'.

Definition below (n : nat) (t : stree) : Prop := ∀ i, i ∈ ids t → (i < n)%nat.

Lemma grows_below n t n' t' : grows Q n t n' t' → below n t → below n' t'.
Proof. intros [] H i Hi. destruct (grows_new0 i Hi) as [Hi'|]; [|lia]. specialize (H i Hi'). lia. Qed.

Lemma fresh_ids i s : ids (fresh i s) = [i].
Proof. done. Qed.

Lemma enters_grows s n t pre c post n1 : enters s n t pre c post n1 → NoDup (ids t) → below n t →
  grows Q n t n1 (with_children (pre ++ c :: post) t).
Proof.
  intros [pre' c' post' Hc _ _|_] Hd Hb; [rewrite <-Hc, with_children_self; by apply grows_refl|].
  assert (ids (with_children (tchildren t ++ [fresh n (started s)]) t) ≡ₚ n :: ids t) as E.
  { rewrite ids_focus, fresh_ids. cbn [tid fresh app]. f_equiv. unfold ids. destruct t. cbn.
    by rewrite app_nil_r. }
  split; [lia|by destruct t| | | |].
  - rewrite E. apply list.NoDup_cons. split; [|done]. intros Hn. specialize (Hb n Hn). lia.
  - intros i Hi. rewrite E. by right.
  - intros i. rewrite E. intros [->|H]%elem_of_cons; [right; lia|by left].
  - rewrite all_assertions_focus. intros H. split; [by repeat constructor|].
    unfold all_assertions in H. destruct t. cbn in *. rewrite app_nil_r. by inversion H; constructor.
Qed.
Lemma focus_ids n pre c post t : let T := with_children (pre ++ c :: post) t in
  NoDup (ids T) → below n T → NoDup (ids c) ∧ below n c ∧ ∀ i, i ∈ ids c → i ∈ ids T.
Proof.
  intros T Hd Hb. subst T. assert (∀ i, i ∈ ids c → i ∈ ids (with_children (pre ++ c :: post) t)) as Hi.
  { intros i Hi. rewrite ids_focus. apply elem_of_app. by left. }
  split_and!; [|intros i H; by apply Hb, Hi|exact Hi].
  rewrite ids_focus in Hd. by apply list.NoDup_app in Hd as [Hd _].
Qed.

(** The child after its section's end. *)
Lemma ended_grows n c n' c' s : grows Q n c n' c' → grows Q n c n' (t_stats s c').
Proof.
  intros H. eapply grows_trans; [exact H|]. destruct H. apply grows_root; [done|by destruct c'..].
Qed.

(** One section as a whole: the tree grows while its children change. *)
Lemma section_grows s n t pre c post n1 n2 c' st :
  enters s n t pre c post n1 → NoDup (ids t) → below n t → grows Q n1 c n2 c' →
  grows Q n t n2 (with_children (pre ++ t_stats st c' :: post) t) ∧
  ∀ i, i ∈ ids c' → i ∈ ids (with_children (pre ++ t_stats st c' :: post) t).
Proof.
  intros He Hd Hb Hc. pose proof (enters_grows _ _ _ _ _ _ _ He Hd Hb) as G1. split.
  - eapply grows_trans; [exact G1|]. apply grows_child; [by apply ended_grows|by destruct G1|].
    by eapply grows_below.
  - intros i Hi. rewrite ids_focus. apply elem_of_app. left.
    by rewrite (ids_root c' (t_stats st c')) by by destruct c'.
Qed.

Lemma gathers_grows k es n t d n' t' d' : gathers k es n t d n' t' d' → NoDup (ids t) → below n t →
  grows Q n t n' t' ∧ (d' = d ∨ ∃ i, d' = Some i ∧ i ∈ ids t').
Proof.
  induction 1 as [k n t d|k e es n t d n' t' d' _ _ IH|k stats a es n t d n' t' d' _ Ha _ IH
    |k s inner s' cnt mis es n t d pre c post n1 n2 c' d2 n' t' d' He _ IHi _ IH]; intros Hd Hb.
  - split; [by apply grows_refl|by left].
  - by apply IH.
  - assert (grows Q n t n (t_assertion a t)) as G.
    { apply grows_root; [done|by destruct t..|]. destruct t. cbn. intros H. apply Forall_app. auto. }
    destruct IH as [G' Hd']; [by destruct G|by eapply grows_below|].
    split; [by eapply grows_trans|done].
  - pose proof (enters_grows _ _ _ _ _ _ _ He Hd Hb) as G1.
    destruct (focus_ids n1 pre c post t) as (Hdc & Hbc & _); [by destruct G1|by eapply grows_below|].
    destruct (IHi Hdc Hbc) as [G2 H2].
    destruct (section_grows s n t pre c post n1 n2 c' (ended s' cnt mis (S k + length inner)) He Hd Hb G2)
      as [G3 Hsub].
    destruct IH as [G4 H4]; [by destruct G3|by eapply grows_below|]. split; [by eapply grows_trans|].
    destruct H4 as [->|H4]; [|by right]. right. destruct G4 as [_ _ _ Hk _ _].
    destruct H2 as [->|(i & -> & Hi)]; (eexists; split; [reflexivity|]); apply Hk, Hsub; [|done].
    destruct G2 as [_ Ht _ _ _ _]. rewrite <-Ht. unfold ids. rewrite entries_eq. by left.
Qed.

(** ** The handlers do just that *)
Fixpoint cum_handle_all (k : nat) (es : list event) : cum unit :=
  match es with
  | [] => mret tt
  | e :: es => _ ← cum_handle no_seconds (measure k) e; cum_handle_all (S k) es
  end.

Lemma cum_handle_app a : ∀ k b c c', cum_handle_all k a c = Done (tt, c') →
  cum_handle_all k (a ++ b) c = cum_handle_all (k + length a) b c'.
Proof.
  induction a as [|e a IH]; intros k b c c' H; cbn [app length].
  - injection H as ->. by rewrite Nat.add_0_r.
  - apply st_bind_inv in H as ([] & c1 & He & H). eapply bind_step; [exact He|].
    rewrite (IH _ _ _ _ H). f_equal. lia.
Qed.

(** The state with the nodes [Σ] and the last started section [d]. *)
Definition moved (Σ : list SectionNode) (d : option nat) (c : CumulativeReporterBase)
    : CumulativeReporterBase := set_deepestSection d (set_nodes Σ c).

Record holds (c : CumulativeReporterBase) (stk : list nat) (n : nat) (t : stree) (d : option nat) : Prop := {
  holds_rep : rep (nodes c) t;
  holds_length : length (nodes c) = n;
  holds_stack : cm_sectionStack c = stk ++ [tid t];
  holds_deepest : m_deepestSection c = d
}.

(** Nodes outside the tree that were there before are left alone. *)
Definition framed (n : nat) (t : stree) (Σ Σ' : list SectionNode) : Prop :=
  ∀ i, (i < n)%nat → i ∉ ids t → Σ' !! i = Σ !! i.

Lemma tid_in t : tid t ∈ ids t.
Proof. unfold ids. rewrite entries_eq. by left. Qed.

Lemma framed_root n t f (Σ : list SectionNode) : framed n t Σ (<[tid t := f]> Σ).
Proof. intros i _ Hi. apply list_lookup_insert_ne. intros <-. apply Hi, tid_in. Qed.

Lemma cum_node_ok i n c : nodes c !! i = Some n → get_node i c = Done (n, c).
Proof. intros H. eapply bind_step; [done|]. unfold st_lift. by rewrite H. Qed.
Lemma update_node_ok f i n c : nodes c !! i = Some n →
  update_node f i c = Done (tt, set_nodes (<[i := f n]> (nodes c)) c).
Proof. intros H. by eapply bind_step; [by apply cum_node_ok|]. Qed.

Lemma assertion_kept c stk n t d stats a : holds c stk n t d → kept stats = Done a →
  cum_assertionEnded stats c = Done (tt, set_nodes (<[tid t := with_assertion a (tnode t)]> (nodes c)) c).
Proof.
  intros [Hr _ Hs _] Hk. unfold kept in Hk. apply bind_Done in Hk as (r & Hp & [= <-]).
  unfold cum_assertionEnded. eapply bind_step; [done|]. rewrite Hs, rev_app_distr. cbn [rev app].
  eapply bind_step; [unfold st_lift; by rewrite Hp|]. by apply update_node_ok, rep_root.
Qed.

Lemma section_closed c stk t st : rep (nodes c) t → cm_sectionStack c = stk ++ [tid t] →
  cum_sectionEnded st c =
    Done (tt, set_sectionStack stk (set_nodes (<[tid t := with_stats st (tnode t)]> (nodes c)) c)).
Proof.
  intros Hr Hs. unfold cum_sectionEnded. eapply bind_step; [done|]. rewrite Hs, rev_app_distr. cbn [rev app].
  eapply bind_step; [by apply update_node_ok, rep_root|]. cbn. by rewrite rev_involutive.
Qed.

(** The search among the children. *)
Lemma find_child_none s c cs : Forall (rep (nodes c)) cs →
  Forall (λ x, BySectionInfo s (tnode x) = false) cs → find_child s (tid <$> cs) c = Done (None, c).
Proof.
  induction 1 as [|x cs Hx _ IH]; intros Hf; [done|]. apply list.Forall_cons in Hf as [Hs Hf].
  cbn [fmap list_fmap find_child]. eapply bind_step; [by apply cum_node_ok, rep_root|].
  rewrite Hs. by apply IH.
Qed.
Lemma find_child_some s c pre x post : Forall (rep (nodes c)) (pre ++ x :: post) →
  Forall (λ x, BySectionInfo s (tnode x) = false) pre → BySectionInfo s (tnode x) = true →
  find_child s (tid <$> pre ++ x :: post) c = Done (Some (tid x), c).
Proof.
  intros Hr Hf Hx. induction Hf as [|y pre Hy _ IH]; cbn [app fmap list_fmap find_child].
  - apply list.Forall_cons in Hr as [Hr _]. eapply bind_step; [by apply cum_node_ok, rep_root|]. by rewrite Hx.
  - apply list.Forall_cons in Hr as [Hr' Hr]. eapply bind_step; [by apply cum_node_ok, rep_root|].
    rewrite Hy. by apply IH.
Qed.

Lemma rep_children Σ t : rep Σ t → Forall (rep Σ) (tchildren t).
Proof. intros H. apply list.Forall_forall. intros c. by apply rep_child. Qed.

Lemma rep_new Σ t s : rep Σ t → NoDup (ids t) →
  rep (<[tid t := with_child (length Σ) (tnode t)]> (Σ ++ [new_SectionNode s]))
    (with_children (tchildren t ++ [fresh (length Σ) s]) t).
Proof.
  intros Hr Hd. assert (tid t < length Σ)%nat as Hlt by (eapply rep_bound; [done|apply tid_in]).
  assert (rep (Σ ++ [new_SectionNode s]) t) as Hr'.
  { eapply rep_frame; [exact Hr|]. intros i Hi. apply lookup_app_l. by eapply rep_bound. }
  apply rep_focus. split.
  - constructor; [|done]. cbn. rewrite list_lookup_insert_ne by lia.
    by rewrite lookup_app_r, Nat.sub_diag.
  - destruct t as [i st l out err cs]. cbn [tid fresh around tchildren tnode] in *.
    cbn [fmap list_fmap concat]. rewrite app_nil_r. unfold rep in Hr'. cbn [entries] in Hr'.
    apply list.Forall_cons in Hr' as [Hroot Hrest]. unfold ids in Hd. cbn [entries fmap list_fmap] in Hd.
    apply list.NoDup_cons in Hd as [Hd _]. constructor.
    + rewrite list_lookup_insert, decide_True; [done|]. split; [done|]. by eapply lookup_lt_Some.
    + rewrite list.Forall_forall in Hrest |- *. intros [j n] Hin.
      rewrite list_lookup_insert_ne; [exact (Hrest _ Hin)|]. intros <-. apply Hd, list_elem_of_fmap.
      by exists (i, n).
Qed.

Lemma section_entered s c stk n t d pre x post n1 : holds c stk n t d → NoDup (ids t) →
  enters s n t pre x post n1 → ∃ Σ1,
  cum_sectionStarting no_seconds s c =
    Done (tt, set_sectionStack (cm_sectionStack c ++ [tid x]) (moved Σ1 (Some (tid x)) c)) ∧
  rep Σ1 (with_children (pre ++ x :: post) t) ∧ length Σ1 = n1 ∧ framed n t (nodes c) Σ1.
Proof.
  intros [Hr Hl Hs _] Hd He. unfold cum_sectionStarting.
  pose proof (rep_root _ _ Hr) as Hroot. pose proof (rep_children _ _ Hr) as Hch.
  assert (childSections (tnode t) = tid <$> tchildren t) as Ec by by destruct t.
  destruct He as [pre x post Hc Hf Hx|Hf].
  - exists (nodes c). rewrite <-Hc, with_children_self. split; [|by repeat split].
    eapply bind_step; [done|]. rewrite Hs, rev_app_distr. cbn [rev app]. eapply bind_step.
    { eapply bind_step; [by apply cum_node_ok|]. rewrite Ec, Hc.
      eapply bind_step; [apply find_child_some; [by rewrite <-Hc|done|done]|]. done. }
    eapply bind_step; [done|]. unfold moved, st_modify. cbn. rewrite Hs. by destruct c.
  - eexists. split; [|split; [rewrite <-Hl; by apply rep_new|]].
    + eapply bind_step; [done|]. rewrite Hs, rev_app_distr. cbn [rev app]. eapply bind_step.
      { eapply bind_step; [by apply cum_node_ok|]. rewrite Ec.
        eapply bind_step; [by apply find_child_none|].
        eapply bind_step; [by eapply bind_step; [done|]|].
        eapply bind_step; [apply update_node_ok; cbn; by apply lookup_app_l_Some|]. done. }
      eapply bind_step; [done|]. unfold moved, st_modify. cbn. by rewrite Hs, Hl.
    + rewrite length_insert, length_app. cbn. split; [lia|]. intros i Hi Hn.
      rewrite list_lookup_insert_ne; [apply lookup_app_l; lia|]. intros <-. apply Hn, tid_in.
Qed.

(** The child after its section, put back into its place. *)
Lemma rep_child_back Σ1 Σ2 n1 pre x x' post t st :
  rep Σ1 (with_children (pre ++ x :: post) t) → NoDup (ids (with_children (pre ++ x :: post) t)) →
  length Σ1 = n1 → rep Σ2 x' → tid x' = tid x → NoDup (ids x') → framed n1 x Σ1 Σ2 →
  rep (<[tid x' := with_stats st (tnode x')]> Σ2) (with_children (pre ++ t_stats st x' :: post) t).
Proof.
  intros H1 Hd Hl H2 Ht Hd' Hf. assert (tid (t_stats st x') = tid x) as Ht' by (rewrite <-Ht; by destruct x').
  pose proof (rep_bound Σ1 (with_children (pre ++ x :: post) t)) as Hb.
  apply rep_focus in H1 as H. destruct H as [_ Ha]. apply rep_focus. split.
  - by apply rep_update; [..|destruct x'|destruct x'|destruct x'].
  - rewrite Ht'. rewrite ids_focus in Hd. apply list.NoDup_app in Hd as (_ & Hx & _).
    rewrite list.Forall_forall in Ha |- *. intros [i n] Hin.
    assert (i ∈ (around pre (tid x) post t).*1) as Hi by (apply list_elem_of_fmap; by exists (i, n)).
    assert (i ∉ ids x) as Hni by (intros Hix; by eapply Hx).
    rewrite list_lookup_insert_ne by (rewrite Ht; intros <-; apply Hni, tid_in).
    rewrite Hf; [exact (Ha _ Hin)| |done]. rewrite <-Hl. apply Hb; [done|].
    rewrite ids_focus. apply elem_of_app. by right.
Qed.

Lemma framed_trans n t n1 t1 Σ Σ1 Σ2 : grows Q n t n1 t1 → framed n t Σ Σ1 → framed n1 t1 Σ1 Σ2 →
  framed n t Σ Σ2.
Proof.
  intros G F1 F2 i Hi Hn. destruct G. rewrite F2; [by apply F1|lia|].
  intros Hx. destruct (grows_new0 i Hx); [done|lia].
Qed.

Lemma framed_child n t n1 pre x post Σ1 Σ2 : let T := with_children (pre ++ x :: post) t in
  grows Q n t n1 T → framed n1 x Σ1 Σ2 → framed n t Σ1 Σ2.
Proof.
  intros T G F i Hi Hn. destruct G. apply F; [lia|]. intros Hx.
  destruct (grows_new0 i) as [H|H]; [|done|lia]. unfold T. rewrite ids_focus. apply elem_of_app. by left.
Qed.

Lemma gathers_ok k es n t d n' t' d' : gathers k es n t d n' t' d' → ∀ c stk,
  holds c stk n t d → NoDup (ids t) → ∃ Σ',
  cum_handle_all k es c = Done (tt, moved Σ' d' c) ∧ rep Σ' t' ∧ length Σ' = n' ∧ framed n t (nodes c) Σ'.
Proof.
  induction 1 as [k n t d|k e es n t d n' t' d' He _ IH|k stats a es n t d n' t' d' Hk Ha _ IH
    |k s inner s' cnt mis es n t d pre x post n1 n2 x' d2 n' t' d' He Hin IHi _ IH]; intros c stk Hc Hd.
  - destruct Hc as [Hr Hl Hs <-]. exists (nodes c). split; [by destruct c|by repeat split].
  - destruct (IH c stk Hc Hd) as (Σ' & E & H). exists Σ'. split; [|exact H].
    eapply bind_step; [by destruct e|]. exact E.
  - pose proof (assertion_kept _ _ _ _ _ _ _ Hc Hk) as E1. destruct Hc as [Hr Hl Hs Hdp].
    destruct (IH (set_nodes (<[tid t := with_assertion a (tnode t)]> (nodes c)) c) stk) as (Σ' & E & Hr' & Hl' & F).
    + split; cbn; [by apply rep_update; [..|destruct t|destruct t|destruct t]|by rewrite length_insert| |done].
      rewrite Hs. by destruct t.
    + by rewrite (ids_root t) by by destruct t.
    + exists Σ'. split; [eapply bind_step; [exact E1|exact E]|]. split; [done|]. split; [done|].
      intros i Hi Hn. rewrite F; [by apply framed_root with n|done|]. by rewrite (ids_root t) by by destruct t.
  - assert (below n t) as Hb. { intros i Hi. destruct Hc as [Hr <- _ _]. by eapply rep_bound. }
    destruct (section_entered s c stk n t d pre x post n1 Hc Hd He) as (Σ1 & E1 & R1 & L1 & F1).
    pose proof (enters_grows _ _ _ _ _ _ _ He Hd Hb) as G1.
    assert (NoDup (ids (with_children (pre ++ x :: post) t))) as Hd1 by by destruct G1.
    destruct (focus_ids n1 pre x post t Hd1) as (Hdx & Hbx & _); [by eapply grows_below|].
    destruct (IHi (set_sectionStack (cm_sectionStack c ++ [tid x]) (moved Σ1 (Some (tid x)) c))
      (cm_sectionStack c)) as (Σ2 & E2 & R2 & L2 & F2); [|done|].
    { split; cbn; [by apply rep_focus in R1 as [R1 _]|done..]. }
    destruct (gathers_grows _ _ _ _ _ _ _ _ Hin Hdx Hbx) as [G2 _].
    set (st := ended s' cnt mis (S k + length inner)).
    set (Σ3 := <[tid x' := with_stats st (tnode x')]> Σ2).
    destruct (section_grows s n t pre x post n1 n2 x' st He Hd Hb G2) as [G3 _].
    assert (framed n t (nodes c) Σ3) as F3.
    { intros i Hi Hn. unfold Σ3. rewrite list_lookup_insert_ne.
      - rewrite (framed_child n t n1 pre x post Σ1 Σ2 G1 F2) by done. by apply F1.
      - intros <-. destruct G1, G2. rewrite grows_tid1 in *. destruct (grows_new0 (tid x)); [|done|lia].
        rewrite ids_focus. apply elem_of_app. left. apply tid_in. }
    destruct (IH (moved Σ3 d2 c) stk) as (Σ' & E & R' & L' & F').
    + split; cbn; [|by unfold Σ3; rewrite length_insert| |done].
      * eapply rep_child_back; try done; by destruct G2.
      * destruct Hc as [_ _ -> _]. by destruct t.
    + by destruct G3.
    + exists Σ'. split; [|split; [done|split; [done|]]]; [|by eapply framed_trans].
      eapply bind_step; [exact E1|]. rewrite (cum_handle_app _ _ _ _ _ E2).
      eapply bind_step; [|exact E].
      cbn [cum_handle]. erewrite (section_closed _ (cm_sectionStack c) x'); [|done|].
      * fold (ended s' cnt mis (S k + length inner)). fold st. by destruct c.
      * destruct G2 as [_ <- _ _ _ _]. done.
Qed.
End gathering.
