(* ===== verification/CatchCumulativeCases.v ===== *)
(** * Test cases and groups in the cumulative reporters

    From the events of a test case, one or more cycles of sections, to the tree they leave; and
    from a group of test cases to the list of their trees. *)
From stdpp Require Import strings list.
From S2P Require Import Prelude CatchString CatchTest CatchResult CatchTracker CatchRun.
From S2P Require Import CatchText CatchClara CatchConfig CatchXml CatchXmlReporter CatchCumulative.
From S2P Require Import CatchRunProps CatchRunSections CatchRunGroups CatchCumulativeProps.

Section cases.
Context (no_seconds : list byte) (measure : nat → measured) (Q : AssertionStats → Prop).

(** ** Cycles

    [gathers_cycles k es n root d n' root' d']: the root is made in the first cycle. *)
Inductive opens (s : SectionInfo) (n : nat) : option stree → stree → nat → Prop :=
| opens_again t : opens s n (Some t) t n
| opens_new : opens s n None (fresh n (started no_seconds s)) (S n).

Inductive gathers_cycles :
    nat → list event → nat → option stree → option nat → nat → option stree → option nat → Prop :=
| cycles_done k n root d : gathers_cycles k [] n root d n root d
| cycles_ignored k e es n root d n' root' d' : ignored e = true →
    gathers_cycles (S k) es n root d n' root' d' → gathers_cycles k (e :: es) n root d n' root' d'
| cycles_section k s inner s' cnt mis es n root d t n1 n2 t2 d2 n' root' d' :
    opens s n root t n1 →
    gathers no_seconds measure Q (S k) inner n1 t (Some (tid t)) n2 t2 d2 →
    gathers_cycles (S (S k + length inner)) es n2
      (Some (t_stats (ended measure s' cnt mis (S k + length inner)) t2)) d2 n' root' d' →
    gathers_cycles k (sectionStarting s :: inner ++ sectionEnded_ s' cnt mis :: es) n root d n' root' d'.

(** The state between cycles; the last started section is one of the tree. *)
Definition root_ids (root : option stree) : list nat := match root with Some t => ids t | None => [] end.
Record between_cycles (Σ : list SectionNode) (n : nat) (root : option stree) (d : option nat) : Prop := {
  bc_rep : ∀ t, root = Some t → rep Σ t ∧ NoDup (ids t) ∧ ∃ i, d = Some i ∧ i ∈ ids t;
  bc_length : length Σ = n;
  bc_readable : ∀ t, root = Some t → all_assertions Q t
}.

Definition with_root (root : option stree) (c : CumulativeReporterBase) : CumulativeReporterBase :=
  set_rootSection (tid <$> root) c.

Lemma root_opened s n root t n1 c : cm_sectionStack c = [] → m_rootSection c = tid <$> root →
  opens s n root t n1 → between_cycles (nodes c) n root (m_deepestSection c) → ∃ Σ1,
  cum_sectionStarting no_seconds s c =
    Done (tt, set_sectionStack [tid t] (with_root (Some t) (moved Σ1 (Some (tid t)) c))) ∧
  rep Σ1 t ∧ NoDup (ids t) ∧ all_assertions Q t ∧ length Σ1 = n1 ∧ (n ≤ n1)%nat ∧
  (∀ i, i ∈ ids t → i ∈ root_ids root ∨ (n ≤ i)%nat) ∧
  (∀ i, (i < n)%nat → i ∉ root_ids root → Σ1 !! i = nodes c !! i).
Proof.
  intros Hs Hr Ho [Hrep Hl Ha]. unfold cum_sectionStarting. destruct Ho as [t|].
  - destruct (Hrep t eq_refl) as (R & D & _). exists (nodes c). split_and!; try done; [|by auto|by left].
    eapply bind_step; [done|]. rewrite Hs. cbn [rev]. rewrite Hr. eapply bind_step; [done|].
    eapply bind_step; [done|]. cbn. rewrite Hs. by destruct c; cbn in *; subst.
  - eexists (nodes c ++ [_]). split_and!.
    + eapply bind_step; [done|]. rewrite Hs. cbn [rev]. rewrite Hr. cbn [fmap option_fmap option_map].
      eapply bind_step; [eapply bind_step; [by eapply bind_step|]; by eapply bind_step|].
      eapply bind_step; [done|]. cbn. by rewrite Hs, Hl.
    + constructor; [|constructor]. cbn. by rewrite lookup_app_r, Hl, Nat.sub_diag by lia.
    + rewrite fresh_ids. repeat constructor. set_solver.
    + by repeat constructor.
    + rewrite length_app. cbn. lia.
    + lia.
    + intros i. rewrite fresh_ids, list_elem_of_singleton. intros ->. by right.
    + intros i Hi _. apply lookup_app_l. lia.
Qed.

Lemma gathers_cycles_ok k es n root d n' root' d' : gathers_cycles k es n root d n' root' d' → ∀ c,
  cm_sectionStack c = [] → m_rootSection c = tid <$> root → m_deepestSection c = d →
  between_cycles (nodes c) n root d → ∃ Σ',
  cum_handle_all no_seconds measure k es c = Done (tt, with_root root' (moved Σ' d' c)) ∧
  between_cycles Σ' n' root' d' ∧ (n ≤ n')%nat ∧
  (∀ i, i ∈ root_ids root' → i ∈ root_ids root ∨ (n ≤ i)%nat) ∧
  (∀ i, (i < n)%nat → i ∉ root_ids root → Σ' !! i = nodes c !! i).
Proof.
  induction 1 as [k n root d|k e es n root d n' root' d' He _ IH
    |k s inner s' cnt mis es n root d t n1 n2 t2 d2 n' root' d' Ho Hin _ IH]; intros c Hs Hr Hd Hb.
  - exists (nodes c). split_and!; [|done|lia|by left|done]. unfold with_root, moved. rewrite <-Hr, <-Hd. by destruct c.
  - destruct (IH c Hs Hr Hd Hb) as (Σ' & E & H). exists Σ'. split; [|exact H].
    eapply bind_step; [by destruct e|]. exact E.
  - rewrite <-Hd in Hb. destruct (root_opened s n root t n1 c Hs Hr Ho Hb)
      as (Σ1 & E1 & R1 & D1 & A1 & L1 & N1 & I1 & F1).
    set (c1 := set_sectionStack [tid t] (with_root (Some t) (moved Σ1 (Some (tid t)) c))) in *.
    destruct (gathers_ok _ _ _ _ _ _ _ _ _ _ _ Hin c1 []) as (Σ2 & E2 & R2 & L2 & F2); [by split|done|].
    destruct (gathers_grows _ _ _ _ _ _ _ _ _ _ _ Hin D1) as [G2 H2].
    { intros i Hi. rewrite <-L1. by eapply rep_bound. }
    set (st := ended measure s' cnt mis (S k + length inner)).
    set (Σ3 := <[tid t2 := with_stats st (tnode t2)]> Σ2). pose proof G2 as [Gn Gt Gd Gk Gw Ga].
    destruct (IH (with_root (Some (t_stats st t2)) (moved Σ3 d2 c))) as (Σ' & E & B & N & I' & F); [done..| |].
    + split; [|unfold Σ3; cbn; by rewrite length_insert|].
      * intros _ [= <-]. rewrite (ids_root t2) by by destruct t2. split_and!; [|done|].
        -- by apply rep_update; [..|destruct t2|destruct t2|destruct t2].
        -- destruct H2 as [->|H2]; [|done]. eexists. split; [done|]. rewrite <-Gt. apply tid_in.
      * intros _ [= <-]. destruct (ended_grows Q _ _ _ _ st G2) as [_ _ _ _ _ Ha]. auto.
    + assert (∀ i, i ∈ ids t2 → i ∈ root_ids root ∨ (n ≤ i)%nat) as I2.
      { intros i Hi. destruct (Gw i Hi) as [H|H]; [by apply I1|right; lia]. }
      cbn [root_ids] in I', F. rewrite (ids_root t2) in I', F by by destruct t2.
      exists Σ'. split_and!; [|done|lia| |].
      * eapply bind_step; [exact E1|]. rewrite (cum_handle_app _ _ _ _ _ _ _ E2).
        eapply bind_step; [|exact E]. cbn [cum_handle]. erewrite (section_closed _ [] t2); [|done|].
        -- assert (tid <$> Some (t_stats st t2) = Some (tid t)) as Et by (rewrite <-Gt; by destruct t2).
           unfold c1, with_root. rewrite Et. fold st. destruct c. cbn in Hs. by subst.
        -- cbn. by rewrite Gt.
      * intros i Hi. destruct (I' i Hi) as [H|H]; [by apply I2|right; lia].
      * intros i Hi Hn. rewrite F; [|lia|by intros Hx; destruct (I2 i Hx); [done|lia]].
        unfold with_root, moved. cbn [nodes set_rootSection set_deepestSection set_nodes]. unfold Σ3.
        assert (i ∉ ids t) as Ht by (intros Hx; destruct (I1 i Hx); [done|lia]).
        rewrite list_lookup_insert_ne by (rewrite Gt; intros <-; apply Ht, tid_in).
        rewrite F2 by (done || lia). by apply F1.
Qed.

(** ** The end of a test case *)
Definition outputting (j : nat) (o e : list byte) (p : nat * SectionNode) : nat * SectionNode :=
  (p.1, if decide (p.1 = j) then with_output o e p.2 else p.2).
Lemma t_output_tid j o e t : tid (t_output j o e t) = tid t.
Proof. destruct t. cbn. by destruct (decide _). Qed.
Lemma entries_output j o e t : entries (t_output j o e t) = outputting j o e <$> entries t.
Proof.
  induction t as [i s l out err cs IH] using stree_induction.
  assert (concat (entries <$> (t_output j o e <$> cs)) = outputting j o e <$> concat (entries <$> cs)) as Ec.
  { induction IH as [|c cs Hc _ IH]; [done|]. cbn. by rewrite fmap_app, IH, Hc. }
  assert (tid <$> (t_output j o e <$> cs) = tid <$> cs) as Et.
  { rewrite <-list_fmap_compose. apply list_fmap_ext. intros _ c _. apply t_output_tid. }
  cbn [t_output entries fmap list_fmap]. unfold outputting at 1. cbn [fst snd].
  destruct (decide (i = j)); cbn [entries]; by rewrite Ec, Et.
Qed.
Lemma t_output_ids j o e t : ids (t_output j o e t) = ids t.
Proof. unfold ids. rewrite entries_output, <-list_fmap_compose. by apply list_fmap_ext. Qed.

Lemma rep_output Σ t j n o e : rep Σ t → Σ !! j = Some n →
  rep (<[j := with_output o e n]> Σ) (t_output j o e t).
Proof.
  unfold rep. rewrite entries_output, Forall_fmap, !list.Forall_forall. intros H Hj [i m] Hin.
  specialize (H _ Hin). cbn in H |- *. destruct (decide (i = j)) as [->|Hij].
  - rewrite list_lookup_insert, decide_True by (split; [done|by eapply lookup_lt_Some]). congruence.
  - by rewrite list_lookup_insert_ne.
Qed.
Lemma all_assertions_output j o e t : all_assertions Q t → all_assertions Q (t_output j o e t).
Proof.
  unfold all_assertions. rewrite entries_output, Forall_fmap. intros H.
  apply (list.Forall_impl _ _ _ H). intros [i n] Hn. cbn. by destruct (decide _).
Qed.

Lemma rep_lookup Σ t i : rep Σ t → i ∈ ids t → ∃ n, Σ !! i = Some n.
Proof. intros Hr Hi. apply lookup_lt_is_Some_2. by eapply rep_bound. Qed.

(** ** Groups *)
Definition case_stats (k : nat) (t : TestCaseInfo) (totals : Totals) (ab : bool) : TestCaseStats :=
  mk_TestCaseStats t totals (ms_stdOut (measure k)) (ms_stdErr (measure k)) ab.

Inductive gathers_group :
    nat → list event → nat → option nat → nat → option nat → list (TestCaseStats * stree) → Prop :=
| group_done k n d : gathers_group k [] n d n d []
| group_ignored k e es n d n' d' cs : ignored e = true →
    gathers_group (S k) es n d n' d' cs → gathers_group k (e :: es) n d n' d' cs
| group_test k t inner t' totals ab es n d n1 tree i n' d' cs :
    gathers_cycles (S k) inner n None d n1 (Some tree) (Some i) →
    gathers_group (S (S k + length inner)) es n1 (Some i) n' d' cs →
    let st := case_stats (S k + length inner) t' totals ab in
    gathers_group k (testCaseStarting t :: inner ++ testCaseEnded t' totals ab :: es) n d n' d'
      ((st, t_output i (tcs_stdOut st) (tcs_stdErr st) tree) :: cs).

Definition case_node (p : TestCaseStats * stree) : TestCaseNode := mk_TestCaseNode p.1 [Some (tid p.2)].
Definition gathered (Σ : list SectionNode) (p : TestCaseStats * stree) : Prop :=
  rep Σ p.2 ∧ NoDup (ids p.2) ∧ all_assertions Q p.2.

Lemma test_case_gathered k inner n d n1 tree i c t' totals ab :
  gathers_cycles (S k) inner n None d n1 (Some tree) (Some i) →
  cm_sectionStack c = [] → m_rootSection c = None → m_deepestSection c = d → length (nodes c) = n →
  let st := case_stats (S k + length inner) t' totals ab in
  let tree' := t_output i (tcs_stdOut st) (tcs_stdErr st) tree in ∃ Σ',
  cum_handle_all no_seconds measure (S k) (inner ++ [testCaseEnded t' totals ab]) c =
    Done (tt, set_testCases (m_testCases c ++ [case_node (st, tree')]) (moved Σ' (Some i) c)) ∧
  gathered Σ' (st, tree') ∧ length Σ' = n1 ∧ (n ≤ n1)%nat ∧
  (∀ j, (j < n)%nat → Σ' !! j = nodes c !! j).
Proof.
  intros Hc Hs Hr Hd Hl st tree'.
  destruct (gathers_cycles_ok _ _ _ _ _ _ _ _ Hc c Hs Hr Hd) as (Σ1 & E & [B1 B2 B3] & N & I' & F); [by split|].
  destruct (B1 tree eq_refl) as (R & D & j & [= <-] & Hi). destruct (rep_lookup _ _ _ R Hi) as [m Hm].
  exists (<[i := with_output (tcs_stdOut st) (tcs_stdErr st) m]> Σ1). split_and!; [| |by rewrite length_insert|done|].
  - rewrite (cum_handle_app _ _ _ _ _ _ _ E). eapply bind_step; [|done].
    cbn [cum_handle]. unfold cum_testCaseEnded. eapply bind_step; [done|]. cbn [cm_sectionStack with_root moved
      set_rootSection set_deepestSection set_nodes]. rewrite Hs. eapply bind_step; [done|].
    do 3 (eapply bind_step; [done|]). cbn. erewrite update_node_ok by exact Hm.
    unfold case_node. cbn [fst snd]. unfold tree'. rewrite t_output_tid. destruct c. cbn in *. by subst.
  - split_and!; cbn [snd]; [by apply rep_output|by unfold tree'; rewrite t_output_ids|].
    apply all_assertions_output. by apply B3.
  - intros j Hj. rewrite list_lookup_insert_ne; [apply F; [done|set_solver]|].
    intros <-. destruct (I' i Hi) as [H|H]; [set_solver|lia].
Qed.

Lemma gathered_framed Σ Σ' n p : gathered Σ p → length Σ = n →
  (∀ j, (j < n)%nat → Σ' !! j = Σ !! j) → gathered Σ' p.
Proof.
  intros (R & D & A) Hl F. split_and!; [|done|done]. eapply rep_frame; [exact R|]. intros i Hi. apply F.
  rewrite <-Hl. by eapply rep_bound.
Qed.

Lemma gathers_group_ok k es n d n' d' cs : gathers_group k es n d n' d' cs → ∀ c,
  cm_sectionStack c = [] → m_rootSection c = None → m_deepestSection c = d → length (nodes c) = n → ∃ Σ',
  cum_handle_all no_seconds measure k es c =
    Done (tt, set_testCases (m_testCases c ++ (case_node <$> cs)) (moved Σ' d' c)) ∧
  Forall (gathered Σ') cs ∧ length Σ' = n' ∧ (n ≤ n')%nat ∧ (∀ j, (j < n)%nat → Σ' !! j = nodes c !! j).
Proof.
  induction 1 as [k n d|k e es n d n' d' cs He _ IH|k t inner t' totals ab es n d n1 tree i n' d' cs Hc _ IH st];
    intros c Hs Hr Hd Hl.
  - exists (nodes c). split_and!; try done. rewrite app_nil_r. destruct c. cbn in *. by subst.
  - destruct (IH c Hs Hr Hd Hl) as (Σ' & E & H). exists Σ'. split; [|exact H].
    eapply bind_step; [by destruct e|]. exact E.
  - destruct (test_case_gathered _ _ _ _ _ _ _ c t' totals ab Hc Hs Hr Hd Hl) as (Σ1 & E1 & G1 & L1 & N1 & F1).
    fold st in E1, G1. set (tree' := t_output _ _ _ tree) in *.
    destruct (IH (set_testCases (m_testCases c ++ [case_node (st, tree')]) (moved Σ1 (Some i) c)))
      as (Σ' & E & G & L & N & F); [done..|].
    exists Σ'. split_and!; [| |done|lia|].
    + eapply bind_step; [done|]. replace (inner ++ testCaseEnded t' totals ab :: es) with
        ((inner ++ [testCaseEnded t' totals ab]) ++ es) by by rewrite <-app_assoc.
      rewrite (cum_handle_app _ _ _ _ _ _ _ E1). rewrite length_app. cbn [length].
      replace (S k + (length inner + 1))%nat with (S (S k + length inner)) by lia. rewrite E.
      cbn. by rewrite <-app_assoc.
    + constructor; [|done]. by eapply gathered_framed.
    + intros j Hj. rewrite F by lia. by apply F1.
Qed.

(** ** Every run is gathered *)
Lemma enters_total s n t : ∃ pre c post n1, enters no_seconds s n t pre c post n1.
Proof.
  assert (∀ cs, Forall (λ x, BySectionInfo s (tnode x) = false) cs ∨ ∃ pre c post, cs = pre ++ c :: post ∧
    Forall (λ x, BySectionInfo s (tnode x) = false) pre ∧ BySectionInfo s (tnode c) = true) as H.
  { induction cs as [|x cs IH]; [by left|]. destruct (BySectionInfo s (tnode x)) eqn:Ex.
    - right. by exists [], x, cs.
    - destruct IH as [IH|(pre & c & post & -> & Hp & Hc)]; [left; by constructor|right].
      exists (x :: pre), c, post. split_and!; [done|by constructor|done]. }
  destruct (H (tchildren t)) as [H0|(pre & c & post & E & Hp & Hc)].
  - do 4 eexists. by apply enters_new.
  - exists pre, c, post, n. by apply enters_again.
Qed.

Context (P : AssertionStats → Prop).
Hypothesis P_kept : ∀ stats, P stats → ∃ a, kept stats = Done a ∧ Q a.

Lemma nested_gathers es : nested P es → ∀ k n t d, ∃ n' t' d',
  gathers no_seconds measure Q k es n t d n' t' d'.
Proof using P_kept.
  induction 1 as [|e es He _ IH|stats es Hs _ IH|s c' inner es _ IHi _ IH]; intros k n t d.
  - do 3 eexists. constructor.
  - destruct (IH (S k) n t d) as (n' & t' & d' & H). exists n', t', d'. by apply gathers_ignored.
  - destruct (P_kept _ Hs) as (a & Ha & Hq). destruct (IH (S k) n (t_assertion a t) d) as (n' & t' & d' & H).
    exists n', t', d'. by eapply gathers_assertion.
  - destruct (enters_total s n t) as (pre & c & post & n1 & He).
    destruct (IHi (S k) n1 c (Some (tid c))) as (n2 & t2 & d2 & H2).
    destruct (IH (S (S k + length inner)) n2 (with_children
      (pre ++ t_stats (ended measure s c' false (S k + length inner)) t2 :: post) t) d2) as (n' & t' & d' & H).
    exists n', t', d'. by eapply gathers_section.
Qed.

(** A section was started last. *)
Lemma gathers_started k es n t d n' t' d' : gathers no_seconds measure Q k es n t d n' t' d' →
  is_Some d → is_Some d'.
Proof. induction 1; auto. Qed.

Lemma opens_total s n root : ∃ t n1, opens s n root t n1.
Proof. destruct root as [t|]; do 2 eexists; [apply opens_again|apply opens_new]. Qed.

Lemma cycled_gathers es : cycled P es → ∀ k n root d, ∃ n' tree i,
  gathers_cycles k es n root d n' (Some tree) (Some i).
Proof using P_kept.
  induction 1 as [s c inner Hi|s c inner es Hi _ IH]; intros k n root d;
    destruct (opens_total s n root) as (t & n1 & Ho);
    destruct (nested_gathers inner Hi (S k) n1 t (Some (tid t))) as (n2 & t2 & d2 & H2);
    destruct (gathers_started _ _ _ _ _ _ _ _ H2 ltac:(by eexists)) as [i ->].
  - do 3 eexists. eapply cycles_section; [exact Ho|exact H2|constructor].
  - destruct (IH (S (S k + length inner)) n2 (Some (t_stats (ended measure s c false (S k + length inner)) t2)) (Some i))
      as (n' & tree & j & H). do 3 eexists. by eapply cycles_section.
Qed.

Lemma grouped_gathers es tis : grouped P es tis → ∀ k n d, ∃ n' d' cs,
  gathers_group k es n d n' d' cs ∧ (λ p, tcs_testInfo p.1) <$> cs = tis.
Proof using P_kept.
  induction 1 as [|e es tis He _ IH|t totals ab inner es tis Hi _ IH]; intros k n d.
  - do 3 eexists. split; [constructor|done].
  - destruct (IH (S k) n d) as (n' & d' & cs & H & Hi). exists n', d', cs. split; [by apply group_ignored|done].
  - destruct (cycled_gathers inner Hi (S k) n None d) as (n1 & tree & i & H1).
    destruct (IH (S (S k + length inner)) n1 (Some i)) as (n' & d' & cs & H & Hi').
    do 3 eexists. split; [by eapply group_test|]. cbn. by rewrite Hi'.
Qed.
End cases.
