(* ===== verification/CatchJunit.v ===== *)
(** * Catch: the JUnit reporter (catch_reporter_junit)

    It collects the results of a group in the nodes of its base class and writes them when the
    group ends. *)
From stdpp Require Import strings list.
From S2P Require Import Prelude CatchString CatchTest CatchResult CatchTracker CatchRun.
From S2P Require Import CatchText CatchClara CatchConfig CatchXml CatchXmlReporter CatchCumulative.

Definition junit_getDescription : list byte :=
  str "Reports test results in an XML format that looks like Ant's junitreport target".

(** [front()] of an empty tag is undefined. *)
Fixpoint fileNameTag (tags : list (list byte)) : outcome (list byte) :=
  match tags with
  | [] => Done []
  | tag :: tags =>
      c ← or_undefined (head tag);
      if decide (c = x23) then Done (drop 1 tag) else fileNameTag tags
  end.

(** ** Writing *)
Section writing.
Context {double : Type} (config : Config double) (unexpectedExceptions : Z).

(** The element an assertion that failed is written as; no name for what is no result type. *)
Definition elementName (t : Z) : list byte :=
  if bool_decide (t ∈ [ThrewException; FatalErrorCondition]) then str "error"
  else if bool_decide (t ∈ [ExplicitFailure; ExpressionFailed; DidntThrowException]) then str "failure"
  else if bool_decide (t ∈ [Info; Warning; Ok; Unknown; FailureBit; Exception]) then str "internalError"
  else [].

Fixpoint info_lines (ms : list MessageInfo) : list byte :=
  match ms with
  | [] => []
  | msg :: ms => (if decide (mi_type msg = Info) then mi_message msg ++ [x0a] else []) ++ info_lines ms
  end.
Definition failure_text (stats : AssertionStats) : list byte :=
  let result := assertionResult stats in
  (if decide (getMessage result ≠ []) then getMessage result ++ [x0a] else []) ++
  info_lines (infoMessages stats) ++ str "at " ++ print_sli (getSourceInfo result).

Definition writeAssertion (stats : AssertionStats) : wr unit :=
  let result := assertionResult stats in
  if negb (result_isOk result) then
    w_scoped (elementName (getResultType result)) (
      x ← w_outcome (getExpandedExpression result);
      _ ← w_attribute (str "message") x;
      macro ← w_outcome (to_string (getTestMacroName result));
      _ ← w_attribute (str "type") macro;
      w_text (failure_text stats) false)
  else mret tt.

Fixpoint writeAssertions (l : list AssertionStats) : wr unit :=
  match l with
  | [] => mret tt
  | a :: l => _ ← writeAssertion a; writeAssertions l
  end.

Definition write_trimmed (name out : list byte) : wr unit :=
  w_scoped name (t ← w_throwing (trim out); w_text t false).

(** The path of a section below [rootName]. *)
Definition section_name (rootName name : list byte) : list byte :=
  if decide (rootName = []) then name else rootName ++ str "/" ++ name.

Definition write_testcase (className name : list byte) (n : SectionNode) : wr unit :=
  if decide (node_assertions n = [] ∧ node_stdOut n = [] ∧ node_stdErr n = []) then mret tt
  else
    w_scoped (str "testcase") (
      _ ← (if decide (className = []) then
             _ ← w_attribute (str "classname") name; w_attribute (str "name") (str "root")
           else _ ← w_attribute (str "classname") className; w_attribute (str "name") name);
      _ ← w_attribute (str "time") (ss_seconds (stats n));
      _ ← writeAssertions (node_assertions n);
      _ ← (if decide (node_stdOut n = []) then mret tt else write_trimmed (str "system-out") (node_stdOut n));
      if decide (node_stdErr n = []) then mret tt else write_trimmed (str "system-err") (node_stdErr n)).

Section nodes.
Context (ns : list SectionNode).

(** With fuel for the depth of the sections: the number of nodes. *)
Fixpoint writeSection (fuel : nat) (className rootName : list byte) (i : nat) : wr unit :=
  match fuel with
  | O => ex_undefined
  | S fuel =>
      n ← w_outcome (or_undefined (ns !! i));
      trimmed ← w_throwing (trim (si_name (ss_sectionInfo (stats n))));
      let name := section_name rootName trimmed in
      _ ← write_testcase className name n;
      (fix write_children (children : list nat) : wr unit :=
         match children with
         | [] => mret tt
         | i :: children =>
             _ ← (if decide (className = []) then writeSection fuel name [] i
                  else writeSection fuel className name i);
             write_children children
         end) (childSections n)
  end.

Definition class_name (t : TestCaseInfo) : outcome (list byte) :=
  c ← (if decide (className t = []) then
         c ← fileNameTag (tags t);
         Done (if decide (c = []) then str "global" else c)
       else Done (className t));
  Done (if decide (cfg_name config = []) then c else cfg_name config ++ str "." ++ c).

Definition writeTestCase (node : TestCaseNode) : wr unit :=
  _ ← ex_assert (bool_decide (length (tcn_children node) = 1%nat));
  root ← w_outcome (or_undefined (head (tcn_children node) ≫= id));
  c ← w_outcome (class_name (tcs_testInfo (tcn_value node)));
  writeSection (length ns) c [] root.

Fixpoint writeTestCases (l : list TestCaseNode) : wr unit :=
  match l with
  | [] => mret tt
  | n :: l => _ ← writeTestCase n; writeTestCases l
  end.

Definition write_property (name value : list byte) : wr unit :=
  w_scoped (str "property") (_ ← w_attribute (str "name") name; w_attribute (str "value") value).
Definition write_properties : wr unit :=
  let seed := cd_rngSeed (m_data config) in
  if m_hasTestFilters config || bool_decide (seed ≠ 0) then
    w_scoped (str "properties") (
      _ ← (if m_hasTestFilters config
           then write_property (str "filters") (serializeFilters (cd_testsOrTags (m_data config)))
           else mret tt);
      if decide (seed ≠ 0) then write_property (str "random-seed") (decimal (Z.to_nat seed)) else mret tt)
  else mret tt.

(** The difference is one of a [std::size_t]. *)
Definition group_failures (totals : Totals) : Z := u64 (failed (assertions totals) - unexpectedExceptions).

Definition durations_never : bool :=
  match cd_showDurations (m_data config) with Never => true | _ => false end.

Definition writeGroup (m : measured) (stdOutForSuite stdErrForSuite : list byte) (g : TestGroupNode)
    : wr unit :=
  let totals := tgs_totals (tgn_value g) in
  w_scoped (str "testsuite") (
    _ ← w_attribute (str "name") (tgs_name (tgn_value g));
    _ ← w_count (str "errors") unexpectedExceptions;
    _ ← w_count (str "failures") (group_failures totals);
    _ ← w_count (str "tests") (counts_total (assertions totals));
    _ ← w_attribute (str "hostname") (str "tbd");
    _ ← w_attribute (str "time") (if durations_never then [] else ms_seconds m);
    _ ← w_attribute (str "timestamp") (ms_timestamp m);
    _ ← write_properties;
    _ ← writeTestCases (tgn_children g);
    _ ← write_trimmed (str "system-out") stdOutForSuite;
    write_trimmed (str "system-err") stdErrForSuite).
End nodes.
End writing.

(** ** The reporter *)
Record JunitReporter := mk_JunitReporter {
  jr_base : CumulativeReporterBase;
  xml : XmlWriter;
  stdOutForSuite : list byte;
  stdErrForSuite : list byte;
  unexpectedExceptions : Z;
  m_okToFail : bool
}.
Definition make_JunitReporter (verbosity : Verbosity) (os : list byte) : throwing JunitReporter :=
  if decide (verbosity ∈ supportedVerbosities) then
    mret (mk_JunitReporter new_cumulative (make_XmlWriter os) [] [] 0 false)
  else inl (Domain_error (str "Verbosity level not supported by this reporter")).

Definition on_cumulative (m : cum unit) : ex JunitReporter unit := λ r,
  match m (jr_base r) with
  | Done (_, b) => Done (inr tt, mk_JunitReporter b (xml r) (stdOutForSuite r) (stdErrForSuite r)
                                   (unexpectedExceptions r) (m_okToFail r))
  | Assert_failed => Assert_failed
  | Undefined => Undefined
  end.
Definition on_junit_xml (m : wr unit) : ex JunitReporter unit := λ r,
  match m (xml r) with
  | Done (a, w) => Done (a, mk_JunitReporter (jr_base r) w (stdOutForSuite r) (stdErrForSuite r)
                              (unexpectedExceptions r) (m_okToFail r))
  | Assert_failed => Assert_failed
  | Undefined => Undefined
  end.
Definition set_outputs (out err : list byte) (r : JunitReporter) : JunitReporter :=
  mk_JunitReporter (jr_base r) (xml r) out err (unexpectedExceptions r) (m_okToFail r).
Definition set_unexpected (n : Z) (r : JunitReporter) : JunitReporter :=
  mk_JunitReporter (jr_base r) (xml r) (stdOutForSuite r) (stdErrForSuite r) n (m_okToFail r).
Definition set_okToFail (b : bool) (r : JunitReporter) : JunitReporter :=
  mk_JunitReporter (jr_base r) (xml r) (stdOutForSuite r) (stdErrForSuite r) (unexpectedExceptions r) b.

Section reporter.
Context {double : Type} (config : Config double) (no_seconds : list byte).

Definition base_event (m : measured) (e : event) : ex JunitReporter unit :=
  on_cumulative (cum_handle no_seconds m e).

(** [*m_testGroups.back()] *)
Definition write_last_group (m : measured) : ex JunitReporter unit :=
  r ← ex_get;
  g ← ex_deref (head (rev (m_testGroups (jr_base r))));
  on_junit_xml (writeGroup config (unexpectedExceptions r) (nodes (jr_base r)) m
    (stdOutForSuite r) (stdErrForSuite r) g).

Definition junit_handle (m : measured) (e : event) : ex JunitReporter unit :=
  match e with
  | testRunStarting _ => _ ← base_event m e; on_junit_xml (w_start (str "testsuites"))
  | testGroupStarting _ _ _ =>
      _ ← ex_modify (set_outputs [] []); _ ← ex_modify (set_unexpected 0); base_event m e
  | testCaseStarting t => ex_modify (set_okToFail (okToFail t))
  | assertionEnded_ stats =>
      r ← ex_get;
      _ ← (if bool_decide (getResultType (assertionResult stats) = ThrewException) && negb (m_okToFail r)
           then ex_modify (set_unexpected (u32 (unexpectedExceptions r + 1))) else mret tt);
      base_event m e
  | testCaseEnded _ _ _ =>
      _ ← ex_modify (λ r, set_outputs (stdOutForSuite r ++ ms_stdOut m) (stdErrForSuite r ++ ms_stdErr m) r);
      base_event m e
  | testGroupEnded_ _ _ _ _ _ => _ ← base_event m e; write_last_group m
  | testRunEnded _ _ _ => _ ← base_event m e; on_junit_xml w_end
  | noMatchingTestCases _ => mret tt
  | sectionStarting _ | sectionEnded_ _ _ _ | assertionStarting _ | skipTest _
  | fatalErrorEncountered _ => base_event m e
  end.

(** The events from number [k] on. *)
Fixpoint junit_handle_all (measure : nat → measured) (k : nat) (es : list event) : ex JunitReporter unit :=
  match es with
  | [] => mret tt
  | e :: es => _ ← junit_handle (measure k) e; junit_handle_all measure (S k) es
  end.
End reporter.
