(* ===== verification/CatchJunitProps.v ===== *)
(** * Properties of the JUnit reporter

    The events of a run come out as one document: a test suite per group, in it an element for
    every section that has assertions of its own or the output of its test case, with the
    failures of all cycles. *)
From stdpp Require Import strings list.
From S2P Require Import Prelude CatchString CatchStringProps CatchTest CatchResult CatchTracker.
From S2P Require Import CatchRun CatchText CatchClara CatchConfig CatchXml CatchXmlProps.
From S2P Require Import CatchXmlReporter CatchXmlSteps CatchRunProps CatchRunSections CatchRunGroups.
From S2P Require Import CatchCumulative CatchCumulativeProps CatchCumulativeCases CatchJunit.

(** ** The document as it should be *)

(** A failure, with what the assertion expanded to and the macro; undefined if these cannot be
    read. *)
Definition failure_nodes (stats : AssertionStats) : outcome (list xml_node) :=
  let r := assertionResult stats in
  if result_isOk r then Done []
  else
    x ← getExpandedExpression r; macro ← to_string (getTestMacroName r);
    Done [Leaf (elementName (getResultType r)) [(str "message", x); (str "type", macro)] false
            (failure_text stats)].
Definition readable (stats : AssertionStats) : Prop := ∃ ns, failure_nodes stats = Done ns.
Definition readable_nodes (stats : AssertionStats) : list xml_node :=
  match failure_nodes stats with Done ns => ns | _ => [] end.

Definition output_node (name : string) (out : list byte) : xml_node := Leaf (str name) [] false (trimmed out).
Definition output_if_any (name : string) (out : list byte) : list xml_node :=
  if decide (out = []) then [] else [output_node name out].

Definition names_attributes (className name : list byte) : attributes :=
  if decide (className = []) then [(str "classname", name); (str "name", str "root")]
  else [(str "classname", className); (str "name", name)].
Definition testcase_attributes (className name : list byte) (n : SectionNode) : attributes :=
  names_attributes className name ++ [(str "time", ss_seconds (stats n))].
Definition testcase_nodes (className name : list byte) (n : SectionNode) : list xml_node :=
  if decide (node_assertions n = [] ∧ node_stdOut n = [] ∧ node_stdErr n = []) then []
  else [Tree (str "testcase") (testcase_attributes className name n)
          ((node_assertions n ≫= readable_nodes) ++ output_if_any "system-out" (node_stdOut n) ++
           output_if_any "system-err" (node_stdErr n))].

(** The elements of a tree of sections: the names are paths. *)
Fixpoint section_nodes (className rootName : list byte) (t : stree) : list xml_node :=
  match t with
  | SNode _ s l out err cs =>
      let name := section_name rootName (trimmed (si_name (ss_sectionInfo s))) in
      testcase_nodes className name (tnode t) ++
      concat ((λ c, if decide (className = []) then section_nodes name [] c
                    else section_nodes className name c) <$> cs)
  end.

(** ** Writing them *)
Lemma junit_failure_ok stats ns : failure_nodes stats = Done ns → emits (writeAssertion stats) ns.
Proof.
  unfold failure_nodes, writeAssertion. destruct (result_isOk _); cbn [negb].
  { intros [= <-]. apply emits_nil. }
  intros H w Hw. apply bind_Done in H as (x & Hx & H). apply bind_Done in H as (macro & Hm & [= <-]).
  eapply ex_step; [by apply start_ok|]. apply text_end_ok.
  eapply ex_step; [by apply outcome_ok|].
  eapply ex_step; [by apply inside_attributes, attribute_ok|].
  eapply ex_step; [by apply outcome_ok|].
  by eapply ex_step; [by apply inside_attributes, attribute_ok|].
Qed.

Lemma failures_ok l : Forall readable l → emits (writeAssertions l) (l ≫= readable_nodes).
Proof.
  induction 1 as [|a l [ns Ha] _ IH]; [apply emits_nil|]. cbn [writeAssertions mbind list_bind].
  apply emits_app; [|exact IH]. apply junit_failure_ok. unfold readable_nodes. by rewrite Ha.
Qed.

Lemma trimmed_ok name out : emits (write_trimmed (str name) out) [output_node name out].
Proof.
  intros w Hw. eapply ex_step; [by apply start_ok|]. apply text_end_ok.
  by eapply ex_step; [by apply trimming_ok|].
Qed.
Lemma output_if_any_ok name out :
  emits (if decide (out = []) then mret tt else write_trimmed (str name) out) (output_if_any name out).
Proof. unfold output_if_any. destruct (decide _); [apply emits_nil|apply trimmed_ok]. Qed.

Lemma names_ok className name : writes_attributes
  (if decide (className = []) then
     _ ← w_attribute (str "classname") name; w_attribute (str "name") (str "root")
   else _ ← w_attribute (str "classname") className; w_attribute (str "name") name)
  (names_attributes className name).
Proof.
  unfold names_attributes. destruct (decide _).
  - apply (attributes_app _ _ [(_, name)] [(_, _)]); apply attribute_ok.
  - apply (attributes_app _ _ [(_, className)] [(_, _)]); apply attribute_ok.
Qed.

Lemma testcase_ok className name n : Forall readable (node_assertions n) →
  emits (write_testcase className name n) (testcase_nodes className name n).
Proof.
  intros Hr. unfold write_testcase, testcase_nodes. destruct (decide _) as [|_]; [apply emits_nil|].
  apply emits_tree. intros w. unfold testcase_attributes.
  eapply ex_step; [by apply inside_attributes, names_ok|].
  eapply ex_step; [by apply inside_attributes, attribute_ok|].
  eapply ex_step; [by apply emits_inside, failures_ok|].
  eapply ex_step; [by apply emits_inside, output_if_any_ok|].
  rewrite (emits_inside _ _ _ _ _ _ _ (output_if_any_ok _ _)). by rewrite <-!app_assoc.
Qed.

(** The fuel covers the depth: it is at least the number of nodes in the tree. *)
Lemma children_smaller t : Forall (λ c, (length (ids c) < length (ids t))%nat) (tchildren t).
Proof.
  destruct t as [i s l out err cs]. cbn [tchildren]. unfold ids. rewrite !length_fmap. cbn [entries length].
  assert (∀ c, c ∈ cs → (length (entries c) ≤ length (concat (entries <$> cs)))%nat) as H.
  { induction cs as [|c cs IH]; intros x; [by inversion 1|]. cbn [fmap list_fmap concat]. rewrite length_app.
    intros [->|Hx]%elem_of_cons; [lia|]. specialize (IH x Hx). lia. }
  apply list.Forall_forall. intros c Hc. rewrite !length_fmap. specialize (H c Hc). lia.
Qed.

Section nodes.
Context (Σ : list SectionNode).

Lemma writeSection_ok fuel : ∀ t className rootName, rep Σ t → all_assertions readable t →
  (length (ids t) ≤ fuel)%nat →
  emits (writeSection Σ fuel className rootName (tid t)) (section_nodes className rootName t).
Proof.
  induction fuel as [|fuel IH]; intros t className rootName Hr Ha Hl.
  { unfold ids in Hl. rewrite entries_eq in Hl. cbn in Hl. lia. }
  assert (Forall (λ c, (length (ids c) ≤ fuel)%nat) (tchildren t)) as Hsm.
  { apply (list.Forall_impl _ _ _ (children_smaller t)). intros c Hc. cbn in Hc. lia. }
  pose proof (rep_children Σ t Hr) as Hch.
  assert (Forall (all_assertions readable) (tchildren t)) as Hca.
  { unfold all_assertions in Ha. rewrite entries_eq, list.Forall_cons, Forall_concat, Forall_fmap in Ha.
    apply Ha. }
  pose proof (rep_root Σ t Hr) as Hroot.
  assert (Forall readable (node_assertions (tnode t))) as Hra.
  { unfold all_assertions in Ha. rewrite entries_eq, list.Forall_cons in Ha. apply Ha. }
  intros w Hw. cbn [writeSection]. eapply ex_step; [apply outcome_ok; by rewrite Hroot|].
  eapply ex_step; [by apply trimming_ok|].
  destruct t as [i s l out err cs]. cbn [section_nodes tnode tchildren tid childSections stats] in *.
  set (name := section_name rootName _) in *. revert w Hw.
  apply emits_app; [by apply testcase_ok|].
  clear Hroot Hra Hr Ha Hl. induction cs as [|c cs IHc]; [apply emits_nil|].
  apply list.Forall_cons in Hsm as [Hs1 Hsm], Hch as [Hc1 Hch], Hca as [Ha1 Hca].
  cbn [fmap list_fmap concat]. apply emits_app.
  - destruct (decide _); by apply IH.
  - by apply IHc.
Qed.

(** Distinct nodes are no more than there are. *)
Lemma ids_fit t : rep Σ t → NoDup (ids t) → (length (ids t) ≤ length Σ)%nat.
Proof.
  intros Hr Hd. transitivity (length (seq 0 (length Σ))); [|by rewrite List.length_seq].
  apply submseteq_length, NoDup_submseteq; [done|].
  intros i Hi. apply elem_of_seq. split; [lia|]. by eapply rep_bound.
Qed.

(** ** Test cases and groups *)
Context {double : Type} (config : Config double).

Definition case_nodes (p : TestCaseStats * stree) : list xml_node :=
  match class_name config (tcs_testInfo p.1) with
  | Done c => section_nodes c [] p.2
  | _ => []
  end.
Definition named (t : TestCaseInfo) : Prop := ∃ c, class_name config t = Done c.

Definition property_node (name value : list byte) : xml_node :=
  Tree (str "property") [(str "name", name); (str "value", value)] [].
Definition property_nodes : list xml_node :=
  let seed := cd_rngSeed (m_data config) in
  if m_hasTestFilters config || bool_decide (seed ≠ 0) then
    [Tree (str "properties") []
       ((if m_hasTestFilters config
         then [property_node (str "filters") (serializeFilters (cd_testsOrTags (m_data config)))] else []) ++
        (if decide (seed ≠ 0) then [property_node (str "random-seed") (decimal (Z.to_nat seed))] else []))]
  else [].

Definition suite_attributes (unexpected : Z) (m : measured) (g : TestGroupStats) : attributes :=
  let a := assertions (tgs_totals g) in
  [(str "name", tgs_name g); (str "errors", decimal (Z.to_nat unexpected));
   (str "failures", decimal (Z.to_nat (group_failures unexpected (tgs_totals g))));
   (str "tests", decimal (Z.to_nat (counts_total a))); (str "hostname", str "tbd");
   (str "time", if durations_never config then [] else ms_seconds m); (str "timestamp", ms_timestamp m)].
Definition suite_node (unexpected : Z) (m : measured) (out err : list byte) (g : TestGroupStats)
    (cs : list (TestCaseStats * stree)) : xml_node :=
  Tree (str "testsuite") (suite_attributes unexpected m g)
    (property_nodes ++ (cs ≫= case_nodes) ++ [output_node "system-out" out; output_node "system-err" err]).

Lemma test_case_ok p : gathered readable Σ p → named (tcs_testInfo p.1) →
  emits (writeTestCase config Σ (case_node p)) (case_nodes p).
Proof.
  intros (Hr & Hd & Ha) [c Hc]. unfold case_nodes. rewrite Hc. intros w Hw. unfold writeTestCase, case_node.
  cbn [tcn_children tcn_value]. eapply ex_step; [done|]. eapply ex_step; [by apply outcome_ok|].
  eapply ex_step; [by apply outcome_ok|]. apply writeSection_ok; [done|done|by apply ids_fit|done].
Qed.

Lemma test_cases_ok cs : Forall (gathered readable Σ) cs → Forall (λ p, named (tcs_testInfo p.1)) cs →
  emits (writeTestCases config Σ (case_node <$> cs)) (cs ≫= case_nodes).
Proof.
  induction 1 as [|p cs Hp _ IH]; intros Hn; [apply emits_nil|]. apply list.Forall_cons in Hn as [Hn1 Hn].
  cbn [fmap list_fmap writeTestCases mbind list_bind]. apply emits_app; [by apply test_case_ok|by apply IH].
Qed.

Lemma property_ok name value : emits (write_property name value) [property_node name value].
Proof. apply emits_element. apply (attributes_app _ _ [_] [_]); apply attribute_ok. Qed.
Lemma properties_ok : emits (write_properties config) property_nodes.
Proof.
  unfold write_properties, property_nodes. destruct (_ || _); [|apply emits_nil].
  apply emits_tree. intros w. eapply ex_step; [apply emits_inside, emits_given, property_ok|].
  destruct (decide _); [by rewrite (emits_inside _ _ _ _ _ _ _ (property_ok _ _))|by rewrite app_nil_r].
Qed.

Lemma suite_ok unexpected m out err g cs : Forall (gathered readable Σ) cs →
  Forall (λ p, named (tcs_testInfo p.1)) cs →
  emits (writeGroup config unexpected Σ m out err (mk_TestGroupNode g (case_node <$> cs)))
    [suite_node unexpected m out err g cs].
Proof.
  intros Hg Hn. apply emits_tree. intros w. unfold suite_attributes, w_count, w_number.
  cbn [tgn_value tgn_children].
  do 7 (eapply ex_step; [by apply inside_attributes, attribute_ok|]).
  eapply ex_step; [apply emits_inside, properties_ok|].
  eapply ex_step; [by apply emits_inside, test_cases_ok|].
  eapply ex_step; [apply emits_inside, trimmed_ok|].
  rewrite (emits_inside _ _ _ _ _ _ _ (trimmed_ok _ _)). by rewrite <-!app_assoc.
Qed.
End nodes.
