(* ===== verification/CatchJunitRun.v ===== *)
(** * Catch: from a run to its JUnit report

    The handlers of the JUnit reporter on the events of a whole run, and the run context and the
    reporter together. *)
From stdpp Require Import strings list.
From S2P Require Import CatchStringProps CatchXmlSteps Prelude CatchString CatchTest CatchResult.
From S2P Require Import CatchTracker CatchRun CatchSections CatchText CatchClara CatchConfig CatchXml.
From S2P Require Import CatchXmlProps CatchXmlReporter CatchXmlReporterProps CatchRunProps.
From S2P Require Import CatchRunSections CatchRunGroups CatchRunReport CatchCumulative.
From S2P Require Import CatchCumulativeProps CatchCumulativeCases CatchJunit CatchJunitProps.

(** ** What the reporter counts and collects on its own *)
Definition unexpected (ok : bool) (stats : AssertionStats) : bool :=
  bool_decide (getResultType (assertionResult stats) = ThrewException) && negb ok.

(** The exceptions among the events, where [ok] says whether the running test may fail. *)
Fixpoint count_unexpected (ok : bool) (es : list event) (n : Z) : Z :=
  match es with
  | [] => n
  | testCaseStarting t :: es => count_unexpected (okToFail t) es n
  | assertionEnded_ stats :: es => count_unexpected ok es (if unexpected ok stats then u32 (n + 1) else n)
  | _ :: es => count_unexpected ok es n
  end.
Fixpoint last_okToFail (ok : bool) (es : list event) : bool :=
  match es with
  | [] => ok
  | testCaseStarting t :: es => last_okToFail (okToFail t) es
  | _ :: es => last_okToFail ok es
  end.

(** The events inside a group. *)
Definition in_group (e : event) : bool :=
  match e with
  | testRunStarting _ | testGroupStarting _ _ _ | testGroupEnded_ _ _ _ _ _ | testRunEnded _ _ _ => false
  | _ => true
  end.

Definition with_base (b : CumulativeReporterBase) (r : JunitReporter) : JunitReporter :=
  mk_JunitReporter b (xml r) (stdOutForSuite r) (stdErrForSuite r) (unexpectedExceptions r) (m_okToFail r).
Definition with_xml (w : XmlWriter) (r : JunitReporter) : JunitReporter :=
  mk_JunitReporter (jr_base r) w (stdOutForSuite r) (stdErrForSuite r) (unexpectedExceptions r) (m_okToFail r).

Section run.
Context {double : Type} (config : Config double) (no_seconds : list byte) (measure : nat → measured).

(** The output of the test cases that end among the events. *)
Fixpoint captured (f : measured → list byte) (k : nat) (es : list event) : list byte :=
  match es with
  | [] => []
  | testCaseEnded _ _ _ :: es => f (measure k) ++ captured f (S k) es
  | _ :: es => captured f (S k) es
  end.

Definition handle_from (k : nat) (es : list event) : ex JunitReporter unit :=
  junit_handle_all config no_seconds measure k es.

Lemma handle_from_app a : ∀ k b r r1, handle_from k a r = Done (inr tt, r1) →
  handle_from k (a ++ b) r = handle_from (k + length a) b r1.
Proof.
  induction a as [|e a IH]; intros k b r r1 H; cbn [app length].
  - injection H as ->. by rewrite Nat.add_0_r.
  - apply ex_bind_inv in H as ([] & r2 & He & H). eapply ex_step; [exact He|].
    change (handle_from (S k) (a ++ b) r2 = handle_from (k + S (length a)) b r1).
    rewrite (IH _ _ _ _ H). f_equal. lia.
Qed.

Lemma handle_from_cons k e es r r1 r' : junit_handle config no_seconds (measure k) e r = Done (inr tt, r1) →
  handle_from (S k) es r1 = Done (inr tt, r') → handle_from k (e :: es) r = Done (inr tt, r').
Proof. intros H H'. by eapply ex_step. Qed.

Lemma base_event_ok m e r b : cum_handle no_seconds m e (jr_base r) = Done (tt, b) →
  base_event no_seconds m e r = Done (inr tt, with_base b r).
Proof. intros H. unfold base_event, on_cumulative. by rewrite H. Qed.
Lemma junit_xml_ok m r w : m (xml r) = Done (inr tt, w) → on_junit_xml m r = Done (inr tt, with_xml w r).
Proof. intros H. unfold on_junit_xml. by rewrite H. Qed.

(** Inside a group the base class does the work. *)
Definition inside_group (k : nat) (es : list event) (b : CumulativeReporterBase) (r : JunitReporter)
    : JunitReporter :=
  mk_JunitReporter b (xml r) (stdOutForSuite r ++ captured ms_stdOut k es)
    (stdErrForSuite r ++ captured ms_stdErr k es) (count_unexpected (m_okToFail r) es (unexpectedExceptions r))
    (last_okToFail (m_okToFail r) es).

Lemma event_inside k e r b : in_group e = true → cum_handle no_seconds (measure k) e (jr_base r) = Done (tt, b) →
  junit_handle config no_seconds (measure k) e r = Done (inr tt, inside_group k [e] b r).
Proof.
  intros Hg H. destruct r as [b0 w o err n ok]. unfold inside_group.
  destruct e; try discriminate Hg; cbn [junit_handle captured count_unexpected last_okToFail] in *;
    try (injection H as <-; cbn; by rewrite ?app_nil_r);
    try (rewrite (base_event_ok _ _ _ _ H); cbn; by rewrite ?app_nil_r).
  - eapply ex_step; [done|]. eapply ex_step.
    { instantiate (1 := set_unexpected (if unexpected ok stats then u32 (n + 1) else n) (mk_JunitReporter b0 w o err n ok)).
      unfold unexpected. by destruct (_ && _). }
    rewrite (base_event_ok _ _ _ b) by exact H. cbn. by rewrite ?app_nil_r.
  - eapply ex_step; [done|]. rewrite (base_event_ok _ _ _ b) by exact H. cbn. by rewrite ?app_nil_r.
Qed.

Lemma inside_group_cons k e es b1 b r : in_group e = true →
  inside_group (S k) es b (inside_group k [e] b1 r) = inside_group k (e :: es) b r.
Proof.
  intros H. unfold inside_group. cbn [xml stdOutForSuite stdErrForSuite unexpectedExceptions m_okToFail].
  destruct e; try discriminate H; cbn [captured count_unexpected last_okToFail];
    rewrite ?app_nil_r, <-?app_assoc; done.
Qed.

Lemma events_inside es : Forall (λ e, in_group e = true) es → ∀ k r b,
  cum_handle_all no_seconds measure k es (jr_base r) = Done (tt, b) →
  handle_from k es r = Done (inr tt, inside_group k es b r).
Proof.
  induction 1 as [|e es He _ IH]; intros k r b H.
  - injection H as <-. destruct r. unfold inside_group. cbn. by rewrite !app_nil_r.
  - apply st_bind_inv in H as ([] & b1 & H1 & H).
    apply (handle_from_cons _ _ _ _ (inside_group k [e] b1 r)); [by apply event_inside|]. rewrite (IH (S k) _ b) by exact H. by rewrite inside_group_cons.
Qed.

(** *** The gathered events are such *)
Lemma ignored_inside e : ignored e = true → in_group e = true.
Proof. by destruct e. Qed.
Lemma gathers_inside Q k es n t d n' t' d' : gathers no_seconds measure Q k es n t d n' t' d' →
  Forall (λ e, in_group e = true) es.
Proof.
  induction 1; repeat (constructor || apply Forall_app_2); auto using ignored_inside.
Qed.
Lemma gathers_cycles_inside Q k es n root d n' root' d' :
  gathers_cycles no_seconds measure Q k es n root d n' root' d' → Forall (λ e, in_group e = true) es.
Proof.
  induction 1; repeat (constructor || apply Forall_app_2); eauto using ignored_inside, gathers_inside.
Qed.
Lemma gathers_group_inside Q k es n d n' d' cs :
  gathers_group no_seconds measure Q k es n d n' d' cs → Forall (λ e, in_group e = true) es.
Proof.
  induction 1; repeat (constructor || apply Forall_app_2); eauto using ignored_inside, gathers_cycles_inside.
Qed.

(** Whether tests before the group may fail does not matter. *)
Lemma count_from_start Q k es n d n' d' cs ok m :
  gathers_group no_seconds measure Q k es n d n' d' cs → count_unexpected ok es m = count_unexpected false es m.
Proof. intros H. revert ok. induction H as [|k e es n d n' d' cs He _ IH|]; intros ok; [done| |done]. destruct e; try discriminate He; apply IH. Qed.

(** ** Groups and the run

    [gathers_run k es n d ns]: the events of groups come out as the test suites [ns]. *)
Inductive gathers_run : nat → list event → nat → option nat → list xml_node → Prop :=
| run_done k n d : gathers_run k [] n d []
| run_ignored k e es n d ns : ignored e = true → gathers_run (S k) es n d ns → gathers_run k (e :: es) n d ns
| run_group k name i m inner name' j l totals ab es n d n1 d1 cs ns :
    gathers_group no_seconds measure readable (S k) inner n d n1 d1 cs →
    Forall (λ p, named config (tcs_testInfo p.1)) cs →
    gathers_run (S (S k + length inner)) es n1 d1 ns →
    gathers_run k (testGroupStarting name i m :: inner ++ testGroupEnded_ name' j l totals ab :: es) n d
      (suite_node config (count_unexpected false inner 0) (measure (S k + length inner))
         (captured ms_stdOut (S k) inner) (captured ms_stdErr (S k) inner)
         (mk_TestGroupStats name' j l totals ab) cs :: ns).

(** The state between groups. *)
Record between_groups (r : JunitReporter) (n : nat) (d : option nat) : Prop := {
  bg_stack : cm_sectionStack (jr_base r) = [];
  bg_root : m_rootSection (jr_base r) = None;
  bg_deepest : m_deepestSection (jr_base r) = d;
  bg_nodes : length (nodes (jr_base r)) = n;
  bg_cases : m_testCases (jr_base r) = [];
  bg_rest : at_rest (xml r)
}.

Lemma group_written k name i m inner name' j l totals ab n d n1 d1 cs r :
  gathers_group no_seconds measure readable (S k) inner n d n1 d1 cs →
  Forall (λ p, named config (tcs_testInfo p.1)) cs → between_groups r n d → ∃ r',
  handle_from k (testGroupStarting name i m :: inner ++ [testGroupEnded_ name' j l totals ab]) r = Done (inr tt, r') ∧
  between_groups r' n1 d1 ∧
  xml r' = add_nodes [suite_node config (count_unexpected false inner 0) (measure (S k + length inner))
     (captured ms_stdOut (S k) inner) (captured ms_stdErr (S k) inner)
     (mk_TestGroupStats name' j l totals ab) cs] (xml r).
Proof.
  intros Hg Hn [Hs Hr Hd Hl Hc Hx].
  destruct (gathers_group_ok _ _ _ _ _ _ _ _ _ _ Hg (jr_base r) Hs Hr Hd Hl) as (Σ & E & G & L & _ & _).
  rewrite Hc in E. cbn [app] in E. set (b := set_testCases (case_node <$> cs) (moved Σ d1 (jr_base r))) in *.
  set (r0 := with_base (jr_base r) (set_unexpected 0 (set_outputs [] [] r))).
  pose proof (events_inside inner (gathers_group_inside _ _ _ _ _ _ _ _ Hg) (S k) r0 b E) as E1.
  set (g := mk_TestGroupStats name' j l totals ab).
  set (r1 := with_base (set_testCases [] (set_testGroups (m_testGroups b ++ [mk_TestGroupNode g (case_node <$> cs)]) b))
    (inside_group (S k) inner b r0)).
  exists (with_xml (add_nodes [suite_node config (count_unexpected false inner 0) (measure (S k + length inner))
     (captured ms_stdOut (S k) inner) (captured ms_stdErr (S k) inner) g cs] (xml r)) r1).
  split_and!; [|split; try done; by apply add_nodes_rest|done].
  apply (handle_from_cons _ _ _ _ r0); [by destruct r|]. rewrite (handle_from_app _ _ _ _ _ E1). eapply ex_step; [|done].
  cbn [junit_handle]. eapply ex_step with (a := tt) (s' := r1); [by apply base_event_ok|].
  unfold write_last_group. eapply ex_step; [done|]. eapply ex_step.
  { unfold ex_deref. cbn [r1 with_base jr_base m_testGroups set_testCases set_testGroups].
    rewrite rev_app_distr. done. }
  apply junit_xml_ok. cbn [r1 with_base xml inside_group r0 set_unexpected set_outputs jr_base nodes set_testCases
    set_testGroups b moved set_deepestSection set_nodes stdOutForSuite stdErrForSuite unexpectedExceptions
    m_okToFail app].
  rewrite (count_from_start _ _ _ _ _ _ _ _ _ _ Hg). by apply suite_ok.
Qed.

Lemma run_written k es n d ns : gathers_run k es n d ns → ∀ r, between_groups r n d → ∃ r',
  handle_from k es r = Done (inr tt, r') ∧ xml r' = add_nodes ns (xml r).
Proof.
  induction 1 as [k n d|k e es n d ns He _ IH
    |k name i m inner name' j l totals ab es n d n1 d1 cs ns Hg Hn _ IH]; intros r Hb.
  - by exists r.
  - destruct (IH r Hb) as (r' & E & H). exists r'. split; [|exact H].
    eapply handle_from_cons; [|exact E]. destruct r as [[]]. by destruct e.
  - destruct (group_written k name i m inner name' j l totals ab n d n1 d1 cs r Hg Hn Hb)
      as (r1 & E1 & B1 & X1).
    destruct (IH r1 B1) as (r' & E & X). exists r'. split; [|by rewrite X, X1, <-add_nodes_app].
    replace (testGroupStarting name i m :: inner ++ testGroupEnded_ name' j l totals ab :: es) with
      ((testGroupStarting name i m :: inner ++ [testGroupEnded_ name' j l totals ab]) ++ es)
      by (cbn; by rewrite <-app_assoc).
    rewrite (handle_from_app _ _ _ _ _ E1), <-E. f_equal. cbn [length]. rewrite length_app. cbn. lia.
Qed.

Lemma junit_document name name' totals ab es ns os :
  gathers_run 1 es 0 None ns → ∃ r0 r,
  make_JunitReporter Verbosity_Normal os = inr r0 ∧
  handle_from 0 (testRunStarting name :: es ++ [testRunEnded name' totals ab]) r0 = Done (inr tt, r) ∧
  m_os (xml r) = m_os (make_XmlWriter os) ++ render [] (Tree (str "testsuites") [] ns) ∧ m_tags (xml r) = [].
Proof.
  intros Hg. set (r0 := mk_JunitReporter new_cumulative (make_XmlWriter os) [] [] 0 false).
  set (w1 := inside false (str "testsuites") [] [] (make_XmlWriter os)).
  destruct (run_written 1 es 0 None ns Hg (with_xml w1 r0)) as (r1 & E1 & X1); [by split|].
  eexists r0, (with_xml (add_nodes [Tree (str "testsuites") [] ns] (make_XmlWriter os)) (with_base _ r1)).
  split_and!; [done| | |done].
  - apply (handle_from_cons _ _ _ _ (with_xml w1 r0)).
    { cbn [junit_handle]. eapply ex_step; [by apply base_event_ok|]. apply junit_xml_ok. by apply start_ok. }
    rewrite (handle_from_app _ _ _ _ _ E1). eapply ex_step; [|done].
    cbn [junit_handle]. eapply ex_step; [by apply base_event_ok|]. apply junit_xml_ok.
    cbn [xml with_base]. rewrite X1. cbn [xml with_xml]. unfold w1. rewrite add_inside. by apply end_ok.
  - cbn [xml with_xml add_nodes m_os]. f_equal.
    cbn [make_XmlWriter writeDeclaration put_os m_tagIsOpen m_indent pending app mbind list_bind].
    by rewrite app_nil_r.
Qed.
End run.

(** ** Runs of passing checks *)
Lemma nested_unexpected info es : nested (checks info) es → ∀ ok rest n,
  count_unexpected ok (es ++ rest) n = count_unexpected ok rest n.
Proof.
  induction 1 as [|e es He _ IH|stats es Hs _ IH|s c inner es _ IHi _ IH]; intros ok rest n; [done| | |].
  - destruct e; try discriminate He; apply IH.
  - cbn [app count_unexpected]. destruct Hs as [_ Ht]. unfold unexpected. rewrite Ht. apply IH.
  - cbn [app count_unexpected]. rewrite <-app_assoc, IHi. apply IH.
Qed.
Lemma grouped_unexpected info es tis : grouped (checks info) es tis → ∀ ok n, count_unexpected ok es n = n.
Proof.
  induction 1 as [|e es tis He _ IH|t totals ab inner es tis Hi _ IH]; intros ok n; [done| |].
  - destruct e; try discriminate He; apply IH.
  - cbn [app count_unexpected]. rewrite (nested_unexpected info) by by apply cycled_nested. apply IH.
Qed.

Lemma passing_readable macro li expr disposition stats :
  checks (literal_info macro li expr disposition) stats → ∃ a, kept stats = Done a ∧ readable a.
Proof.
  intros [Hi Ht]. assert (∃ x, getExpandedExpression (assertionResult stats) = Done x) as [x Hx].
  { unfold getExpandedExpression, getExpression. rewrite Hi. cbn [literal_info capturedExpression].
    rewrite string_ref_to_string. destruct (decide _); by eexists. }
  unfold kept, prepareExpandedExpression. rewrite Hx. eexists. split; [done|].
  exists []. unfold failure_nodes. cbn [assertionResult].
  assert (∀ i d, resultType d = Ok → result_isOk (copy_result (mk_AssertionResult i d)) = true) as Hok.
  { intros i d E. unfold result_isOk. cbn. by rewrite E. }
  rewrite Hok; [done|]. unfold reconstructExpression. unfold getResultType in Ht.
  destruct (decide _); [destruct (m_transientExpression _)|]; exact Ht.
Qed.

Lemma fileNameTag_ok ts : Forall (λ t : list byte, t ≠ []) ts → ∃ n, fileNameTag ts = Done n.
Proof.
  induction 1 as [|t ts Ht _ IH]; [by exists []|]. destruct t as [|c t]; [done|]. cbn.
  destruct (decide _); [by eexists|exact IH].
Qed.
Lemma tags_named {double} (config : Config double) t : Forall (λ g : list byte, g ≠ []) (tags t) → named config t.
Proof.
  intros H. destruct (fileNameTag_ok _ H) as [n Hn]. unfold named, class_name. rewrite Hn.
  destruct (decide (className t = [])); (eexists; reflexivity).
Qed.

Lemma run_junit {double} (config : Config double) no_seconds measure I info run_case ts r c os :
  (∀ e r, I r → I (report e r)) →
  (∀ stats, checks info stats → ∃ a, kept stats = Done a ∧ readable a) →
  Forall (runs_nested I (checks info) run_case) ts → I r → m_config r = c →
  m_reporter r = [testRunStarting (config_name c)] →
  Forall (λ t, Forall (λ g : list byte, g ≠ []) (tags (CatchTest.info t))) ts → ∃ totals r',
  runTests run_case ts r = Done (inr totals, r') ∧ ∃ r0 x cs k out err,
   make_JunitReporter Verbosity_Normal os = inr r0 ∧
   junit_handle_all config no_seconds measure 0 (m_reporter (close_run_context r')) r0 = Done (inr tt, x) ∧
   m_os (xml x) = m_os (make_XmlWriter os) ++ render [] (Tree (str "testsuites") []
     [suite_node config 0 (measure k) out err (mk_TestGroupStats (config_name c) 1 1 totals (aborting r')) cs]) ∧
   m_tags (xml x) = [] ∧ sublist ((λ p, tcs_testInfo p.1) <$> cs) (CatchTest.info <$> ts).
Proof.
  intros HI HP Hts Hr Hc Hstart Htags.
  destruct (run_tests_nested I (checks info) run_case HI ts r Hts Hr) as (totals & r' & es & tis & E & _ & Hc' & Hrep & Hg & Hsub).
  exists totals, r'. split; [exact E|]. rewrite Hc, Hstart in Hrep. set (name := config_name c) in *.
  destruct (grouped_gathers no_seconds measure readable (checks info) HP es tis Hg 2 0 None) as (n1 & d1 & cs & Hgg & Hcs).
  assert (Forall (λ p, named config (tcs_testInfo p.1)) cs) as Hn.
  { apply list.Forall_forall. intros p Hp. apply tags_named.
    assert (tcs_testInfo p.1 ∈ CatchTest.info <$> ts) as Hin.
    { eapply elem_of_sublist; [|exact Hsub]. rewrite <-Hcs. apply list_elem_of_fmap. by exists p. }
    apply list_elem_of_fmap in Hin as (t & -> & Ht). by eapply list.Forall_forall in Htags. }
  pose proof (run_group config no_seconds measure 1 name 1 1 es name 1 1 totals (aborting r') [] 0 None n1 d1 cs []
    Hgg Hn (run_done _ _ _ _ _ _)) as Hrun.
  destruct (junit_document config no_seconds measure name name (m_totals r') (aborting r') _ _ os Hrun)
    as (r0 & x & H0 & Hx & Hos & Ht).
  rewrite (grouped_unexpected info es tis Hg) in Hos.
  exists r0, x, cs, (2 + length es)%nat, (captured measure ms_stdOut 2 es), (captured measure ms_stdErr 2 es).
  split_and!; [exact H0| |exact Hos|exact Ht|by rewrite Hcs].
  rewrite <-Hx. unfold handle_from. f_equal. unfold close_run_context. cbn. by rewrite Hrep, Hc', Hc.
Qed.

(** ** Properties *)

(** C27 (refinement): for the events of a run whose test cases consist of cycles of nested
    sections, the JUnit reporter, which keeps the sections in nodes shared by pointers and merges
    the cycles in them, writes exactly one document: a test suite per group with the group's
    counts, in it for each test case the tree of its sections, every section that has assertions
    or output of its own as an element under its path, with the failures of all cycles. *)
Theorem junit_report_of_run {double} (config : Config double) no_seconds measure name name' totals ab es ns os :
  gathers_run config no_seconds measure 1 es 0 None ns → ∃ r0 r,
  make_JunitReporter Verbosity_Normal os = inr r0 ∧
  junit_handle_all config no_seconds measure 0 (testRunStarting name :: es ++ [testRunEnded name' totals ab]) r0 =
    Done (inr tt, r) ∧
  m_os (xml r) = m_os (make_XmlWriter os) ++ render [] (Tree (str "testsuites") [] ns) ∧ m_tags (xml r) = [].
Proof. apply junit_document. Qed.

(** Property (refinement): a run over test cases made of sections, each leaf with a check that passes,
    ends, and what it tells the JUnit reporter from its start to its end comes out as one document:
    one test suite with no errors and the totals of the group, and in it only test cases of the
    run, in their order. *)
Theorem sections_junit_report {double} (config : Config double) no_seconds measure
    d fuel tree macro check_line text disposition expr li ts rc os :
  getResult expr = negb (isFalseTest disposition) → (2 ≤ d)%nat → Forall (suits fuel tree) ts →
  Forall (λ t, Forall (λ g : list byte, g ≠ []) (tags (info t))) ts →
  warnAboutMissingAssertions rc = false → getSectionsToRun rc = [] →
  aborting (make_run_context rc) = false → ∃ totals r',
  runTests (λ t, runTest d (test_body d (internal_catch_test
      (literal_info macro check_line text disposition) expr) (tree t)) fuel li (info t)) ts
    (make_run_context rc) = Done (inr totals, r') ∧ ∃ r0 x cs k out err,
  make_JunitReporter Verbosity_Normal os = inr r0 ∧
  junit_handle_all config no_seconds measure 0 (m_reporter (close_run_context r')) r0 = Done (inr tt, x) ∧
  m_os (xml x) = m_os (make_XmlWriter os) ++ render [] (Tree (str "testsuites") []
    [suite_node config 0 (measure k) out err (mk_TestGroupStats (config_name rc) 1 1 totals (aborting r')) cs]) ∧
  m_tags (xml x) = [] ∧ sublist ((λ p, tcs_testInfo p.1) <$> cs) (info <$> ts).
Proof.
  intros He Hd Hts Htags Hw Hs Ha.
  apply (run_junit config no_seconds measure between_tests (literal_info macro check_line text disposition));
    [| | | |done|done|done].
  - intros e r []. by split.
  - intros stats. apply passing_readable.
  - revert Hts. apply List.Forall_impl. intros t Ht. by apply sections_nested.
  - by split.
Qed.

(** Property (bounds): an exception that leaves a check whose failure is suppressed, in a test that may
    not fail, is not counted as a failed assertion, but the JUnit reporter counts it as an error:
    in a group without failures the number of failures it writes, the difference of the two,
    wraps around to [2 ^ 64 - 1]. *)
Theorem suppressed_exception_wraps_failures r t info msg totals :
  m_activeTestCase r = Some t → okToFail t = false → shouldSuppressFailure (resultDisposition info) = true →
  failed (assertions totals) = 0 → ∃ reaction r' stats,
  handleUnexpectedInflightException info msg r = Done (inr reaction, r') ∧
  m_reporter r' = m_reporter r ++ [assertionEnded_ stats] ∧
  assertions (m_totals r') = assertions (m_totals r) ∧
  count_unexpected (okToFail t) [assertionEnded_ stats] 0 = 1 ∧
  group_failures (count_unexpected (okToFail t) [assertionEnded_ stats] 0) totals = 2 ^ 64 - 1.
Proof.
  intros Ht Hok Hs Hf. set (result := make_result info ThrewException false msg).
  destruct (assertionEnded_eq result (set_lastAssertionInfo info r) t Ht) as (n & ms & E & _).
  set (stats := mk_AssertionStats result _ _) in E.
  set (r' := after_report result stats n (after_count t result (set_lastAssertionInfo info r))) in E.
  exists (Some (populateReaction r')), r', stats. assert (count_unexpected (okToFail t) [assertionEnded_ stats] 0 = 1) as Hn.
  { rewrite Hok. reflexivity. }
  split_and!; [| | |exact Hn|].
  - unfold handleUnexpectedInflightException. eapply ex_step; [reflexivity|].
    eapply ex_step; [exact E|]. reflexivity.
  - unfold r'. by rewrite after_report_reporter.
  - assert (counted t result (assertions (m_totals r)) = assertions (m_totals r)) as Hc.
    { unfold counted, result_isOk. cbn [result make_result m_info]. rewrite Hs, orb_true_r. by rewrite decide_False. }
    unfold r', after_report, cleared, after_count. destruct (decide _); cbn -[counted]; exact Hc.
  - rewrite Hn. unfold group_failures. by rewrite Hf.
Qed.

(** * The JUnit reporter on concrete runs *)

Definition junit_measure (_ : nat) : measured :=
  mk_measured (str "0.5") (str " out") [] (str "2020-01-01T00:00:00Z").

(** The put that is refused, in a section, after a first cycle with another section. *)
Definition junit_inner : list event :=
  [sectionStarting (report_section "put"); sectionStarting (report_section "empty");
   sectionEnded_ (report_section "empty") (mk_Counts 1 0 0) false;
   sectionEnded_ (report_section "put") (mk_Counts 1 0 0) false;
   sectionStarting (report_section "put"); sectionStarting (report_section "full");
   assertionEnded_ report_failure;
   sectionEnded_ (report_section "full") (mk_Counts 0 1 0) false;
   sectionEnded_ (report_section "put") (mk_Counts 0 1 0) false].
Definition junit_case : list event :=
  testCaseStarting report_info :: junit_inner ++ [testCaseEnded report_info one_failed false].
Definition junit_events : list event :=
  testGroupStarting (str "all") 1 1 :: junit_case ++ [testGroupEnded_ (str "all") 1 1 one_failed false].

Definition junit_output : list byte :=
  match make_JunitReporter Verbosity_Normal [] with
  | inr r0 =>
      match junit_handle_all report_config (str "0.0") junit_measure 0
        (testRunStarting (str "kv") :: junit_events ++ [testRunEnded (str "kv") one_failed false]) r0 with
      | Done (inr tt, r) => m_os (xml r)
      | _ => []
      end
  | inl _ => []
  end.

Definition attr (n v : string) : list byte := str " " ++ str n ++ str "=" ++ qu v.
Example junit_text : junit_output = m_os (make_XmlWriter []) ++ text_lines
  [str "<testsuites>";
   str "  <testsuite" ++ attr "name" "all" ++ attr "errors" "0" ++ attr "failures" "1" ++ attr "tests" "1" ++
     attr "hostname" "tbd" ++ attr "time" "0.5" ++ attr "timestamp" "2020-01-01T00:00:00Z" ++ str ">";
   str "    <properties>";
   str "      <property" ++ attr "name" "random-seed" ++ attr "value" "42" ++ str "/>";
   str "    </properties>";
   str "    <testcase" ++ attr "classname" "global" ++ attr "name" "put/full" ++ attr "time" "0.5" ++ str ">";
   str "      <failure" ++ attr "message" "-1 == 0" ++ attr "type" "CHECK" ++ str ">";
   str "a&lt;b"; str "at t.cpp:3"; str "      </failure>";
   str "      <system-out>"; str "out"; str "      </system-out>";
   str "    </testcase>";
   str "    <system-out>"; str "out"; str "    </system-out>"; str "    <system-err/>";
   str "  </testsuite>"; str "</testsuites>"].
Proof. vm_compute. reflexivity. Qed.

(** Its events are those of a group of one test case with two cycles. *)
Lemma junit_case_grouped : grouped (λ stats, stats = report_failure) junit_case [report_info].
Proof.
  apply (grouped_test _ report_info one_failed false junit_inner []); [|constructor].
  apply (cycled_more _ _ _ [sectionStarting (report_section "empty");
    sectionEnded_ (report_section "empty") (mk_Counts 1 0 0) false]).
  - apply (nested_section _ _ _ []); constructor.
  - apply (cycled_last _ _ _ [sectionStarting (report_section "full"); assertionEnded_ report_failure;
      sectionEnded_ (report_section "full") (mk_Counts 0 1 0) false]).
    apply (nested_section _ _ _ [assertionEnded_ report_failure]); [|constructor].
    by apply nested_assertion; [|constructor].
Qed.
Lemma report_failure_readable stats : stats = report_failure → ∃ a, kept stats = Done a ∧ readable a.
Proof. intros ->. eexists. split; [vm_compute; reflexivity|]. eexists. vm_compute. reflexivity. Qed.

Lemma junit_gathered : ∃ ns, gathers_run report_config (str "0.0") junit_measure 1 junit_events 0 None ns.
Proof.
  destruct (grouped_gathers (str "0.0") junit_measure readable _ report_failure_readable junit_case
    [report_info] junit_case_grouped 2 0 None) as (n1 & d1 & cs & Hg & Hcs).
  eexists. eapply (run_group report_config (str "0.0") junit_measure 1 (str "all") 1 1 junit_case);
    [exact Hg| |apply run_done].
  destruct cs as [|p [|]]; try discriminate Hcs. constructor; [|constructor].
  injection Hcs as Hp. cbn in Hp. rewrite Hp. apply tags_named. by repeat constructor.
Qed.

Lemma junit_report_of_run_witness : ∃ ns r0 r,
  make_JunitReporter Verbosity_Normal [] = inr r0 ∧
  junit_handle_all report_config (str "0.0") junit_measure 0
    (testRunStarting (str "kv") :: junit_events ++ [testRunEnded (str "kv") one_failed false]) r0 =
    Done (inr tt, r) ∧
  m_os (xml r) = m_os (make_XmlWriter []) ++ render [] (Tree (str "testsuites") [] ns) ∧ m_tags (xml r) = [].
Proof.
  destruct junit_gathered as [ns Hns]. exists ns.
  apply (junit_report_of_run report_config (str "0.0") junit_measure (str "kv") (str "kv") one_failed false
    junit_events ns []). exact Hns.
Defined.

Lemma sections_junit_report_witness : ∃ totals r' r0 x,
  report_run = Done (inr totals, r') ∧ make_JunitReporter Verbosity_Normal [] = inr r0 ∧
  junit_handle_all report_config (str "0.0") junit_measure 0 (m_reporter (close_run_context r')) r0 =
    Done (inr tt, x) ∧ m_tags (xml x) = [].
Proof.
  destruct (sections_junit_report report_config (str "0.0") junit_measure
    2 3 (λ _, sample_sections) (str "CHECK") (mk_SourceLineInfo (str "t.cpp") 9) (str "1 == 1")
    ContinueOnFailure true_expr (mk_SourceLineInfo (str "catch.hpp") 1) [report_test]
    report_run_config []) as (totals & r' & E & r0 & x & cs & k & out & err & H0 & Hx & _ & Ht & _).
  - reflexivity.
  - lia.
  - constructor; [|constructor]. split; [reflexivity|].
    split; [by repeat split; apply (bool_decide_eq_true_1 (NoDup _))|].
    split; [cbn; lia|]. split; [cbn; unfold u64_modulus; lia|reflexivity].
  - by repeat constructor.
  - reflexivity.
  - reflexivity.
  - reflexivity.
  - exists totals, r', r0, x. split; [exact E|]. split; [exact H0|]. split; [exact Hx|exact Ht].
Defined.

(** A check that may fail unnoticed, and throws. *)
Definition nofail_info : AssertionInfo :=
  mk_AssertionInfo (StringRef_string (str "CHECK_NOFAIL")) (mk_SourceLineInfo (str "t.cpp") 5)
    (StringRef_string (str "kv.put(k)")) (Z.lor ContinueOnFailure SuppressFail).
Definition junit_run : RunContext := set_activeTestCase (Some passing_info) (make_run_context report_run_config).
Lemma suppressed_exception_wraps_failures_witness : ∃ reaction r' stats,
  handleUnexpectedInflightException nofail_info (str "full") junit_run = Done (inr reaction, r') ∧
  m_reporter r' = m_reporter junit_run ++ [assertionEnded_ stats] ∧
  group_failures (count_unexpected false [assertionEnded_ stats] 0) no_totals = 18446744073709551615.
Proof.
  destruct (suppressed_exception_wraps_failures junit_run passing_info nofail_info (str "full") no_totals)
    as (reaction & r' & stats & E & H & _ & _ & Hf); [reflexivity|reflexivity|reflexivity|reflexivity|].
  exists reaction, r', stats. split; [exact E|]. split; [exact H|]. exact Hf.
Defined.
