(* ===== verification/CatchConsole.v ===== *)
(** * Catch: the console reporter (catch_reporter_console)

    What the tests print by default.  Colours are left out; durations, which no event carries, are
    a parameter, and so is the text of a quotient of floating-point numbers.  The build does not
    enable benchmarks, which are what fills the table printer. *)
From stdpp Require Import strings list.
From S2P Require Import Prelude CatchString CatchTest CatchResult CatchTracker CatchRun.
From S2P Require Import CatchText CatchClara CatchConfig CatchSession CatchXml CatchXmlReporter.
From S2P Require Import CatchCompact.

Definition console_getDescription : list byte := str "Reports test results as plain lines of text".

Definition getLineOfChars (c : byte) : list byte := replicate (CONSOLE_WIDTH - 1) c.

(** ** Totals *)
Definition makeRatio (number total : Z) : Z :=
  let ratio := if decide (0 < total) then u64 (Z.of_nat CONSOLE_WIDTH * number) / total else 0 in
  if decide (ratio = 0 ∧ 0 < number) then 1 else ratio.

(** [findMax( i, j, k )++] and [findMax( i, j, k )--]: the change of what it refers to. *)
Definition findMax (i j k : Z) (f : Z → Z) : Z * Z * Z :=
  if decide (i > j ∧ i > k) then (u64 (f i), j, k)
  else if decide (j > k) then (i, u64 (f j), k)
  else (i, j, u64 (f k)).
Definition ratio_sum (r : Z * Z * Z) : Z := let '(i, j, k) := r in u64 (u64 (i + j) + k).

(** The loops of [printTotalsDivider], with fuel for the rounds. *)
Fixpoint grow (fuel : nat) (r : Z * Z * Z) : option (Z * Z * Z) :=
  if decide (ratio_sum r < Z.of_nat CONSOLE_WIDTH - 1) then
    match fuel with
    | O => None
    | S fuel => let '(i, j, k) := r in grow fuel (findMax i j k (λ x, x + 1))
    end
  else Some r.
Fixpoint shrink (fuel : nat) (r : Z * Z * Z) : option (Z * Z * Z) :=
  if decide (Z.of_nat CONSOLE_WIDTH - 1 < ratio_sum r) then
    match fuel with
    | O => None
    | S fuel => let '(i, j, k) := r in shrink fuel (findMax i j k (λ x, x - 1))
    end
  else Some r.

(** How many characters stand for the tests that failed, failed as expected, passed. *)
Definition divider_ratios (fuel : nat) (t : Counts) : option (Z * Z * Z) :=
  let ratio n := makeRatio n (counts_total t) in
  r ← grow fuel (ratio (failed t), ratio (failedButOk t), ratio (passed t));
  shrink fuel r.
Definition printTotalsDivider (fuel : nat) (totals : Totals) : option (list byte) :=
  if decide (0 < counts_total (testCases totals)) then
    '(i, j, k) ← divider_ratios fuel (testCases totals);
    Some (replicate (Z.to_nat i) x3d ++ replicate (Z.to_nat j) x3d ++ replicate (Z.to_nat k) x3d ++ [x0a])
  else Some (replicate (CONSOLE_WIDTH - 1) x3d ++ [x0a]).

Record SummaryColumn := mk_SummaryColumn { label : list byte; rows : list (list byte) }.

(** One old row against the new one, which may grow on the way. *)
Definition pad_rows (oldRow row : list byte) : list byte * list byte :=
  (replicate (length row - length oldRow) x20 ++ oldRow, replicate (length oldRow - length row) x20 ++ row).
Fixpoint add_rows (old : list (list byte)) (row : list byte) : list (list byte) * list byte :=
  match old with
  | [] => ([], row)
  | o :: old =>
      let '(o, row) := pad_rows o row in
      let '(old, row) := add_rows old row in
      (o :: old, row)
  end.
Definition addRow (count : Z) (c : SummaryColumn) : SummaryColumn :=
  let '(old, row) := add_rows (rows c) (decimal (Z.to_nat count)) in
  mk_SummaryColumn (label c) (old ++ [row]).

(** [rows[row]] is undefined past the end. *)
Fixpoint printSummaryRow (name : string) (cols : list SummaryColumn) (row : nat) : outcome (list byte) :=
  match cols with
  | [] => Done [x0a]
  | col :: cols =>
      value ← or_undefined (rows col !! row);
      rest ← printSummaryRow name cols row;
      Done ((if decide (label col = []) then
               str name ++ str ": " ++ (if decide (value ≠ str "0") then value else str "- none -")
             else if decide (value ≠ str "0") then str " | " ++ value ++ str " " ++ label col
             else []) ++ rest)
  end.

Definition summary_columns (totals : Totals) : list SummaryColumn :=
  let t := testCases totals in
  let a := assertions totals in
  [addRow (counts_total a) (addRow (counts_total t) (mk_SummaryColumn [] []));
   addRow (passed a) (addRow (passed t) (mk_SummaryColumn (str "passed") []));
   addRow (failed a) (addRow (failed t) (mk_SummaryColumn (str "failed") []));
   addRow (failedButOk a) (addRow (failedButOk t) (mk_SummaryColumn (str "failed as expected") []))].

Definition console_printTotals (totals : Totals) : outcome (list byte) :=
  let t := testCases totals in
  let a := assertions totals in
  if decide (counts_total t = 0) then Done (str "No tests ran" ++ [x0a])
  else if bool_decide (0 < counts_total a) && allPassed t then
    Done (str "All tests passed (" ++ plural (passed a) "assertion" ++ str " in " ++
          plural (passed t) "test case" ++ str ")" ++ [x0a])
  else
    x ← printSummaryRow "test cases" (summary_columns totals) 0;
    y ← printSummaryRow "assertions" (summary_columns totals) 1;
    Done (x ++ y).

(** ** Durations *)
Inductive Unit_ := Auto | Nanoseconds | Microseconds | Milliseconds | Seconds | Minutes.
#[export] Instance Unit_eq_dec : EqDecision Unit_.
Proof. solve_decision. Defined.
Definition s_nanosecondsInAMicrosecond : Z := 1000.
Definition s_nanosecondsInAMillisecond : Z := 1000 * s_nanosecondsInAMicrosecond.
Definition s_nanosecondsInASecond : Z := 1000 * s_nanosecondsInAMillisecond.
Definition s_nanosecondsInAMinute : Z := 60 * s_nanosecondsInASecond.

Record Duration := mk_Duration { m_inNanoseconds : Z; m_units : Unit_ }.
Definition make_Duration (inNanoseconds : Z) (units : Unit_) : Duration :=
  mk_Duration inNanoseconds
    (if decide (units = Auto) then
       if decide (inNanoseconds < s_nanosecondsInAMicrosecond) then Nanoseconds
       else if decide (inNanoseconds < s_nanosecondsInAMillisecond) then Microseconds
       else if decide (inNanoseconds < s_nanosecondsInASecond) then Milliseconds
       else if decide (inNanoseconds < s_nanosecondsInAMinute) then Seconds
       else Minutes
     else units).
(** What [value] divides by. *)
Definition duration_divisor (d : Duration) : Z :=
  match m_units d with
  | Microseconds => s_nanosecondsInAMicrosecond
  | Milliseconds => s_nanosecondsInAMillisecond
  | Seconds => s_nanosecondsInASecond
  | Minutes => s_nanosecondsInAMinute
  | _ => 1
  end.
Definition unitsAsString (d : Duration) : list byte :=
  match m_units d with
  | Nanoseconds => str "ns"
  | Microseconds => str "us"
  | Milliseconds => str "ms"
  | Seconds => str "s"
  | Minutes => str "m"
  | Auto => str "** internal error **"
  end.
Definition print_duration (quotient : Z → Z → list byte) (d : Duration) : list byte :=
  quotient (m_inNanoseconds d) (duration_divisor d) ++ str " " ++ unitsAsString d.

(** ** TablePrinter

    [m_os] is the stream of the reporter: what is written to it is given with the new state. *)
Inductive Justification := Left | Right.
#[export] Instance Justification_eq_dec : EqDecision Justification.
Proof. solve_decision. Defined.
Record ColumnInfo := mk_ColumnInfo { ci_name : list byte; ci_width : Z; justification : Justification }.
Record TablePrinter := mk_TablePrinter {
  m_columnInfos : list ColumnInfo;
  m_oss : list byte;
  m_currentColumn : Z;
  m_isOpen : bool
}.
Definition make_TablePrinter (columnInfos : list ColumnInfo) : TablePrinter :=
  mk_TablePrinter columnInfos [] (-1) false.

Definition table_put (value : list byte) (tp : TablePrinter) : TablePrinter :=
  mk_TablePrinter (m_columnInfos tp) (m_oss tp ++ value) (m_currentColumn tp) (m_isOpen tp).
Definition row_break (tp : TablePrinter) : list byte * TablePrinter :=
  if decide (0 < m_currentColumn tp)
  then ([x0a], mk_TablePrinter (m_columnInfos tp) (m_oss tp) (-1) (m_isOpen tp)) else ([], tp).

(** The header row: the columns with a spacer after each. *)
Fixpoint header_columns (infos : list ColumnInfo) (headerCols : Columns) : outcome Columns :=
  match infos with
  | [] => Done headerCols
  | info :: infos =>
      c ← width (Z.to_nat (u64 (i32 (ci_width info - 2)))) (new_Column (ci_name info));
      spacer ← Spacer 2;
      header_columns infos (columns_add (columns_add headerCols c) spacer)
  end.
Definition set_isOpen (b : bool) (tp : TablePrinter) : TablePrinter :=
  mk_TablePrinter (m_columnInfos tp) (m_oss tp) (m_currentColumn tp) b.

Section table.
(** Fuel for the lines of a column. *)
Context (fuel : nat).

Definition table_open (tp : TablePrinter) : outcome (list byte * TablePrinter) :=
  if m_isOpen tp then Done ([], tp)
  else
    let '(out, tp) := row_break (set_isOpen true tp) in
    cols ← header_columns (m_columnInfos tp) [];
    header ← columns_toString fuel cols;
    Done (out ++ header ++ [x0a] ++ getLineOfChars x2d ++ [x0a], tp).
Definition table_close (tp : TablePrinter) : list byte * TablePrinter :=
  if m_isOpen tp then
    let '(out, tp) := row_break tp in (out ++ [x0a], set_isOpen false tp)
  else ([], tp).

Definition column_break (tp : TablePrinter) : outcome (list byte * TablePrinter) :=
  let colStr := m_oss tp in
  strSize ← numberOfCharacters (StringRef_string colStr);
  '(out, tp) ← table_open (mk_TablePrinter (m_columnInfos tp) [] (m_currentColumn tp) (m_isOpen tp));
  let last := bool_decide (m_currentColumn tp = i32 (Z.of_nat (length (m_columnInfos tp)) - 1)) in
  let column := i32 ((if last then -1 else m_currentColumn tp) + 1) in
  colInfo ← (if decide (0 ≤ column) then or_undefined (m_columnInfos tp !! Z.to_nat column) else Undefined);
  let w := u64 (ci_width colInfo) in
  let padding := if decide (u64 (strSize + 2) < w)
                 then replicate (Z.to_nat (u64 (w - u64 (strSize + 2)))) x20 else [] in
  Done (out ++ (if last then [x0a] else []) ++
        (if decide (justification colInfo = Left) then colStr ++ padding else padding ++ colStr) ++ [x20],
        mk_TablePrinter (m_columnInfos tp) (m_oss tp) column (m_isOpen tp)).

(** ** Assertions *)
Definition column_text (c : Column) : outcome (list byte) := column_toString fuel c.

Definition passOrFail (r : AssertionResult) : list byte :=
  let t := getResultType r in
  if decide (t = Ok) then str "PASSED"
  else if decide (t = ExpressionFailed) then
    if result_isOk r then str "FAILED - but was ok" else str "FAILED"
  else if bool_decide (t ∈ [ThrewException; FatalErrorCondition; DidntThrowException; ExplicitFailure])
  then str "FAILED"
  else if bool_decide (t ∈ [Unknown; FailureBit; Exception]) then str "** internal error **"
  else [].

(** The label of the messages, which says how many there are. *)
Definition counted_label (n : nat) (one many : string) : list byte :=
  if decide (n = 1%nat) then str one else if decide (1 < n)%nat then str many else [].
Definition messageLabel (r : AssertionResult) (n : nat) : list byte :=
  let t := getResultType r in
  if bool_decide (t ∈ [Ok; ExpressionFailed]) then counted_label n "with message" "with messages"
  else if decide (t = ThrewException) then
    str "due to unexpected exception with " ++ counted_label n "message" "messages"
  else if decide (t = FatalErrorCondition) then str "due to a fatal error condition"
  else if decide (t = DidntThrowException) then
    str "because no exception was thrown where one was expected"
  else if decide (t = Info) then str "info"
  else if decide (t = Warning) then str "warning"
  else if decide (t = ExplicitFailure) then
    counted_label n "explicitly with message" "explicitly with messages"
  else [].

Definition console_printResultType (r : AssertionResult) : list byte :=
  if decide (passOrFail r = []) then [] else passOrFail r ++ str ":" ++ [x0a].
Definition console_printOriginalExpression (r : AssertionResult) : outcome (list byte) :=
  h ← hasExpression r;
  if (h : bool) then e ← getExpressionInMacro r; Done (str "  " ++ e ++ [x0a]) else Done [].
Definition console_printReconstructedExpression (r : AssertionResult) : outcome (list byte) :=
  h ← hasExpandedExpression r;
  if (h : bool) then
    x ← getExpandedExpression r;
    text ← column_text (indent 2 (new_Column x));
    Done (str "with expansion:" ++ [x0a] ++ text ++ [x0a])
  else Done [].

Fixpoint print_messages (printInfoMessages : bool) (ms : list MessageInfo) : outcome (list byte) :=
  match ms with
  | [] => Done []
  | msg :: ms =>
      line ← (if printInfoMessages || negb (bool_decide (mi_type msg = Info)) then
                text ← column_text (indent 2 (new_Column (mi_message msg))); Done (text ++ [x0a])
              else Done []);
      rest ← print_messages printInfoMessages ms;
      Done (line ++ rest)
  end.
Definition console_printMessage (stats : AssertionStats) (printInfoMessages : bool) : outcome (list byte) :=
  let label := messageLabel (assertionResult stats) (length (infoMessages stats)) in
  ms ← print_messages printInfoMessages (infoMessages stats);
  Done ((if decide (label = []) then [] else label ++ str ":" ++ [x0a]) ++ ms).

(** [ConsoleAssertionPrinter::print] *)
Definition console_print (stats : AssertionStats) (printInfoMessages : bool) : outcome (list byte) :=
  let r := assertionResult stats in
  body ← (if decide (0 < counts_total (assertions (as_totals stats))) then
            original ← console_printOriginalExpression r;
            expanded ← console_printReconstructedExpression r;
            Done (console_printResultType r ++ original ++ expanded)
          else Done [x0a]);
  ms ← console_printMessage stats printInfoMessages;
  Done (print_sli (getSourceInfo r) ++ str ": " ++ body ++ ms).

(** ** Headers

    A colon in the name sets the indent of the lines after the first. *)
Definition printHeaderString (_string : list byte) (indent_ : nat) : outcome (list byte) :=
  let i := match find _string (str ": ") 0 with Some i => (i + 2)%nat | None => 0%nat end in
  text ← column_text (initialIndent indent_ (indent (indent_ + i) (new_Column _string)));
  Done (text ++ [x0a]).
Definition printOpenHeader (_name : list byte) : outcome (list byte) :=
  text ← printHeaderString _name 0; Done (getLineOfChars x2d ++ [x0a] ++ text).
Definition printClosedHeader (_name : list byte) : outcome (list byte) :=
  text ← printOpenHeader _name; Done (text ++ getLineOfChars x2e ++ [x0a]).
End table.

(** ** The reporter *)
Record ConsoleReporter := mk_ConsoleReporter {
  con_stream : list byte;
  con_base : StreamingReporterBase;
  m_tablePrinter : TablePrinter;
  m_headerPrinted : bool
}.
Definition con (A : Type) : Type := st ConsoleReporter A.

Definition console_columns : list ColumnInfo :=
  [mk_ColumnInfo (str "benchmark name") (Z.of_nat CONSOLE_WIDTH - 32) Left;
   mk_ColumnInfo (str "samples      mean       std dev") 14 Right;
   mk_ColumnInfo (str "iterations   low mean   low std dev") 14 Right;
   mk_ColumnInfo (str "estimated    high mean  high std dev") 14 Right].
Definition new_ConsoleReporter (stream : list byte) : ConsoleReporter :=
  mk_ConsoleReporter stream new_base (make_TablePrinter console_columns) false.

Definition con_put (out : list byte) : con unit := st_modify (λ r,
  mk_ConsoleReporter (con_stream r ++ out) (con_base r) (m_tablePrinter r) (m_headerPrinted r)).
Definition con_write (o : outcome (list byte)) : con unit := out ← st_lift o; con_put out.
Definition set_headerPrinted (b : bool) : con unit := st_modify (λ r,
  mk_ConsoleReporter (con_stream r) (con_base r) (m_tablePrinter r) b).
Definition set_base (b : StreamingReporterBase) : con unit := st_modify (λ r,
  mk_ConsoleReporter (con_stream r) b (m_tablePrinter r) (m_headerPrinted r)).
Definition close_table : con unit := st_modify (λ r,
  let '(out, tp) := table_close (m_tablePrinter r) in
  mk_ConsoleReporter (con_stream r ++ out) (con_base r) tp (m_headerPrinted r)).
Definition console_base (e : event) : con unit :=
  r ← st_get; b ← st_lift (base_handle e (con_base r)); set_base b.

Definition use_run (b : StreamingReporterBase) : StreamingReporterBase :=
  mk_StreamingReporterBase (mk_LazyStat (stat (currentTestRunInfo b)) true) (currentGroupInfo b)
    (currentTestCaseInfo b) (m_sectionStack b).
Definition use_group (b : StreamingReporterBase) : StreamingReporterBase :=
  mk_StreamingReporterBase (currentTestRunInfo b) (mk_LazyStat (stat (currentGroupInfo b)) true)
    (currentTestCaseInfo b) (m_sectionStack b).

Section reporter.
Context {double : Type} (config : Config double) (fuel : nat) (section_seconds : SectionInfo → list byte).

Definition lazyPrintRunInfo : con unit :=
  _ ← con_put ([x0a] ++ getLineOfChars x7e ++ [x0a]);
  r ← st_get;
  name ← st_lift (or_undefined (stat (currentTestRunInfo (con_base r))));
  _ ← con_put (name ++ str " is a Catch v" ++ print_version libraryVersion ++ str " host application." ++ [x0a] ++
               str "Run with -? for options" ++ [x0a; x0a]);
  let seed := cd_rngSeed (m_data config) in
  _ ← (if decide (seed ≠ 0)
       then con_put (str "Randomness seeded to: " ++ decimal (Z.to_nat seed) ++ [x0a; x0a]) else mret tt);
  set_base (use_run (con_base r)).

Definition lazyPrintGroupInfo : con unit :=
  r ← st_get;
  group ← st_lift (or_undefined (stat (currentGroupInfo (con_base r))));
  if decide (gi_name group ≠ [] ∧ (1 < groupsCounts group)%nat) then
    _ ← con_write (printClosedHeader fuel (str "Group: " ++ gi_name group));
    set_base (use_group (con_base r))
  else mret tt.

Fixpoint print_section_headers (sections : list SectionInfo) : outcome (list byte) :=
  match sections with
  | [] => Done []
  | s :: sections =>
      text ← printHeaderString fuel (si_name s) 2;
      rest ← print_section_headers sections;
      Done (text ++ rest)
  end.

Definition printTestCaseAndSectionHeader : con unit :=
  r ← st_get;
  let stack := m_sectionStack (con_base r) in
  match rev stack with
  | [] => st_assert false
  | back :: _ =>
      t ← st_lift (or_undefined (stat (currentTestCaseInfo (con_base r))));
      _ ← con_write (printOpenHeader fuel (name t));
      _ ← (if decide (1 < length stack)%nat then con_write (print_section_headers (drop 1 stack)) else mret tt);
      let lineInfo := si_lineInfo back in
      _ ← (if decide (CatchTest.file lineInfo = []) then mret tt
           else con_put (getLineOfChars x2d ++ [x0a] ++ print_sli lineInfo ++ [x0a]));
      con_put (getLineOfChars x2e ++ [x0a; x0a])
  end.

Definition lazyPrintWithoutClosingBenchmarkTable : con unit :=
  r ← st_get;
  _ ← (if used (currentTestRunInfo (con_base r)) then mret tt else lazyPrintRunInfo);
  r ← st_get;
  _ ← (if used (currentGroupInfo (con_base r)) then mret tt else lazyPrintGroupInfo);
  r ← st_get;
  if m_headerPrinted r then mret tt
  else _ ← printTestCaseAndSectionHeader; set_headerPrinted true.
Definition lazyPrint : con unit := _ ← close_table; lazyPrintWithoutClosingBenchmarkTable.

(** Whether the assertion is shown, and with messages of type [Info]. *)
Definition console_shows (stats : AssertionStats) : option bool :=
  let includeResults := cd_showSuccessfulTests (m_data config) || negb (result_isOk (assertionResult stats)) in
  if negb includeResults && bool_decide (getResultType (assertionResult stats) ≠ Warning) then None
  else Some includeResults.
Definition console_assertionEnded (stats : AssertionStats) : con unit :=
  match console_shows stats with
  | None => mret tt
  | Some includeResults =>
      _ ← lazyPrint;
      _ ← con_write (console_print fuel stats includeResults);
      con_put [x0a]
  end.

Definition console_sectionStarting (e : event) : con unit :=
  _ ← close_table; _ ← set_headerPrinted false; console_base e.
Definition console_sectionEnded (e : event) (s : SectionInfo) (missingAssertions : bool) : con unit :=
  _ ← close_table;
  _ ← (if missingAssertions then
         _ ← lazyPrint;
         r ← st_get;
         con_put ([x0a] ++ str (if decide (1 < length (m_sectionStack (con_base r)))%nat
                                then "No assertions in section" else "No assertions in test case") ++
                  str " '" ++ si_name s ++ str "'" ++ [x0a; x0a])
       else mret tt);
  _ ← (if durations_always config then con_put (section_seconds s ++ str " s: " ++ si_name s ++ [x0a])
       else mret tt);
  _ ← set_headerPrinted false;
  console_base e.

Definition printTestFilters : list byte :=
  if hasFilters (cfg_testSpec config)
  then str "Filters: " ++ serializeFilters (cd_testsOrTags (m_data config)) ++ [x0a] else [].
Definition printSummaryDivider : list byte := getLineOfChars x2d ++ [x0a].

Definition console_testGroupEnded (e : event) (name : list byte) (totals : Totals) : con unit :=
  r ← st_get;
  _ ← (if used (currentGroupInfo (con_base r)) then
         _ ← con_put (printSummaryDivider ++ str "Summary for group '" ++ name ++ str "':" ++ [x0a]);
         _ ← con_write (console_printTotals totals);
         con_put [x0a; x0a]
       else mret tt);
  console_base e.
Definition console_testRunEnded (e : event) (totals : Totals) : con unit :=
  _ ← con_write (or_undefined (printTotalsDivider fuel totals));
  _ ← con_write (console_printTotals totals);
  _ ← con_put [x0a];
  console_base e.

Definition console_handle (e : event) : con unit :=
  match e with
  | testRunStarting _ => _ ← console_base e; con_put printTestFilters
  | sectionStarting _ => console_sectionStarting e
  | assertionEnded_ stats => console_assertionEnded stats
  | sectionEnded_ s _ missing => console_sectionEnded e s missing
  | testCaseEnded _ _ _ => _ ← close_table; _ ← console_base e; set_headerPrinted false
  | testGroupEnded_ name _ _ totals _ => console_testGroupEnded e name totals
  | testRunEnded _ totals _ => console_testRunEnded e totals
  | noMatchingTestCases spec => con_put (str "No test cases matched '" ++ spec ++ str "'" ++ [x0a])
  | assertionStarting _ => mret tt
  | testGroupStarting _ _ _ | testCaseStarting _ | skipTest _ | fatalErrorEncountered _ => console_base e
  end.
Fixpoint console_handle_all (es : list event) : con unit :=
  match es with
  | [] => mret tt
  | e :: es => _ ← console_handle e; console_handle_all es
  end.
End reporter.
