(* ===== verification/CatchConsoleProps.v ===== *)
(** * Properties of the console reporter

    The line that divides the totals off, the columns of the totals, where a header breaks, and
    what a run in which all passes leaves on the console. *)
From stdpp Require Import strings list.
From S2P Require Import CatchTextProps CatchSession CatchCompact CatchStreams Prelude CatchString.
From S2P Require Import CatchTest CatchResult CatchTracker CatchRun CatchSections CatchText CatchClara.
From S2P Require Import CatchConfig CatchXml CatchXmlReporter CatchXmlReporterProps CatchRunProps.
From S2P Require Import CatchRunSections CatchRunGroups CatchRunReport CatchConsole.

(** ** The divider *)
Definition countable (t : Counts) : Prop :=
  0 ≤ passed t ∧ 0 ≤ failed t ∧ 0 ≤ failedButOk t ∧
  Z.of_nat CONSOLE_WIDTH * (passed t + failed t + failedButOk t) < u64_modulus.

(** The share a count has of the width, rounded down but for a count of a few. *)
Lemma makeRatio_share n total : 0 ≤ n ≤ total → 0 < total → 80 * total < u64_modulus →
  80 * n - total < total * makeRatio n total ∧ 0 ≤ makeRatio n total ≤ 80 ∧
  (total * makeRatio n total ≤ 80 * n ∨ (makeRatio n total = 1 ∧ 0 < n)) ∧ (0 < makeRatio n total ↔ 0 < n).
Proof.
  intros Hn Ht Hm. unfold makeRatio. rewrite (decide_True (P := 0 < total)) by done.
  change (Z.of_nat CONSOLE_WIDTH) with 80. rewrite u64_id by (unfold is_u64; split; lia).
  pose proof (Z.div_mod (80 * n) total ltac:(lia)) as Hd. pose proof (Z.mod_pos_bound (80 * n) total Ht) as Hb.
  assert (0 ≤ 80 * n / total ≤ 80) by (split; [apply Z.div_pos; lia|apply Z.div_le_upper_bound; lia]).
  set (q := 80 * n / total) in *. cbv zeta. case_decide as E; split_and!; try lia; nia.
Qed.

Definition kinds_shown (r : Z * Z * Z) (t : Counts) : Prop :=
  let '(i, j, k) := r in (0 < i ↔ 0 < failed t) ∧ (0 < j ↔ 0 < failedButOk t) ∧ (0 < k ↔ 0 < passed t).
Definition small (r : Z * Z * Z) : Prop :=
  let '(i, j, k) := r in 0 ≤ i ≤ 82 ∧ 0 ≤ j ≤ 82 ∧ 0 ≤ k ≤ 82.
Definition plain_sum (r : Z * Z * Z) : Z := let '(i, j, k) := r in i + j + k.

Lemma ratio_sum_small r : small r → ratio_sum r = plain_sum r.
Proof. destruct r as [[i j] k]. cbn. intros. rewrite (u64_id (i + j)), u64_id; unfold is_u64, u64_modulus; lia. Qed.

(** The largest of three that are not all small is changed, and stays positive. *)
Lemma findMax_step t r f d : small r → kinds_shown r t → 78 ≤ plain_sum r ≤ 82 → (∀ x, f x = x + d) →
  d = 1 ∨ d = -1 → 78 ≤ plain_sum r + d ≤ 82 → ∃ r', (let '(i, j, k) := r in findMax i j k f) = r' ∧
  plain_sum r' = plain_sum r + d ∧ small r' ∧ kinds_shown r' t.
Proof.
  destruct r as [[i j] k]. cbn. intros Hs Hk Hsum Hf Hd Hsum'. eexists. split; [reflexivity|].
  unfold findMax. assert (∀ x, 0 ≤ x + d < 1000 → u64 (f x) = x + d) as Hu.
  { intros x Hx. rewrite Hf, u64_id; [done|]. unfold is_u64, u64_modulus. lia. }
  repeat case_decide; cbn; rewrite Hu by lia; split_and!; try tauto; try lia; split; intros; try tauto; lia.
Qed.

Lemma shrink_to_width t fuel r : small r → kinds_shown r t → 79 ≤ plain_sum r ≤ 82 →
  (Z.to_nat (plain_sum r - 79) ≤ fuel)%nat → ∃ r', shrink fuel r = Some r' ∧ plain_sum r' = 79 ∧
  small r' ∧ kinds_shown r' t.
Proof.
  revert r. induction fuel as [|fuel IH]; intros r Hs Hk Hsum Hf; cbn [shrink];
    change (Z.of_nat CONSOLE_WIDTH - 1) with 79; rewrite (ratio_sum_small r Hs); case_decide as E.
  - lia.
  - exists r. split_and!; auto; lia.
  - destruct (findMax_step t r (λ x, x - 1) (-1) Hs Hk ltac:(lia) ltac:(intros; cbv beta; lia) ltac:(lia) ltac:(lia))
      as (r' & Er & Hp & Hs' & Hk').
    destruct (IH r' Hs' Hk' ltac:(lia) ltac:(lia)) as (r2 & E2 & H2). exists r2. split; [|done].
    destruct r as [[i j] k]. by rewrite Er.
  - exists r. split_and!; auto; lia.
Qed.

Lemma grow_to_width t fuel r : small r → kinds_shown r t → 78 ≤ plain_sum r ≤ 82 → (1 ≤ fuel)%nat →
  ∃ r', grow fuel r = Some r' ∧ 79 ≤ plain_sum r' ≤ 82 ∧ small r' ∧ kinds_shown r' t.
Proof.
  intros Hs Hk Hsum Hf. destruct fuel as [|fuel]; [lia|]. cbn [grow].
  change (Z.of_nat CONSOLE_WIDTH - 1) with 79. rewrite (ratio_sum_small r Hs). case_decide as E.
  - destruct (findMax_step t r (λ x, x + 1) 1 Hs Hk ltac:(lia) ltac:(intros; cbv beta; lia) ltac:(lia) ltac:(lia))
      as (r' & Er & Hp & Hs' & Hk').
    exists r'. split; [|split; [lia|done]]. destruct r as [[i j] k]. rewrite Er.
    destruct fuel; cbn [grow]; change (Z.of_nat CONSOLE_WIDTH - 1) with 79;
      by rewrite (ratio_sum_small r' Hs'), decide_False by lia.
  - exists r. split; [done|]. split; [lia|done].
Qed.

Lemma counts_total_sum t : countable t → counts_total t = passed t + failed t + failedButOk t.
Proof.
  intros (H1 & H2 & H3 & H). unfold counts_total. change (Z.of_nat CONSOLE_WIDTH) with 80 in H. unfold u64_modulus in H.
  rewrite (u64_id (passed t + failed t)), u64_id; unfold is_u64, u64_modulus; lia.
Qed.

Lemma divider_ratios_width fuel t : countable t → 0 < counts_total t → (3 ≤ fuel)%nat →
  ∃ r, divider_ratios fuel t = Some r ∧ plain_sum r = 79 ∧ small r ∧ kinds_shown r t.
Proof.
  intros Hc Ht Hf. pose proof (counts_total_sum t Hc) as E. destruct Hc as (H1 & H2 & H3 & H).
  change (Z.of_nat CONSOLE_WIDTH) with 80 in H. rewrite <-E in H.
  destruct (makeRatio_share (failed t) (counts_total t)) as (A1 & A2 & A3 & A4); [lia..|].
  destruct (makeRatio_share (failedButOk t) (counts_total t)) as (B1 & B2 & B3 & B4); [lia..|].
  destruct (makeRatio_share (passed t) (counts_total t)) as (C1 & C2 & C3 & C4); [lia..|].
  unfold divider_ratios. set (a := makeRatio (failed t) _) in *. set (b := makeRatio (failedButOk t) _) in *.
  set (c := makeRatio (passed t) _) in *. set (T := counts_total t) in *.
  destruct (grow_to_width t fuel (a, b, c)) as (r1 & -> & S1 & M1 & K1).
  - cbn. lia.
  - by cbn.
  - cbn. assert (80 * T - 3 * T < T * (a + b + c)) by lia. nia.
  - lia.
  - cbn [mbind option_bind]. destruct (shrink_to_width t fuel r1 M1 K1 S1) as (r & Er & Hr); [lia|]. by exists r.
Qed.

(** ** The table of the totals *)
Definition right_aligned (w : nat) (s : list byte) : list byte := replicate (w - length s) x20 ++ s.

(** What follows the label: the two numbers, one below the other. *)
Lemma addRow_two cases checks l : ∃ w,
  rows (addRow checks (addRow cases (mk_SummaryColumn l []))) =
    [right_aligned w (decimal (Z.to_nat cases)); right_aligned w (decimal (Z.to_nat checks))] ∧
  (length (decimal (Z.to_nat cases)) ≤ w)%nat ∧ (length (decimal (Z.to_nat checks)) ≤ w)%nat.
Proof.
  set (a := decimal (Z.to_nat cases)). set (b := decimal (Z.to_nat checks)).
  exists (max (length a) (length b)). split; [|lia].
  unfold addRow, right_aligned. cbn -[decimal]. fold a b.
  replace (max (length a) (length b) - length a)%nat with (length b - length a)%nat by lia.
  replace (max (length a) (length b) - length b)%nat with (length a - length b)%nat by lia. done.
Qed.

Lemma right_aligned_length w s : (length s ≤ w)%nat → length (right_aligned w s) = w.
Proof. intros H. unfold right_aligned. rewrite length_app, length_replicate. lia. Qed.

Lemma printSummaryRow_done name cols i : Forall (λ c, (i < length (rows c))%nat) cols →
  ∃ out, printSummaryRow name cols i = Done out.
Proof.
  induction 1 as [|c cols Hc _ [out IH]]; [by eexists|]. cbn [printSummaryRow].
  destruct (lookup_lt_is_Some_2 _ _ Hc) as [v ->]. cbn [or_undefined mbind outcome_bind].
  rewrite IH. by eexists.
Qed.

Definition aligned (cases checks : Z) (c : SummaryColumn) : Prop := ∃ a b,
  rows c = [a; b] ∧ length a = length b ∧
  a = replicate (length a - length (decimal (Z.to_nat cases))) x20 ++ decimal (Z.to_nat cases) ∧
  b = replicate (length b - length (decimal (Z.to_nat checks))) x20 ++ decimal (Z.to_nat checks).

Lemma addRow_aligned cases checks l : aligned cases checks (addRow checks (addRow cases (mk_SummaryColumn l []))).
Proof.
  destruct (addRow_two cases checks l) as (w & E & Ha & Hb). do 2 eexists. split; [exact E|].
  rewrite !right_aligned_length by done. done.
Qed.

Lemma summary_columns_aligned totals :
  let t := testCases totals in let a := assertions totals in
  Forall2 (λ p, aligned p.1 p.2)
    [(counts_total t, counts_total a); (passed t, passed a); (failed t, failed a); (failedButOk t, failedButOk a)]
    (summary_columns totals).
Proof. repeat apply Forall2_cons_2; try apply addRow_aligned. apply Forall2_nil_2. Qed.

Lemma console_printTotals_done totals : ∃ out, console_printTotals totals = Done out.
Proof.
  unfold console_printTotals. case_decide as Ht; [by eexists|]. destruct (_ && _); [by eexists|].
  assert (∀ i, (i < 2)%nat → Forall (λ c, (i < length (rows c))%nat) (summary_columns totals)) as H.
  { intros i Hi. eapply Forall2_Forall_r; [exact (summary_columns_aligned totals)|].
    apply list.Forall_forall. intros p _ c (a & b & -> & _). cbn. lia. }
  destruct (printSummaryRow_done "test cases" _ 0 (H 0%nat ltac:(lia))) as [x ->].
  destruct (printSummaryRow_done "assertions" _ 1 (H 1%nat ltac:(lia))) as [y ->]. by eexists.
Qed.

(** ** Headers *)
Definition header_offset (s : list byte) : nat := match find s (str ": ") 0 with Some i => i + 2 | None => 0 end.

Lemma printHeaderString_wraps s ind fuel : (ind + header_offset s ≤ 77)%nat → (length s < fuel)%nat → ∃ ps,
  printHeaderString fuel s ind = Done (join_lines (layout ind (ind + header_offset s) ps) ++ [x0a]) ∧
  Forall (λ l, length l ≤ 79)%nat (layout ind (ind + header_offset s) ps) ∧
  visible (List.concat (List.map shown ps)) = visible s.
Proof.
  intros Hi Hf. unfold printHeaderString. fold (header_offset s).
  destruct (column_lines_layout (mk_Column [s] 79 (ind + header_offset s) (Some ind)) s eq_refl
    ltac:(cbn; lia) ltac:(cbn; lia) fuel Hf) as (ps & E & Hl & Hv).
  exists ps. split_and!; [|exact Hl|exact Hv]. unfold column_text, column_toString.
  change (initialIndent _ _) with (mk_Column [s] 79 (ind + header_offset s) (Some ind)). by rewrite E.
Qed.

Lemma printHeaderString_asserts s ind fuel : (79 ≤ ind + header_offset s)%nat →
  printHeaderString fuel s ind = Assert_failed.
Proof.
  intros Hi. unfold printHeaderString. fold (header_offset s). unfold column_text, column_toString, column_lines.
  unfold begin. cbn [initialIndent indent c_indent m_width new_Column].
  change TEXTFLOW_CONSOLE_WIDTH with 79%nat. by rewrite decide_False by lia.
Qed.

(** ** What passes unseen *)
Definition announcement (e : event) : list byte :=
  match e with
  | noMatchingTestCases spec => str "No test cases matched '" ++ spec ++ str "'" ++ [x0a]
  | _ => []
  end.
Definition announcements (es : list event) : list byte := es ≫= announcement.

Section silent.
Context {double : Type} (config : Config double) (fuel : nat) (section_seconds : SectionInfo → list byte).
Abbreviation handles := (console_handle_all config fuel section_seconds).

(** [out] is written, and nothing is left of what came in between but the test case. *)
Record wrote (out : list byte) (r r' : ConsoleReporter) : Prop := {
  wr_stream : con_stream r' = con_stream r ++ out;
  wr_closed : m_isOpen (m_tablePrinter r') = false;
  wr_run : currentTestRunInfo (con_base r') = currentTestRunInfo (con_base r);
  wr_group : currentGroupInfo (con_base r') = currentGroupInfo (con_base r);
  wr_stack : m_sectionStack (con_base r') = m_sectionStack (con_base r)
}.
Lemma wrote_trans a b r1 r2 r3 : wrote a r1 r2 → wrote b r2 r3 → wrote (a ++ b) r1 r3.
Proof. intros [] []. split; try congruence. rewrite app_assoc. congruence. Qed.
Lemma wrote_nil r : m_isOpen (m_tablePrinter r) = false → wrote [] r r.
Proof. intros H. split; try done. by rewrite app_nil_r. Qed.
Definition handled (es : list event) (out : list byte) (r : ConsoleReporter) : Prop :=
  ∃ r', handles es r = Done (tt, r') ∧ wrote out r r'.

Lemma handles_app es es' r r1 o : handles es r = Done (tt, r1) → handles es' r1 = o →
  handles (es ++ es') r = o.
Proof.
  revert r. induction es as [|e es IH]; intros r H H'; [by injection H as <-|]. cbn [app console_handle_all] in *.
  apply st_bind_inv in H as ([] & r3 & He & H). eapply bind_step; [exact He|]. by apply IH.
Qed.
Lemma handled_app es es' a b r : handled es a r →
  (∀ r', m_isOpen (m_tablePrinter r') = false → handled es' b r') → handled (es ++ es') (a ++ b) r.
Proof.
  intros (r1 & E1 & W1) H. destruct (H r1 (wr_closed _ _ _ W1)) as (r2 & E2 & W2).
  exists r2. split; [by eapply handles_app|by eapply wrote_trans].
Qed.
Lemma handles_one e es r r1 o : console_handle config fuel section_seconds e r = Done (tt, r1) →
  handles es r1 = o → handles (e :: es) r = o.
Proof. intros H H'. eapply bind_step; [exact H|exact H']. Qed.

Lemma close_closed r : m_isOpen (m_tablePrinter r) = false → close_table r = Done (tt, r).
Proof. intros H. unfold close_table, st_modify, table_close. rewrite H. cbn. rewrite app_nil_r. by destruct r. Qed.

Context (P : AssertionStats → Prop).
Hypotheses (P_hidden : ∀ stats, P stats → console_shows config stats = None)
  (no_durations : durations_always config = false).

Lemma ignored_handled e r : ignored e = true → m_isOpen (m_tablePrinter r) = false →
  handled [e] (announcement e) r.
Proof.
  intros He Hr. destruct e; try discriminate He; (eexists; split; [reflexivity|]); split; cbn;
    by rewrite ?app_nil_r.
Qed.

(** A section with nothing to show in it. *)
Lemma section_handled s c inner out r : m_isOpen (m_tablePrinter r) = false →
  (∀ r', m_isOpen (m_tablePrinter r') = false → handled inner out r') →
  handled (sectionStarting s :: inner ++ [sectionEnded_ s c false]) out r.
Proof using no_durations.
  intros Hr Hi. set (b := con_base r).
  set (r1 := mk_ConsoleReporter (con_stream r) (mk_StreamingReporterBase (currentTestRunInfo b)
    (currentGroupInfo b) (currentTestCaseInfo b) (m_sectionStack b ++ [s])) (m_tablePrinter r) false).
  destruct (Hi r1 Hr) as (r2 & E2 & [Ws Wc Wr Wg Wk]). cbn in *. eexists. split.
  - eapply handles_one with (r1 := r1).
    { eapply bind_step; [by apply close_closed|]. by repeat (eapply bind_step; [reflexivity|]). }
    eapply handles_app; [exact E2|]. eapply handles_one; [|reflexivity].
    eapply bind_step; [by apply close_closed|]. eapply bind_step; [reflexivity|]. rewrite no_durations.
    eapply bind_step; [reflexivity|]. eapply bind_step; [reflexivity|]. eapply bind_step; [reflexivity|].
    eapply bind_step; [unfold base_handle; cbn; rewrite Wk, rev_app_distr; reflexivity|]. reflexivity.
  - unfold b in *. split; cbn; try congruence. apply rev_involutive.
Qed.

Lemma nested_handled es : nested P es → ∀ r, m_isOpen (m_tablePrinter r) = false →
  handled es (announcements es) r.
Proof using P_hidden no_durations.
  induction 1 as [|e es He _ IH|stats es Hs _ IH|s c inner es _ IHi _ IH]; intros r Hr.
  - exists r. split; [done|by apply wrote_nil].
  - by apply (handled_app [e]); [apply ignored_handled|].
  - apply (handled_app [_] es [] _ r); [|done]. exists r. split; [|by apply wrote_nil].
    eapply handles_one; [|reflexivity]. cbn. unfold console_assertionEnded. by rewrite P_hidden.
  - unfold announcements. rewrite bind_cons, bind_app, bind_cons. cbn [announcement app].
    change (sectionEnded_ s c false :: es) with ([sectionEnded_ s c false] ++ es).
    rewrite (app_assoc inner), app_comm_cons. apply handled_app; [|exact IH].
    apply section_handled; [exact Hr|exact IHi].
Qed.

Lemma grouped_handled es tis : grouped P es tis → ∀ r, m_isOpen (m_tablePrinter r) = false →
  handled es (announcements es) r.
Proof using P_hidden no_durations.
  induction 1 as [|e es tis He _ IH|t totals ab inner es tis Hi _ IH]; intros r Hr.
  - exists r. split; [done|by apply wrote_nil].
  - by apply (handled_app [e]); [apply ignored_handled|].
  - unfold announcements. rewrite bind_cons, bind_app, bind_cons. cbn [announcement app].
    apply (handled_app [_] _ [] _ r).
    { eexists. split; [by eapply handles_one|]. split; try done. cbn. by rewrite app_nil_r. }
    intros r1 H1. apply handled_app; [apply nested_handled; [by apply cycled_nested|done]|]. intros r2 H2.
    apply (handled_app [_] es [] _ r2); [|exact IH]. eexists. split.
    + eapply handles_one; [|reflexivity]. eapply bind_step; [by apply close_closed|].
      by repeat (eapply bind_step; [reflexivity|]).
    + split; try done. cbn. by rewrite app_nil_r.
Qed.
End silent.

(** ** The end of a run *)
Lemma totals_of_well totals : unfailed (assertions totals) → unfailed (testCases totals) →
  0 < passed (testCases totals) → 0 < passed (assertions totals) →
  console_printTotals totals = Done (str "All tests passed (" ++ plural (passed (assertions totals)) "assertion" ++
    str " in " ++ plural (passed (testCases totals)) "test case" ++ str ")" ++ [x0a]).
Proof.
  intros (Ua & Fa & Oa) (Ut & Ft & Ot) Ht Ha. unfold console_printTotals, allPassed, counts_total.
  rewrite Fa, Oa, Ft, Ot, !Z.add_0_r, !(u64_id _ (u64_range _)), (u64_id _ Ua), (u64_id _ Ut).
  rewrite decide_False by lia. by rewrite bool_decide_true.
Qed.

Lemma printTotalsDivider_fills fuel totals : countable (testCases totals) → (3 ≤ fuel)%nat →
  printTotalsDivider fuel totals = Some (replicate 79 x3d ++ [x0a]).
Proof.
  intros Hc Hf. unfold printTotalsDivider. case_decide as Ht; [|done].
  destruct (divider_ratios_width fuel (testCases totals) Hc Ht Hf) as ([[i j] k] & -> & Hs & Hm & _).
  cbn in Hs, Hm. cbn [mbind option_bind]. rewrite !app_assoc, <-!replicate_add. do 3 f_equal. lia.
Qed.

(** Nothing is shown of a check that passes, unless that is asked for. *)
Lemma passing_hidden {double} (config : Config double) info stats :
  cd_showSuccessfulTests (m_data config) = false → checks info stats → console_shows config stats = None.
Proof.
  intros Hs [_ Ht]. unfold console_shows, result_isOk. rewrite Hs. cbn [orb].
  unfold getResultType in *. rewrite Ht. by rewrite bool_decide_true by done.
Qed.

Lemma run_unseen {double} (config : Config double) fuel seconds name es tis totals ab totals' ab' info os :
  cd_showSuccessfulTests (m_data config) = false → durations_always config = false →
  grouped (checks info) es tis → countable (testCases totals') → (3 ≤ fuel)%nat →
  ∃ out x, console_printTotals totals' = Done out ∧
    console_handle_all config fuel seconds (testRunStarting name :: testGroupStarting name 1 1 :: es ++
      [testGroupEnded_ name 1 1 totals ab; testRunEnded name totals' ab']) (new_ConsoleReporter os) =
      Done (tt, x) ∧
    con_stream x = os ++ printTestFilters config ++ announcements es ++ replicate 79 x3d ++ [x0a] ++ out ++ [x0a].
Proof.
  intros Hs Hd Hg Hc Hf. destruct (console_printTotals_done totals') as [out Ho].
  pose proof (passing_hidden config info) as Hp.
  set (b := mk_StreamingReporterBase (lazy_set name) (lazy_set (mk_GroupInfo name 1 1)) lazy_reset []).
  set (r1 := mk_ConsoleReporter (os ++ printTestFilters config) b (make_TablePrinter console_columns) false).
  destruct (grouped_handled config fuel seconds (checks info) (λ st, Hp st Hs) Hd es tis Hg r1 eq_refl)
    as (r2 & E2 & [Ws _ _ Wg _]).
  exists out. eexists. split; [exact Ho|]. split.
  - eapply handles_one with (r1 := mk_ConsoleReporter (os ++ printTestFilters config)
      (mk_StreamingReporterBase (lazy_set name) lazy_reset lazy_reset []) (make_TablePrinter console_columns) false);
      [reflexivity|].
    eapply handles_one with (r1 := r1); [reflexivity|]. eapply handles_app; [exact E2|].
    eapply handles_one.
    { cbn. unfold console_testGroupEnded. eapply bind_step; [reflexivity|]. rewrite Wg. cbn [used b currentGroupInfo r1 con_base lazy_set].
      eapply bind_step; reflexivity. }
    eapply handles_one; [|reflexivity]. cbn. unfold console_testRunEnded, con_write.
    rewrite (printTotalsDivider_fills fuel totals' Hc Hf), Ho. reflexivity.
  - cbn [con_stream]. rewrite Ws. cbn. by rewrite <-!app_assoc.
Qed.

(** ** The headers above an assertion *)
Definition only_writes {A} (m : con A) : Prop := ∀ r a r', m r = Done (a, r') →
  con_base r' = con_base r ∧ m_tablePrinter r' = m_tablePrinter r ∧ m_headerPrinted r' = m_headerPrinted r.

Lemma only_writes_bind {A B} (m : con A) (f : A → con B) : only_writes m → (∀ a, only_writes (f a)) →
  only_writes (m ≫= f).
Proof.
  intros Hm Hf r b r' H. apply st_bind_inv in H as (a & r1 & H1 & H2).
  destruct (Hm _ _ _ H1) as (B1 & T1 & P1). destruct (Hf a _ _ _ H2) as (B2 & T2 & P2). by split_and!; congruence.
Qed.
Lemma only_writes_ret {A} (a : A) : only_writes (mret a).
Proof. intros r b r' [= <- <-]. done. Qed.
Lemma only_writes_put out : only_writes (con_put out).
Proof. intros r b r' [= <- <-]. done. Qed.
Lemma only_writes_get : only_writes st_get.
Proof. intros r b r' [= <- <-]. done. Qed.
Lemma only_writes_lift {A} (o : outcome A) : only_writes (st_lift o).
Proof. intros r b r' H. unfold st_lift in H. by destruct o; simplify_eq. Qed.
Lemma only_writes_assert : only_writes (st_assert false).
Proof. done. Qed.
Lemma only_writes_write o : only_writes (con_write o).
Proof. apply only_writes_bind; [apply only_writes_lift|intros; apply only_writes_put]. Qed.

Create HintDb console.
#[export] Hint Resolve only_writes_bind only_writes_ret only_writes_put only_writes_get only_writes_lift
  only_writes_assert only_writes_write : console.

Section headers.
Context {double : Type} (config : Config double) (fuel : nat).

Lemma test_header_only_writes : only_writes (printTestCaseAndSectionHeader fuel).
Proof.
  apply only_writes_bind; [auto with console|]. intros r. cbv zeta.
  destruct (rev (m_sectionStack (con_base r))) as [|back ?]; [auto with console|].
  apply only_writes_bind; [auto with console|]. intros t. apply only_writes_bind; [auto with console|]. intros [].
  apply only_writes_bind; [case_decide; auto with console|]. intros [].
  apply only_writes_bind; [case_decide; auto with console|auto with console].
Qed.

(** All that is printed once has been. *)
Record introduced (r : ConsoleReporter) : Prop := {
  in_closed : m_isOpen (m_tablePrinter r) = false;
  in_run : used (currentTestRunInfo (con_base r)) = true;
  in_group : used (currentGroupInfo (con_base r)) = true ∨ ∃ g, stat (currentGroupInfo (con_base r)) = Some g ∧
    ¬ (gi_name g ≠ [] ∧ (1 < groupsCounts g)%nat);
  in_header : m_headerPrinted r = true
}.

Lemma lazyPrint_introduced r : introduced r → lazyPrint config fuel r = Done (tt, r).
Proof.
  intros [Hc Hr Hg Hh]. unfold lazyPrint, lazyPrintWithoutClosingBenchmarkTable.
  eapply bind_step; [by apply close_closed|]. eapply bind_step; [reflexivity|]. rewrite Hr.
  do 2 (eapply bind_step; [reflexivity|]). cbv beta. eapply bind_step with (s' := r) (a := tt).
  - destruct (used (currentGroupInfo (con_base r))) eqn:E; [done|]. destruct Hg as [|(g & Eg & Hg)]; [done|].
    unfold lazyPrintGroupInfo. eapply bind_step; [reflexivity|]. rewrite Eg.
    eapply bind_step; [reflexivity|]. cbv beta. by rewrite decide_False.
  - eapply bind_step; [reflexivity|]. by rewrite Hh.
Qed.

Lemma lazyPrintRunInfo_uses r r' : lazyPrintRunInfo config r = Done (tt, r') →
  con_base r' = use_run (con_base r) ∧ m_tablePrinter r' = m_tablePrinter r.
Proof.
  intros H. unfold lazyPrintRunInfo in H. apply st_bind_inv in H as ([] & r1 & [= <-] & H).
  apply st_bind_inv in H as (? & r2 & [= <- <-] & H). apply st_bind_inv in H as (name & r2 & Hn & H).
  apply only_writes_lift in Hn as (B2 & T2 & _).
  apply st_bind_inv in H as ([] & r3 & [= <-] & H). cbv zeta in H.
  apply st_bind_inv in H as ([] & r4 & Hs & H).
  assert (only_writes (if decide (cd_rngSeed (m_data config) ≠ 0)
    then con_put (str "Randomness seeded to: " ++ decimal (Z.to_nat (cd_rngSeed (m_data config))) ++ [x0a; x0a])
    else mret tt)) as Hw by (case_decide; auto with console).
  apply Hw in Hs as (B4 & T4 & _). injection H as <-. cbn in *. split; [done|congruence].
Qed.

Lemma lazyPrintGroupInfo_uses r r' : lazyPrintGroupInfo fuel r = Done (tt, r') →
  m_tablePrinter r' = m_tablePrinter r ∧ currentTestRunInfo (con_base r') = currentTestRunInfo (con_base r) ∧
  (used (currentGroupInfo (con_base r')) = true ∨ ∃ g, stat (currentGroupInfo (con_base r')) = Some g ∧
    ¬ (gi_name g ≠ [] ∧ (1 < groupsCounts g)%nat)).
Proof.
  intros H. unfold lazyPrintGroupInfo in H. apply st_bind_inv in H as (? & r1 & [= <- <-] & H).
  apply st_bind_inv in H as (g & r1 & Hg & H). cbv beta in H.
  destruct (stat (currentGroupInfo (con_base r))) as [g'|] eqn:E; [|done]. injection Hg as <- <-.
  case_decide as Hd.
  - apply st_bind_inv in H as ([] & r2 & Hw & H). apply only_writes_write in Hw as (B & T & _).
    injection H as <-. cbn. split_and!; [congruence|done|by left].
  - injection H as <-. split_and!; [done|done|right]. by exists g'.
Qed.

Lemma lazyPrint_introduces r r' : lazyPrint config fuel r = Done (tt, r') → introduced r'.
Proof.
  intros H. apply st_bind_inv in H as ([] & r1 & Hc & H).
  assert (m_isOpen (m_tablePrinter r1) = false) as C1.
  { unfold close_table, st_modify, table_close in Hc. destruct (m_isOpen (m_tablePrinter r)) eqn:E.
    - destruct (row_break _) as [out tp]. by injection Hc as <-.
    - by injection Hc as <-. }
  apply st_bind_inv in H as (? & r2 & [= <- <-] & H). apply st_bind_inv in H as ([] & r2 & Hr & H).
  assert (m_tablePrinter r2 = m_tablePrinter r1 ∧ used (currentTestRunInfo (con_base r2)) = true) as (T2 & U2).
  { destruct (used _) eqn:E; [by injection Hr as <-|]. by apply lazyPrintRunInfo_uses in Hr as [-> ->]. }
  apply st_bind_inv in H as (? & r3 & [= <- <-] & H). apply st_bind_inv in H as ([] & r3 & Hg & H).
  assert (m_tablePrinter r3 = m_tablePrinter r2 ∧ currentTestRunInfo (con_base r3) = currentTestRunInfo (con_base r2) ∧
    (used (currentGroupInfo (con_base r3)) = true ∨ ∃ g, stat (currentGroupInfo (con_base r3)) = Some g ∧
    ¬ (gi_name g ≠ [] ∧ (1 < groupsCounts g)%nat))) as (T3 & U3 & G3).
  { destruct (used (currentGroupInfo _)) eqn:E; [injection Hg as <-; tauto|by apply lazyPrintGroupInfo_uses]. }
  apply st_bind_inv in H as (? & r4 & [= <- <-] & H). destruct (m_headerPrinted r3) eqn:E.
  - injection H as <-. split; congruence.
  - apply st_bind_inv in H as ([] & r4 & Hh & H). apply test_header_only_writes in Hh as (B4 & T4 & _).
    injection H as <-. split; cbn; rewrite ?B4, ?T4; congruence.
Qed.
End headers.

Section not_yet.
Context {double : Type} (config : Config double) (fuel : nat).

(** Up to the test case, what comes before it being written. *)
Lemma lazyPrintRunInfo_done r name : stat (currentTestRunInfo (con_base r)) = Some name →
  ∃ r', lazyPrintRunInfo config r = Done (tt, r') ∧ con_base r' = use_run (con_base r) ∧
  m_tablePrinter r' = m_tablePrinter r ∧ m_headerPrinted r' = m_headerPrinted r.
Proof.
  intros Hn. destruct (decide (cd_rngSeed (m_data config) ≠ 0)) as [Hs|Hs];
    (eexists; split; [unfold lazyPrintRunInfo; eapply bind_step; [reflexivity|]; eapply bind_step; [reflexivity|];
      cbn [con_base]; rewrite Hn; eapply bind_step; [reflexivity|]; eapply bind_step; [reflexivity|];
      cbv zeta|]).
  - rewrite decide_True by done. by eapply bind_step.
  - done.
  - rewrite decide_False by done. by eapply bind_step.
  - done.
Qed.

Lemma header_asserts r t : stat (currentTestCaseInfo (con_base r)) = Some t → m_sectionStack (con_base r) ≠ [] →
  (79 ≤ header_offset (name t))%nat → printTestCaseAndSectionHeader fuel r = Assert_failed.
Proof.
  intros Ht Hk Ho. unfold printTestCaseAndSectionHeader. unfold mbind at 1, st_bind at 1. cbn [st_get].
  destruct (rev _) as [|back rest] eqn:E.
  { apply (f_equal (@rev _)) in E. rewrite rev_involutive in E. done. }
  rewrite Ht. unfold mbind at 1, st_bind at 1. cbn [st_lift or_undefined].
  unfold mbind at 1, st_bind at 1. unfold con_write, printOpenHeader. by rewrite printHeaderString_asserts by lia.
Qed.

Lemma lazyPrint_asserts r run g t : m_isOpen (m_tablePrinter r) = false → m_headerPrinted r = false →
  stat (currentTestRunInfo (con_base r)) = Some run → stat (currentGroupInfo (con_base r)) = Some g →
  ¬ (gi_name g ≠ [] ∧ (1 < groupsCounts g)%nat) → stat (currentTestCaseInfo (con_base r)) = Some t →
  m_sectionStack (con_base r) ≠ [] → (79 ≤ header_offset (name t))%nat →
  lazyPrint config fuel r = Assert_failed.
Proof.
  intros Hc Hh Hr Hg Hn Ht Hk Ho. unfold lazyPrint, lazyPrintWithoutClosingBenchmarkTable.
  eapply bind_step; [by apply close_closed|]. eapply bind_step; [reflexivity|]. cbv beta.
  assert (∃ r1, (if used (currentTestRunInfo (con_base r)) then mret tt else lazyPrintRunInfo config) r =
    Done (tt, r1) ∧ currentGroupInfo (con_base r1) = currentGroupInfo (con_base r) ∧
    currentTestCaseInfo (con_base r1) = currentTestCaseInfo (con_base r) ∧
    m_sectionStack (con_base r1) = m_sectionStack (con_base r) ∧ m_headerPrinted r1 = false) as (r1 & E & G & T & K & P).
  { destruct (used _); [by exists r|]. destruct (lazyPrintRunInfo_done r run Hr) as (r1 & E & B & _ & P).
    exists r1. rewrite B. split_and!; try done. congruence. }
  eapply bind_step; [exact E|]. eapply bind_step; [reflexivity|]. cbv beta.
  eapply bind_step with (a := tt) (s' := r1).
  - destruct (used (currentGroupInfo (con_base r1))); [done|]. unfold lazyPrintGroupInfo. eapply bind_step; [reflexivity|]. rewrite G, Hg.
    eapply bind_step; [reflexivity|]. cbv beta. by rewrite decide_False.
  - eapply bind_step; [reflexivity|]. cbv beta. rewrite P. unfold mbind, st_bind.
    by rewrite (header_asserts r1 t) by (rewrite ?T, ?K; done).
Qed.
End not_yet.

(** ** Properties *)

(** Property (bounds): below 2{^57} test cases the line that divides the totals off is always
    exactly 79 characters and takes at most three rounds of either loop; when tests were run, every
    kind of result - passed, failed, failed as expected - that occurred has at least one
    character of it, and one that did not occur has none. *)
Theorem divider_shows_every_kind fuel totals : countable (testCases totals) → (3 ≤ fuel)%nat →
  printTotalsDivider fuel totals = Some (replicate 79 x3d ++ [x0a]) ∧
  (0 < counts_total (testCases totals) → ∃ i j k, divider_ratios fuel (testCases totals) = Some (i, j, k) ∧
   i + j + k = 79 ∧ 0 ≤ i ∧ 0 ≤ j ∧ 0 ≤ k ∧
   (0 < i ↔ 0 < failed (testCases totals)) ∧ (0 < j ↔ 0 < failedButOk (testCases totals)) ∧
   (0 < k ↔ 0 < passed (testCases totals))).
Proof.
  intros Hc Hf. split; [by apply printTotalsDivider_fills|]. intros Ht.
  destruct (divider_ratios_width fuel (testCases totals) Hc Ht Hf) as ([[i j] k] & E & Hs & Hm & Hk).
  exists i, j, k. cbn in Hs, Hm, Hk. split; [exact E|]. split_and!; tauto || lia.
Qed.

(** C28 (refinement): a run over test cases made of sections, siblings distinct, none of the test cases expected to
    fail, each leaf with a check that passes - without [-c], without the warning for missing
    assertions, and allowed a failure at least - ends, and unless successful tests or durations are asked for, all that the
    console reporter writes of it from its start to its end is the filters, what matched no test
    case, the divider and the totals: none of its tests and sections shows, and when any ran, with fewer passed
    than 2^64 / 80, the totals say that all passed. *)
Theorem passing_run_on_console {double} (config : Config double) seconds
    d fuel tree check_info expr li ts rc os line_fuel :
  cd_showSuccessfulTests (m_data config) = false → durations_always config = false → (3 ≤ line_fuel)%nat →
  getResult expr = negb (isFalseTest (resultDisposition check_info)) → (2 ≤ d)%nat → Forall (suits fuel tree) ts →
  warnAboutMissingAssertions rc = false → getSectionsToRun rc = [] →
  aborting (make_run_context rc) = false →
  ∃ totals r',
    runTests (λ t, runTest d (test_body d (internal_catch_test check_info expr) (tree t)) fuel li (info t)) ts
      (make_run_context rc) = Done (inr totals, r') ∧
    (80 * passed (testCases (m_totals r')) < u64_modulus → ∃ out x,
     console_handle_all config line_fuel seconds (m_reporter (close_run_context r')) (new_ConsoleReporter os) =
       Done (tt, x) ∧
     con_stream x = os ++ printTestFilters config ++ announcements (m_reporter r') ++
       replicate 79 x3d ++ [x0a] ++ out ++ [x0a] ∧
     console_printTotals (m_totals r') = Done out ∧
     (0 < passed (testCases (m_totals r')) → 0 < passed (assertions (m_totals r')) →
      out = str "All tests passed (" ++ plural (passed (assertions (m_totals r'))) "assertion" ++ str " in " ++
        plural (passed (testCases (m_totals r'))) "test case" ++ str ")" ++ [x0a])).
Proof.
  intros Hs Hdur Hl He Hd Hts Hw Hsec Hab.
  destruct (run_tests_nested all_well (checks check_info) _ all_well_report ts (make_run_context rc)
    (List.Forall_impl _ (λ t, sections_well d fuel tree check_info expr li He Hd t) Hts) (all_well_start rc Hw Hsec Hab))
    as (totals & r' & es & tis & E & [_ Wa Wt] & Hc & Hrep & Hg & _).
  exists totals, r'. split; [exact E|]. intros Hsmall.
  destruct (run_unseen config line_fuel seconds (config_name rc) es tis totals (aborting r') (m_totals r')
    (aborting r') check_info os Hs Hdur Hg) as (out & x & Ho & Hx & Hout); [|exact Hl|].
  { destruct Wt as ([Hp _] & Hf & Hb). unfold countable. rewrite Hf, Hb, !Z.add_0_r. split_and!; try done; lia. }
  cbn [make_run_context report m_reporter m_config] in Hrep, Hc. exists out, x. split_and!; [|rewrite Hout|exact Ho|].
  - unfold close_run_context. cbn. rewrite Hrep, Hc. cbn. by rewrite <-app_assoc.
  - unfold announcements. rewrite Hrep. cbn. rewrite bind_app. cbn. by rewrite app_nil_r.
  - intros H1 H2. rewrite (totals_of_well _ Wa Wt H1 H2) in Ho. by injection Ho as <-.
Qed.

(** Property (functional): the run, the group, the test case and the sections are named above the
    first assertion that is shown, and only there: until the next section begins or ends, each
    further assertion adds its own lines and an empty one, and nothing else. *)
Theorem headers_printed_once {double} (config : Config double) fuel stats1 stats2 b1 b2 text r r1 :
  console_shows config stats1 = Some b1 → console_assertionEnded config fuel stats1 r = Done (tt, r1) →
  console_shows config stats2 = Some b2 → console_print fuel stats2 b2 = Done text →
  ∃ r2, console_assertionEnded config fuel stats2 r1 = Done (tt, r2) ∧
    con_stream r2 = con_stream r1 ++ text ++ [x0a] ∧ con_base r2 = con_base r1.
Proof.
  unfold console_assertionEnded. intros -> H1 -> Ht.
  apply st_bind_inv in H1 as ([] & r0 & Hl & H1). apply lazyPrint_introduces in Hl.
  apply st_bind_inv in H1 as ([] & r3 & Hw & H1). apply only_writes_write in Hw as (B & T & P).
  injection H1 as <-.
  assert (introduced (mk_ConsoleReporter (con_stream r3 ++ [x0a]) (con_base r3) (m_tablePrinter r3)
    (m_headerPrinted r3))) as Hi.
  { destruct Hl as [H1 H2 H3 H4]. split; cbn; rewrite ?B, ?T, ?P; done. }
  eexists. split.
  - eapply bind_step; [by apply lazyPrint_introduced|]. unfold con_write. rewrite Ht.
    eapply bind_step; [by eapply bind_step|]. reflexivity.
  - cbn. by rewrite <-!app_assoc.
Qed.

(** Property (error): the indent after a colon is not checked against the width: in a test case
    whose name has its first colon and space from position 77 on, the first assertion to be shown
    - the first that fails - ends in a failing assertion of the text wrapping and not in a report. *)
Theorem late_colon_aborts {double} (config : Config double) fuel seconds stats b r run g t i :
  console_shows config stats = Some b → m_isOpen (m_tablePrinter r) = false → m_headerPrinted r = false →
  stat (currentTestRunInfo (con_base r)) = Some run → stat (currentGroupInfo (con_base r)) = Some g →
  (groupsCounts g ≤ 1)%nat → stat (currentTestCaseInfo (con_base r)) = Some t →
  m_sectionStack (con_base r) ≠ [] → find (name t) (str ": ") 0 = Some i → (77 ≤ i)%nat →
  console_handle config fuel seconds (assertionEnded_ stats) r = Assert_failed.
Proof.
  intros Hs Hc Hh Hr Hg Hn Ht Hk Hi Hl. cbn [console_handle]. unfold console_assertionEnded. rewrite Hs.
  unfold mbind, st_bind. rewrite (lazyPrint_asserts config fuel r run g t); try done; [lia|].
  unfold header_offset. rewrite Hi. lia.
Qed.

(** * The console reporter on concrete runs *)

Definition console_config : Config (list byte) := mk_Config (default_config (str "0.95")) CoutStream false [].
Definition console_output (es : list event) : list byte :=
  match console_handle_all console_config 200 (λ _, str "0.1") es (new_ConsoleReporter []) with
  | Done (_, r) => con_stream r
  | _ => []
  end.
Definition console_events : list event :=
  testRunStarting (str "kv") :: report_events ++ [testRunEnded (str "kv") one_failed false].

(** What a test whose one check fails in a section looks like. *)
Example console_text : console_output console_events = text_lines
  [[]; replicate 79 x7e; str "kv is a Catch v2.9.1 host application."; str "Run with -? for options"; [];
   getLineOfChars x2d; str " put "; str "  full"; getLineOfChars x2d; str "t.cpp:2"; getLineOfChars x2e; [];
   str "t.cpp:3: FAILED:"; str "  CHECK( put(k) == 0 )"; str "with expansion:"; str "  -1 == 0"; str "with message:"; str "  a<b"; [];
   getLineOfChars x3d; str "test cases: 1 | 1 failed"; str "assertions: 1 | 1 failed"; []].
Proof. vm_compute. reflexivity. Qed.

(** No assertions are called none beside up to nine test cases, and 0 beside more. *)
Example padded_zero :
  console_printTotals (mk_Totals 0 no_counts (mk_Counts 8 1 0)) = Done (text_lines
    [str "test cases: 9 | 8 passed | 1 failed"; str "assertions: - none -"]) ∧
  console_printTotals (mk_Totals 0 no_counts (mk_Counts 9 1 0)) = Done (text_lines
    [str "test cases: 10 | 9 passed | 1 failed"; str "assertions:  0"]).
Proof. by vm_compute. Qed.

Lemma divider_shows_every_kind_witness :
  printTotalsDivider 3 (mk_Totals 0 no_counts (mk_Counts 1000 1 1)) = Some (replicate 79 x3d ++ [x0a]) ∧
  ∃ i j k, divider_ratios 3 (mk_Counts 1000 1 1) = Some (i, j, k) ∧ i + j + k = 79 ∧ 0 < i ∧ 0 < j ∧ 0 < k.
Proof.
  destruct (divider_shows_every_kind 3 (mk_Totals 0 no_counts (mk_Counts 1000 1 1))) as [H1 H2].
  - repeat split; vm_compute; congruence.
  - lia.
  - split; [exact H1|]. destruct H2 as (i & j & k & E & Hs & _ & _ & _ & Hi & Hj & Hk); [reflexivity|].
    exists i, j, k. split_and!; [exact E|exact Hs|apply Hi|apply Hj|apply Hk]; reflexivity.
Defined.

Lemma passing_run_on_console_witness : ∃ totals r' x,
  report_run = Done (inr totals, r') ∧
  console_handle_all console_config 3 (λ _, []) (m_reporter (close_run_context r')) (new_ConsoleReporter []) =
    Done (tt, x) ∧
  con_stream x = text_lines [getLineOfChars x3d; str "All tests passed (3 assertions in 1 test case)"; []].
Proof.
  destruct (passing_run_on_console console_config (λ _, []) 2 3 (λ _, sample_sections)
    (literal_info (str "CHECK") (mk_SourceLineInfo (str "t.cpp") 9) (str "1 == 1") ContinueOnFailure)
    true_expr (mk_SourceLineInfo (str "catch.hpp") 1) [report_test] report_run_config [] 3)
    as (totals & r' & E & H).
  - reflexivity.
  - reflexivity.
  - lia.
  - reflexivity.
  - lia.
  - constructor; [|constructor]. split; [reflexivity|].
    split; [by repeat split; apply (bool_decide_eq_true_1 (NoDup _))|].
    split; [cbn; lia|]. split; [cbn; unfold u64_modulus; lia|reflexivity].
  - reflexivity.
  - reflexivity.
  - reflexivity.
  - assert (r' = match report_run with Done (_, r) => r | _ => make_run_context report_run_config end) as Er.
    { change report_run with (runTests (λ t, runTest 2 (test_body 2 (internal_catch_test
      (literal_info (str "CHECK") (mk_SourceLineInfo (str "t.cpp") 9) (str "1 == 1") ContinueOnFailure)
      true_expr) sample_sections) 3 (mk_SourceLineInfo (str "catch.hpp") 1) (info t)) [report_test]
      (make_run_context report_run_config)). by rewrite E. }
    destruct H as (out & x & Hx & Hout & Ho & Hp); [rewrite Er; vm_compute; reflexivity|].
    exists totals, r', x. split; [exact E|]. split; [exact Hx|]. rewrite Hout, Hp by (rewrite Er; vm_compute; reflexivity).
    rewrite Er. vm_compute. reflexivity.
Defined.

Lemma headers_printed_once_witness : ∃ r1 r2,
  console_handle_all console_config 200 (λ _, []) (take 6 console_events) (new_ConsoleReporter []) = Done (tt, r1) ∧
  console_assertionEnded console_config 200 report_failure r1 = Done (tt, r2) ∧
  con_stream r2 = con_stream r1 ++ text_lines [str "t.cpp:3: FAILED:"; str "  CHECK( put(k) == 0 )";
    str "with expansion:"; str "  -1 == 0"; str "with message:"; str "  a<b"; []].
Proof.
  destruct (console_handle_all console_config 200 (λ _, []) (take 5 console_events) (new_ConsoleReporter []))
    as [[[] r]| |] eqn:E0; [|vm_compute in E0; discriminate E0..].
  destruct (console_assertionEnded console_config 200 report_failure r) as [[[] r1]| |] eqn:E1;
    [|vm_compute in E0; injection E0 as <-; vm_compute in E1; discriminate E1..].
  destruct (headers_printed_once console_config 200 report_failure report_failure true true
    (text_lines [str "t.cpp:3: FAILED:"; str "  CHECK( put(k) == 0 )"; str "with expansion:"; str "  -1 == 0";
       str "with message:"; str "  a<b"]) r r1) as (r2 & E2 & H2 & _);
    [reflexivity|exact E1|reflexivity|vm_compute; reflexivity|].
  exists r1, r2. split; [|split; [exact E2|rewrite H2; reflexivity]].
  change (take 6 console_events) with (take 5 console_events ++ [assertionEnded_ report_failure]).
  eapply handles_app; [exact E0|]. eapply handles_one; [exact E1|reflexivity].
Defined.

(** A name with a colon past the middle of the second line. *)
Definition long_name : list byte := replicate 77 x78 ++ str ": y".
Definition long_info : TestCaseInfo :=
  mk_TestCaseInfo long_name [] [] [] [] (mk_SourceLineInfo (str "t.cpp") 1) 0.
Definition long_reporter : ConsoleReporter :=
  mk_ConsoleReporter [] (mk_StreamingReporterBase (lazy_set (str "kv")) (lazy_set (mk_GroupInfo (str "kv") 1 1))
    (lazy_set long_info) [mk_SectionInfo long_name (mk_SourceLineInfo (str "t.cpp") 1)])
    (make_TablePrinter console_columns) false.
Lemma late_colon_aborts_witness :
  console_handle_all console_config 200 (λ _, [])
    [testRunStarting (str "kv"); testGroupStarting (str "kv") 1 1; testCaseStarting long_info;
     sectionStarting (mk_SectionInfo long_name (mk_SourceLineInfo (str "t.cpp") 1))] (new_ConsoleReporter []) =
    Done (tt, long_reporter) ∧
  console_handle console_config 200 (λ _, []) (assertionEnded_ report_failure) long_reporter = Assert_failed.
Proof.
  split; [vm_compute; reflexivity|].
  apply (late_colon_aborts console_config 200 (λ _, []) report_failure true long_reporter (str "kv")
    (mk_GroupInfo (str "kv") 1 1) long_info 77); try reflexivity. discriminate.
Defined.
