(* ===== verification/CatchDefaultReporters.v ===== *)
(** * Catch: the four reporters behind the interface, and their registry (catch_reporter_registrars)

    Each reporter keeps the configuration it was made with; the stream it writes to comes with the
    call.  Captured output, durations and the clock are the ones of the reporters' own files. *)
From stdpp Require Import strings list.
From S2P Require Import Prelude CatchString CatchTest CatchResult CatchTracker CatchRun.
From S2P Require Import CatchText CatchClara CatchConfig CatchList CatchReporters CatchXml.
From S2P Require Import CatchXmlReporter CatchCompact CatchCumulative CatchJunit CatchConsole.

Section reporters.
Context {double : Type} (fuel : nat) (section_seconds : SectionInfo → list byte)
  (test_seconds : TestCaseInfo → list byte) (stdOut stdErr : TestCaseInfo → list byte)
  (no_seconds : list byte) (measure : nat → measured).

(** A reporter with its [m_config]. *)
Definition held (R : Type) : Type := Config double * R.

(** ** TestEventListenerBase

    What a listener inherits; one that overrides nothing only keeps the base's record. *)
Definition TestEventListenerBase : Type := held StreamingReporterBase.
Definition listener_verbosities : list Verbosity := [Quiet; Verbosity_Normal; High].
Definition listener_event (e : event) : reporting TestEventListenerBase unit := λ '(config, b, os),
  match e with
  | assertionStarting _ => Done (inr tt, (config, b, os))
  | e => b ← base_handle e b; Done (inr tt, (config, b, os))
  end.
Definition listener_assertionEnded (stats : AssertionStats) : reporting TestEventListenerBase bool := mret false.
Definition listener_interface : IStreamingReporter TestEventListenerBase :=
  {| getPreferences := λ _, default_preferences; on_event := listener_event;
     on_assertionEnded := listener_assertionEnded |}.
#[local] Existing Instance listener_interface.

(** ** ConsoleReporter *)
Definition console_on {A} (m : Config double → con A) : reporting (held ConsoleReporter) A := λ '(config, r, os),
  '(a, r) ← m config (mk_ConsoleReporter os (con_base r) (m_tablePrinter r) (m_headerPrinted r));
  Done (inr a, (config, r, con_stream r)).
Definition console_interface : IStreamingReporter (held ConsoleReporter) :=
  {| getPreferences := λ _, default_preferences;
     on_event := λ e, console_on (λ config, console_handle config fuel section_seconds e);
     on_assertionEnded := λ stats, console_on (λ config,
       _ ← console_assertionEnded config fuel stats; mret (bool_decide (is_Some (console_shows config stats)))) |}.
#[local] Existing Instance console_interface.

(** ** CompactReporter

    A loop that does not end within the fuel gives nothing to go on with. *)
Definition compact_on {A} (m : Config double → CompactReporter → outcome (option CompactReporter)) (a : Config double → A)
    : reporting (held CompactReporter) A := λ '(config, r, os),
  o ← m config (mk_CompactReporter os (cr_base r));
  match o with
  | Some r => Done (inr (a config), (config, r, cr_stream r))
  | None => Undefined
  end.
Definition compact_interface : IStreamingReporter (held CompactReporter) :=
  {| getPreferences := λ _, default_preferences;
     on_event := λ e, compact_on (λ config, compact_handle fuel config section_seconds e) (λ _, tt);
     on_assertionEnded := λ stats, compact_on (λ config, c_assertionEnded fuel config stats)
       (λ config, bool_decide (is_Some (compact_shows config stats))) |}.
#[local] Existing Instance compact_interface.

(** ** JunitReporter and XmlReporter

    The former with the number of calls so far, for what is measured. *)
Definition set_os (os : list byte) (w : XmlWriter) : XmlWriter :=
  mk_XmlWriter (m_tagIsOpen w) (m_needsNewline w) (m_tags w) (m_indent w) os.
Definition junit_on {A} (m : Config double → nat → ex JunitReporter A)
    : reporting (held (nat * JunitReporter)) A := λ '(config, (k, r), os),
  '(a, r) ← m config k (mk_JunitReporter (jr_base r) (set_os os (xml r)) (stdOutForSuite r) (stdErrForSuite r)
    (unexpectedExceptions r) (m_okToFail r));
  Done (a, (config, (S k, r), m_os (xml r))).
Definition junit_interface : IStreamingReporter (held (nat * JunitReporter)) :=
  {| getPreferences := λ _, mk_ReporterPreferences true true;
     on_event := λ e, junit_on (λ config k, junit_handle config no_seconds (measure k) e);
     on_assertionEnded := λ stats, junit_on (λ config k,
       _ ← junit_handle config no_seconds (measure k) (assertionEnded_ stats); mret true) |}.
#[local] Existing Instance junit_interface.

Definition xml_on {A} (m : Config double → ex XmlReporter A) : reporting (held XmlReporter) A := λ '(config, r, os),
  '(a, r) ← m config (mk_XmlReporter (set_os os (m_xml r)) (m_sectionDepth r) (xr_base r));
  Done (a, (config, r, m_os (m_xml r))).
Definition xml_interface : IStreamingReporter (held XmlReporter) :=
  {| getPreferences := λ _, mk_ReporterPreferences true true;
     on_event := λ e, xml_on (λ config, handle config section_seconds test_seconds stdOut stdErr e);
     on_assertionEnded := λ stats, xml_on (λ config,
       _ ← handle config section_seconds test_seconds stdOut stdErr (assertionEnded_ stats); mret true) |}.
#[local] Existing Instance xml_interface.

(** ** The registry *)
Definition catch_reporter : Type :=
  held CompactReporter + held ConsoleReporter + held (nat * JunitReporter) + held XmlReporter +
  TestEventListenerBase.

Definition catch_interface : IStreamingReporter catch_reporter := _.
#[local] Existing Instance catch_interface.

(** What is written in the constructor is what the stream is afterwards. *)
Definition factory {R} (supported : list Verbosity) (make : Config double → list byte → R * list byte)
    (wrap : R → catch_reporter) (config : Config double) : creating catch_reporter :=
  _ ← enforce_verbosity supported config;
  (λ os, let '(r, os) := make config os in Done (inr (wrap r), os)) : creating catch_reporter.

Definition compact_factory : IReporterFactory double catch_reporter :=
  mk_IReporterFactory compact_getDescription
    (factory supportedVerbosities (λ config os, ((config, new_CompactReporter []), os)) (λ r, inl (inl (inl (inl r))))).
Definition console_factory : IReporterFactory double catch_reporter :=
  mk_IReporterFactory console_getDescription
    (factory supportedVerbosities (λ config os, ((config, new_ConsoleReporter []), os)) (λ r, inl (inl (inl (inr r))))).
Definition junit_factory : IReporterFactory double catch_reporter :=
  mk_IReporterFactory junit_getDescription (λ config os,
    match make_JunitReporter (cd_verbosity (m_data config)) os with
    | inr r => Done (inr (inl (inl (inr (config, (0%nat, r))))), m_os (xml r))
    | inl e => Done (inl e, os)
    end).
Definition xml_getDescription : list byte := str "Reports test results as an XML document".
Definition xml_factory : IReporterFactory double catch_reporter :=
  mk_IReporterFactory xml_getDescription
    (factory supportedVerbosities
       (λ config os, let r := new_XmlReporter os in ((config, r), m_os (m_xml r))) (λ r, inl (inr r))).
(** Of a listener that overrides nothing. *)
Definition listener_factory : IReporterFactory double catch_reporter :=
  mk_IReporterFactory [] (factory listener_verbosities (λ config os, ((config, new_base), os)) inr).

(** After the static initialisation. *)
Definition default_registry : ReporterRegistry double catch_reporter :=
  registerReporter (str "xml") xml_factory (registerReporter (str "junit") junit_factory
    (registerReporter (str "console") console_factory
       (registerReporter (str "compact") compact_factory new_ReporterRegistry))).
End reporters.
