(* ===== verification/CatchSessionProps.v ===== *)
(** * Properties of listings and of the session *)
From stdpp Require Import sorting strings list.
From S2P Require Import CatchRegistryProps CatchRunProps CatchStreams Prelude CatchString CatchTest.
From S2P Require Import CatchResult CatchTracker CatchRun CatchText CatchClara CatchConfig CatchList.
From S2P Require Import CatchReporters CatchSession CatchXmlReporter CatchXmlReporterProps CatchConsole.
From S2P Require Import CatchConsoleProps CatchDefaultReporters.

(** ** Sets and maps in order *)
Lemma bytes_lt_spec a b : bytes_lt a b = true ↔ bytes_le a b = true ∧ a ≠ b.
Proof.
  unfold bytes_lt. rewrite negb_true_iff. split.
  - intros H. destruct (bytes_le_total a b) as [Hab|Hba]; [|congruence].
    split; [done|]. intros ->. by rewrite bytes_le_refl in H.
  - intros [Hab Hne]. apply not_true_iff_false. intros Hba. by apply Hne, bytes_le_antisym.
Qed.
Lemma bytes_lt_trans a b c : bytes_lt a b = true → bytes_lt b c = true → bytes_lt a c = true.
Proof.
  rewrite !bytes_lt_spec. intros [H1 N1] [H2 N2]. split; [by eapply bytes_le_trans|].
  intros ->. apply N1. by apply bytes_le_antisym.
Qed.
Lemma bytes_lt_total a b : a ≠ b → bytes_lt a b = false → bytes_lt b a = true.
Proof.
  intros Hne H. apply bytes_lt_spec. split; [|congruence].
  unfold bytes_lt in H. by apply negb_false_iff in H.
Qed.

Definition ascending (l : list (list byte)) : Prop := StronglySorted (λ a b, bytes_lt a b = true) l.

Lemma set_insert_spec x l : ascending l →
  ascending (set_insert x l) ∧ ∀ y, y ∈ set_insert x l ↔ y = x ∨ y ∈ l.
Proof.
  induction 1 as [|y l Hs [IHs IHe] Hy]; cbn [set_insert].
  - split; [by repeat constructor|]. intros y. by rewrite list_elem_of_singleton, elem_of_nil; naive_solver.
  - case_decide as E; [subst; split; [by constructor|intros z; rewrite elem_of_cons; naive_solver]|].
    destruct (bytes_lt x y) eqn:Exy.
    + split; [|intros z; by rewrite !elem_of_cons]. constructor; [by constructor|].
      constructor; [done|]. eapply Forall_impl; [|exact Hy]. intros z Hz. by eapply bytes_lt_trans.
    + split; [|intros z; rewrite !elem_of_cons, IHe; naive_solver]. constructor; [done|].
      apply list.Forall_forall. intros z [->|Hz]%IHe; [by apply bytes_lt_total|].
      by eapply list.Forall_forall in Hy.
Qed.

Fixpoint map_get (key : list byte) (m : tag_map) : TagInfo :=
  match m with
  | [] => no_TagInfo
  | (k, v) :: m => if decide (key = k) then v else map_get key m
  end.
Definition keys (m : tag_map) : list (list byte) := fst <$> m.

Lemma map_get_fresh key m : key ∉ keys m → map_get key m = no_TagInfo.
Proof.
  induction m as [|[k v] m IH]; cbn; [done|]. rewrite not_elem_of_cons. intros [Hk Hm].
  by rewrite decide_False, IH.
Qed.
Lemma below_not_in key m : Forall (λ k, bytes_lt key k = true) (keys m) → key ∉ keys m.
Proof.
  intros H Hin. eapply list.Forall_forall in Hin; [|exact H]. apply bytes_lt_spec in Hin. naive_solver.
Qed.

Lemma map_update_spec key f m : ascending (keys m) →
  ascending (keys (map_update key f m)) ∧
  (∀ k, k ∈ keys (map_update key f m) ↔ k = key ∨ k ∈ keys m) ∧
  ∀ k, map_get k (map_update key f m) = if decide (k = key) then f (map_get key m) else map_get k m.
Proof.
  induction m as [|[k v] m IH]; cbn [map_update keys fmap list_fmap]; intros Hs.
  - split; [by repeat constructor|]. split.
    + intros k. cbn. rewrite list_elem_of_singleton, elem_of_nil. naive_solver.
    + intros k. cbn. repeat case_decide; try congruence.
  - apply StronglySorted_inv in Hs as [Hs Hk]. specialize (IH Hs). destruct IH as (IHs & IHk & IHg).
    case_decide as E; [|destruct (bytes_lt key k) eqn:Elt]; cbn [keys fmap list_fmap fst].
    + subst k. split; [by constructor|]. split; [intros k; rewrite elem_of_cons; naive_solver|].
      intros k. cbn. repeat case_decide; congruence.
    + assert (key ∉ keys m) as Hfresh.
      { apply below_not_in. eapply Forall_impl; [|exact Hk]. intros z Hz. by eapply bytes_lt_trans. }
      split; [|split].
      * constructor; [by constructor|]. constructor; [done|]. eapply Forall_impl; [|exact Hk].
        intros z Hz. by eapply bytes_lt_trans.
      * intros z. by rewrite !elem_of_cons.
      * intros z. cbn. rewrite (map_get_fresh key m) by done. repeat case_decide; congruence.
    + split; [|split].
      * constructor; [done|]. apply list.Forall_forall. intros z Hz. apply IHk in Hz as [->|Hz].
        -- by apply bytes_lt_total.
        -- by eapply list.Forall_forall in Hk.
      * intros z. rewrite !elem_of_cons. change (fst <$> map_update key f m) with (keys (map_update key f m)).
        rewrite IHk. unfold keys. naive_solver.
      * intros z. cbn. rewrite IHg. repeat case_decide; congruence.
Qed.

(** The tags seen, by their lower case. *)
Definition spelled (k : list byte) (ts : list (list byte)) : list (list byte) :=
  List.filter (λ t, bool_decide (toLower t = k)) ts.
Definition counts_tags (m : tag_map) (ts : list (list byte)) : Prop :=
  ascending (keys m) ∧ (∀ k, k ∈ keys m ↔ ∃ t, t ∈ ts ∧ toLower t = k) ∧
  ∀ k, tag_count (map_get k m) = length (spelled k ts) ∧ ascending (spellings (map_get k m)) ∧
    ∀ s, s ∈ spellings (map_get k m) ↔ s ∈ spelled k ts.

Lemma count_tag_counts m ts t : counts_tags m ts → counts_tags (count_tag m t) (ts ++ [t]).
Proof.
  intros (Hs & Hk & Hg). destruct (map_update_spec (toLower t) (TagInfo_add t) m Hs) as (Hs' & Hk' & Hg').
  split; [exact Hs'|]. split.
  - intros k. unfold count_tag. rewrite Hk', Hk. setoid_rewrite elem_of_app.
    setoid_rewrite list_elem_of_singleton. naive_solver.
  - intros k. unfold count_tag. rewrite Hg'. unfold spelled. rewrite List.filter_app. cbn [List.filter].
    case_decide as E.
    + rewrite bool_decide_eq_true_2 by done. destruct (Hg k) as (Hc & Ha & Hm). rewrite <-E in *.
      destruct (set_insert_spec t _ Ha) as [Ha' Hm']. unfold TagInfo_add. cbn [tag_count spellings].
      rewrite length_app. cbn [length]. split; [unfold spelled in Hc; lia|]. split; [done|].
      intros s. rewrite Hm', Hm, elem_of_app, list_elem_of_singleton. unfold spelled. naive_solver.
    + rewrite bool_decide_eq_false_2 by congruence. rewrite app_nil_r. apply Hg.
Qed.

Lemma tag_counts_fold ts : ∀ m seen, counts_tags m seen → counts_tags (foldl count_tag m ts) (seen ++ ts).
Proof.
  induction ts as [|t ts IH]; intros m seen H; [by rewrite app_nil_r|]. cbn [foldl].
  rewrite cons_middle, app_assoc. by apply IH, count_tag_counts.
Qed.

(** ** The exit code *)
Lemma exit_code_failures e a c : -1 ≤ e ≤ 0 → 0 ≤ failed a < 2147483648 →
  exit_code (mk_Totals e a c) = Z.min 255 (failed a).
Proof.
  intros He Ha. unfold exit_code, MaxExitCode. cbn [error assertions].
  rewrite i32_id by (unfold is_i32; lia). lia.
Qed.

Section session.
Context {double R : Type} `{IStreamingReporter R} (reporters : ReporterRegistry double R)
  (can_open : list byte → bool) (m_tagAliases : TagAliasRegistry) (shuffle : list TestCase → list TestCase)
  (run_case : TestCase → run Totals) (fuel : nat).
Implicit Types (s : Session (double := double)) (c : Config double).

(** A session that is to run tests, with its configuration. *)
Record to_run s c s1 : Prop := {
  r_startup : m_startupExceptions s = false;
  r_help : cd_showHelp (m_configData s) = false;
  r_identify : cd_libIdentify (m_configData s) = false;
  r_filenames : cd_filenamesAsTags (m_configData s) = false;
  r_lists : cd_listTests (m_data c) || cd_listTestNamesOnly (m_data c) ||
            cd_listTags (m_data c) || cd_listReporters (m_data c) = false;
  r_config : config can_open m_tagAliases s = Done (inr c, s1)
}.
(** Also with the reporter and the test cases it runs. *)
Definition ready s c reporter ts s' : Prop := ∃ s1 os, to_run s c s1 ∧
  makeReporter c reporters [] = Done (inr reporter, os) ∧ allTestCases shuffle c s1 = Done (inr ts, s').

Lemma run_to_run s c s1 : to_run s c s1 →
  runInternal reporters can_open m_tagAliases shuffle run_case fuel s =
    caught (λ _, (t ← session_runTests reporters shuffle run_case c; mret (exit_code t)) s1) s.
Proof.
  intros [Hs Hh Hi Hf Hl Hc]. rewrite !orb_false_iff in Hl. destruct Hl as (((Hl1 & Hl2) & Hl3) & Hl4).
  unfold runInternal. eapply ex_step; [reflexivity|]. cbv beta. rewrite Hs, Hh, Hi. cbn [orb].
  unfold caught.
  assert (runInternal_body reporters can_open m_tagAliases shuffle run_case fuel s =
    (t ← session_runTests reporters shuffle run_case c; mret (exit_code t)) s1) as ->; [|done].
  unfold runInternal_body. eapply ex_step; [reflexivity|]. cbv beta.
  eapply ex_step; [exact Hc|]. cbv beta. rewrite Hf. eapply ex_step; [reflexivity|]. cbv beta zeta.
  eapply ex_step with (a := None) (s' := s1); [|reflexivity].
  unfold list_, listed_also. rewrite Hl1, Hl2, Hl3, Hl4. reflexivity.
Qed.

Lemma run_ready s c reporter ts s' totals r : ready s c reporter ts s' →
  runTests run_case ts (make_run_context
    (to_run_config shuffle (reportAllAssertions (getPreferences reporter)) c)) = Done (inr totals, r) →
  runInternal reporters can_open m_tagAliases shuffle run_case fuel s = Done (inr (exit_code totals), s').
Proof.
  intros (s1 & os & Hto & Hrep & Hts) Hrun. rewrite (run_to_run s c s1 Hto). unfold caught.
  assert ((t ← session_runTests reporters shuffle run_case c; mret (exit_code t)) s1 =
    Done (inr (exit_code totals), s')) as ->; [|done].
  eapply ex_step; [|reflexivity]. unfold session_runTests. eapply ex_step; [unfold create_reporter; by rewrite Hrep|].
  eapply ex_step; [exact Hts|]. unfold run_in_context. by rewrite Hrun.
Qed.

(** A reporter that cannot be made. *)
Lemma run_refused s c s1 e os : to_run s c s1 → makeReporter c reporters [] = Done (inl e, os) →
  runInternal reporters can_open m_tagAliases shuffle run_case fuel s =
    Done (inr 255, print_err (what_ e ++ [x0a]) s1).
Proof.
  intros Hto Hrep. rewrite (run_to_run s c s1 Hto). unfold caught, session_runTests.
  unfold mbind, ex_bind, create_reporter at 1. by rewrite Hrep.
Qed.
End session.

(** ** Properties *)

(** Property (invariant): the tag list has an entry for each tag of the given tests up to case, in
    order and each once; an entry counts how often the tag is used and shows every spelling of it
    once, in order. *)
Theorem tags_counted ts : counts_tags (tag_counts ts) (ts ≫= λ t, tags (info t)).
Proof.
  unfold tag_counts. set (used := ts ≫= λ t, tags (info t)).
  apply (tag_counts_fold used [] []). split; [constructor|]. split.
  - intros k. cbn. rewrite elem_of_nil. setoid_rewrite elem_of_nil. naive_solver.
  - intros k. split; [done|]. split; [constructor|]. intros s. cbn. by rewrite elem_of_nil.
Qed.

(** C24 (functional): a session that runs tests ends with the number of failed assertions as its
    exit code, 255 at most: zero exactly if no assertion failed, whatever else happened. *)
Theorem session_exit_code {double R} `{IStreamingReporter R} reporters can_open m_tagAliases shuffle run_case fuel
    (s : Session (double := double)) c reporter ts s' totals r :
  ready reporters can_open m_tagAliases shuffle s c reporter ts s' →
  runTests run_case ts (make_run_context
    (to_run_config shuffle (reportAllAssertions (getPreferences reporter)) c)) = Done (inr totals, r) →
  -1 ≤ error totals ≤ 0 → 0 ≤ failed (assertions totals) < 2147483648 →
  runInternal reporters can_open m_tagAliases shuffle run_case fuel s =
    Done (inr (Z.min 255 (failed (assertions totals))), s').
Proof.
  intros Hr Hrun He Hf. rewrite (run_ready _ _ _ _ _ _ s c reporter ts s' totals r Hr Hrun).
  destruct totals as [e a tc]. by rewrite (exit_code_failures e a tc He Hf).
Qed.

(** A name that [makeStream] refuses, and what it says. *)
Definition refused_stream (can_open : list byte → bool) (filename m : list byte) : Prop :=
  head filename = Some x25 ∧ filename ≠ str "%debug" ∧ m = str "Unrecognised stream: '" ++ filename ++ str "'" ∨
  filename ≠ [] ∧ head filename ≠ Some x25 ∧ can_open filename = false ∧
    m = str "Unable to open file: '" ++ filename ++ str "'".
Lemma makeStream_refused can_open filename m : refused_stream can_open filename m →
  makeStream can_open (StringRef_string filename) = Done (inl (Domain_error m)).
Proof.
  assert (∀ c rest, filename = c :: rest → makeStream can_open (StringRef_string filename) =
    if decide (c = x25) then
      if decide (filename = str "%debug") then Done (inr DebugOutStream)
      else Done (inl (Domain_error (str "Unrecognised stream: '" ++ filename ++ str "'")))
    else if can_open filename then Done (inr (FileStream filename))
    else Done (inl (Domain_error (str "Unable to open file: '" ++ filename ++ str "'")))) as Heq.
  { intros c rest ->. unfold makeStream. by rewrite string_ref_to_string. }
  intros [(Hh & Hd & ->)|(Hne & Hh & Ho & ->)]; destruct filename as [|c rest]; try done; rewrite (Heq c rest eq_refl).
  - cbn in Hh. injection Hh as ->. by rewrite decide_True, decide_False.
  - rewrite decide_False, Ho by (intros ->; by apply Hh). done.
Qed.

(** What makes a session that is to run tests end before it does. *)
Inductive refused {double R} `{IStreamingReporter R} (reporters : ReporterRegistry double R) can_open m_tagAliases
    (s : Session (double := double)) : Session (double := double) → list byte → Prop :=
| no_stream m : m_startupExceptions s = false → cd_showHelp (m_configData s) = false →
    cd_libIdentify (m_configData s) = false → ses_config s = None →
    refused_stream can_open (cd_outputFilename (m_configData s)) m → refused reporters can_open m_tagAliases s s m
| no_reporter c s1 m : to_run can_open m_tagAliases s c s1 → getListeners reporters = [] →
    match find_factory (cd_reporterName (m_data c)) (m_factories reporters) with
    | None => m = str "No reporter registered with name: '" ++ cd_reporterName (m_data c) ++ str "'"
    | Some f => m = str "Verbosity level not supported by this reporter" ∧ ∃ supported (rest : creating R),
        factory_create f c = (_ ← enforce_verbosity supported c; rest) ∧ cd_verbosity (m_data c) ∉ supported
    end → refused reporters can_open m_tagAliases s s1 m.

(** C30 (error): no test runs unless its output has somewhere to go: where the stream's name is not known or the
    file cannot be opened, where no reporter is registered under the name, or the one that is - without
    listeners - checks in its constructor that the verbosity is one it supports and it is not, the message goes
    to the error stream and the exit code is 255. *)
Theorem output_refused {double R} `{IStreamingReporter R} (reporters : ReporterRegistry double R)
    can_open m_tagAliases shuffle run_case fuel (s : Session (double := double)) s1 m :
  refused reporters can_open m_tagAliases s s1 m →
  runInternal reporters can_open m_tagAliases shuffle run_case fuel s = Done (inr 255, print_err (m ++ [x0a]) s1).
Proof.
  intros [m0 Hs Hh Hi Hc Hm|c s2 m0 Hto Hl Hf].
  - unfold runInternal. eapply ex_step; [reflexivity|]. cbv beta. rewrite Hs, Hh, Hi. cbn [orb]. unfold caught.
    assert (runInternal_body reporters can_open m_tagAliases shuffle run_case fuel s =
      Done (inl (Domain_error m0), s)) as ->; [|done].
    unfold runInternal_body, config, make_Config, openStream, mbind, ex_bind, ex_get. rewrite Hc.
    by rewrite (makeStream_refused _ _ _ Hm).
  - apply (run_refused reporters can_open m_tagAliases shuffle run_case fuel s c s2 (Domain_error m0) []); [done|].
    unfold makeReporter, createReporter, registry_create. rewrite Hl. destruct (find_factory _ _) as [f|].
    + destruct Hf as (-> & supported & rest & E & Hv). rewrite E. unfold enforce_verbosity.
      by rewrite decide_False.
    + by subst m0.
Qed.

(** * Sessions and listeners on concrete runs, with the reporters of the library *)

Definition sample_measure (_ : nat) : CatchCumulative.measured := CatchCumulative.mk_measured [] [] [] [].
Definition sample_reporter : Type := catch_reporter (double := list byte).
#[local] Instance sample_interface : IStreamingReporter sample_reporter :=
  catch_interface 200 (λ _, []) (λ _, []) (λ _, []) (λ _, []) [] sample_measure.
Definition sample_registry : ReporterRegistry (list byte) sample_reporter := default_registry.

(** One test case, with a hidden one beside it. *)
Definition test_named (n : string) (props : Z) : TestCase :=
  mk_TestCase (mk_TestCaseInfo (str n) [] [] [str "kv"] [str "kv"] (mk_SourceLineInfo (str "t.cpp") 1) props) 0.
Definition sample_session (settings : ConfigData (list byte) → ConfigData (list byte))
    (test_args : list (list byte)) : Session (double := list byte) :=
  useConfigData (set_testsOrTags test_args (settings (default_config (str "0.95"))))
    (make_Session (str "0.95") convertInto_string sample_registry 0 (λ _, None) false
       (mk_TestRegistry [test_named "put" 0; test_named "get" IsHidden] InDeclarationOrder [] 0)).
(** A system in which no file can be opened. *)
Definition no_files (filename : list byte) : bool := false.
Definition two_fail : TestCase → run Totals := λ _, mret (mk_Totals 0 (mk_Counts 1 2 0) (mk_Counts 0 1 0)).
Definition sample_run_internal (s : Session) : outcome (throwing Z * Session) :=
  runInternal sample_registry no_files [] (λ l, l) two_fail 100 s.

Definition outcome_value {S A} (o : outcome (throwing A * S)) : option A :=
  match o with Done (inr a, _) => Some a | _ => None end.

Definition sample_tests : list TestCase := [test_named "put" 0; test_named "get" IsHidden].
Definition session_config (settings : ConfigData (list byte) → ConfigData (list byte)) : Config (list byte) :=
  mk_Config (m_configData (sample_session settings [])) CoutStream false [].
Definition configured (settings : ConfigData (list byte) → ConfigData (list byte)) : Session :=
  set_ses_config (Some (session_config settings)) (sample_session settings []).
Definition sample_end : Session (double := list byte) :=
  set_registry (mk_TestRegistry sample_tests InDeclarationOrder sample_tests 0) (configured (λ d, d)).
Definition sample_console : sample_reporter + ListeningReporter sample_reporter :=
  inl (inl (inl (inl (inr (session_config (λ d, d), new_ConsoleReporter []))))).

Lemma sample_ready :
  ready sample_registry no_files [] (λ l, l) (sample_session (λ d, d) []) (session_config (λ d, d)) sample_console
    sample_tests sample_end.
Proof.
  exists (configured (λ d, d)), []. split; [|split; [reflexivity|]].
  - by split.
  - unfold allTestCases. eapply ex_step; [reflexivity|]. reflexivity.
Qed.

Lemma session_exit_code_witness :
  sample_run_internal (sample_session (λ d, d) []) = Done (inr 2, sample_end).
Proof.
  apply (session_exit_code sample_registry no_files [] (λ l, l) two_fail 100 (sample_session (λ d, d) [])
    (session_config (λ d, d)) sample_console sample_tests sample_end
    (mk_Totals 0 (mk_Counts 1 2 0) (mk_Counts 0 1 0))
    (match runTests two_fail sample_tests
             (make_run_context (to_run_config (λ l, l) false (session_config (λ d, d)))) with
     | Done (_, r) => r
     | _ => make_run_context (to_run_config (λ l, l) false (session_config (λ d, d)))
     end)).
  - apply sample_ready.
  - reflexivity.
  - cbn. lia.
  - cbn. lia.
Defined.

(** [-v high] asks for more than the console reporter gives, and [-o nowhere] for a file there is not. *)
Lemma output_refused_witness :
  sample_run_internal (sample_session (set_verbosity High) []) =
    Done (inr 255, print_err (str "Verbosity level not supported by this reporter" ++ [x0a])
                     (configured (set_verbosity High))) ∧
  sample_run_internal (sample_session (set_outputFilename (str "nowhere")) []) =
    Done (inr 255, print_err (str "Unable to open file: 'nowhere'" ++ [x0a])
                     (sample_session (set_outputFilename (str "nowhere")) [])).
Proof.
  split; apply (output_refused sample_registry no_files [] (λ l, l) two_fail 100).
  - apply no_reporter with (session_config (set_verbosity High)); [by split|reflexivity|].
    cbn. split; [reflexivity|].
    exists CatchCumulative.supportedVerbosities, (λ os, Done (inr (inl (inl (inl (inr
      (session_config (set_verbosity High), new_ConsoleReporter []))))), os)). split; [reflexivity|].
    cbn. intros E. apply list_elem_of_singleton in E. discriminate E.
  - apply no_stream; [reflexivity..|]. right. split_and!; [discriminate|discriminate|reflexivity|reflexivity].
Defined.

(** A run that finds no test to run succeeds even where this is to be an error: the error is a
    negative total, which the exit code hides. *)
Lemma no_tests_exit_zero : exit_code (mk_Totals (-1) no_counts no_counts) = 0.
Proof. reflexivity. Qed.
Example no_tests_warned :
  outcome_value (sample_run_internal (sample_session (set_warnings NoTests) [str "[nothing]"])) = Some 0.
Proof. vm_compute. reflexivity. Qed.

(** From the arguments on: a listing's exit code is the number of things listed, and arguments that
    are not understood are told and refused. *)
Definition run_with (argv : list (list byte)) : option Z :=
  outcome_value (main_run sample_registry no_files [] (λ l, l) two_fail 200 argv (sample_session (λ d, d) [])).
Example exit_codes :
  run_with [str "tests"; str "--list-tests"; str "-t"] = Some 2 ∧
  run_with [str "tests"; str "--order"; str "sideways"] = Some 255 ∧
  run_with [str "tests"; str "--list-reporters"] = Some 4 ∧
  run_with [str "tests"; str "-r"; str "junit"] = Some 2 ∧
  run_with [str "tests"; str "-v"; str "quiet"] = Some 255 ∧
  run_with [str "tests"; str "-?"] = Some 0 ∧ run_with [str "tests"; str "-a"] = Some 2.
Proof. by vm_compute. Qed.

(** Where arguments are wrong and the file cannot be opened either, nobody catches the exception. *)
Lemma unopened_stream_escapes :
  match main_run sample_registry no_files [] (λ l, l) two_fail 200
          [str "tests"; str "-o"; str "nowhere"; str "--order"; str "sideways"] (sample_session (λ d, d) []) with
  | Done (inl e, _) => Some (what_ e)
  | _ => None
  end = Some (str "Unable to open file: 'nowhere'").
Proof. vm_compute. reflexivity. Qed.

(** ** Listening

    A listener that overrides nothing beside the console reporter, in a run with a failure. *)
Definition listener_at (b : StreamingReporterBase) : sample_reporter := inr (session_config (λ d, d), b).
Definition console_at (r : ConsoleReporter) : sample_reporter := inl (inl (inl (inr (session_config (λ d, d), r)))).
Definition listened : list event := fatalErrorEncountered (str "SIGABRT") :: console_events.
Lemma listener_silent : ∃ b, silently (List.filter passed_on listened) (listener_at new_base) (listener_at b).
Proof.
  eexists. cbn. repeat (eapply silent_more; [intros os; cbn; reflexivity|]). apply silent_done.
Qed.
Lemma listening_transparent_witness : ∃ b r',
  deliver_all listened (mk_ListeningReporter [listener_at new_base] (Some (console_at (new_ConsoleReporter [])))
    default_preferences, []) =
    Done (inr tt, (mk_ListeningReporter [listener_at b] (Some (console_at r')) default_preferences,
                   console_output console_events)).
Proof.
  destruct listener_silent as [b Hb].
  exists b. eexists. apply (listening_transparent listened [listener_at new_base] [listener_at b]).
  - repeat constructor. exact Hb.
  - vm_compute. reflexivity.
Defined.
