(* ===== verification/CatchMatchers.v ===== *)
(** * Catch: matchers and the expressions of assertions (catch_matchers, catch_matchers_generic,
      catch_matchers_vector, catch_capture_matchers, catch_decomposer)

    Matchers are objects that refer to each other by address: a combination keeps pointers, and
    [&&] on a conjunction changes it in place, so they live in a store, where a variable or a
    temporary of the code is an address.  How values are compared
    and printed is a parameter of each template. *)
From stdpp Require Import strings list.
From S2P Require Import Prelude CatchString CatchTest CatchResult.

(** ** Combinations

    [Other] is an object of any class but the three combinations. *)
Section matchers.
Context {ArgT : Type}.

Inductive Matcher :=
| Other (match_ : ArgT → bool) (describe_ : list byte)
| MatchAllOf (m_matchers : list nat)
| MatchAnyOf (m_matchers : list nat)
| MatchNotOf (m_underlyingMatcher : nat).
Record MatcherBase := mk_MatcherBase { object : Matcher; m_cachedToString : list byte }.
#[local] Abbreviation store := (list MatcherBase).

(** The loops over the pointers of a conjunction and of a disjunction. *)
Fixpoint all_match (matches : nat → outcome bool) (ps : list nat) : outcome bool :=
  match ps with
  | [] => Done true
  | q :: ps => b ← matches q; if (b : bool) then all_match matches ps else Done false
  end.
Fixpoint any_match (matches : nat → outcome bool) (ps : list nat) : outcome bool :=
  match ps with
  | [] => Done false
  | q :: ps => b ← matches q; if (b : bool) then Done true else any_match matches ps
  end.
(** [match], with fuel for how deep the combinations refer to each other. *)
Fixpoint match_at (fuel : nat) (σ : store) (arg : ArgT) (p : nat) : outcome bool :=
  match fuel with
  | O => Undefined
  | S fuel =>
      m ← or_undefined (σ !! p);
      match object m with
      | Other f _ => Done (f arg)
      | MatchAllOf ps => all_match (match_at fuel σ arg) ps
      | MatchAnyOf ps => any_match (match_at fuel σ arg) ps
      | MatchNotOf q => b ← match_at fuel σ arg q; Done (negb b)
      end
  end.

Fixpoint listed (print : nat → st store (list byte)) (separator : list byte) (first : bool) (ps : list nat)
    : st store (list byte) :=
  match ps with
  | [] => mret []
  | q :: ps =>
      text ← print q;
      rest ← listed print separator false ps;
      mret ((if first then [] else separator) ++ text ++ rest)
  end.
Definition describe_object (print : nat → st store (list byte)) (o : Matcher) : st store (list byte) :=
  match o with
  | Other _ d => mret d
  | MatchAllOf ps => text ← listed print (str " and ") true ps; mret (str "( " ++ text ++ str " )")
  | MatchAnyOf ps => text ← listed print (str " or ") true ps; mret (str "( " ++ text ++ str " )")
  | MatchNotOf q => text ← print q; mret (str "not " ++ text)
  end.
Definition cache (p : nat) (text : list byte) : st store unit := st_modify
  (alter (λ m, mk_MatcherBase (object m) text) p).
(** [toString], which describes the matcher unless that has been done. *)
Fixpoint to_string_at (fuel : nat) (p : nat) : st store (list byte) :=
  match fuel with
  | O => st_undefined
  | S fuel =>
      σ ← st_get;
      m ← st_lift (or_undefined (σ !! p));
      if decide (m_cachedToString m = []) then
        text ← describe_object (to_string_at fuel) (object m);
        _ ← cache p text;
        mret text
      else mret (m_cachedToString m)
  end.

(** *** The operators

    [operator &&] and [operator ||] of [MatcherBase] make a new object; the ones of the
    combination itself, which hide them, add to it. *)
Definition new_matcher (m : Matcher) : st store nat := λ σ, Done (length σ, σ ++ [mk_MatcherBase m []]).
Definition set_object (p : nat) (o : Matcher) : st store unit := st_modify
  (alter (λ m, mk_MatcherBase o (m_cachedToString m)) p).
Definition op_and (a b : nat) : st store nat :=
  σ ← st_get;
  m ← st_lift (or_undefined (σ !! a));
  match object m with
  | MatchAllOf ps => _ ← set_object a (MatchAllOf (ps ++ [b])); mret a
  | _ => new_matcher (MatchAllOf [a; b])
  end.
Definition op_or (a b : nat) : st store nat :=
  σ ← st_get;
  m ← st_lift (or_undefined (σ !! a));
  match object m with
  | MatchAnyOf ps => _ ← set_object a (MatchAnyOf (ps ++ [b])); mret a
  | _ => new_matcher (MatchAnyOf [a; b])
  end.
Definition op_not (a : nat) : st store nat := new_matcher (MatchNotOf a).

(** ** MatchExpr

    Of a copy of the matcher.  It prints itself when it is asked to; what that caches in the
    matchers it refers to is not kept here. *)
Context (stringify : ArgT → list byte).
Definition unprintable : list byte := str "{?}".
Definition makeMatchExpr (fuel : nat) (σ : store) (arg : ArgT) (matcher : nat) (matcherString : list byte)
    : outcome ITransientExpression :=
  result ← match_at fuel σ arg matcher;
  '(matcherAsString, _) ← to_string_at fuel matcher σ;
  Done (mk_ITransientExpression
    (stringify arg ++ [x20] ++ (if decide (matcherAsString = unprintable) then matcherString else matcherAsString))
    result true).
End matchers.
Arguments Matcher : clear implicits.
Arguments MatcherBase : clear implicits.
(** The objects, by address. *)
Abbreviation store ArgT := (list (MatcherBase ArgT)).

(** ** Generic and vector matchers *)
Definition finalizeDescription (desc : list byte) : list byte :=
  if decide (desc = []) then str "matches undescribed predicate"
  else str "matches predicate: " ++ [x22] ++ desc ++ [x22].
Definition PredicateMatcher {T} (predicate : T → bool) (description : list byte) : Matcher T :=
  Other predicate (finalizeDescription description).

Section vector.
Context {T : Type} (eqb : T → T → bool) (stringify : T → list byte) (stringify_vector : list T → list byte).

Fixpoint has_element (v : list T) (comparator : T) : bool :=
  match v with
  | [] => false
  | el :: v => if eqb el comparator then true else has_element v comparator
  end.
Definition ContainsElementMatcher (comparator : T) : Matcher (list T) :=
  Other (λ v, has_element v comparator) (str "Contains: " ++ stringify comparator).

Fixpoint has_all (v : list T) (comparators : list T) : bool :=
  match comparators with
  | [] => true
  | c :: cs => if has_element v c then has_all v cs else false
  end.
Definition vector_contains (comparator v : list T) : bool :=
  if decide (length v < length comparator)%nat then false else has_all v comparator.
Definition VectorContainsMatcher (comparator : list T) : Matcher (list T) :=
  Other (vector_contains comparator) (str "Contains: " ++ stringify_vector comparator).

(** [!=] is the negation of [==]. *)
Fixpoint same_elements (a b : list T) : bool :=
  match a, b with
  | x :: a, y :: b => if negb (eqb x y) then false else same_elements a b
  | _, _ => true
  end.
Definition vector_equals (comparator v : list T) : bool :=
  if decide (length comparator ≠ length v) then false else same_elements comparator v.
Definition VectorEqualsMatcher (comparator : list T) : Matcher (list T) :=
  Other (vector_equals comparator) (str "Equals: " ++ stringify_vector comparator).

(** [std::is_permutation] on ranges of one length: each element is as often in both. *)
Definition occurrences (l : list T) (x : T) : nat := length (List.filter (eqb x) l).
Definition is_permutation (a b : list T) : bool :=
  forallb (λ x, Nat.eqb (occurrences a x) (occurrences b x)) a.
Definition unordered_equals (target vec : list T) : bool :=
  if decide (length target ≠ length vec) then false else is_permutation target vec.
Definition UnorderedEqualsMatcher (target : list T) : Matcher (list T) :=
  Other (unordered_equals target) (str "UnorderedEquals: " ++ stringify_vector target).
End vector.

(** ** Decomposition

    [REQUIRE( a == b )] expands to [Decomposer() <= a == b]. *)
Definition formatReconstructedExpression (lhs op rhs : list byte) : list byte :=
  if decide ((length lhs + length rhs < 40)%nat ∧ x0a ∉ lhs ∧ x0a ∉ rhs)
  then lhs ++ [x20] ++ op ++ [x20] ++ rhs
  else lhs ++ [x0a] ++ op ++ [x0a] ++ rhs.

Section decomposer.
Context {LhsT : Type} (stringify_lhs : LhsT → list byte).

Record ExprLhs := mk_ExprLhs { m_lhs : LhsT }.
Definition decompose (lhs : LhsT) : ExprLhs := mk_ExprLhs lhs.

Definition makeUnaryExpr (to_bool : LhsT → bool) (e : ExprLhs) : ITransientExpression :=
  mk_ITransientExpression (stringify_lhs (m_lhs e)) (to_bool (m_lhs e)) false.

Context {RhsT : Type} (stringify_rhs : RhsT → list byte).
Definition BinaryExpr (comparisonResult : bool) (lhs : LhsT) (op : list byte) (rhs : RhsT) : ITransientExpression :=
  mk_ITransientExpression (formatReconstructedExpression (stringify_lhs lhs) op (stringify_rhs rhs))
    comparisonResult true.

(** The six comparisons, with the operators of the types. *)
Context (eq ne gt lt ge le : LhsT → RhsT → bool).
Definition expr_eq (e : ExprLhs) (rhs : RhsT) := BinaryExpr (eq (m_lhs e) rhs) (m_lhs e) (str "==") rhs.
Definition expr_ne (e : ExprLhs) (rhs : RhsT) := BinaryExpr (ne (m_lhs e) rhs) (m_lhs e) (str "!=") rhs.
Definition expr_gt (e : ExprLhs) (rhs : RhsT) := BinaryExpr (gt (m_lhs e) rhs) (m_lhs e) (str ">") rhs.
Definition expr_lt (e : ExprLhs) (rhs : RhsT) := BinaryExpr (lt (m_lhs e) rhs) (m_lhs e) (str "<") rhs.
Definition expr_ge (e : ExprLhs) (rhs : RhsT) := BinaryExpr (ge (m_lhs e) rhs) (m_lhs e) (str ">=") rhs.
Definition expr_le (e : ExprLhs) (rhs : RhsT) := BinaryExpr (le (m_lhs e) rhs) (m_lhs e) (str "<=") rhs.
End decomposer.

(** Pointers against the integers that [NULL] and [0] may be: [reinterpret_cast] keeps the sign. *)
Definition compareEqual_pointer (lhs : Z) (rhs : Z) : bool := bool_decide (lhs = u64 rhs).
Definition compareNotEqual_pointer (lhs : Z) (rhs : Z) : bool := bool_decide (lhs ≠ u64 rhs).
