(* ===== verification/CatchMatchersProps.v ===== *)
(** * Properties of matchers

    What a combination of matchers means and says - of new ones, and of ones that stand in a
    variable - where its objects are shared, and what the vector matchers decide. *)
From stdpp Require Import strings list.
From S2P Require Import Prelude CatchString CatchTest CatchResult CatchMatchers.

(** ** What the matchers of a store mean *)
Section meanings.
Context {ArgT : Type}.

(** How a combination reads: its operands in one pair of parentheses. *)
Fixpoint joined (sep : list byte) (l : list (list byte)) : list byte :=
  match l with
  | [] => []
  | [s] => s
  | s :: l => s ++ sep ++ joined sep l
  end.
Definition parenthesised (sep : string) (l : list (list byte)) : list byte :=
  str "( " ++ joined (str sep) l ++ str " )".

(** What each matcher accepts and says, and how deep it refers to others. *)
Record meaning := mk_meaning { accepts : ArgT → bool; says : list byte; depth : nat }.
Implicit Types (M : nat → meaning) (o : Matcher ArgT) (σ : store ArgT).

Definition operands o : list nat :=
  match o with Other _ _ => [] | MatchAllOf ps | MatchAnyOf ps => ps | MatchNotOf q => [q] end.
Definition object_accepts M o (arg : ArgT) : bool :=
  match o with
  | Other f _ => f arg
  | MatchAllOf ps => forallb (λ q, accepts (M q) arg) ps
  | MatchAnyOf ps => existsb (λ q, accepts (M q) arg) ps
  | MatchNotOf q => negb (accepts (M q) arg)
  end.
Definition object_says M o : list byte :=
  match o with
  | Other _ d => d
  | MatchAllOf ps => parenthesised " and " ((λ q, says (M q)) <$> ps)
  | MatchAnyOf ps => parenthesised " or " ((λ q, says (M q)) <$> ps)
  | MatchNotOf q => str "not " ++ says (M q)
  end.

(** [M] tells what the matchers of a store mean: no matcher refers to itself, by itself or through
    others, and what is printed already is what would be printed. *)
Record meant M σ (i : nat) (m : MatcherBase ArgT) : Prop := {
  mn_operands : ∀ q, q ∈ operands (object m) → (q < length σ)%nat ∧ (depth (M q) < depth (M i))%nat;
  mn_accepts : ∀ arg, accepts (M i) arg = object_accepts M (object m) arg;
  mn_says : says (M i) = object_says M (object m);
  mn_cache : m_cachedToString m = [] ∨ m_cachedToString m = says (M i)
}.
Definition coherent σ M : Prop := ∀ i m, σ !! i = Some m → meant M σ i m.

(** *** Matching and printing *)
Lemma all_match_ok matches M ps arg : (∀ q, q ∈ ps → matches q = Done (accepts (M q) arg)) →
  all_match matches ps = Done (forallb (λ q, accepts (M q) arg) ps).
Proof.
  induction ps as [|q ps IH]; intros H; [done|]. cbn. rewrite (H q) by constructor. cbn.
  rewrite IH by (intros r Hr; apply H; by constructor). by destruct (accepts (M q) arg).
Qed.
Lemma any_match_ok matches M ps arg : (∀ q, q ∈ ps → matches q = Done (accepts (M q) arg)) →
  any_match matches ps = Done (existsb (λ q, accepts (M q) arg) ps).
Proof.
  induction ps as [|q ps IH]; intros H; [done|]. cbn. rewrite (H q) by constructor. cbn.
  rewrite IH by (intros r Hr; apply H; by constructor). by destruct (accepts (M q) arg).
Qed.

Lemma match_coherent σ M arg : coherent σ M → ∀ fuel i, (i < length σ)%nat → (depth (M i) < fuel)%nat →
  match_at fuel σ arg i = Done (accepts (M i) arg).
Proof.
  intros C. induction fuel as [|fuel IH]; intros i Hi Hf; [lia|].
  destruct (lookup_lt_is_Some_2 σ i Hi) as [m Hm]. destruct (C i m Hm) as [Ho Ha _ _].
  cbn [match_at]. rewrite Hm. cbn [or_undefined mbind outcome_bind]. rewrite Ha.
  assert (∀ q, q ∈ operands (object m) → match_at fuel σ arg q = Done (accepts (M q) arg)) as IH'.
  { intros q Hq. destruct (Ho q Hq). apply IH; lia. }
  destruct (object m) as [f d|ps|ps|q]; cbn in *; [done|by apply all_match_ok|by apply any_match_ok|].
  by rewrite (IH' q) by constructor.
Qed.

(** A printer that says what a matcher says, and leaves the matchers what they are. *)
Definition prints M (os : list (Matcher ArgT)) (print : st (store ArgT) (list byte)) (s : list byte) : Prop :=
  ∀ σ, coherent σ M → object <$> σ = os → ∃ σ', print σ = Done (s, σ') ∧ coherent σ' M ∧ object <$> σ' = os.

Lemma listed_prints M os print sep ps : (∀ q, q ∈ ps → prints M os (print q) (says (M q))) → ∀ first,
  prints M os (listed print sep first ps)
    (if first then joined sep ((λ q, says (M q)) <$> ps) else ps ≫= λ q, sep ++ says (M q)).
Proof.
  assert (∀ (l : list nat) s, joined sep (s :: ((λ q, says (M q)) <$> l)) = s ++ (l ≫= λ q, sep ++ says (M q))) as J.
  { induction l as [|x l IH]; intros s; cbn; [by rewrite app_nil_r|]. cbn in IH. by rewrite IH, <- (app_assoc sep). }
  induction ps as [|q ps IH]; intros H first σ C O; [exists σ; by destruct first|].
  destruct (H q ltac:(constructor) σ C O) as (σ1 & E1 & C1 & O1).
  destruct (IH (λ r Hr, H r ltac:(by constructor)) false σ1 C1 O1) as (σ2 & E2 & C2 & O2).
  exists σ2. split; [|done]. rewrite fmap_cons, J. cbn [listed]. unfold mbind at 1 2, st_bind. rewrite E1, E2.
  destruct first; [done|]. cbn. by rewrite app_assoc.
Qed.

Lemma describe_prints M os print o : (∀ q, q ∈ operands o → prints M os (print q) (says (M q))) →
  prints M os (describe_object print o) (object_says M o).
Proof.
  intros H σ C O. destruct o as [f d|ps|ps|q]; cbn [describe_object object_says operands] in *.
  - by exists σ.
  - destruct (listed_prints M os print (str " and ") ps H true σ C O) as (σ' & E & R). exists σ'.
    split; [|exact R]. unfold mbind, st_bind. by rewrite E.
  - destruct (listed_prints M os print (str " or ") ps H true σ C O) as (σ' & E & R). exists σ'.
    split; [|exact R]. unfold mbind, st_bind. by rewrite E.
  - destruct (H q ltac:(constructor) σ C O) as (σ' & E & R). exists σ'.
    split; [|exact R]. unfold mbind, st_bind. by rewrite E.
Qed.

Lemma cache_coherent σ M p : coherent σ M →
  coherent (alter (λ m : MatcherBase ArgT, mk_MatcherBase (object m) (says (M p))) p σ) M.
Proof.
  intros C i m. destruct (decide (p = i)) as [<-|Hne].
  - rewrite list_lookup_alter_eq. destruct (σ !! p) as [m0|] eqn:E; [|done]. intros [= <-].
    destruct (C p m0 E) as [Ho Ha Hs _]. split; cbn; [by rewrite length_alter|done|done|by right].
  - rewrite list_lookup_alter_ne by done. intros E. destruct (C i m E) as [Ho Ha Hs Hc].
    split; [by rewrite length_alter|done..].
Qed.
Lemma cache_objects σ p s : object <$> alter (λ m : MatcherBase ArgT, mk_MatcherBase (object m) s) p σ = object <$> σ.
Proof.
  apply list_eq. intros i. rewrite !list_lookup_fmap. destruct (decide (p = i)) as [<-|Hne].
  - rewrite list_lookup_alter_eq. by destruct (σ !! p).
  - by rewrite list_lookup_alter_ne.
Qed.

Lemma print_coherent M os : ∀ fuel i, (i < length os)%nat → (depth (M i) < fuel)%nat →
  prints M os (to_string_at fuel i) (says (M i)).
Proof.
  induction fuel as [|fuel IH]; intros i Hi Hf σ C O; [lia|].
  assert (length σ = length os) as Hl by (by rewrite <- O, length_fmap).
  destruct (lookup_lt_is_Some_2 σ i ltac:(lia)) as [m Hm]. destruct (C i m Hm) as [Ho _ Hs Hc].
  cbn [to_string_at]. unfold mbind, st_bind, st_lift, st_get. cbn. rewrite Hm. cbn.
  destruct (decide (m_cachedToString m = [])) as [E0|E0].
  - destruct (describe_prints M os (to_string_at fuel) (object m)) with (σ := σ) as (σ' & E & C' & O'); [|done..|].
    { intros q Hq. destruct (Ho q Hq). apply IH; lia. }
    rewrite E, <- Hs. cbn. eexists. split; [reflexivity|].
    split; [by apply cache_coherent|by rewrite cache_objects].
  - destruct Hc as [Hc|Hc]; [done|]. rewrite Hc. by exists σ.
Qed.

(** *** One matcher more, or one with more operands

    Nothing refers to it: the others mean what they did. *)
Definition unreferenced σ (p : nat) : Prop := ∀ i m, σ !! i = Some m → p ∉ operands (object m).
Definition object_meaning M o : meaning :=
  mk_meaning (object_accepts M o) (object_says M o) (S (list_max ((λ q, depth (M q)) <$> operands o))).
Definition told M (p : nat) o : nat → meaning := λ i, if decide (i = p) then object_meaning M o else M i.
Lemma told_at M p o : told M p o p = object_meaning M o.
Proof. unfold told. by rewrite decide_True. Qed.
Lemma told_else M p o i : i ≠ p → told M p o i = M i.
Proof. intros H. unfold told. by rewrite decide_False. Qed.

Lemma object_accepts_ext M M' o arg : (∀ q, q ∈ operands o → M' q = M q) →
  object_accepts M' o arg = object_accepts M o arg.
Proof.
  intros H. destruct o as [f d|ps|ps|q]; cbn in *; [done| | |by rewrite (H q) by constructor];
    (induction ps as [|q ps IH]; [done|]); cbn; rewrite (H q) by constructor; f_equal;
    apply IH; intros r Hr; apply H; by constructor.
Qed.
Lemma says_ext M M' (ps : list nat) : (∀ q, q ∈ ps → M' q = M q) →
  (λ q, says (M' q)) <$> ps = (λ q, says (M q)) <$> ps.
Proof. intros H. apply list_fmap_ext. intros i q Hq. f_equal. apply H. by eapply list_elem_of_lookup_2. Qed.
Lemma object_says_ext M M' o : (∀ q, q ∈ operands o → M' q = M q) → object_says M' o = object_says M o.
Proof.
  intros H. destruct o as [f d|ps|ps|q]; cbn in *; [done| | |by rewrite (H q) by constructor];
    by rewrite (says_ext M M').
Qed.

Lemma operand_depth M o q : q ∈ operands o → (depth (M q) < depth (object_meaning M o))%nat.
Proof.
  intros Hq. cbn. pose proof (proj1 (list_max_le _ _) (Nat.le_refl (list_max ((λ q, depth (M q)) <$> operands o)))) as H.
  eapply list.Forall_forall in H; [apply Nat.lt_succ_r, H|]. apply list_elem_of_fmap. by exists q.
Qed.

Lemma told_coherent σ M p o σ' : coherent σ M → unreferenced σ p → (length σ ≤ length σ')%nat →
  (∀ q, q ∈ operands o → (q < length σ)%nat ∧ q ≠ p) → σ' !! p = Some (mk_MatcherBase o []) →
  (∀ i m, i ≠ p → σ' !! i = Some m → σ !! i = Some m) → coherent σ' (told M p o).
Proof.
  intros C U Hl Ho Hp He i m Hm. destruct (decide (i = p)) as [->|Hne].
  - rewrite Hp in Hm. injection Hm as <-. split; cbn [object m_cachedToString]; rewrite ?told_at.
    + intros q Hq. destruct (Ho q Hq) as [H1 H2]. rewrite told_else by done. split; [lia|by apply operand_depth].
    + intros arg. symmetry. apply object_accepts_ext. intros q Hq. apply told_else. by apply Ho.
    + symmetry. apply object_says_ext. intros q Hq. apply told_else. by apply Ho.
    + by left.
  - pose proof (He i m Hne Hm) as Hm'. destruct (C i m Hm') as [Hq Ha Hs Hc].
    assert (∀ q, q ∈ operands (object m) → told M p o q = M q) as Hext.
    { intros q Hin. apply told_else. intros ->. by apply (U i m Hm'). }
    split; rewrite told_else by done.
    + intros q Hin. destruct (Hq q Hin). rewrite Hext by done. split; [lia|done].
    + intros arg. rewrite Ha. symmetry. by apply object_accepts_ext.
    + rewrite Hs. symmetry. by apply object_says_ext.
    + done.
Qed.
Lemma new_unreferenced σ M : coherent σ M → unreferenced σ (length σ).
Proof. intros C i m Hm Hin. destruct (mn_operands _ _ _ _ (C i m Hm) _ Hin). lia. Qed.
End meanings.
Arguments meaning : clear implicits.

(** ** Combinations as terms

    Of matchers that stand in variables, by their addresses, and of temporaries. *)
Section terms.
Context {ArgT : Type}.

Inductive term :=
| Var (p : nat)
| Basic (f : ArgT → bool) (d : list byte)
| And (a b : term)
| Or (a b : term)
| Not (a : term).

(** What the code of such an expression does, its operands from left to right. *)
Fixpoint build (t : term) : st (store ArgT) nat :=
  match t with
  | Var p => mret p
  | Basic f d => new_matcher (Other f d)
  | And a b => p ← build a; q ← build b; op_and p q
  | Or a b => p ← build a; q ← build b; op_or p q
  | Not a => p ← build a; op_not p
  end.

(** What a term means and how it reads, where [M] tells what the variables mean. *)
Fixpoint holds (M : nat → meaning ArgT) (t : term) (arg : ArgT) : bool :=
  match t with
  | Var p => accepts (M p) arg
  | Basic f _ => f arg
  | And a b => holds M a arg && holds M b arg
  | Or a b => holds M a arg || holds M b arg
  | Not a => negb (holds M a arg)
  end.

(** The text of a term, with the operands it would add to as part of a longer conjunction or
    disjunction. *)
Record reading := mk_reading { whole : list byte; conjuncts : list (list byte); disjuncts : list (list byte) }.
Definition one (s : list byte) : reading := mk_reading s [s] [s].
Fixpoint reads (M : nat → meaning ArgT) (t : term) : reading :=
  match t with
  | Var p => one (says (M p))
  | Basic _ d => one d
  | And a b =>
      let l := conjuncts (reads M a) ++ [whole (reads M b)] in
      let w := parenthesised " and " l in mk_reading w l [w]
  | Or a b =>
      let l := disjuncts (reads M a) ++ [whole (reads M b)] in
      let w := parenthesised " or " l in mk_reading w [w] l
  | Not a => one (str "not " ++ whole (reads M a))
  end.

(** The variables are matchers of the store; one that is a conjunction is no left operand of [&&], which
    would change it, nor a disjunction of [||]. *)
Definition is_all (o : Matcher ArgT) : bool := match o with MatchAllOf _ => true | _ => false end.
Definition is_any (o : Matcher ArgT) : bool := match o with MatchAnyOf _ => true | _ => false end.
Definition changes (kind : Matcher ArgT → bool) (σ : store ArgT) (a : term) : bool :=
  match a with Var p => match σ !! p with Some m => kind (object m) | None => false end | _ => false end.
Fixpoint unchanging (σ : store ArgT) (t : term) : bool :=
  match t with
  | Var p => bool_decide (p < length σ)%nat
  | Basic _ _ => true
  | And a b => unchanging σ a && unchanging σ b && negb (changes is_all σ a)
  | Or a b => unchanging σ a && unchanging σ b && negb (changes is_any σ a)
  | Not a => unchanging σ a
  end.

(** ** An expression in a store *)
Section build.
Context (σ0 : store ArgT) (M0 : nat → meaning ArgT).

(** The store and the meanings behind the ones there were. *)
Record later (σ : store ArgT) (M : nat → meaning ArgT) : Prop := {
  lt_length : (length σ0 ≤ length σ)%nat;
  lt_coherent : coherent σ M;
  lt_old : ∀ i, (i < length σ0)%nat → σ !! i = σ0 !! i ∧ M i = M0 i
}.
Definition object_reads (M : nat → meaning ArgT) (o : Matcher ArgT) : reading :=
  let w := object_says M o in
  match o with
  | MatchAllOf ps => mk_reading w ((λ q, says (M q)) <$> ps) [w]
  | MatchAnyOf ps => mk_reading w [w] ((λ q, says (M q)) <$> ps)
  | _ => one w
  end.

(** The root of what is built: a variable, or an object that is new and that nothing refers to. *)
Definition rooted (n : nat) (t : term) (σ : store ArgT) (M : nat → meaning ArgT) (p : nat) : Prop :=
  (t = Var p ∧ (p < length σ0)%nat) ∨
  ((n ≤ p)%nat ∧ unreferenced σ p ∧
    ∃ o, σ !! p = Some (mk_MatcherBase o []) ∧ reads M0 t = object_reads M o).
Record built (n : nat) (t : term) (σ : store ArgT) (M : nat → meaning ArgT) (p : nat) : Prop := {
  bt_later : later σ M;
  bt_root : rooted n t σ M p;
  bt_accepts : ∀ arg, accepts (M p) arg = holds M0 t arg;
  bt_says : says (M p) = whole (reads M0 t);
  bt_new : ∀ i m q, (n ≤ i)%nat → σ !! i = Some m → q ∈ operands (object m) → (q < length σ0)%nat ∨ (n ≤ q)%nat
}.
(** From the one to the other, all that was there stays. *)
Definition kept_to (σ : store ArgT) M (σ' : store ArgT) M' : Prop :=
  (length σ ≤ length σ')%nat ∧ ∀ i, (i < length σ)%nat → σ' !! i = σ !! i ∧ M' i = (M i : meaning ArgT).

Lemma built_in n t σ M p : built n t σ M p → (p < length σ)%nat.
Proof.
  intros [[Hl _ _] [[_ Hp]|(_ & _ & o & Ho & _)] _ _ _]; [lia|by eapply lookup_lt_Some].
Qed.
Lemma told_later σ M p o σ' : later σ M → (length σ0 ≤ p)%nat → unreferenced σ p →
  (length σ ≤ length σ')%nat → (∀ q, q ∈ operands o → (q < length σ)%nat ∧ q ≠ p) →
  σ' !! p = Some (mk_MatcherBase o []) → (∀ i, i ≠ p → (i < length σ)%nat → σ' !! i = σ !! i) →
  (∀ i m, i ≠ p → σ' !! i = Some m → σ !! i = Some m) → later σ' (told M p o).
Proof.
  intros [Hl C Ho] Hp U Hn Hq Hr He He'. split; [lia|by eapply told_coherent|].
  intros i Hi. rewrite told_else by lia. rewrite He by lia. by apply Ho.
Qed.

(** A new object on top. *)
Lemma new_built n σ M o t : later σ M → (length σ0 ≤ n ≤ length σ)%nat →
  (∀ q, q ∈ operands o → (q < length σ)%nat ∧ ((q < length σ0)%nat ∨ (n ≤ q)%nat)) →
  (∀ i m q, (n ≤ i)%nat → σ !! i = Some m → q ∈ operands (object m) → (q < length σ0)%nat ∨ (n ≤ q)%nat) →
  (∀ arg, object_accepts M o arg = holds M0 t arg) → object_reads M o = reads M0 t →
  built n t (σ ++ [mk_MatcherBase o []]) (told M (length σ) o) (length σ).
Proof.
  intros L Hn Hq Hnew Ha Hr. pose proof (new_unreferenced _ _ (lt_coherent _ _ L)) as U.
  assert (later (σ ++ [mk_MatcherBase o []]) (told M (length σ) o)) as L'.
  { apply (told_later σ); [done|lia|done|rewrite length_app; lia| | | |].
    - intros q Hin. destruct (Hq q Hin). split; [done|lia].
    - by rewrite lookup_app_r, Nat.sub_diag by lia.
    - intros i _ Hi. by rewrite lookup_app_l.
    - intros i m Hne Hm. apply lookup_app_Some in Hm as [Hm|[Hge Hm]]; [done|].
      destruct (i - length σ)%nat eqn:E; [lia|done]. }
  assert (object_reads (told M (length σ) o) o = object_reads M o) as Er.
  { assert (∀ q, q ∈ operands o → told M (length σ) o q = M q) as Hext.
    { intros q Hin. destruct (Hq q Hin). apply told_else. lia. }
    unfold object_reads. rewrite (object_says_ext M _ o Hext).
    destruct o as [f d|ps|ps|q]; try done; cbn in Hext; by rewrite (says_ext M _ ps Hext). }
  split; [done| | | |].
  - right. split; [lia|]. split.
    + intros i m Hm Hin. apply lookup_app_Some in Hm as [Hm|[_ Hm]]; [by apply (U i m Hm)|].
      destruct (i - length σ)%nat; [|done]. injection Hm as <-. destruct (Hq _ Hin). lia.
    + exists o. split; [by rewrite lookup_app_r, Nat.sub_diag by lia|]. by rewrite Er.
  - intros arg. rewrite told_at. apply Ha.
  - rewrite told_at. rewrite <- Hr. by destruct o.
  - intros i m q Hi Hm Hin. apply lookup_app_Some in Hm as [Hm|[_ Hm]]; [by eapply Hnew|].
    destruct (i - length σ)%nat; [|done]. injection Hm as <-. by apply Hq.
Qed.

(** An operand more for a combination that is new, in place. *)
Lemma grown_built n σ M p o o' t : later σ M → (length σ0 ≤ n ≤ p)%nat → unreferenced σ p →
  σ !! p = Some (mk_MatcherBase o []) →
  (∀ q, q ∈ operands o' → (q < length σ)%nat ∧ q ≠ p ∧ ((q < length σ0)%nat ∨ (n ≤ q)%nat)) →
  (∀ i m q, (n ≤ i)%nat → σ !! i = Some m → q ∈ operands (object m) → (q < length σ0)%nat ∨ (n ≤ q)%nat) →
  (∀ arg, object_accepts M o' arg = holds M0 t arg) → object_reads M o' = reads M0 t →
  built n t (alter (λ m, mk_MatcherBase o' (m_cachedToString m)) p σ) (told M p o') p.
Proof.
  intros L Hn U Hp Hq Hnew Ha Hr.
  assert (alter (λ m, mk_MatcherBase o' (m_cachedToString m)) p σ !! p = Some (mk_MatcherBase o' [])) as Hp'.
  { by rewrite list_lookup_alter_eq, Hp. }
  assert (∀ i m, alter (λ m, mk_MatcherBase o' (m_cachedToString m)) p σ !! i = Some m →
    σ !! i = Some m ∨ (i = p ∧ m = mk_MatcherBase o' [])) as Hcase.
  { intros i m Hm. destruct (decide (i = p)) as [->|Hne]; [right|left].
    - split; [done|]. congruence.
    - by rewrite list_lookup_alter_ne in Hm by done. }
  assert (object_reads (told M p o') o' = object_reads M o') as Er.
  { assert (∀ q, q ∈ operands o' → told M p o' q = M q) as Hext.
    { intros q Hin. destruct (Hq q Hin) as (_ & H & _). by apply told_else. }
    unfold object_reads. rewrite (object_says_ext M _ o' Hext).
    destruct o' as [f d|ps|ps|q]; try done; cbn in Hext; by rewrite (says_ext M _ ps Hext). }
  split.
  - apply (told_later σ); [done|lia|done|by rewrite length_alter| |done| |].
    + intros q Hin. by destruct (Hq q Hin) as (? & ? & _).
    + intros i Hne _. by rewrite list_lookup_alter_ne.
    + intros i m Hne Hm. by destruct (Hcase i m Hm) as [?|[? _]].
  - right. split; [lia|]. split; [|exists o'; by rewrite Er].
    intros i m Hm Hin. destruct (Hcase i m Hm) as [Hm'|[-> ->]]; [by apply (U i m Hm')|].
    by destruct (Hq _ Hin) as (_ & ? & _).
  - intros arg. rewrite told_at. apply Ha.
  - rewrite told_at, <- Hr. by destruct o'.
  - intros i m q Hi Hm Hin. destruct (Hcase i m Hm) as [Hm'|[-> ->]]; [by eapply Hnew|]. by apply Hq.
Qed.

Lemma object_reads_ext M M' o : (∀ q, q ∈ operands o → M' q = M q) → object_reads M' o = object_reads M o.
Proof.
  intros H. unfold object_reads. rewrite (object_says_ext M M' o H).
  destruct o as [f d|ps|ps|q]; try done; cbn in H; by rewrite (says_ext M M' ps H).
Qed.

(** Two operands, one built after the other. *)
Lemma both_built n a b σ1 M1 p σ2 M2 q : (length σ0 ≤ n ≤ length σ1)%nat → built n a σ1 M1 p →
  built (length σ1) b σ2 M2 q → kept_to σ1 M1 σ2 M2 →
  built n a σ2 M2 p ∧ built n b σ2 M2 q ∧ ((length σ0 ≤ p)%nat → p ≠ q).
Proof.
  intros Hn A B [Kl K]. pose proof (built_in _ _ _ _ _ A) as Hp. pose proof (built_in _ _ _ _ _ B) as Hq.
  pose proof (lt_coherent _ _ (bt_later _ _ _ _ _ A)) as C1.
  assert (∀ i m r, (n ≤ i)%nat → σ2 !! i = Some m → r ∈ operands (object m) →
    (r < length σ0)%nat ∨ (n ≤ r)%nat) as Hnew.
  { intros i m r Hi Hm Hr. destruct (decide (i < length σ1)%nat) as [Hlt|Hge].
    - destruct (K i Hlt) as [K1 _]. rewrite K1 in Hm. by apply (bt_new _ _ _ _ _ A i m).
    - destruct (bt_new _ _ _ _ _ B i m r ltac:(lia) Hm Hr); [by left|right; lia]. }
  destruct (K p Hp) as [K1 K2]. split; [split; [apply B| | | |exact Hnew]|split; [split; [apply B| | | |exact Hnew]|]].
  - destruct (bt_root _ _ _ _ _ A) as [H|(Hge & U & o & Ho & Hr)]; [by left|right]. split; [done|]. split.
    + intros i m Hm Hin. destruct (decide (i < length σ1)%nat) as [Hlt|Hnlt].
      * apply (U i m); [|done]. destruct (K i Hlt) as [K3 _]. by rewrite <- K3.
      * destruct (bt_new _ _ _ _ _ B i m p ltac:(lia) Hm Hin); lia.
    + exists o. rewrite K1. split; [done|]. rewrite Hr. symmetry. apply object_reads_ext.
      intros r Hr'. apply K. by destruct (mn_operands _ _ _ _ (C1 p _ Ho) r Hr').
  - intros arg. rewrite K2. apply A.
  - rewrite K2. apply A.
  - destruct (bt_root _ _ _ _ _ B) as [H|(Hge & H)]; [by left|right; split; [lia|done]].
  - apply B.
  - apply B.
  - intros Hp0 ->. destruct (bt_root _ _ _ _ _ B) as [[_ H]|[H _]]; lia.
Qed.

Lemma built_object n a σ M p : built n a σ M p → ∃ m, σ !! p = Some m.
Proof. intros A. apply lookup_lt_is_Some_2. by eapply built_in. Qed.
Lemma built_place n a σ M p : built n a σ M p → (p < length σ0)%nat ∨ (n ≤ p)%nat.
Proof. intros A. destruct (bt_root _ _ _ _ _ A) as [[_ H]|[H _]]; [by left|by right]. Qed.
Lemma root_conjuncts n a σ M p m : built n a σ M p → σ !! p = Some m → is_all (object m) = false →
  conjuncts (reads M0 a) = [says (M p)].
Proof.
  intros A Hm Hk. rewrite (bt_says _ _ _ _ _ A).
  destruct (bt_root _ _ _ _ _ A) as [[-> _]|(_ & _ & o & Ho & Hr)]; [done|].
  rewrite Ho in Hm. injection Hm as <-. rewrite Hr. by destruct o.
Qed.
Lemma root_disjuncts n a σ M p m : built n a σ M p → σ !! p = Some m → is_any (object m) = false →
  disjuncts (reads M0 a) = [says (M p)].
Proof.
  intros A Hm Hk. rewrite (bt_says _ _ _ _ _ A).
  destruct (bt_root _ _ _ _ _ A) as [[-> _]|(_ & _ & o & Ho & Hr)]; [done|].
  rewrite Ho in Hm. injection Hm as <-. rewrite Hr. by destruct o.
Qed.
(** What is of a kind that an operator changes is new. *)
Lemma root_new n a σ M p m kind : built n a σ M p → σ !! p = Some m → kind (object m) = true →
  changes kind σ0 a = false → (n ≤ p)%nat ∧ unreferenced σ p ∧ m_cachedToString m = [] ∧
  reads M0 a = object_reads M (object m).
Proof.
  intros A Hm Hk Hc. destruct (bt_root _ _ _ _ _ A) as [[-> Hp]|(Hn & U & o & Ho & Hr)].
  - cbn in Hc. destruct (lt_old _ _ (bt_later _ _ _ _ _ A) p Hp) as [E _]. rewrite <- E, Hm in Hc. congruence.
  - rewrite Ho in Hm. injection Hm as <-. done.
Qed.

(** An operator on what was built for its operands. *)
Definition operates (n : nat) (t : term) (op : st (store ArgT) nat) (σ : store ArgT) M : Prop :=
  ∃ r σ' M', op σ = Done (r, σ') ∧ built n t σ' M' r ∧ (length σ ≤ length σ')%nat ∧
    ∀ i, (i < n)%nat → σ' !! i = σ !! i ∧ M' i = M i.

Lemma new_operates n t σ M o : later σ M → (length σ0 ≤ n ≤ length σ)%nat →
  (∀ q, q ∈ operands o → (q < length σ)%nat ∧ ((q < length σ0)%nat ∨ (n ≤ q)%nat)) →
  (∀ i m q, (n ≤ i)%nat → σ !! i = Some m → q ∈ operands (object m) → (q < length σ0)%nat ∨ (n ≤ q)%nat) →
  (∀ arg, object_accepts M o arg = holds M0 t arg) → object_reads M o = reads M0 t →
  operates n t (new_matcher o) σ M.
Proof.
  intros L Hn Hq Hnew Ha Hr. do 3 eexists. split; [reflexivity|]. split; [by apply new_built|].
  split; [rewrite length_app; lia|]. intros i Hi. rewrite lookup_app_l by lia. split; [done|]. apply told_else. lia.
Qed.
Lemma grown_operates n t a b σ M p q m o' kind : (length σ0 ≤ n)%nat → built n a σ M p → built n b σ M q →
  ((length σ0 ≤ p)%nat → p ≠ q) → σ !! p = Some m → kind (object m) = true → changes kind σ0 a = false →
  operands o' = operands (object m) ++ [q] →
  (∀ arg, object_accepts M o' arg = holds M0 t arg) → object_reads M o' = reads M0 t →
  operates n t (_ ← set_object p o'; mret p) σ M.
Proof.
  intros Hn A B Hpq Hm Hk Hc Ho Ha Hr. destruct (root_new _ _ _ _ _ _ _ A Hm Hk Hc) as (Hp & U & Hcache & _).
  pose proof (bt_later _ _ _ _ _ A) as L. destruct m as [o c]. cbn in *. subst c.
  do 3 eexists. split; [reflexivity|]. split; [eapply grown_built; try done|].
  - intros r. rewrite Ho, elem_of_app, list_elem_of_singleton. intros [Hr'| ->].
    + destruct (mn_operands _ _ _ _ (lt_coherent _ _ L p _ Hm) r Hr') as [? ?]. split; [done|]. split.
      * intros ->. by apply (U p _ Hm).
      * by eapply (bt_new _ _ _ _ _ A p).
    + split; [by eapply built_in|]. split; [apply not_eq_sym, Hpq; lia|by eapply built_place].
  - intros i m' r. apply (bt_new _ _ _ _ _ A).
  - split; [by rewrite length_alter|]. intros i Hi. rewrite list_lookup_alter_ne by lia. split; [done|].
    apply told_else. lia.
Qed.

Lemma op_and_ok n a b σ M p q : (length σ0 ≤ n ≤ length σ)%nat → built n a σ M p → built n b σ M q →
  ((length σ0 ≤ p)%nat → p ≠ q) → changes is_all σ0 a = false → operates n (And a b) (op_and p q) σ M.
Proof.
  intros Hn A B Hpq Hc. destruct (built_object _ _ _ _ _ A) as [m Hm].
  pose proof (bt_accepts _ _ _ _ _ A) as Aa. pose proof (bt_accepts _ _ _ _ _ B) as Ab.
  unfold operates, op_and. unfold st_get, st_lift. unfold mbind at 1 2, st_bind. rewrite Hm. cbn [or_undefined].
  destruct (is_all (object m)) eqn:Hk.
  - destruct (object m) as [|ps| |] eqn:Eo; try discriminate Hk.
    destruct (root_new _ _ _ _ _ _ is_all A Hm ltac:(by rewrite Eo) Hc) as (_ & _ & _ & Hr).
    eapply (grown_operates n _ a b σ M p q m _ is_all); try done; [lia|by rewrite Eo|by rewrite Eo| |].
    + intros arg. cbn. rewrite forallb_app. cbn. rewrite andb_true_r, Ab, <- Aa.
      rewrite (mn_accepts _ _ _ _ (lt_coherent _ _ (bt_later _ _ _ _ _ A) p m Hm)), Eo. done.
    + unfold object_reads. cbn. rewrite Hr, Eo, fmap_app. cbn. by rewrite (bt_says _ _ _ _ _ B).
  - assert (operates n (And a b) (new_matcher (MatchAllOf [p; q])) σ M) as H.
    { apply new_operates; [apply A|done| |apply A| |].
      - intros r [->|[->|Hr]%elem_of_cons]%elem_of_cons; [| |inversion Hr].
        + split; [by eapply built_in|by eapply built_place].
        + split; [by eapply built_in|by eapply built_place].
      - intros arg. cbn. by rewrite andb_true_r, Aa, Ab.
      - unfold object_reads. cbn. rewrite (root_conjuncts _ _ _ _ _ _ A Hm Hk). cbn.
        by rewrite (bt_says _ _ _ _ _ B). }
    destruct (object m); [exact H|discriminate Hk|exact H..].
Qed.
Lemma op_or_ok n a b σ M p q : (length σ0 ≤ n ≤ length σ)%nat → built n a σ M p → built n b σ M q →
  ((length σ0 ≤ p)%nat → p ≠ q) → changes is_any σ0 a = false → operates n (Or a b) (op_or p q) σ M.
Proof.
  intros Hn A B Hpq Hc. destruct (built_object _ _ _ _ _ A) as [m Hm].
  pose proof (bt_accepts _ _ _ _ _ A) as Aa. pose proof (bt_accepts _ _ _ _ _ B) as Ab.
  unfold operates, op_or. unfold st_get, st_lift. unfold mbind at 1 2, st_bind. rewrite Hm. cbn [or_undefined].
  destruct (is_any (object m)) eqn:Hk.
  - destruct (object m) as [| |ps|] eqn:Eo; try discriminate Hk.
    destruct (root_new _ _ _ _ _ _ is_any A Hm ltac:(by rewrite Eo) Hc) as (_ & _ & _ & Hr).
    eapply (grown_operates n _ a b σ M p q m _ is_any); try done; [lia|by rewrite Eo|by rewrite Eo| |].
    + intros arg. cbn. rewrite existsb_app. cbn. rewrite orb_false_r, Ab, <- Aa.
      rewrite (mn_accepts _ _ _ _ (lt_coherent _ _ (bt_later _ _ _ _ _ A) p m Hm)), Eo. done.
    + unfold object_reads. cbn. rewrite Hr, Eo, fmap_app. cbn. by rewrite (bt_says _ _ _ _ _ B).
  - assert (operates n (Or a b) (new_matcher (MatchAnyOf [p; q])) σ M) as H.
    { apply new_operates; [apply A|done| |apply A| |].
      - intros r [->|[->|Hr]%elem_of_cons]%elem_of_cons; [| |inversion Hr].
        + split; [by eapply built_in|by eapply built_place].
        + split; [by eapply built_in|by eapply built_place].
      - intros arg. cbn. by rewrite orb_false_r, Aa, Ab.
      - unfold object_reads. cbn. rewrite (root_disjuncts _ _ _ _ _ _ A Hm Hk). cbn.
        by rewrite (bt_says _ _ _ _ _ B). }
    destruct (object m); [exact H|exact H|discriminate Hk|exact H].
Qed.

Lemma kept_to_trans σ1 M1 σ2 M2 σ3 M3 : kept_to σ1 M1 σ2 M2 → (length σ2 ≤ length σ3)%nat →
  (∀ i, (i < length σ1)%nat → σ3 !! i = σ2 !! i ∧ M3 i = M2 i) → kept_to σ1 M1 σ3 M3.
Proof.
  intros [L1 K1] L2 K2. split; [lia|]. intros i Hi. destruct (K1 i Hi), (K2 i Hi). split; congruence.
Qed.

Lemma build_ok t : ∀ σ M, later σ M → unchanging σ0 t = true → ∃ p σ' M',
  build t σ = Done (p, σ') ∧ built (length σ) t σ' M' p ∧ kept_to σ M σ' M'.
Proof.
  assert (∀ σ M a b op t,
    (∀ p q σ2 M2, (length σ ≤ length σ2)%nat → built (length σ) a σ2 M2 p → built (length σ) b σ2 M2 q →
      ((length σ0 ≤ p)%nat → p ≠ q) → operates (length σ) t (op p q) σ2 M2) →
    later σ M →
    (∃ p σ' M', build a σ = Done (p, σ') ∧ built (length σ) a σ' M' p ∧ kept_to σ M σ' M') →
    (∀ σ1 M1, later σ1 M1 → ∃ q σ' M', build b σ1 = Done (q, σ') ∧ built (length σ1) b σ' M' q ∧ kept_to σ1 M1 σ' M') →
    ∃ p σ' M', (p ← build a; q ← build b; op p q) σ = Done (p, σ') ∧ built (length σ) t σ' M' p ∧
      kept_to σ M σ' M') as Hbin.
  { intros σ M a b op t' Hop L (p & σ1 & M1 & E1 & A & K1) Hb.
    destruct (Hb σ1 M1 (bt_later _ _ _ _ _ A)) as (q & σ2 & M2 & E2 & B & K2).
    pose proof (lt_length _ _ L). destruct K1 as [L1 K1]. destruct K2 as [L2 K2].
    destruct (both_built (length σ) a b σ1 M1 p σ2 M2 q) as (A' & B' & Hpq); [lia|done|done|by split|].
    destruct (Hop p q σ2 M2 ltac:(lia) A' B' Hpq) as (r & σ3 & M3 & E3 & R & L3 & K3).
    exists r, σ3, M3. split; [unfold mbind, st_bind; by rewrite E1, E2|]. split; [done|].
    eapply (kept_to_trans _ _ σ2 M2); [|done|done]. split; [lia|]. intros i Hi.
    destruct (K1 i Hi), (K2 i ltac:(lia)). split; congruence. }
  induction t as [p|f d|a IHa b IHb|a IHa b IHb|a IHa]; intros σ M L Hu; pose proof (lt_length _ _ L) as Hl.
  - apply bool_decide_eq_true in Hu. exists p, σ, M. split; [done|]. split; [|by split].
    destruct (lt_old _ _ L p Hu) as [_ E]. split; [done|by left|by rewrite E|by rewrite E|].
    intros i m q Hi Hm. apply lookup_lt_Some in Hm. lia.
  - destruct (new_operates (length σ) (Basic f d) σ M (Other f d)) as (r & σ' & M' & E & B & K1 & K2);
      try done; [intros q Hq; inversion Hq| |by exists r, σ', M'].
    intros i m q Hi Hm. apply lookup_lt_Some in Hm. lia.
  - cbn in Hu. apply andb_prop in Hu as [[Ha Hb]%andb_prop Hc%negb_true_iff].
    apply (Hbin σ M a b op_and); [|done|by apply IHa|by intros; apply IHb].
    intros p q σ2 M2 ? A B Hpq. by eapply op_and_ok.
  - cbn in Hu. apply andb_prop in Hu as [[Ha Hb]%andb_prop Hc%negb_true_iff].
    apply (Hbin σ M a b op_or); [|done|by apply IHa|by intros; apply IHb].
    intros p q σ2 M2 ? A B Hpq. by eapply op_or_ok.
  - destruct (IHa σ M L Hu) as (p & σ1 & M1 & E1 & A & K1). pose proof (proj1 K1).
    destruct (new_operates (length σ) (Not a) σ1 M1 (MatchNotOf p)) as (r & σ' & M' & E & B & L2 & K2);
      [apply A|lia| |apply A| | |].
    + intros q [->|Hq]%elem_of_cons; [|inversion Hq]. split; [by eapply built_in|by eapply built_place].
    + intros arg. cbn. by rewrite (bt_accepts _ _ _ _ _ A).
    + unfold object_reads. cbn. by rewrite (bt_says _ _ _ _ _ A).
    + exists r, σ', M'. cbn [build]. unfold mbind, st_bind. rewrite E1. split; [done|]. split; [done|].
      by eapply kept_to_trans.
Qed.
End build.

Lemma depths_bounded (M : nat → meaning ArgT) n : ∃ enough, ∀ i, (i < n)%nat → (depth (M i) < enough)%nat.
Proof.
  induction n as [|n [e IH]]; [exists O; lia|]. exists (S (Nat.max e (depth (M n)))). intros i Hi.
  destruct (decide (i = n)) as [->|Hne]; [lia|]. specialize (IH i ltac:(lia)). lia.
Qed.

(** C32 (functional): an expression with [&&], [||] and [!] over matchers that stand in variables, each
    any number of times, and temporaries builds a matcher that accepts what the expression means and
    leaves the matchers there were, and what they accept and say, alone - unless a conjunction in a variable is the left
    operand of an [&&], or a disjunction of an [||] (these are changed: [conjunction_changes]).  It prints the
    expression, the operands of one conjunction or disjunction written together in one pair of parentheses,
    changes nothing by that, and does so again when it is asked again.  An assertion on it holds exactly then,
    and reads as the argument and the text, or the source of the matcher if that is unprintable.  The store is one
    where no matcher contains itself and what has been printed is not out of date, as expressions of this
    kind leave it. *)
Theorem matchers_combine (t : term) (σ : store ArgT) (M : nat → meaning ArgT) :
  coherent σ M → unchanging σ t = true →
  ∃ p σ' M' enough, build t σ = Done (p, σ') ∧ coherent σ' M' ∧
    (∀ i, (i < length σ)%nat → σ' !! i = σ !! i ∧ M' i = M i) ∧
    ∀ fuel, (enough ≤ fuel)%nat →
      (∀ i arg, (i < length σ)%nat → match_at fuel σ' arg i = Done (accepts (M i) arg)) ∧
      (∀ arg, match_at fuel σ' arg p = Done (holds M t arg)) ∧
      ∃ σ1, to_string_at fuel p σ' = Done (whole (reads M t), σ1) ∧
        coherent σ1 M' ∧ object <$> σ1 = object <$> σ' ∧
        (∀ arg, match_at fuel σ1 arg p = Done (holds M t arg)) ∧
        (∃ σ2, to_string_at fuel p σ1 = Done (whole (reads M t), σ2)) ∧
        ∀ stringify source arg, makeMatchExpr stringify fuel σ' arg p source = Done (mk_ITransientExpression
          (stringify arg ++ [x20] ++ if decide (whole (reads M t) = unprintable) then source else whole (reads M t))
          (holds M t arg) true).
Proof.
  intros C Hu. destruct (build_ok σ M t σ M) as (p & σ' & M' & E & B & K); [by split|done|].
  pose proof (bt_accepts _ _ _ _ _ _ _ B) as Ha. pose proof (bt_says _ _ _ _ _ _ _ B) as Hs.
  pose proof (lt_coherent _ _ _ _ (bt_later _ _ _ _ _ _ _ B)) as C'.
  pose proof (built_in _ _ _ _ _ _ _ B) as Hp.
  destruct (depths_bounded M' (length σ')) as [enough Hd].
  exists p, σ', M', enough. split; [done|]. split; [done|]. split; [apply K|]. intros fuel Hf.
  assert (∀ σ1, coherent σ1 M' → length σ1 = length σ' → ∀ i arg, (i < length σ')%nat →
    match_at fuel σ1 arg i = Done (accepts (M' i) arg)) as Hmatch.
  { intros σ1 C1 Hl i arg Hi. apply match_coherent; [done|lia|]. specialize (Hd i Hi). lia. }
  assert (∀ arg, match_at fuel σ' arg p = Done (holds M t arg)) as Hp'.
  { intros arg. by rewrite Hmatch, Ha. }
  split; [|split; [exact Hp'|]].
  { intros i arg Hi. destruct K as [Kl K]. destruct (K i Hi) as [_ <-]. apply Hmatch; [done..|lia]. }
  pose proof (print_coherent M' (object <$> σ') fuel p ltac:(by rewrite length_fmap) ltac:(specialize (Hd p Hp); lia)) as P.
  rewrite Hs in P. destruct (P σ' C' eq_refl) as (σ1 & E1 & C1 & O1).
  exists σ1. split; [done|]. split; [done|]. split; [done|]. split; [|split].
  - intros arg. rewrite Hmatch; [by rewrite Ha|done| |done]. by rewrite <- (length_fmap object σ1), O1, length_fmap.
  - destruct (P σ1 C1 O1) as (σ2 & E2 & _). by exists σ2.
  - intros stringify source arg. unfold makeMatchExpr. rewrite Hp'. cbn. by rewrite E1.
Qed.
End terms.
Arguments term : clear implicits.

(** ** Vector matchers, where [==] is equality *)
Section vectors.
Context {T : Type} (eqb : T → T → bool) (eqb_eq : ∀ x y, eqb x y = true ↔ x = y).

Lemma has_element_in v x : has_element eqb v x = true ↔ x ∈ v.
Proof using eqb_eq.
  induction v as [|y v IH]; cbn; [split; [done|intros H; inversion H]|].
  rewrite elem_of_cons, <- IH. destruct (eqb y x) eqn:E.
  - apply eqb_eq in E as ->. tauto.
  - split; [by right|]. intros [->|H]; [|done]. by rewrite (proj2 (eqb_eq y y) eq_refl) in E.
Qed.
Lemma has_all_subset v cs : has_all eqb v cs = true ↔ cs ⊆ v.
Proof using eqb_eq.
  induction cs as [|c cs IH]; cbn; [split; [intros _ x Hx; inversion Hx|done]|].
  destruct (has_element eqb v c) eqn:E.
  - apply has_element_in in E. rewrite IH. split; [|by intros H x Hx; apply H; right].
    intros H x [->|Hx]%elem_of_cons; [done|by apply H].
  - split; [done|]. intros H. by rewrite (proj2 (has_element_in v c) (H c (list_elem_of_here _ _))) in E.
Qed.
Lemma same_elements_eq a : ∀ b, length a = length b → same_elements eqb a b = true ↔ a = b.
Proof using eqb_eq.
  induction a as [|x a IH]; intros [|y b] Hl; cbn in *; try done. destruct (eqb x y) eqn:E; cbn.
  - apply eqb_eq in E as ->. rewrite IH by lia. split; [by intros ->|by intros [= ->]].
  - split; [done|]. intros [= -> _]. by rewrite (proj2 (eqb_eq y y) eq_refl) in E.
Qed.

Lemma occurrences_cons x l y : occurrences eqb (y :: l) x = ((if eqb x y then 1 else 0) + occurrences eqb l x)%nat.
Proof. unfold occurrences. cbn. by destruct (eqb x y). Qed.
Lemma occurrences_Permutation a b x : a ≡ₚ b → occurrences eqb a x = occurrences eqb b x.
Proof.
  induction 1; [done|rewrite !occurrences_cons; lia|rewrite !occurrences_cons; lia|congruence].
Qed.
Lemma occurrences_in l x : occurrences eqb l x ≠ 0%nat → x ∈ l.
Proof using eqb_eq.
  induction l as [|y l IH]; [done|]. rewrite occurrences_cons. destruct (eqb x y) eqn:E.
  - apply eqb_eq in E as ->. intros _. constructor.
  - cbn. intros H. right. by apply IH.
Qed.
Lemma is_permutation_ok a : ∀ b, length a = length b → is_permutation eqb a b = true ↔ a ≡ₚ b.
Proof using eqb_eq.
  intros b Hl. unfold is_permutation. rewrite forallb_forall. setoid_rewrite Nat.eqb_eq. split.
  2: { intros H x _. by apply occurrences_Permutation. }
  revert b Hl. induction a as [|x a IH]; intros [|z b'] Hl H; try done.
  remember (z :: b') as b eqn:Eb. clear z b' Eb.
  assert (x ∈ b) as Hin.
  { apply occurrences_in. rewrite <- H by (by left). rewrite occurrences_cons.
    rewrite (proj2 (eqb_eq x x) eq_refl). lia. }
  apply elem_of_Permutation in Hin as [b' Hb]. rewrite Hb. constructor. apply IH.
  - apply Permutation_length in Hb. cbn in *. lia.
  - intros y Hy. specialize (H y (or_intror Hy)). rewrite (occurrences_Permutation _ _ y Hb) in H.
    rewrite !occurrences_cons in H. lia.
Qed.

(** Property (functional): what the vector matchers decide: containing is being at least as long and
    having each of the elements, with no regard to how often; equality is equality; and unordered
    equality is being a permutation. *)
Theorem vector_matchers_decide (comparator v : list T) :
  (vector_contains eqb comparator v = true ↔ (length comparator ≤ length v)%nat ∧ comparator ⊆ v) ∧
  (vector_equals eqb comparator v = true ↔ v = comparator) ∧
  (unordered_equals eqb comparator v = true ↔ v ≡ₚ comparator).
Proof using eqb_eq.
  split; [|split].
  - unfold vector_contains. destruct (decide _) as [H|H]; [|rewrite has_all_subset; split; [split; [lia|done]|tauto]].
    split; [done|]. intros [? _]. lia.
  - unfold vector_equals. destruct (decide _) as [H|H]; [split; [done|by intros ->]|].
    rewrite same_elements_eq; [done|lia].
  - unfold unordered_equals. destruct (decide _) as [H|H].
    + split; [done|]. intros E%Permutation_length. congruence.
    + rewrite is_permutation_ok by lia. by split; intros ->.
Qed.
End vectors.

Definition expression_example : term (list nat) :=
  And (And (Basic (vector_contains Nat.eqb [1%nat]) (str "A")) (Not (Basic (vector_contains Nat.eqb [2%nat]) (str "B"))))
    (Or (Basic (vector_equals Nat.eqb []) (str "C")) (Basic (vector_equals Nat.eqb [1; 3]%nat) (str "D"))).
Example expression_reads M : whole (reads M expression_example) = str "( A and not B and ( C or D ) )".
Proof. reflexivity. Qed.
Example expression_holds M :
  holds M expression_example [1; 3]%nat = true ∧ holds M expression_example [1; 2]%nat = false.
Proof. done. Qed.

(** *** Where objects are shared

    A conjunction in a variable is changed by [&&]: [all && c] leaves [all] with all three operands. *)
Definition accepts_all : Matcher nat := Other (λ _, true) (str "any").
Definition below (n : nat) : Matcher nat := Other (λ x, Nat.ltb x n) (str "below").
Definition shared_conjunction : outcome (bool * bool * bool) :=
  '(a, σ) ← new_matcher accepts_all [];
  '(b, σ) ← new_matcher (below 10) σ;
  '(both, σ) ← op_and a b σ;
  before ← match_at 5 σ 7%nat both;
  '(c, σ) ← new_matcher (below 5) σ;
  '(three, σ) ← op_and both c σ;
  after ← match_at 5 σ 7%nat both;
  Done (before, after, bool_decide (three = both)).
Theorem conjunction_changes : shared_conjunction = Done (true, false, true).
Proof. reflexivity. Qed.

(** And what has been printed is not printed again: the text is then out of date. *)
Definition stale_text : outcome (list byte * list byte) :=
  '(a, σ) ← new_matcher accepts_all [];
  '(b, σ) ← new_matcher (below 10) σ;
  '(both, σ) ← op_and a b σ;
  '(before, σ) ← to_string_at 5 both σ;
  '(_, σ) ← op_and both a σ;
  '(after, _) ← to_string_at 5 both σ;
  Done (before, after).
Theorem conjunction_text_stays :
  stale_text = Done (str "( any and below )", str "( any and below )").
Proof. reflexivity. Qed.

(** A conjunction in a variable, printed already: [!all || all], and the conjunction of that with [all]. *)
Definition stored_conjunction : store nat :=
  [mk_MatcherBase accepts_all (str "any"); mk_MatcherBase (below 10) [];
   mk_MatcherBase (MatchAllOf [0; 1]%nat) (str "( any and below )")].
Definition stored_meanings (i : nat) : meaning nat :=
  match i with
  | 0%nat => mk_meaning (λ _, true) (str "any") 0
  | 1%nat => mk_meaning (λ x, Nat.ltb x 10) (str "below") 0
  | _ => mk_meaning (λ x, Nat.ltb x 10) (str "( any and below )") 1
  end.
Definition on_variables : term nat := And (Or (Not (Var 2)) (Var 2)) (Var 2).
Lemma stored_conjunction_coherent : coherent stored_conjunction stored_meanings.
Proof.
  intros [|[|[|i]]] m [= <-]; split; cbn; try (intros q Hq; by inversion Hq); try done;
    try (by left); try (by right).
  - intros q [->|[->|Hq]%elem_of_cons]%elem_of_cons; [cbn; lia|cbn; lia|inversion Hq].
  - intros arg. by rewrite andb_true_r.
Qed.
Lemma matchers_combine_witness : coherent stored_conjunction stored_meanings ∧
  unchanging stored_conjunction on_variables = true ∧
  whole (reads stored_meanings on_variables) =
    str "( ( not ( any and below ) or ( any and below ) ) and ( any and below ) )" ∧
  ∃ p σ' M', build on_variables stored_conjunction = Done (p, σ') ∧ coherent σ' M' ∧
    ∀ i, (i < 3)%nat → σ' !! i = stored_conjunction !! i.
Proof.
  pose proof (matchers_combine on_variables stored_conjunction stored_meanings stored_conjunction_coherent eq_refl) as H.
  split; [exact stored_conjunction_coherent|]. split; [reflexivity|]. split; [reflexivity|].
  destruct H as (p & σ' & M' & _ & E & C & K & _). exists p, σ', M'. split; [exact E|]. split; [exact C|].
  intros i Hi. exact (proj1 (K i Hi)).
Defined.

(** [all && all] puts the conjunction among its own operands: [match] never returns once the others accept. *)
Definition own_operand : outcome (store nat) :=
  '(a, σ) ← new_matcher accepts_all [];
  '(both, σ) ← op_and a a σ;
  '(_, σ) ← op_and both both σ;
  Done σ.
Lemma own_operand_loops σ : own_operand = Done σ → ∀ fuel arg, match_at fuel σ arg 1%nat = Undefined.
Proof.
  intros [= <-] fuel arg. induction fuel as [|fuel IH]; [done|].
  cbn [match_at]. cbn [lookup list_lookup or_undefined mbind outcome_bind object all_match].
  destruct fuel as [|fuel]; [done|]. cbn in IH |- *. by rewrite IH.
Qed.

(** ** Reconstructed expressions *)
Lemma formatReconstructedExpression_lines lhs op rhs : let out := formatReconstructedExpression lhs op rhs in
  (length lhs + length rhs < 40)%nat → x0a ∉ lhs ++ op ++ rhs → x0a ∉ out.
Proof.
  intros out Hl Hn. unfold out, formatReconstructedExpression. rewrite !elem_of_app in Hn.
  rewrite decide_True by tauto. rewrite !elem_of_app, !elem_of_cons. intros H.
  decompose [or] H; try tauto; try discriminate; by match goal with H : _ ∈ [] |- _ => inversion H end.
Qed.

Lemma vector_matchers_decide_witness :
  vector_contains Nat.eqb [1; 1]%nat [2; 1]%nat = true ∧ unordered_equals Nat.eqb [1; 1]%nat [2; 1]%nat = false ∧
  [2; 1]%nat ≡ₚ [1; 2]%nat.
Proof.
  pose proof (λ c v, vector_matchers_decide Nat.eqb Nat.eqb_eq c v) as H.
  split; [reflexivity|]. split; [reflexivity|]. apply (proj2 (proj2 (H _ _))). reflexivity.
Defined.
