(* ===== verification/CatchFloat.v ===== *)
(** * Catch: floating-point numbers, Approx and the matchers of numbers
      (catch_approx, catch_matchers_floating, catch_matchers_vector, catch_tostring)

    A [float] or a [double] is a [spec_float] of the Standard Library, with the arithmetic of IEEE 754
    rounded to the nearest; a NaN has neither sign nor payload.  A [double] is never kept with more than its bits. *)
From Stdlib Require Import SpecFloat.
From stdpp Require Import strings list.
From S2P Require Import Prelude CatchString CatchTest CatchToString CatchResult CatchMatchers.

(** ** Formats

    [prec] bits of significand, exponents below [emax]. *)
Inductive FloatingPointKind := Float | Double.
Definition prec (k : FloatingPointKind) : Z := match k with Float => 24 | Double => 53 end.
Definition emax (k : FloatingPointKind) : Z := match k with Float => 128 | Double => 1024 end.
Definition fmin (k : FloatingPointKind) : Z := emin (prec k) (emax k).
Definition valid (k : FloatingPointKind) (x : spec_float) : Prop := valid_binary (prec k) (emax k) x = true.

Definition nan : spec_float := S754_nan.
Definition infinity (s : bool) : spec_float := S754_infinity s.
Definition zero : spec_float := S754_zero false.
Definition isnan (x : spec_float) : bool := match x with S754_nan => true | _ => false end.
Definition negative (x : spec_float) : bool :=
  match x with S754_zero s | S754_infinity s | S754_finite s _ _ => s | S754_nan => false end.

(** [static_cast] to the format. *)
Definition cast (k : FloatingPointKind) (x : spec_float) : spec_float :=
  match x with S754_finite s m e => binary_round (prec k) (emax k) s m e | _ => x end.
Definition add (x y : spec_float) : spec_float := SFadd 53 1024 x y.
Definition mul (x y : spec_float) : spec_float := SFmul 53 1024 x y.

(** *** Representation

    The fields behind the sign: the biased exponent and the fraction. *)
Definition hidden_bit (k : FloatingPointKind) : Z := 2 ^ (prec k - 1).
Definition biased_limit (k : FloatingPointKind) : Z := 2 * emax k - 1.
Definition field (k : FloatingPointKind) (biased fraction : Z) : Z := biased * hidden_bit k + fraction.
Definition magnitude (k : FloatingPointKind) (x : spec_float) : Z :=
  match x with
  | S754_zero _ => field k 0 0
  | S754_infinity _ => field k (biased_limit k) 0
  | S754_nan => field k (biased_limit k) (hidden_bit k / 2)
  | S754_finite _ m e =>
      if decide (Zpos m < hidden_bit k) then field k 0 (Zpos m)
      else field k (e - fmin k + 1) (Zpos m - hidden_bit k)
  end.
Definition sign_bit (k : FloatingPointKind) : Z := 2 * emax k * hidden_bit k.
(** The [int32_t] or [int64_t] with the bytes of the number. *)
Definition convert (k : FloatingPointKind) (x : spec_float) : Z :=
  magnitude k x - (if negative x then sign_bit k else 0).

(** ** Steps between numbers *)
Definition of_magnitude (k : FloatingPointKind) (s : bool) (n : Z) : spec_float :=
  let biased := n / hidden_bit k in
  let fraction := n mod hidden_bit k in
  if decide (n = 0) then S754_zero s
  else if decide (biased_limit k ≤ biased) then S754_infinity s
  else if decide (biased = 0) then S754_finite s (Z.to_pos fraction) (fmin k)
  else S754_finite s (Z.to_pos (hidden_bit k + fraction)) (biased - 1 + fmin k).
(** How many numbers lie between zero and it, the way it lies. *)
Definition rank (k : FloatingPointKind) (x : spec_float) : Z :=
  if negative x then - magnitude k x else magnitude k x.
(** Zero is reached with the sign of where one comes from. *)
Definition of_rank (k : FloatingPointKind) (s : bool) (r : Z) : spec_float :=
  if decide (r = 0) then S754_zero s else of_magnitude k (bool_decide (r < 0)) (Z.abs r).

(** [std::nextafter] *)
Definition nextafter (k : FloatingPointKind) (x y : spec_float) : spec_float :=
  match SFcompare x y with
  | None => nan
  | Some Eq => y
  | Some Lt => of_rank k (negative x) (rank k x + 1)
  | Some Gt => of_rank k (negative x) (rank k x - 1)
  end.
Definition step (k : FloatingPointKind) (start direction : spec_float) (steps : Z) : spec_float :=
  Nat.iter (Z.to_nat steps) (λ start, nextafter k start direction) start.

(** *** ULPs *)
Definition int_k (k : FloatingPointKind) (z : Z) : Z := match k with Float => i32 z | Double => i64 z end.
Definition almostEqualUlps (k : FloatingPointKind) (lhs rhs : spec_float) (maxUlpDiff : Z) : bool :=
  if isnan lhs || isnan rhs then false
  else
    let lc := convert k lhs in
    let rc := convert k rhs in
    if decide (bool_decide (lc < 0) ≠ bool_decide (rc < 0)) then SFeqb lhs rhs
    else bool_decide (int_k k (Z.abs (int_k k (lc - rc))) ≤ maxUlpDiff).

(** ** As text

    [std::fixed] with a precision: the exact value, rounded to the nearest decimal fraction, ties to even. *)
Definition round_half_even (n d : Z) : Z :=
  let q := n / d in
  match Z.compare (2 * (n mod d)) d with
  | Lt => q
  | Gt => q + 1
  | Eq => if Z.even q then q else q + 1
  end.
Definition scaled (precision : nat) (m : positive) (e : Z) : Z :=
  let n := Zpos m * 10 ^ Z.of_nat precision in
  if decide (0 ≤ e) then n * 2 ^ e else round_half_even n (2 ^ (- e)).
(** At most 400 digits: [2 ^ 1024] has 309, and at most 17 follow the point. *)
Definition decimal_number (n : Z) : list byte := digits 400 10 n [].
Definition pad_left (n : nat) (s : list byte) : list byte := replicate (n - length s) x30 ++ s.
Definition fixed (precision : nat) (x : spec_float) : list byte :=
  let minus (s : bool) := if s then [x2d] else [] in
  let digits_of (n : Z) :=
    let p := 10 ^ Z.of_nat precision in
    decimal_number (n / p) ++
    (if decide (precision = 0%nat) then [] else [x2e] ++ pad_left precision (decimal_number (n mod p))) in
  match x with
  | S754_nan => str "nan"
  | S754_infinity s => minus s ++ str "inf"
  | S754_zero s => minus s ++ digits_of 0
  | S754_finite s m e => minus s ++ digits_of (scaled precision m e)
  end.
Definition convert_double (x : spec_float) : throwing (list byte) := fpToString (isnan x) (fixed 10 x).
Definition convert_float (x : spec_float) : throwing (list byte) :=
  d ← fpToString (isnan x) (fixed 5 x); mret (d ++ [x66]).

(** [operator<<] as it is by default: six significant digits, without zeros at the end, and with an exponent
    where that is below -4 or at least 6. *)
Fixpoint decimal_exponent (fuel : nat) (n d x : Z) : Z * (Z * Z) :=
  match fuel with
  | O => (x, (n, d))
  | S fuel =>
      if decide (10 * d ≤ n) then decimal_exponent fuel n (10 * d) (x + 1)
      else if decide (n < d) then decimal_exponent fuel (10 * n) d (x - 1)
      else (x, (n, d))
  end.
Definition strip_zeros (s : list byte) : list byte :=
  rev ((fix strip (s : list byte) := match s with
    | c :: s' => if decide (c = x30) then strip s' else s
    | [] => [] end) (rev s)).
Definition with_point (whole fraction : list byte) : list byte :=
  let fraction := strip_zeros fraction in whole ++ (if decide (fraction = []) then [] else [x2e] ++ fraction).
Definition exponent_text (x : Z) : list byte :=
  [x65; if decide (x < 0) then x2d else x2b] ++ pad_left 2 (decimal_number (Z.abs x)).
Definition general (x : spec_float) : list byte :=
  match x with
  | S754_finite s m e =>
      let '(p10, (n, d)) := decimal_exponent 400 (Zpos m * 2 ^ Z.max e 0) (2 ^ Z.max (- e) 0) 0 in
      let rounded := round_half_even (n * 100000) d in
      let '(p10, rounded) := if decide (rounded = 1000000) then (p10 + 1, 100000) else (p10, rounded) in
      let ds := decimal_number rounded in
      (if s then [x2d] else []) ++
      (if decide (-4 ≤ p10 < 6) then
         if decide (0 ≤ p10) then with_point (take (S (Z.to_nat p10)) ds) (drop (S (Z.to_nat p10)) ds)
         else with_point [x30] (replicate (Z.to_nat (- p10) - 1) x30 ++ ds)
       else with_point (take 1 ds) (drop 1 ds) ++ exponent_text p10)
  | S754_zero s => (if s then [x2d] else []) ++ [x30]
  | _ => fixed 0 x
  end.
