(* ===== verification/CatchFloatProps.v ===== *)
(** * Properties of floating-point numbers

    The representation orders the numbers: [rank] is a numbering of them in the order of [SFcompare].
    Rounding is monotone, and gives valid numbers. *)
From Stdlib Require Import SpecFloat.
From stdpp Require Import strings list.
From S2P Require Import Prelude CatchString CatchFloat.

(** ** Formats *)
Definition top (k : FloatingPointKind) : Z := biased_limit k * hidden_bit k.

Lemma format_bounds k : 2 ≤ prec k ∧ prec k < emax k ∧ fmin k = 3 - emax k - prec k.
Proof. by destruct k. Qed.
Lemma hidden_bit_pos k : 2 ≤ hidden_bit k ∧ hidden_bit k = 2 ^ (prec k - 1) ∧ 2 ^ prec k = 2 * hidden_bit k.
Proof. by destruct k. Qed.
Lemma sign_bit_top k : sign_bit k = top k + hidden_bit k.
Proof. by destruct k. Qed.

Lemma digits2_bounds m : 2 ^ (Zpos (digits2_pos m) - 1) ≤ Zpos m < 2 ^ Zpos (digits2_pos m).
Proof.
  induction m as [m IH|m IH|]; cbn [digits2_pos]; [| |done]; rewrite Pos2Z.inj_succ;
    replace (Z.succ (Zpos (digits2_pos m)) - 1) with (Z.succ (Zpos (digits2_pos m) - 1)) by lia;
    rewrite !Z.pow_succ_r by lia; lia.
Qed.
Lemma digits2_unique m d : 1 ≤ d → 2 ^ (d - 1) ≤ Zpos m < 2 ^ d → Zpos (digits2_pos m) = d.
Proof.
  intros Hd [H1 H2]. pose proof (digits2_bounds m) as [H3 H4].
  assert (2 ^ (d - 1) < 2 ^ Zpos (digits2_pos m)) as H5 by lia. apply Z.pow_lt_mono_r_iff in H5; [|lia|lia].
  assert (2 ^ (Zpos (digits2_pos m) - 1) < 2 ^ d) as H6 by lia. apply Z.pow_lt_mono_r_iff in H6; lia.
Qed.

(** ** Ranks *)
Section format.
Context (k : FloatingPointKind).

Lemma valid_finite s m e : valid k (S754_finite s m e) ↔
  fmin k ≤ e ≤ emax k - prec k ∧ Zpos m < 2 * hidden_bit k ∧ (fmin k < e → hidden_bit k ≤ Zpos m).
Proof.
  pose proof (format_bounds k) as (Hp & _ & Hm). destruct (hidden_bit_pos k) as (_ & H1 & H2).
  pose proof (digits2_bounds m) as [D1 D2]. rewrite <- H2, H1. fold (fmin k).
  unfold valid, valid_binary, bounded, canonical_mantissa, fexp. fold (fmin k).
  rewrite andb_true_iff, Z.eqb_eq, Z.leb_le. set (d := Zpos (digits2_pos m)) in *. split.
  - intros [He Hl]. split; [lia|]. assert (d ≤ prec k) as Hd by lia.
    pose proof (Z.pow_le_mono_r 2 d (prec k) ltac:(lia) Hd). split; [lia|]. intros Hlt.
    assert (d = prec k) as Ed by lia. rewrite Ed in D1. lia.
  - intros ((He1 & He2) & Hlt & Hn). split; [|lia].
    assert (d ≤ prec k) as Hd.
    { apply Z.le_ngt. intros H. pose proof (Z.pow_le_mono_r 2 (prec k) (d - 1) ltac:(lia) ltac:(lia)). lia. }
    destruct (Z.eq_dec e (fmin k)) as [->|Hne]; [lia|].
    assert (d = prec k); [|lia]. unfold d. apply digits2_unique; [lia|]. split; [apply Hn; lia|lia].
Qed.

Lemma magnitude_finite s m e : valid k (S754_finite s m e) →
  magnitude k (S754_finite s m e) = (e - fmin k) * hidden_bit k + Zpos m.
Proof.
  intros (He & Hm & Hn)%valid_finite. cbn [magnitude]. unfold field. destruct (decide _) as [H|H]; [|lia].
  assert (e = fmin k) as -> by lia. lia.
Qed.
Lemma magnitude_bounds x : valid k x → isnan x = false → 0 ≤ magnitude k x ≤ top k.
Proof.
  pose proof (format_bounds k) as (? & ? & Hm). destruct (hidden_bit_pos k) as (? & ? & ?). intros Hv Hn.
  destruct x as [s|s| |s m e]; try done; [cbn; unfold field, top, biased_limit; nia..|].
  rewrite magnitude_finite by done. apply valid_finite in Hv as (He & Hlt & _). unfold top, biased_limit. nia.
Qed.
Lemma magnitude_finite_bounds s m e : valid k (S754_finite s m e) → 0 < magnitude k (S754_finite s m e) < top k.
Proof.
  pose proof (format_bounds k) as (? & ? & Hm). destruct (hidden_bit_pos k) as (? & ? & ?). intros Hv.
  rewrite magnitude_finite by done. apply valid_finite in Hv as (He & Hlt & _). unfold top, biased_limit. nia.
Qed.
Lemma rank_bounds x : valid k x → isnan x = false → - top k ≤ rank k x ≤ top k.
Proof. intros Hv Hn. pose proof (magnitude_bounds x Hv Hn). unfold rank. destruct (negative x); lia. Qed.
Lemma top_pos : 0 < top k.
Proof. by destruct k. Qed.

Lemma magnitude_zero s : magnitude k (S754_zero s) = 0.
Proof. cbn. unfold field. lia. Qed.
Lemma magnitude_infinity s : magnitude k (S754_infinity s) = top k.
Proof. cbn. unfold field, top. lia. Qed.

Lemma magnitude_compare s1 m1 e1 s2 m2 e2 : valid k (S754_finite s1 m1 e1) → valid k (S754_finite s2 m2 e2) →
  Z.compare (magnitude k (S754_finite s1 m1 e1)) (magnitude k (S754_finite s2 m2 e2)) =
  match Z.compare e1 e2 with Eq => Pos.compare_cont Eq m1 m2 | c => c end.
Proof.
  intros V1 V2. rewrite !magnitude_finite by done. destruct (hidden_bit_pos k) as (? & _ & _).
  apply valid_finite in V1 as (H1 & L1 & N1). apply valid_finite in V2 as (H2 & L2 & N2).
  destruct (Z.compare_spec e1 e2) as [->|Hlt|Hgt].
  - rewrite Zcompare_plus_compat. reflexivity.
  - apply Z.compare_lt_iff. nia.
  - apply Z.compare_gt_iff. nia.
Qed.

Lemma compare_rank x y : valid k x → valid k y → isnan x = false → isnan y = false →
  SFcompare x y = Some (Z.compare (rank k x) (rank k y)).
Proof.
  intros Vx Vy Nx Ny. pose proof top_pos as Ht.
  assert (∀ s m e, valid k (S754_finite s m e) → 0 < magnitude k (S754_finite s m e) < top k) as Hf
    by (intros; by apply magnitude_finite_bounds).
  destruct x as [sx|sx| |sx mx ex], y as [sy|sy| |sy my ey]; try done; unfold rank; cbn [negative];
    rewrite ?magnitude_zero, ?magnitude_infinity.
  9: { pose proof (magnitude_compare _ _ _ _ _ _ Vx Vy) as Hc. pose proof (Hf _ _ _ Vx). pose proof (Hf _ _ _ Vy).
    cbn [SFcompare]. f_equal. destruct sx, sy.
    - rewrite Z.compare_opp, (Z.compare_antisym (magnitude k (S754_finite true mx ex))), Hc.
      by destruct (Z.compare ex ey).
    - symmetry. apply Z.compare_lt_iff. lia.
    - symmetry. apply Z.compare_gt_iff. lia.
    - by rewrite Hc; destruct (Z.compare ex ey). }
  all: try pose proof (Hf _ _ _ Vx); try pose proof (Hf _ _ _ Vy); cbn [SFcompare]; f_equal.
  all: repeat match goal with s : bool |- _ => destruct s end; symmetry;
    first [apply Z.compare_eq_iff; lia|apply Z.compare_lt_iff; lia|apply Z.compare_gt_iff; lia].
Qed.

Lemma leb_rank x y : valid k x → valid k y → isnan x = false → isnan y = false →
  SFleb x y = true ↔ rank k x ≤ rank k y.
Proof.
  intros. unfold SFleb. rewrite compare_rank by done. rewrite <- Z.leb_le. unfold Z.leb.
  by destruct (Z.compare _ _).
Qed.
Lemma ltb_rank x y : valid k x → valid k y → isnan x = false → isnan y = false →
  SFltb x y = true ↔ rank k x < rank k y.
Proof.
  intros. unfold SFltb. rewrite compare_rank by done. rewrite <- Z.ltb_lt. unfold Z.ltb.
  by destruct (Z.compare _ _).
Qed.
Lemma eqb_rank x y : valid k x → valid k y → isnan x = false → isnan y = false →
  SFeqb x y = true ↔ rank k x = rank k y.
Proof.
  intros. unfold SFeqb. rewrite compare_rank by done. rewrite <- Z.compare_eq_iff. by destruct (Z.compare _ _).
Qed.

(** ** Numbers of a rank *)
Lemma of_magnitude_ok s n : 0 ≤ n ≤ top k → valid k (of_magnitude k s n) ∧
  isnan (of_magnitude k s n) = false ∧ magnitude k (of_magnitude k s n) = n ∧ negative (of_magnitude k s n) = s.
Proof.
  intros Hn. pose proof (format_bounds k) as (? & ? & Hm). destruct (hidden_bit_pos k) as (Hh & ? & ?).
  pose proof (Z.div_mod n (hidden_bit k) ltac:(lia)) as Hdm.
  pose proof (Z.mod_pos_bound n (hidden_bit k) ltac:(lia)) as Hr.
  unfold of_magnitude. set (b := n / hidden_bit k) in *. set (f := n mod hidden_bit k) in *.
  destruct (decide (n = 0)) as [->|Hn0]; [done|].
  destruct (decide (biased_limit k ≤ b)) as [Hb|Hb].
  { split; [done|]. split; [done|]. split; [|done]. rewrite magnitude_infinity. unfold top in *. nia. }
  destruct (decide (b = 0)) as [Hz|Hz].
  - assert (valid k (S754_finite s (Z.to_pos f) (fmin k))) as V by (apply valid_finite; lia).
    split; [done|]. split; [done|]. split; [|done]. rewrite magnitude_finite by done. lia.
  - assert (0 ≤ b) by (apply Z.div_pos; lia). unfold biased_limit in *.
    assert (valid k (S754_finite s (Z.to_pos (hidden_bit k + f)) (b - 1 + fmin k))) as V by (apply valid_finite; lia).
    split; [done|]. split; [done|]. split; [|done]. rewrite magnitude_finite by done. lia.
Qed.
Lemma of_rank_ok s r : - top k ≤ r ≤ top k → valid k (of_rank k s r) ∧ isnan (of_rank k s r) = false ∧
  rank k (of_rank k s r) = r ∧ (r = 0 → negative (of_rank k s r) = s).
Proof.
  intros Hr. unfold of_rank. destruct (decide (r = 0)) as [->|H0].
  - split; [done|]. split; [done|]. split; [|done]. unfold rank. rewrite magnitude_zero. by destruct s.
  - destruct (of_magnitude_ok (bool_decide (r < 0)) (Z.abs r)) as (V & N & M & S); [lia|].
    split; [done|]. split; [done|]. split; [|lia]. unfold rank. rewrite S, M. case_bool_decide; lia.
Qed.

(** [nextafter] is the next number in that direction. *)
Lemma nextafter_rank x y : valid k x → valid k y → isnan x = false → isnan y = false →
  valid k (nextafter k x y) ∧ isnan (nextafter k x y) = false ∧
  rank k (nextafter k x y) = rank k x + Z.sgn (rank k y - rank k x).
Proof.
  intros Vx Vy Nx Ny. unfold nextafter. rewrite compare_rank by done.
  pose proof (rank_bounds x Vx Nx). pose proof (rank_bounds y Vy Ny).
  destruct (Z.compare_spec (rank k x) (rank k y)) as [E|Hlt|Hgt].
  - split; [done|]. split; [done|]. rewrite Z.sgn_null by lia. lia.
  - destruct (of_rank_ok (negative x) (rank k x + 1)) as (V & N & R & _); [lia|].
    split; [done|]. split; [done|]. rewrite R, Z.sgn_pos by lia. lia.
  - destruct (of_rank_ok (negative x) (rank k x - 1)) as (V & N & R & _); [lia|].
    split; [done|]. split; [done|]. rewrite R, Z.sgn_neg by lia. lia.
Qed.
Lemma nextafter_adjacent x y z : valid k x → valid k y → valid k z → isnan x = false → isnan y = false → isnan z = false →
  SFltb x y = true → SFltb x (nextafter k x y) = true ∧ (SFltb x z = true → SFleb (nextafter k x y) z = true).
Proof.
  intros Vx Vy Vz Nx Ny Nz Hlt. apply ltb_rank in Hlt; [|done..].
  destruct (nextafter_rank x y Vx Vy Nx Ny) as (V & N & R). rewrite Z.sgn_pos in R by lia.
  rewrite leb_rank, !ltb_rank by done. lia.
Qed.

(** [steps] steps towards an infinity, which is where they end. *)
Lemma step_rank x s n : valid k x → isnan x = false → 0 ≤ n →
  valid k (step k x (infinity s) n) ∧ isnan (step k x (infinity s) n) = false ∧
  rank k (step k x (infinity s) n) = (if s then Z.max (- top k) (rank k x - n) else Z.min (top k) (rank k x + n)).
Proof.
  intros Vx Nx Hn. destruct (Z_of_nat_complete n Hn) as [i ->]. clear Hn. unfold step. rewrite Nat2Z.id.
  assert (rank k (infinity s) = if s then - top k else top k) as Ri.
  { unfold rank. cbn [negative infinity]. by rewrite magnitude_infinity. }
  pose proof (rank_bounds x Vx Nx) as Hb.
  induction i as [|i IH]; [split; [done|]; split; [done|]; cbn [Nat.iter nat_rect]; destruct s; lia|].
  destruct IH as (V & N & R). rewrite Nat.iter_succ.
  destruct (nextafter_rank _ (infinity s) V ltac:(done) N ltac:(done)) as (V' & N' & R').
  split; [exact V'|]. split; [exact N'|]. rewrite R', Ri, R. destruct s; lia.
Qed.

(** ** ULPs *)
Lemma convert_sign x : valid k x → isnan x = false → convert k x < 0 ↔ negative x = true.
Proof.
  intros V N. pose proof (magnitude_bounds x V N). pose proof (sign_bit_top k).
  destruct (hidden_bit_pos k) as (? & _ & _). unfold convert. destruct (negative x); split; intros; try done; lia.
Qed.
Lemma int_k_id z : Z.abs z ≤ top k → int_k k z = z.
Proof.
  assert (top Float = 2139095040) as Ef by reflexivity. assert (top Double = 9218868437227405312) as Ed by reflexivity.
  intros Hz. destruct k; unfold int_k, i32, i64, u32_modulus, u64_modulus; rewrite Z.mod_small; lia.
Qed.
Lemma almostEqualUlps_ok x y n : valid k x → valid k y → isnan x = false → isnan y = false →
  almostEqualUlps k x y n = true ↔
  if decide (negative x = negative y) then Z.abs (rank k x - rank k y) ≤ n else rank k x = rank k y.
Proof.
  intros Vx Vy Nx Ny. unfold almostEqualUlps. rewrite Nx, Ny. cbn [orb].
  pose proof (convert_sign x Vx Nx) as Sx. pose proof (convert_sign y Vy Ny) as Sy.
  pose proof (magnitude_bounds x Vx Nx). pose proof (magnitude_bounds y Vy Ny).
  destruct (decide (negative x = negative y)) as [E|E].
  - rewrite decide_False.
    2: { rewrite E in Sx. intros Hne. apply Hne. apply bool_decide_ext. tauto. }
    assert (Z.abs (convert k x - convert k y) = Z.abs (rank k x - rank k y) ∧
      Z.abs (convert k x - convert k y) ≤ top k) as [Hd Ht].
    { unfold convert, rank. rewrite <- E. destruct (negative x); lia. }
    rewrite bool_decide_eq_true, (int_k_id (convert k x - convert k y)) by done. rewrite int_k_id; lia.
  - rewrite decide_True; [by apply eqb_rank|]. intros He. apply E.
    apply eq_true_iff_eq. rewrite <- Sx, <- Sy.
    by rewrite <- (bool_decide_eq_true (convert k x < 0)), <- (bool_decide_eq_true (convert k y < 0)), He.
Qed.

(** ** Rounding

    [M] shifted right by [n]: what was shifted out is kept in the bits of the record. *)
Definition shifted (M n : Z) (mrs : shr_record) : Prop :=
  0 ≤ shr_m mrs ∧ ∃ u, 0 ≤ u < 2 ^ n ∧ 2 * M = (2 * shr_m mrs + Z.b2z (shr_r mrs)) * 2 ^ n + u ∧
  (shr_s mrs = true ↔ 0 < u).

Lemma shr_1_shifted M n mrs : 0 ≤ n → shifted M n mrs → shifted M (n + 1) (shr_1 mrs).
Proof.
  intros Hn. destruct mrs as [m r s]. intros (Hm & u & Hu & E & Hs). cbn [shr_m shr_r shr_s] in *.
  assert (∃ m' b, m = 2 * m' + Z.b2z b ∧ 0 ≤ m' ∧ shr_1 (Build_shr_record m r s) = Build_shr_record m' b (r || s))
    as (m' & b & Em & Hm' & ->).
  { destruct m as [|[m|m|]|]; [exists 0, false|exists (Zpos m), true|exists (Zpos m), false|exists 0, true|lia];
      cbn; (split; [lia|]; split; [lia|done]). }
  split; [done|]. exists (Z.b2z r * 2 ^ n + u). cbn [shr_m shr_r shr_s]. rewrite Z.pow_add_r by lia.
  split; [destruct r; cbn [Z.b2z]; lia|]. split; [rewrite E, Em; ring|].
  rewrite orb_true_iff, Hs. destruct r; cbn [Z.b2z]; [split; [intros _|by left]; nia|].
  split; [intros [?|?]; [done|lia]|right; lia].
Qed.
Lemma shr_shifted M n p mrs : 0 ≤ n → shifted M n mrs → shifted M (n + Zpos p) (SpecFloat.iter_pos shr_1 p mrs).
Proof.
  revert n mrs. induction p as [p IH|p IH|]; intros n mrs Hn H; cbn [SpecFloat.iter_pos].
  - replace (n + Zpos p~1) with (n + 1 + Zpos p + Zpos p) by lia. apply IH; [lia|]. apply IH; [lia|].
    by apply shr_1_shifted.
  - replace (n + Zpos p~0) with (n + Zpos p + Zpos p) by lia. apply IH; [lia|]. by apply IH.
  - by apply shr_1_shifted.
Qed.
Lemma shr_exact M e n : 0 ≤ M → 0 ≤ n →
  ∃ mrs, shr (shr_record_of_loc M loc_Exact) e n = (mrs, e + n) ∧ shifted M n mrs.
Proof.
  intros HM Hn. assert (shifted M 0 (Build_shr_record M false false)) as H0.
  { split; [done|]. exists 0. cbn. lia. }
  destruct n as [|p|p]; [exists (Build_shr_record M false false); cbn; rewrite Z.add_0_r; done| |lia].
  exists (SpecFloat.iter_pos shr_1 p (Build_shr_record M false false)). split; [done|].
  by apply (shr_shifted M 0 p _ ltac:(lia)).
Qed.

(** To the nearest: between any two integers that [M / 2 ^ n] is between. *)
Lemma round_shifted M n mrs : 0 ≤ n → shifted M n mrs →
  let q := round_nearest_even (shr_m mrs) (loc_of_shr_record mrs) in
  0 ≤ q ∧ (∀ c, c * 2 ^ n ≤ M → c ≤ q) ∧ (∀ c, M ≤ c * 2 ^ n → q ≤ c).
Proof.
  intros Hn (Hm & u & Hu & E & Hs) q.
  assert (shr_m mrs ≤ q ≤ shr_m mrs + 1 ∧ (2 * M = 2 * shr_m mrs * 2 ^ n → q = shr_m mrs)) as [Hq Hex].
  { unfold q. destruct mrs as [m r s]. cbn [shr_m shr_r shr_s] in *. destruct r, s; cbn -[Z.mul Z.even]; cbn [Z.b2z] in E.
    - split; [lia|]. intros; lia.
    - split; [destruct (Z.even m); lia|]. intros. nia.
    - split; [lia|]. done.
    - split; [lia|done]. }
  assert (0 < 2 ^ n) as Hp by (apply Z.pow_pos_nonneg; lia).
  assert (shr_m mrs * 2 ^ n ≤ M < (shr_m mrs + 1) * 2 ^ n) as HM by (destruct (shr_r mrs); cbn [Z.b2z] in E; nia).
  split; [lia|]. split; intros c Hc.
  - assert (c < shr_m mrs + 1); [|lia]. apply (Z.mul_lt_mono_pos_r (2 ^ n)); lia.
  - destruct (decide (2 * M = 2 * shr_m mrs * 2 ^ n)) as [Hx|Hx].
    + rewrite Hex by done. apply (Z.mul_le_mono_pos_r _ _ (2 ^ n)); lia.
    + assert (shr_m mrs < c); [|lia]. apply (Z.mul_lt_mono_pos_r (2 ^ n)); lia.
Qed.

Lemma shr_none m e n : n ≤ 0 → shr (shr_record_of_loc m loc_Exact) e n = (Build_shr_record m false false, e).
Proof. by destruct n; [|lia|]. Qed.

(** The second shift of the rounding: only a carry out of the significand needs it. *)
Lemma round_carry s q E : 0 ≤ q ≤ 2 * hidden_bit k → fmin k ≤ E → (fmin k < E → hidden_bit k ≤ q) →
  let x := let '(mrs, e) := shr_fexp (prec k) (emax k) q E loc_Exact in
    match shr_m mrs with
    | Z0 => S754_zero s
    | Zpos m => if e <=? emax k - prec k then S754_finite s m e else S754_infinity s
    | Zneg _ => S754_nan
    end in
  valid k x ∧ isnan x = false ∧ negative x = s ∧
  magnitude k x = Z.min (top k) ((E - fmin k) * hidden_bit k + q).
Proof.
  pose proof (format_bounds k) as (Hp & Hpe & Hm). destruct (hidden_bit_pos k) as (Hh & Hh1 & Hh2).
  pose proof top_pos as Ht. intros Hq HE Hn. unfold shr_fexp, fexp. fold (fmin k).
  assert (∀ m e, fmin k ≤ e → Zpos m < 2 * hidden_bit k → (fmin k < e → hidden_bit k ≤ Zpos m) →
    let x := if e <=? emax k - prec k then S754_finite s m e else S754_infinity s in
    valid k x ∧ isnan x = false ∧ negative x = s ∧
    magnitude k x = Z.min (top k) ((e - fmin k) * hidden_bit k + Zpos m)) as Hfin.
  { intros m e He Hlt Hge. destruct (Z.leb_spec e (emax k - prec k)) as [Hle|Hgt]; cbv zeta.
    - assert (valid k (S754_finite s m e)) as V by (apply valid_finite; lia).
      pose proof (magnitude_finite_bounds _ _ _ V) as Hb. rewrite magnitude_finite in * by done.
      split; [done|]. split; [done|]. split; [done|]. lia.
    - split; [done|]. split; [done|]. split; [done|]. rewrite magnitude_infinity. unfold top, biased_limit in *. nia. }
  destruct q as [|q|q]; [| |lia].
  - rewrite shr_none by (cbn [Zdigits2]; lia). cbn [shr_m]. split; [done|]. split; [done|]. split; [done|].
    rewrite magnitude_zero. assert (E = fmin k) as -> by lia. lia.
  - cbn [Zdigits2]. pose proof (digits2_bounds q) as [D1 D2]. set (d := Zpos (digits2_pos q)) in *.
    destruct (decide (Zpos q = 2 * hidden_bit k)) as [Eq|Hlt].
    + assert (d = prec k + 1) as ->.
      { unfold d. apply digits2_unique; [lia|]. rewrite Eq, <- Hh2, Z.pow_add_r by lia.
        replace (prec k + 1 - 1) with (prec k) by lia. lia. }
      replace (Z.max (prec k + 1 + E - prec k) (fmin k) - E) with 1 by lia.
      destruct q as [q|q|]; [lia| |lia]. cbn [shr shr_record_of_loc SpecFloat.iter_pos shr_1 shr_m].
      destruct (Hfin q (E + 1)) as (V & N & S & M); [lia..|]. split; [done|]. split; [done|]. split; [done|].
      rewrite M. f_equal. lia.
    + assert (d ≤ prec k) as Hd.
      { apply Z.le_ngt. intros H. pose proof (Z.pow_le_mono_r 2 (prec k) (d - 1) ltac:(lia) ltac:(lia)). lia. }
      rewrite shr_none; [apply Hfin; lia|].
      destruct (decide (fmin k < E)) as [HE'|HE']; [|lia]. assert (d = prec k); [|lia].
      unfold d. apply digits2_unique; [lia|]. rewrite Hh2, <- Hh1. specialize (Hn HE'). lia.
Qed.

Lemma round_aux_ok s M e : let E := fexp (prec k) (emax k) (Zpos (digits2_pos M) + e) in
  e ≤ E → let x := binary_round_aux (prec k) (emax k) s (Zpos M) e loc_Exact in
  valid k x ∧ isnan x = false ∧ negative x = s ∧ fmin k ≤ E ∧
  ∃ q, magnitude k x = Z.min (top k) ((E - fmin k) * hidden_bit k + q) ∧
    q ≤ 2 * hidden_bit k ∧ (fmin k < E → hidden_bit k ≤ q) ∧
    (∀ c, c * 2 ^ (E - e) ≤ Zpos M → c ≤ q) ∧ (∀ c, Zpos M ≤ c * 2 ^ (E - e) → q ≤ c).
Proof.
  pose proof (format_bounds k) as (Hp & Hpe & Hm). destruct (hidden_bit_pos k) as (Hh & Hh1 & Hh2).
  intros E He x. pose proof (digits2_bounds M) as [D1 D2]. set (d := Zpos (digits2_pos M)) in *.
  assert (E = Z.max (d + e - prec k) (fmin k)) as HE by done.
  destruct (shr_exact (Zpos M) e (E - e)) as (mrs & Eshr & Hs); [lia..|].
  pose proof (round_shifted (Zpos M) (E - e) mrs ltac:(lia) Hs) as (Hq0 & Hq1 & Hq2).
  set (q := round_nearest_even (shr_m mrs) (loc_of_shr_record mrs)) in *.
  assert (q ≤ 2 * hidden_bit k) as Hq.
  { apply Hq2. rewrite <- Hh2, <- Z.pow_add_r by lia. pose proof (Z.pow_le_mono_r 2 d (prec k + (E - e))). lia. }
  assert (fmin k < E → hidden_bit k ≤ q) as Hn.
  { intros Hlt. apply Hq1. rewrite Hh1, <- Z.pow_add_r by lia.
    replace (prec k - 1 + (E - e)) with (d - 1) by lia. lia. }
  destruct (round_carry s q E) as (V & N & S & Mg); [lia..|].
  assert (x = let '(mrs, e) := shr_fexp (prec k) (emax k) q E loc_Exact in
    match shr_m mrs with
    | Z0 => S754_zero s
    | Zpos m => if e <=? emax k - prec k then S754_finite s m e else S754_infinity s
    | Zneg _ => S754_nan
    end) as Ex.
  { unfold x, binary_round_aux. unfold shr_fexp at 1. cbn [Zdigits2]. fold d E. rewrite Eshr.
    replace (e + (E - e)) with E by lia. done. }
  rewrite Ex. split; [done|]. split; [done|]. split; [done|]. split; [lia|]. exists q. done.
Qed.

(** A number that is not above what is rounded is not above the result, and likewise below. *)
Lemma round_aux_monotone s M e s' m e' b : e ≤ fexp (prec k) (emax k) (Zpos (digits2_pos M) + e) →
  valid k (S754_finite s' m e') → b ≤ e → b ≤ e' →
  let x := binary_round_aux (prec k) (emax k) s (Zpos M) e loc_Exact in
  (Zpos m * 2 ^ (e' - b) ≤ Zpos M * 2 ^ (e - b) → magnitude k (S754_finite s' m e') ≤ magnitude k x) ∧
  (Zpos M * 2 ^ (e - b) ≤ Zpos m * 2 ^ (e' - b) → magnitude k x ≤ magnitude k (S754_finite s' m e')).
Proof.
  pose proof (format_bounds k) as (Hp & Hpe & Hm). destruct (hidden_bit_pos k) as (Hh & Hh1 & Hh2).
  intros HE V Hb Hb' x. destruct (round_aux_ok s M e HE) as (_ & _ & _ & HEm & q & Mg & Hq & Hn & Hlo & Hhi).
  fold x in Mg. rewrite Mg. pose proof (magnitude_finite_bounds _ _ _ V) as Hf. rewrite magnitude_finite in * by done.
  apply valid_finite in V as (He' & Hlt & Hge). pose proof (digits2_bounds M) as [D1 D2].
  set (d := Zpos (digits2_pos M)) in *. set (E := fexp (prec k) (emax k) (d + e)) in *.
  assert (E = Z.max (d + e - prec k) (fmin k)) as EE by done.
  assert (∀ i, 0 ≤ i → 0 < 2 ^ i) as P by (intros; by apply Z.pow_pos_nonneg).
  assert (Zpos m * 2 ^ (e' - b) < 2 ^ (prec k + e' - b)) as Um.
  { replace (prec k + e' - b) with (prec k + (e' - b)) by lia. rewrite Z.pow_add_r, Hh2 by lia.
    apply Z.mul_lt_mono_pos_r; [apply P|]; lia. }
  assert (Zpos M * 2 ^ (e - b) < 2 ^ (d + e - b)) as UM.
  { replace (d + e - b) with (d + (e - b)) by lia. rewrite Z.pow_add_r by lia. apply Z.mul_lt_mono_pos_r; [apply P|]; lia. }
  assert (fmin k < e' → 2 ^ (prec k - 1 + e' - b) ≤ Zpos m * 2 ^ (e' - b)) as Lm.
  { intros H%Hge. replace (prec k - 1 + e' - b) with (prec k - 1 + (e' - b)) by lia.
    rewrite Z.pow_add_r, <- Hh1 by lia. apply Z.mul_le_mono_nonneg_r; [|done]. pose proof (P (e' - b)). lia. }
  assert (2 ^ (d - 1 + e - b) ≤ Zpos M * 2 ^ (e - b)) as LM.
  { replace (d - 1 + e - b) with (d - 1 + (e - b)) by lia. rewrite Z.pow_add_r by lia.
    apply Z.mul_le_mono_nonneg_r; [|done]. pose proof (P (e - b)). lia. }
  assert (e' = E → Zpos m * 2 ^ (e' - b) = Zpos m * 2 ^ (E - e) * 2 ^ (e - b)) as Esame.
  { intros ->. rewrite <- Z.mul_assoc, <- Z.pow_add_r by lia. do 2 f_equal. lia. }
  destruct (Z.lt_trichotomy e' E) as [Hl|[Heq|Hg]]; split; intros Hc.
  - pose proof (Z.mul_le_mono_nonneg_r (e' - fmin k + 1) (E - fmin k) (hidden_bit k) ltac:(lia) ltac:(lia)). lia.
  - pose proof (Z.pow_le_mono_r 2 (prec k + e' - b) (d - 1 + e - b) ltac:(lia) ltac:(lia)). lia.
  - rewrite Esame in Hc by done. apply Z.mul_le_mono_pos_r in Hc; [|apply P; lia]. apply Hlo in Hc. rewrite Heq in *. lia.
  - rewrite Esame in Hc by done. apply Z.mul_le_mono_pos_r in Hc; [|apply P; lia]. apply Hhi in Hc. rewrite Heq in *. lia.
  - specialize (Lm ltac:(lia)).
    pose proof (Z.pow_le_mono_r 2 (d + e - b) (prec k - 1 + e' - b) ltac:(lia) ltac:(lia)). lia.
  - pose proof (Z.mul_le_mono_nonneg_r (E - fmin k + 1) (e' - fmin k) (hidden_bit k) ltac:(lia) ltac:(lia)). lia.
Qed.

(** *** From any significand and exponent *)
Lemma iter_double m n : Zpos (Pos.iter xO m n) = Zpos m * 2 ^ Zpos n ∧
  Zpos (digits2_pos (Pos.iter xO m n)) = Zpos (digits2_pos m) + Zpos n.
Proof.
  induction n as [|n IH] using Pos.peano_ind; [cbn; split; lia|]. rewrite Pos.iter_succ. cbn [digits2_pos].
  destruct IH as [IH1 IH2]. rewrite Pos2Z.inj_succ, Pos2Z.inj_succ, IH2. split; [|lia].
  rewrite Z.pow_succ_r by lia. rewrite (Pos2Z.inj_xO (Pos.iter xO m n)), IH1. ring.
Qed.
Lemma binary_round_aux_of s M e : let E := fexp (prec k) (emax k) (Zpos (digits2_pos M) + e) in
  ∃ M' e', binary_round (prec k) (emax k) s M e = binary_round_aux (prec k) (emax k) s (Zpos M') e' loc_Exact ∧
    e' ≤ e ∧ e' ≤ E ∧ Z.min e E ≤ e' ∧ Zpos M' = Zpos M * 2 ^ (e - e') ∧
    Zpos (digits2_pos M') + e' = Zpos (digits2_pos M) + e.
Proof.
  intros E. unfold binary_round, shl_align. fold E. destruct (E - e) as [|n|n] eqn:En.
  - exists M, e. rewrite Z.sub_diag. cbn. split; [done|]. lia.
  - exists M, e. rewrite Z.sub_diag. cbn. split; [done|]. lia.
  - exists (Pos.iter xO M n), E. destruct (iter_double M n) as [H1 H2]. split; [done|].
    rewrite H1, H2. replace (e - E) with (Zpos n) by lia. lia.
Qed.

Lemma binary_round_valid s M e : let x := binary_round (prec k) (emax k) s M e in
  valid k x ∧ isnan x = false ∧ negative x = s.
Proof.
  destruct (binary_round_aux_of s M e) as (M' & e' & -> & _ & H2 & _ & _ & H4).
  destruct (round_aux_ok s M' e') as (V & N & S & _); [by rewrite H4|done].
Qed.
Lemma binary_round_monotone s M e s' m e' b : valid k (S754_finite s' m e') → b ≤ e → b ≤ e' →
  let x := binary_round (prec k) (emax k) s M e in
  (Zpos m * 2 ^ (e' - b) ≤ Zpos M * 2 ^ (e - b) → magnitude k (S754_finite s' m e') ≤ magnitude k x) ∧
  (Zpos M * 2 ^ (e - b) ≤ Zpos m * 2 ^ (e' - b) → magnitude k x ≤ magnitude k (S754_finite s' m e')).
Proof.
  intros V Hb Hb'. destruct (binary_round_aux_of s M e) as (M' & e2 & -> & H1 & H2 & _ & H3 & H4).
  destruct (round_aux_monotone s M' e2 s' m e' (Z.min b e2)) as [A B]; [by rewrite H4|done|lia|lia|].
  assert (0 < 2 ^ (b - Z.min b e2)) as P by (apply Z.pow_pos_nonneg; lia).
  assert (Zpos m * 2 ^ (e' - Z.min b e2) = Zpos m * 2 ^ (e' - b) * 2 ^ (b - Z.min b e2)) as E1.
  { rewrite <- Z.mul_assoc, <- Z.pow_add_r by lia. do 2 f_equal. lia. }
  assert (Zpos M' * 2 ^ (e2 - Z.min b e2) = Zpos M * 2 ^ (e - b) * 2 ^ (b - Z.min b e2)) as E2.
  { rewrite H3, <- !Z.mul_assoc, <- !Z.pow_add_r by lia. do 2 f_equal. lia. }
  rewrite E1, E2 in A, B. split; intros Hc; [apply A|apply B]; by apply Z.mul_le_mono_nonneg_r; [lia|].
Qed.
Lemma cast_valid x : valid k (cast k x) ∧ isnan (cast k x) = isnan x ∧ negative (cast k x) = negative x.
Proof. destruct x as [s|s| |s m e]; try done. apply binary_round_valid. Qed.

(** *** Sums

    The value of a finite number, in units of the least number there is. *)
Definition units (x : spec_float) : Z :=
  match x with S754_finite s m e => (if s then -1 else 1) * (Zpos m * 2 ^ (e - fmin k)) | _ => 0 end.
Definition finite (x : spec_float) : bool := match x with S754_zero _ | S754_finite _ _ _ => true | _ => false end.

Lemma normalize_ok M e : fmin k ≤ e → let x := binary_normalize (prec k) (emax k) M e false in
  valid k x ∧ isnan x = false ∧
  ∀ y, valid k y → finite y = true →
    (units y ≤ M * 2 ^ (e - fmin k) → rank k y ≤ rank k x) ∧ (M * 2 ^ (e - fmin k) ≤ units y → rank k x ≤ rank k y).
Proof.
  intros He x. assert (∀ i, 0 ≤ i → 0 < 2 ^ i) as P by (intros; by apply Z.pow_pos_nonneg).
  destruct M as [|M|M]; cbn [binary_normalize] in x.
  - split; [done|]. split; [done|]. intros y Vy Fy. unfold x, rank at 2 3. cbn [negative]. rewrite magnitude_zero.
    destruct y as [s|s| |s m e']; try done; [unfold rank; cbn [negative]; rewrite magnitude_zero; destruct s; lia|].
    pose proof (magnitude_finite_bounds _ _ _ Vy). apply valid_finite in Vy as ([He' _] & _ & _).
    unfold rank. cbn [negative units]. pose proof (P (e' - fmin k) ltac:(lia)). destruct s; nia.
  - destruct (binary_round_valid false M e) as (V & N & S). fold x in V, N, S. split; [done|]. split; [done|].
    pose proof (magnitude_bounds x V N). pose proof (P (e - fmin k) ltac:(lia)).
    intros y Vy Fy. unfold rank at 2 3. rewrite S. destruct y as [s|s| |s m e']; try done.
    { unfold rank; cbn [negative units]; rewrite magnitude_zero; destruct s; nia. }
    pose proof (magnitude_finite_bounds _ _ _ Vy).
    assert (fmin k ≤ e') as He' by (by apply valid_finite in Vy as ([He' _] & _ & _)).
    destruct (binary_round_monotone false M e s m e' (fmin k) Vy He He') as [A B]. fold x in A, B.
    pose proof (P (e' - fmin k) ltac:(lia)). unfold rank. cbn [negative units]. destruct s; nia.
  - destruct (binary_round_valid true M e) as (V & N & S). fold x in V, N, S. split; [done|]. split; [done|].
    pose proof (magnitude_bounds x V N). pose proof (P (e - fmin k) ltac:(lia)).
    intros y Vy Fy. unfold rank at 2 3. rewrite S. destruct y as [s|s| |s m e']; try done.
    { unfold rank; cbn [negative units]; rewrite magnitude_zero; destruct s; nia. }
    pose proof (magnitude_finite_bounds _ _ _ Vy).
    assert (fmin k ≤ e') as He' by (by apply valid_finite in Vy as ([He' _] & _ & _)).
    destruct (binary_round_monotone true M e s m e' (fmin k) Vy He He') as [A B]. fold x in A, B.
    pose proof (P (e' - fmin k) ltac:(lia)). unfold rank. cbn [negative units]. destruct s; nia.
Qed.

(** The order of the numbers is that of their values. *)
Lemma units_rank x y : valid k x → valid k y → finite x = true → finite y = true →
  units x ≤ units y → rank k x ≤ rank k y.
Proof.
  intros Vx Vy Fx Fy H. destruct (normalize_ok (units y) (fmin k) ltac:(lia)) as (_ & _ & N).
  rewrite Z.sub_diag, Z.mul_1_r in N. pose proof (proj1 (N x Vx Fx) H). pose proof (proj2 (N y Vy Fy)). lia.
Qed.
Lemma finite_not_nan x : finite x = true → isnan x = false.
Proof. by destruct x. Qed.

Lemma shl_align_fst m e e' : e' ≤ e → Zpos (shl_align m e e').1 = Zpos m * 2 ^ (e - e').
Proof.
  intros He. unfold shl_align. destruct (e' - e) as [|n|n] eqn:En; [|lia|].
  - replace (e - e') with 0 by lia. cbn. lia.
  - replace (e - e') with (Zpos n) by lia. cbn [fst]. apply iter_double.
Qed.

Lemma add_ok x y : valid k x → valid k y → finite x = true → finite y = true →
  let z := SFadd (prec k) (emax k) x y in
  valid k z ∧ isnan z = false ∧
  ∀ w, valid k w → finite w = true →
    (units w ≤ units x + units y → rank k w ≤ rank k z) ∧ (units x + units y ≤ units w → rank k z ≤ rank k w).
Proof.
  intros Vx Vy Fx Fy z.
  assert (∀ v, valid k v → finite v = true → units v = units x + units y → z = v →
    valid k z ∧ isnan z = false ∧ ∀ w, valid k w → finite w = true →
    (units w ≤ units x + units y → rank k w ≤ rank k z) ∧ (units x + units y ≤ units w → rank k z ≤ rank k w)) as Hsame.
  { intros v Vv Fv <- ->. split; [done|]. split; [by apply finite_not_nan|].
    intros w Vw Fw. split; intros Hw; by apply units_rank. }
  destruct x as [sx|sx| |sx mx ex], y as [sy|sy| |sy my ey]; try done.
  - destruct sx, sy; by apply (Hsame z).
  - by apply (Hsame (S754_finite sy my ey)).
  - apply (Hsame (S754_finite sx mx ex)); [done|done|cbn; lia|done].
  - set (ez := Z.min ex ey).
    assert (fmin k ≤ ez) as Hez.
    { apply valid_finite in Vx as ([? _] & _ & _). apply valid_finite in Vy as ([? _] & _ & _). lia. }
    assert (∀ s m e, ez ≤ e → cond_Zopp s (Zpos (shl_align m e ez).1) * 2 ^ (ez - fmin k) = units (S754_finite s m e)) as Hu.
    { intros s m e He. rewrite shl_align_fst by done. cbn [units].
      replace (e - fmin k) with (e - ez + (ez - fmin k)) by lia. rewrite Z.pow_add_r by lia. destruct s; cbn [cond_Zopp]; ring. }
    destruct (normalize_ok (cond_Zopp sx (Zpos (shl_align mx ex ez).1) + cond_Zopp sy (Zpos (shl_align my ey ez).1)) ez Hez)
      as (V & N & H).
    rewrite Z.mul_add_distr_r, !Hu in H by lia. exact (conj V (conj N H)).
Qed.
End format.
