(* ===== verification/CatchApprox.v ===== *)
(** * Catch: Approx and the matchers of numbers (catch_approx, catch_matchers_floating, catch_matchers_vector)

    Over the numbers of [CatchFloat]; what is compared has been converted to [double]. *)
From Stdlib Require Import SpecFloat.
From stdpp Require Import strings list.
From S2P Require Import Prelude CatchString CatchToString CatchMatchers CatchFloat.
From S2P Require Import CatchFloatProps.

(** ** Approx *)
Definition float_epsilon : spec_float := cast Float (S754_finite false 1 (-23)).
Definition default_epsilon : spec_float :=
  cast Double (SFmul (prec Float) (emax Float) float_epsilon (cast Float (S754_finite false 100 0))).
Definition one : spec_float := cast Double (S754_finite false 1 0).

Record Approx := mk_Approx {
  m_epsilon : spec_float; m_margin : spec_float; m_scale : spec_float; m_value : spec_float
}.
Definition new_Approx (value : spec_float) : Approx := mk_Approx default_epsilon zero zero value.
Definition custom : Approx := new_Approx zero.
Definition approx_opp (a : Approx) : Approx := mk_Approx (m_epsilon a) (m_margin a) (m_scale a) (SFopp (m_value a)).
Definition approx_of (a : Approx) (value : spec_float) : Approx :=
  mk_Approx (m_epsilon a) (m_margin a) (m_scale a) value.

Definition marginComparison (lhs rhs margin : spec_float) : bool :=
  SFleb rhs (add lhs margin) && SFleb lhs (add rhs margin).
Definition equalityComparisonImpl (a : Approx) (other : spec_float) : bool :=
  marginComparison (m_value a) other (m_margin a)
  || marginComparison (m_value a) other (mul (m_epsilon a) (add (m_scale a) (SFabs (m_value a)))).

Definition setMargin (newMargin : spec_float) (a : Approx) : throwing Approx :=
  if SFleb zero newMargin then inr (mk_Approx (m_epsilon a) newMargin (m_scale a) (m_value a))
  else inl (Domain_error (str "Invalid Approx::margin: " ++ general newMargin ++ str "." ++
                          str " Approx::Margin has to be non-negative.")).
Definition setEpsilon (newEpsilon : spec_float) (a : Approx) : throwing Approx :=
  if SFleb zero newEpsilon && SFleb newEpsilon one
  then inr (mk_Approx newEpsilon (m_margin a) (m_scale a) (m_value a))
  else inl (Domain_error (str "Invalid Approx::epsilon: " ++ general newEpsilon ++ str "." ++
                          str " Approx::epsilon has to be in [0, 1]")).
Definition set_scale (newScale : spec_float) (a : Approx) : Approx :=
  mk_Approx (m_epsilon a) (m_margin a) newScale (m_value a).

(** The comparisons, with the number on either side. *)
Definition approx_eq (lhs : spec_float) (rhs : Approx) : bool := equalityComparisonImpl rhs lhs.
Definition approx_ne (lhs : spec_float) (rhs : Approx) : bool := negb (approx_eq lhs rhs).
Definition approx_le (lhs : spec_float) (rhs : Approx) : bool := SFltb lhs (m_value rhs) || approx_eq lhs rhs.
Definition approx_ge (lhs : spec_float) (rhs : Approx) : bool := SFltb (m_value rhs) lhs || approx_eq lhs rhs.
Definition le_approx (lhs : Approx) (rhs : spec_float) : bool := SFltb (m_value lhs) rhs || approx_eq rhs lhs.
Definition ge_approx (lhs : Approx) (rhs : spec_float) : bool := SFltb rhs (m_value lhs) || approx_eq rhs lhs.

Definition toString (a : Approx) : throwing (list byte) :=
  d ← convert_double (m_value a); mret (str "Approx( " ++ d ++ str " )").

(** ** Matchers *)
Record WithinAbsMatcher := mk_WithinAbsMatcher { abs_target : spec_float; abs_margin : spec_float }.
Definition WithinAbs (target margin : spec_float) : throwing WithinAbsMatcher :=
  if SFleb zero margin then inr (mk_WithinAbsMatcher target margin)
  else inl (Domain_error (str "Invalid margin: " ++ general margin ++ str "." ++
                          str " Margin has to be non-negative.")).
Definition within_abs (w : WithinAbsMatcher) (matchee : spec_float) : bool :=
  SFleb (abs_target w) (add matchee (abs_margin w)) && SFleb matchee (add (abs_target w) (abs_margin w)).
Definition describe_abs (w : WithinAbsMatcher) : throwing (list byte) :=
  margin ← convert_double (abs_margin w);
  target ← convert_double (abs_target w);
  mret (str "is within " ++ margin ++ str " of " ++ target).

Record WithinUlpsMatcher := mk_WithinUlpsMatcher {
  m_target : spec_float; m_ulps : Z; m_type : FloatingPointKind
}.
(** Of a [double], and of a [float] that is converted to one. *)
Definition WithinULP (k : FloatingPointKind) (target : spec_float) (maxUlpDiff : Z) : throwing WithinUlpsMatcher :=
  if decide (0 ≤ maxUlpDiff) then inr (mk_WithinUlpsMatcher (cast Double target) maxUlpDiff k)
  else inl (Domain_error (str "Invalid ULP setting: " ++ signed_number maxUlpDiff [] ++ str "." ++
                          str " ULPs have to be non-negative.")).
Definition within_ulps (w : WithinUlpsMatcher) (matchee : spec_float) : bool :=
  match m_type w with
  | Float => almostEqualUlps Float (cast Float matchee) (cast Float (m_target w)) (m_ulps w)
  | Double => almostEqualUlps Double matchee (m_target w) (m_ulps w)
  end.
Definition ulps_bounds (w : WithinUlpsMatcher) : spec_float * spec_float :=
  match m_type w with
  | Double => (step Double (m_target w) (infinity true) (m_ulps w),
               step Double (m_target w) (infinity false) (m_ulps w))
  | Float => (step Float (cast Float (m_target w)) (infinity true) (m_ulps w),
              step Float (cast Float (m_target w)) (infinity false) (m_ulps w))
  end.
Definition describe_ulps (w : WithinUlpsMatcher) : throwing (list byte) :=
  target ← convert_double (m_target w);
  let '(low, high) := ulps_bounds w in
  mret (str "is within " ++ signed_number (m_ulps w) [] ++ str " ULPs of " ++ target ++
        (match m_type w with Float => [x66] | Double => [] end) ++ str " ([" ++
        fixed 17 low ++ str ", " ++ fixed 17 high ++ str "])").

Fixpoint all_approx (a : Approx) (comparator v : list spec_float) : bool :=
  match comparator, v with
  | c :: cs, x :: v => if approx_ne c (approx_of a x) then false else all_approx a cs v
  | _, _ => true
  end.
Definition vector_approx (a : Approx) (comparator v : list spec_float) : bool :=
  if decide (length comparator ≠ length v) then false else all_approx a comparator v.

(** * What a margin accepts, infinities and NaNs, and the interval a matcher of ULPs prints *)

(** A finite [double]. *)
Definition finite_double (x : spec_float) : Prop := valid Double x ∧ finite x = true.

Lemma add_double x y : finite_double x → finite_double y →
  valid Double (add x y) ∧ isnan (add x y) = false ∧ ∀ w, finite_double w →
    (units Double w ≤ units Double x + units Double y → SFleb w (add x y) = true) ∧
    (units Double x + units Double y ≤ units Double w → SFleb (add x y) w = true).
Proof.
  intros [Vx Fx] [Vy Fy]. destruct (add_ok Double x y Vx Vy Fx Fy) as (V & N & H).
  split; [exact V|]. split; [exact N|]. intros w [Vw Fw]. pose proof (finite_not_nan w Fw).
  rewrite !(leb_rank Double) by done. by apply H.
Qed.

(** A comparison with a margin accepts what is no farther off, and nothing beyond the first number that is as far off. *)
Lemma margin_accepts lhs rhs margin : finite_double lhs → finite_double rhs → finite_double margin →
  Z.abs (units Double lhs - units Double rhs) ≤ units Double margin → marginComparison lhs rhs margin = true.
Proof.
  intros L R M H. unfold marginComparison.
  destruct (add_double lhs margin L M) as (_ & _ & H1). destruct (add_double rhs margin R M) as (_ & _ & H2).
  rewrite (proj1 (H1 rhs R)), (proj1 (H2 lhs L)) by lia. done.
Qed.
Lemma margin_rejects lhs rhs margin w : finite_double lhs → finite_double rhs → finite_double margin → finite_double w →
  units Double lhs + units Double margin ≤ units Double w → marginComparison lhs rhs margin = true →
  SFleb rhs w = true.
Proof.
  intros L R M W Hw [H _]%andb_true_iff. destruct (add_double lhs margin L M) as (V & N & H1).
  pose proof (proj2 (H1 w W) Hw) as H2. destruct R as [VR FR], W as [VW FW].
  pose proof (finite_not_nan _ FR). pose proof (finite_not_nan _ FW).
  rewrite !(leb_rank Double) in * by done. lia.
Qed.
Lemma margin_comm lhs rhs margin : marginComparison lhs rhs margin = marginComparison rhs lhs margin.
Proof. apply andb_comm. Qed.
Lemma margin_nan lhs rhs margin : isnan lhs || isnan rhs = true → marginComparison lhs rhs margin = false.
Proof.
  assert (∀ x, SFleb x S754_nan = false) as E by (by intros []).
  unfold marginComparison. destruct lhs, rhs; try done; intros _; cbn [add SFadd]; by rewrite ?E, ?andb_false_r.
Qed.

(** Property (functional): an [Approx] whose margin has been set to a finite number is equal, in every comparison and
    whatever its epsilon and scale, to each number that is no farther than the margin from its value - so to
    the value itself; and no [Approx] is equal to a NaN, nor is one of a NaN equal to anything. *)
Theorem approx_accepts (a b : Approx) (margin other : spec_float) : finite_double (m_value a) →
  finite_double margin → setMargin margin a = inr b →
  (isnan other = true → approx_eq other b = false) ∧
  (finite_double other → Z.abs (units Double (m_value a) - units Double other) ≤ units Double margin →
    approx_eq other b = true ∧ approx_ne other b = false ∧
    approx_le other b = true ∧ approx_ge other b = true ∧ le_approx b other = true ∧ ge_approx b other = true).
Proof.
  intros V M Hset. unfold setMargin in Hset. destruct (SFleb zero margin) eqn:E; [|done]. injection Hset as <-.
  split.
  - intros N. unfold approx_eq, equalityComparisonImpl. rewrite !margin_nan; [done|..]; by rewrite N, orb_true_r.
  - intros O Hd. assert (approx_eq other (mk_Approx (m_epsilon a) margin (m_scale a) (m_value a)) = true) as Heq.
    { unfold approx_eq, equalityComparisonImpl. cbn [m_value m_margin]. by rewrite margin_accepts. }
    unfold approx_ne, approx_le, approx_ge, le_approx, ge_approx. rewrite Heq. by rewrite !orb_true_r.
Qed.

Definition double_of (m : Z) (e : Z) : spec_float :=
  match m with Zpos m => cast Double (S754_finite false m e) | Zneg m => cast Double (S754_finite true m e) | Z0 => zero end.
Lemma approx_accepts_witness : approx_eq (double_of 3 (-1)) (mk_Approx default_epsilon (double_of 1 (-1)) zero (double_of 1 0)) = true.
Proof.
  refine (proj1 (proj2 (approx_accepts (new_Approx (double_of 1 0)) _ (double_of 1 (-1)) (double_of 3 (-1)) _ _ eq_refl) _ _));
    try (split; reflexivity). vm_compute. discriminate.
Defined.

(** The margin of an infinite value is infinite: an [Approx] of infinity equals all numbers but minus infinity. *)
Theorem approx_infinity other : isnan other = false → other ≠ infinity true →
  approx_eq other (new_Approx (infinity false)) = true.
Proof. intros N H. by destruct other as [[]|[]| |[] m e]. Qed.

(** The sum is rounded before it is compared: 2{^53} and 2{^53} + 2 count as within 1.5. *)
Theorem margin_rounds : let x := double_of (2 ^ 53) 0 in let y := double_of (2 ^ 53 + 2) 0 in
  let margin := double_of 3 (-1) in
  marginComparison x y margin = true ∧ SFleb (SFabs (SFsub 53 1024 x y)) margin = false.
Proof. done. Qed.

(** ** Vectors *)
Lemma vector_approx_pointwise a comparator v :
  vector_approx a comparator v = true ↔ Forall2 (λ c x, approx_eq c (approx_of a x) = true) comparator v.
Proof.
  assert (∀ cs xs, length cs = length xs → all_approx a cs xs = true ↔
    Forall2 (λ c x, approx_eq c (approx_of a x) = true) cs xs) as H.
  { induction cs as [|c cs IH]; intros [|x xs] Hl; cbn in Hl; try done; cbn [all_approx].
    unfold approx_ne. rewrite list.Forall2_cons. destruct (approx_eq c (approx_of a x)); cbn [negb]; [|by split; [|intros []]].
    rewrite IH by lia. tauto. }
  unfold vector_approx. destruct (decide _) as [Hl|Hl]; [|apply H; lia].
  split; [done|]. intros HF%list.Forall2_length. done.
Qed.

(** ** ULPs *)
Definition compared (k : FloatingPointKind) (x : spec_float) : spec_float :=
  match k with Float => cast Float x | Double => x end.
Lemma within_ulps_compared w x : within_ulps w x =
  almostEqualUlps (m_type w) (compared (m_type w) x) (compared (m_type w) (m_target w)) (m_ulps w).
Proof. unfold within_ulps, compared. by destruct (m_type w). Qed.
Lemma ulps_bounds_compared w : ulps_bounds w =
  (step (m_type w) (compared (m_type w) (m_target w)) (infinity true) (m_ulps w),
   step (m_type w) (compared (m_type w) (m_target w)) (infinity false) (m_ulps w)).
Proof. unfold ulps_bounds, compared. by destruct (m_type w). Qed.
Lemma compared_valid k x : valid Double x → valid k (compared k x) ∧ isnan (compared k x) = isnan x.
Proof. destruct k; [|done]. intros _. destruct (cast_valid Float x) as (V & N & _). done. Qed.

(** C33 (bounds): the matcher of ULPs, for [float] as for [double], accepts the numbers of the target's sign
    that lie in the interval its description gives, and what is equal to the target; so of an
    interval around zero it leaves one side out, but for the zero there. *)
Theorem ulps_interval (k : FloatingPointKind) (target : spec_float) (n : Z) (w : WithinUlpsMatcher)
    (matchee : spec_float) : WithinULP k target n = inr w → valid Double matchee →
  let t := compared k (m_target w) in let y := compared k matchee in
  within_ulps w matchee = true ↔ isnan target = false ∧ isnan matchee = false ∧
    (SFeqb y t = true ∨ negative y = negative t ∧
     SFleb (fst (ulps_bounds w)) y = true ∧ SFleb y (snd (ulps_bounds w)) = true).
Proof.
  intros Hw Vm t y. unfold WithinULP in Hw. destruct (decide (0 ≤ n)) as [Hn|]; [|done].
  destruct (cast_valid Double target) as (Vt & Nt & _). injection Hw as <-.
  rewrite within_ulps_compared, ulps_bounds_compared. cbn [m_type m_target m_ulps fst snd] in *. fold t y.
  destruct (compared_valid k _ Vt) as [Vt' Nt']. destruct (compared_valid k _ Vm) as [Vy Ny].
  fold t in Vt', Nt'. fold y in Vy, Ny. rewrite <- Nt, <- Nt', <- Ny.
  unfold almostEqualUlps at 1. destruct (isnan y) eqn:Ey, (isnan t) eqn:Et; cbn [orb]; [by split; [|intros (? & ? & _)]..|].
  fold (almostEqualUlps k y t n).
  pose proof (almostEqualUlps_ok k y t n Vy Vt' Ey Et) as H. unfold almostEqualUlps in H at 1.
  rewrite Ey, Et in H. cbn [orb] in H. rewrite H.
  destruct (step_rank k t true n Vt' Et Hn) as (V1 & N1 & R1). destruct (step_rank k t false n Vt' Et Hn) as (V2 & N2 & R2).
  rewrite (eqb_rank k), !(leb_rank k), R1, R2 by done.
  pose proof (rank_bounds k y Vy Ey). destruct (decide (negative y = negative t)) as [E|E].
  - split; [intros; split; [done|]; split; [done|]; right; split; [done|lia]|]. intros (_ & _ & [?|[_ ?]]); lia.
  - split; [intros; split; [done|]; split; [done|]; by left|]. intros (_ & _ & [?|[? _]]); done.
Qed.

Lemma ulps_interval_witness : ∃ w, WithinULP Double (double_of 1 0) 2 = inr w ∧
  (within_ulps w (double_of 1 0) = true ↔ isnan (double_of 1 0) = false ∧ isnan (double_of 1 0) = false ∧
    (SFeqb (double_of 1 0) (m_target w) = true ∨ negative (double_of 1 0) = negative (m_target w) ∧
     SFleb (fst (ulps_bounds w)) (double_of 1 0) = true ∧ SFleb (double_of 1 0) (snd (ulps_bounds w)) = true)).
Proof.
  eexists. split; [reflexivity|]. apply (ulps_interval Double (double_of 1 0) 2); reflexivity.
Defined.

(** The least negative number is one ULP from zero, and in the interval that is printed. *)
Theorem ulps_around_zero : let least := S754_finite true 1 (-1074) in
  ∃ w, WithinULP Double zero 1 = inr w ∧ ulps_bounds w = (least, SFopp least) ∧ within_ulps w least = false.
Proof. eexists. split; [reflexivity|]. by split; vm_compute. Qed.

(** ** Descriptions *)
Lemma convert_double_total x : ∃ s, convert_double x = inr s.
Proof.
  unfold convert_double, fpToString. destruct (isnan x); [by eexists|].
  destruct (find_last_not_of _ _); [|by eexists]. destruct (decide _); [|by eexists]. by eexists.
Qed.
Example ulps_description : ∃ w, WithinULP Double (double_of 1 0) 1 = inr w ∧
  describe_ulps w = inr (str "is within 1 ULPs of 1.0 ([0.99999999999999989, 1.00000000000000022])").
Proof. eexists. split; [reflexivity|]. by vm_compute. Qed.
Example margin_refused : setMargin (double_of (-1) 0) custom =
  inl (Domain_error (str "Invalid Approx::margin: -1. Approx::Margin has to be non-negative.")).
Proof. by vm_compute. Qed.
Example epsilon_refused : setEpsilon (double_of 3 (-1)) custom =
  inl (Domain_error (str "Invalid Approx::epsilon: 1.5. Approx::epsilon has to be in [0, 1]")).
Proof. by vm_compute. Qed.
(** Both ends of the range are accepted. *)
Example epsilon_accepts_ends : (∃ a, setEpsilon zero custom = inr a) ∧ ∃ a, setEpsilon one custom = inr a.
Proof. split; eexists; by vm_compute. Qed.
