(* ===== verification/CatchCapture.v ===== *)
(** * Catch: CAPTURE (catch_message, catch_capture)

    [CAPTURE( a, b )] hands the text of its arguments to a [Capturer], which takes it apart into one
    message per expression, and then their values. *)
From stdpp Require Import strings list.
From S2P Require Import Prelude CatchString CatchClara CatchTest CatchResult CatchTracker CatchRun.
From S2P Require Import CatchRunProps.

Section capture.
(** The file of the check that quotes match, as the compiler names it. *)
Context (catch_file : list byte).

Definition ex_outcome {S A} (o : outcome A) : ex S A := λ s, a ← o; Done (inr a, s).

(** The commas and blanks at either end of an expression. *)
Definition separates (c : byte) : bool := bool_decide (c = x2c) || isspace c.
Fixpoint skip_forward (fuel : nat) (names : StringRef) (start : nat) : outcome nat :=
  match fuel with
  | O => Undefined
  | S fuel => c ← char_at names start; if separates c then skip_forward fuel names (S start) else Done start
  end.
(** Below 0 the index wraps around, to where there is nothing to read. *)
Fixpoint skip_backward (names : StringRef) (end_ : nat) : outcome nat :=
  c ← char_at names end_;
  if separates c then match end_ with O => Undefined | S e => skip_backward names e end else Done end_.
Definition trimmed (names : StringRef) (start end_ : nat) : outcome (list byte) :=
  start ← skip_forward (S (length (m_chars names))) names start;
  end_ ← skip_backward names end_;
  to_string (substr_ref names start (Z.to_nat (u64 (Z.of_nat end_ - Z.of_nat start + 1)))).

(** The index of the quote that ends what starts with one at [start]. *)
Fixpoint skip_quoted (fuel : nat) (names : StringRef) (i : nat) (quote : byte) : run nat :=
  if decide (i < m_size names)%nat then
    match fuel with
    | O => ex_undefined
    | S fuel =>
        c ← ex_outcome (char_at names i);
        if decide (c = quote) then mret i
        else if decide (c = x5c) then skip_quoted fuel names (i + 2) quote
        else skip_quoted fuel names (i + 1) quote
    end
  else ex_throw (Logic_error (print_sli (mk_SourceLineInfo catch_file 11290) ++ str ": Internal Catch2 error: " ++
                              str "CAPTURE parsing encountered unmatched quote")).
Definition skipq (names : StringRef) (start : nat) (quote : byte) : run nat :=
  skip_quoted (m_size names) names (start + 1) quote.

Record Capturer := mk_Capturer { c_messages : list MessageInfo; m_captured : nat }.

(** [emplace_back] and the text: what is trimmed of [names] from [start] to [end_]. *)
Definition new_message (macroName : StringRef) (lineInfo : SourceLineInfo) (resultType : Z) (names : StringRef)
    (messages : list MessageInfo) (start end_ : nat) : run (list MessageInfo) :=
  n ← new_sequence;
  text ← ex_outcome (trimmed names start end_);
  mret (messages ++ [mk_MessageInfo macroName (text ++ str " := ") lineInfo resultType n]).

Definition is_opening (c : byte) : bool := bool_decide (c = x5b ∨ c = x7b ∨ c = x28).
Definition is_closing (c : byte) : bool := bool_decide (c = x5d ∨ c = x7d ∨ c = x29).
Definition is_quote (c : byte) : bool := bool_decide (c = x22 ∨ c = x27).

Fixpoint capture_loop (fuel : nat) macroName lineInfo resultType (names : StringRef)
    (pos start : nat) (openings : list byte) (messages : list MessageInfo) : run (nat * list byte * list MessageInfo) :=
  if decide (pos < m_size names)%nat then
    match fuel with
    | O => ex_undefined
    | S fuel =>
        let next pos start openings messages :=
          capture_loop fuel macroName lineInfo resultType names (S pos) start openings messages in
        c ← ex_outcome (char_at names pos);
        if is_opening c then next pos start (c :: openings) messages
        else if is_closing c then
          match openings with [] => ex_undefined | _ :: openings => next pos start openings messages end
        else if is_quote c then pos ← skipq names pos c; next pos start openings messages
        else if decide (c = x2c ∧ start ≠ pos ∧ length openings = 0%nat) then
          messages ← new_message macroName lineInfo resultType names messages start pos;
          next pos pos openings messages
        else next pos start openings messages
    end
  else mret (start, openings, messages).

Definition new_Capturer (macroName : StringRef) (lineInfo : SourceLineInfo) (resultType : Z) (names : StringRef)
    : run Capturer :=
  '(start, openings, messages) ← capture_loop (m_size names) macroName lineInfo resultType names 0 0 [] [];
  _ ← ex_assert (bool_decide (length openings = 0%nat));
  messages ← (if decide (m_size names = 0%nat) then ex_undefined
              else new_message macroName lineInfo resultType names messages start (m_size names - 1));
  mret (mk_Capturer messages 0).

Definition append_value (value : list byte) (m : MessageInfo) : MessageInfo :=
  mk_MessageInfo (mi_macroName m) (mi_message m ++ value) (mi_lineInfo m) (mi_type m) (sequence m).
Definition captureValue (index : nat) (value : list byte) (c : Capturer) : run Capturer :=
  _ ← ex_assert (bool_decide (index < length (c_messages c))%nat);
  let messages := alter (append_value value) index (c_messages c) in
  m ← ex_deref (messages !! index);
  _ ← pushScopedMessage m;
  mret (mk_Capturer messages (S (m_captured c))).
Fixpoint captureValues (index : nat) (values : list (list byte)) (c : Capturer) : run Capturer :=
  match values with
  | [] => mret c
  | v :: values => c ← captureValue index v c; captureValues (S index) values c
  end.
Definition delete_Capturer (c : Capturer) : run unit :=
  r ← ex_get;
  if uncaught_exceptions r then mret tt
  else
    _ ← ex_assert (bool_decide (m_captured c = length (c_messages c)));
    pop_all (take (m_captured c) (c_messages c)).
End capture.

(** ** ScopedMessage *)
Record ScopedMessage := mk_ScopedMessage { sm_info : MessageInfo; m_moved : bool }.
(** [text]: what the builder's stream holds. *)
Definition new_ScopedMessage (info : MessageInfo) (text : list byte) : run ScopedMessage :=
  let info := mk_MessageInfo (mi_macroName info) text (mi_lineInfo info) (mi_type info) (sequence info) in
  _ ← pushScopedMessage info; mret (mk_ScopedMessage info false).
(** The new object, and what is left of the old one. *)
Definition move_ScopedMessage (old : ScopedMessage) : ScopedMessage * ScopedMessage :=
  (mk_ScopedMessage (sm_info old) false, mk_ScopedMessage (sm_info old) true).
Definition delete_ScopedMessage (m : ScopedMessage) : run unit :=
  r ← ex_get;
  if negb (uncaught_exceptions r) && negb (m_moved m) then popScopedMessage (sm_info m) else mret tt.

(** * Properties of CAPTURE

    The text of the arguments is taken apart at the commas between them, and the messages are in scope until the
    capturer goes. *)

(** ** Expressions

    What stands in a literal, up to the quote that ends it; and the text of an expression, or what is left of it
    inside so many brackets. *)
Inductive literal_rest (quote : byte) : list byte → Prop :=
| literal_end : literal_rest quote [quote]
| literal_char c s : c ≠ quote → c ≠ x5c → literal_rest quote s → literal_rest quote (c :: s)
| literal_escape c s : quote ≠ x5c → literal_rest quote s → literal_rest quote (x5c :: c :: s).
Inductive text_at : nat → list byte → Prop :=
| text_end : text_at 0 []
| text_char d c s : is_opening c = false → is_closing c = false → is_quote c = false → (c = x2c → d ≠ 0%nat) →
    text_at d s → text_at d (c :: s)
| text_opening d c s : is_opening c = true → text_at (S d) s → text_at d (c :: s)
| text_closing d c s : is_opening c = false → is_closing c = true → text_at d s → text_at (S d) (c :: s)
| text_literal d c body s : is_opening c = false → is_closing c = false → is_quote c = true →
    literal_rest c body → text_at d s → text_at d (c :: body ++ s).
(** With neither blanks nor commas at its ends. *)
Record expression (e : list byte) : Prop := {
  ex_text : text_at 0 e;
  ex_first : ∃ c s, e = c :: s ∧ separates c = false;
  ex_last : ∃ s c, e = s ++ [c] ∧ separates c = false
}.

(** ** Trimming *)
Section trimming.
Context (s : list byte).
#[local] Abbreviation names := (StringRef_string s).

Lemma char_at_middle pre c post : s = pre ++ c :: post → char_at names (length pre) = Done c.
Proof.
  intros ->. unfold char_at, StringRef_string. cbn. rewrite <- app_assoc. cbn.
  by rewrite lookup_app_r, Nat.sub_diag by lia.
Qed.
Lemma skip_forward_ok blanks : ∀ fuel pre c post, s = pre ++ blanks ++ c :: post → Forall (λ b, separates b = true) blanks →
  separates c = false → (length blanks < fuel)%nat →
  skip_forward fuel names (length pre) = Done (length (pre ++ blanks)).
Proof.
  induction blanks as [|b blanks IH]; intros [|fuel] pre c post E Hb Hc Hf; cbn in Hf; try lia; cbn [skip_forward].
  - cbn in E. rewrite (char_at_middle pre c post E). cbn. by rewrite Hc, app_nil_r.
  - apply list.Forall_cons in Hb as [Hb' Hb]. rewrite (char_at_middle pre b (blanks ++ c :: post) E). cbn.
    rewrite Hb'.
    pose proof (IH fuel (pre ++ [b]) c post) as H. rewrite (length_app pre), Nat.add_1_r, <- !app_assoc in H.
    apply H; [exact E|done|done|lia].
Qed.
Lemma skip_backward_eq n : skip_backward names n = c ← char_at names n;
  if separates c then match n with O => Undefined | S e => skip_backward names e end else Done n.
Proof. by destruct n. Qed.
Lemma skip_backward_ok blanks : ∀ pre c post, s = pre ++ c :: blanks ++ post → Forall (λ b, separates b = true) blanks →
  separates c = false → skip_backward names (length pre + length blanks) = Done (length pre).
Proof.
  induction blanks as [|b blanks IH] using rev_ind; intros pre c post E Hb Hc.
  - cbn [length]. rewrite Nat.add_0_r, skip_backward_eq, (char_at_middle pre c post E). cbn. by rewrite Hc.
  - apply list.Forall_app in Hb as [Hb [Hb' _]%list.Forall_cons].
    rewrite length_app. cbn [length]. rewrite Nat.add_1_r, Nat.add_succ_r. cbn [skip_backward].
    pose proof (char_at_middle (pre ++ c :: blanks) b post) as Hat. rewrite length_app in Hat. cbn [length] in Hat.
    rewrite Nat.add_succ_r in Hat. rewrite Hat by (rewrite E; rewrite <- !app_assoc; cbn; reflexivity). cbn.
    rewrite Hb'. apply (IH pre c ([b] ++ post)); [|done|done].
    by rewrite E, <- app_assoc.
Qed.

Lemma capture_trimmed_ok pre b1 e b2 post : s = pre ++ b1 ++ e ++ b2 ++ post → expression e →
  Forall (λ b, separates b = true) b1 → Forall (λ b, separates b = true) b2 → Z.of_nat (length s) < 2 ^ 64 →
  trimmed names (length pre) (length (pre ++ b1 ++ e ++ b2) - 1) = Done e.
Proof.
  intros E [_ (c & e1 & E1 & Hc) (e2 & d & E2 & Hd)] H1 H2 Hl. unfold trimmed.
  assert (length b1 < S (length (m_chars names)))%nat as Hf.
  { cbn. rewrite E, !length_app. lia. }
  rewrite (skip_forward_ok b1 _ pre c (e1 ++ b2 ++ post)); [|by rewrite E, E1|done|done|done]. cbn [mbind outcome_bind].
  replace (length (pre ++ b1 ++ e ++ b2) - 1)%nat with (length (pre ++ b1 ++ e2) + length b2)%nat
    by (rewrite E2, !length_app; cbn; lia).
  rewrite (skip_backward_ok b2 (pre ++ b1 ++ e2) d post); [|by rewrite E, E2, <- !app_assoc|done|done].
  cbn [mbind outcome_bind].
  assert (Z.of_nat (length (pre ++ b1 ++ e2)) - Z.of_nat (length (pre ++ b1)) + 1 = Z.of_nat (length e)) as ->.
  { rewrite E2, !length_app. cbn. lia. }
  assert (length e <= length s)%nat as Hel by (rewrite E, !length_app; lia).
  change (2 ^ 64) with 18446744073709551616 in Hl. rewrite u64_id by (unfold_words; lia). rewrite Nat2Z.id.
  unfold substr_ref, to_string, StringRef_string. cbn [m_size m_chars].
  assert (length (pre ++ b1) < length s)%nat as Hs by (rewrite E, E1, !length_app; cbn; lia).
  destruct (decide (length (pre ++ b1) < length s)%nat) as [_|]; [|done]. cbn [m_size m_chars].
  assert (drop (length (pre ++ b1)) (s ++ [x00]) = e ++ b2 ++ post ++ [x00]) as ->.
  { rewrite E. replace ((pre ++ b1 ++ e ++ b2 ++ post) ++ [x00]) with ((pre ++ b1) ++ e ++ b2 ++ post ++ [x00])
      by (by rewrite <- !app_assoc). apply drop_app_length. }
  rewrite decide_True by (rewrite !length_app; lia). by rewrite take_app_length.
Qed.
End trimming.

(** ** The loop *)
Section loop.
Context (catch_file : list byte) (macro : StringRef) (li : SourceLineInfo) (ty : Z) (s : list byte).
#[local] Abbreviation names := (StringRef_string s).
#[local] Abbreviation loop fuel := (capture_loop catch_file fuel macro li ty names).

Lemma in_names pre c post : s = pre ++ c :: post → (length pre < m_size names)%nat.
Proof. intros ->. cbn. rewrite length_app. cbn. lia. Qed.

Lemma skip_quoted_ok q body : q ≠ x5c → literal_rest q body → ∀ fuel pre post (r : RunContext), s = pre ++ body ++ post →
  (length body ≤ fuel)%nat →
  skip_quoted catch_file fuel names (length pre) q r = Done (inr (length (pre ++ body) - 1)%nat, r).
Proof.
  intros Hq. induction 1 as [|c b H1 H2 _ IH|c b _ Hb IH]; intros [|fuel] pre post r E Hf; cbn in Hf; try lia;
    cbn [skip_quoted]; rewrite decide_True by (eapply in_names; rewrite E; reflexivity);
    unfold ex_outcome; unfold mbind at 1, ex_bind; rewrite (char_at_middle s pre _ _ E); cbn [mbind outcome_bind].
  - rewrite decide_True by done. rewrite length_app. cbn [length]. by rewrite Nat.add_sub.
  - rewrite !decide_False by done. replace (length pre + 1)%nat with (length (pre ++ [c])) by (rewrite length_app; cbn; lia).
    rewrite (IH fuel (pre ++ [c]) post); [by rewrite <- app_assoc|by rewrite E, <- app_assoc|lia].
  - rewrite decide_False by (intros <-; done). rewrite decide_True by done.
    replace (length pre + 2)%nat with (length (pre ++ [x5c; c])) by (rewrite length_app; cbn; lia).
    rewrite (IH fuel (pre ++ [x5c; c]) post); [by rewrite <- app_assoc|by rewrite E, <- app_assoc|lia].
Qed.

(** Over an expression, or what is left of it: nothing is told apart there. *)
Lemma loop_over d e : text_at d e → ∀ fuel pre post start openings msgs (r : RunContext), s = pre ++ e ++ post →
  length openings = d → (length (e ++ post) ≤ fuel)%nat →
  ∃ fuel', (length post ≤ fuel')%nat ∧
    loop fuel (length pre) start openings msgs r = loop fuel' (length (pre ++ e)) start [] msgs r.
Proof.
  assert (∀ (pre : list byte) c, S (length pre) = length (pre ++ [c])) as Hsucc
    by (intros; rewrite length_app; cbn; lia).
  induction 1 as [|d c e H1 H2 H3 H4 _ IH|d c e H1 _ IH|d c e H1 H2 _ IH|d c body e H1 H2 H3 Hb _ IH];
    intros fuel pre post start openings msgs r E Ho Hf.
  { apply nil_length_inv in Ho as ->. exists fuel. rewrite app_nil_r. done. }
  all: destruct fuel as [|fuel]; [cbn in Hf; lia|].
  all: cbn [capture_loop]; rewrite decide_True by (eapply in_names; rewrite E; reflexivity);
    unfold ex_outcome at 1; unfold mbind at 1, ex_bind at 1; rewrite (char_at_middle s pre _ _ E); cbn [mbind outcome_bind].
  - rewrite H1, H2, H3. rewrite decide_False.
    2: { intros (Hc & _ & Hl). apply (H4 Hc). lia. }
    rewrite (Hsucc pre c). destruct (IH fuel (pre ++ [c]) post start openings msgs r) as (fuel' & Hf' & ->);
      [by rewrite E, <- app_assoc|done|cbn in Hf; lia|]. exists fuel'. by rewrite <- app_assoc.
  - rewrite H1. rewrite (Hsucc pre c). destruct (IH fuel (pre ++ [c]) post start (c :: openings) msgs r) as (fuel' & Hf' & ->);
      [by rewrite E, <- app_assoc|cbn; lia|cbn in Hf; lia|]. exists fuel'. by rewrite <- app_assoc.
  - rewrite H1, H2. destruct openings as [|o openings]; [done|]. rewrite (Hsucc pre c).
    destruct (IH fuel (pre ++ [c]) post start openings msgs r) as (fuel' & Hf' & ->);
      [by rewrite E, <- app_assoc|cbn in Ho; lia|cbn in Hf; lia|]. exists fuel'. by rewrite <- app_assoc.
  - rewrite H1, H2, H3. unfold skipq, mbind at 1, ex_bind at 1. rewrite Nat.add_1_r, (Hsucc pre c).
    assert (c ≠ x5c) as Hc by (intros ->; discriminate H3).
    assert (s = (pre ++ [c]) ++ body ++ e ++ post) as E' by (rewrite E, <- !app_assoc; cbn; by rewrite <- app_assoc).
    assert (0 < length body)%nat as Hpos by (destruct Hb; cbn; lia).
    rewrite (skip_quoted_ok c body Hc Hb (m_size names) (pre ++ [c]) (e ++ post) r E').
    2: { cbn. rewrite E', !length_app. lia. }
    replace (S (length ((pre ++ [c]) ++ body) - 1))%nat with (length (pre ++ c :: body))
      by (rewrite !length_app; cbn; lia).
    destruct (IH fuel (pre ++ c :: body) post start openings msgs r) as (fuel' & Hf' & ->);
      [by rewrite E, <- !app_assoc; cbn; rewrite <- app_assoc|done| |].
    + cbn in Hf. rewrite !length_app in *. lia.
    + exists fuel'. rewrite <- app_assoc. done.
Qed.

(** *** All expressions

    [rest]: each with the blanks behind the comma before it. *)
Definition following (rest : list (list byte * list byte)) : list byte :=
  rest ≫= λ x, [x2c] ++ x.1 ++ x.2.
(** The messages, numbered from behind [n], and the last number. *)
Fixpoint named (n : Z) (es : list (list byte)) : list MessageInfo :=
  match es with
  | [] => []
  | e :: es => mk_MessageInfo macro (e ++ str " := ") li ty (u32 (n + 1)) :: named (u32 (n + 1)) es
  end.
Fixpoint last_number (n : Z) (es : list (list byte)) : Z :=
  match es with [] => n | _ :: es => last_number (u32 (n + 1)) es end.

Lemma new_message_ok pre b1 e b2 post msgs r : s = pre ++ b1 ++ e ++ b2 ++ post → expression e →
  Forall (λ b, separates b = true) b1 → Forall (λ b, separates b = true) b2 → Z.of_nat (length s) < 2 ^ 64 →
  new_message macro li ty names msgs (length pre) (length (pre ++ b1 ++ e ++ b2) - 1) r =
  Done (inr (msgs ++ named (globalCount r) [e]), set_globalCount (u32 (globalCount r + 1)) r).
Proof.
  intros E He H1 H2 Hl. unfold new_message.
  eapply (ex_step _ _ _ _ _ _ (eq_refl : new_sequence r = Done (inr _, set_globalCount (u32 (globalCount r + 1)) r))).
  eapply ex_step; [|reflexivity]. unfold ex_outcome. by rewrite (capture_trimmed_ok s pre b1 e b2 post).
Qed.

(** Blanks are no part of an expression. *)
Lemma text_after_blanks b e : Forall (λ c, isspace c = true) b → text_at 0 e → text_at 0 (b ++ e).
Proof.
  induction 1 as [|c b Hc _ IH]; intros He; [done|]. cbn. apply text_char; [| | |intros ->; discriminate Hc|by apply IH];
    apply bool_decide_eq_false; intros H; repeat destruct H as [->|H]; subst; discriminate Hc.
Qed.
Lemma blanks_separate b : Forall (λ c, isspace c = true) b → Forall (λ c, separates c = true) b.
Proof. intros H. eapply list.Forall_impl; [exact H|]. intros c Hc. unfold separates. by rewrite Hc, orb_true_r. Qed.
Lemma expression_length e : expression e → (0 < length e)%nat.
Proof. intros [_ (c & e' & -> & _) _]. cbn. lia. Qed.
Lemma expression_text e : expression e → text_at 0 e.
Proof. apply ex_text. Qed.

Lemma loop_named rest : ∀ fuel pre b e msgs r, s = pre ++ b ++ e ++ following rest → expression e →
  Forall (λ x, Forall (λ c, isspace c = true) x.1 ∧ expression x.2) rest → Forall (λ c, separates c = true) b →
  Z.of_nat (length s) < 2 ^ 64 → (length (following rest) ≤ fuel)%nat →
  (capture ← loop fuel (length (pre ++ b ++ e)) (length pre) [] msgs;
   let '(start, openings, messages) := capture in
   _ ← ex_assert (bool_decide (length openings = 0%nat));
   messages ← (if decide (m_size names = 0%nat) then ex_undefined
               else new_message macro li ty names messages start (m_size names - 1));
   mret (mk_Capturer messages 0)) r =
  Done (inr (mk_Capturer (msgs ++ named (globalCount r) (e :: rest.*2)) 0),
        set_globalCount (last_number (globalCount r) (e :: rest.*2)) r).
Proof.
  induction rest as [|[b' e'] rest IH]; intros fuel pre b e msgs r E He Hrest Hb Hl Hf.
  - cbn [following mbind list_bind] in E. rewrite app_nil_r in E. pose proof (expression_length e He).
    assert (loop fuel (length (pre ++ b ++ e)) (length pre) [] msgs r = Done (inr (length pre, [], msgs), r)) as El.
    { destruct fuel; cbn [capture_loop]; rewrite decide_False; try done; cbn; rewrite E; lia. }
    unfold mbind at 1, ex_bind at 1. rewrite El. cbn [length]. unfold mbind at 1, ex_bind at 1, ex_assert.
    rewrite bool_decide_true by done. rewrite decide_False by (cbn; rewrite E, !length_app; lia).
    unfold mbind at 1, ex_bind at 1.
    pose proof (new_message_ok pre b e [] [] msgs r) as Hm. rewrite !app_nil_r in Hm.
    replace (m_size names - 1)%nat with (length (pre ++ b ++ e) - 1)%nat by (cbn; by rewrite E).
    by rewrite Hm.
  - apply list.Forall_cons in Hrest as [[Hb' He'] Hrest]. cbn [fst snd] in *.
    assert (following ((b', e') :: rest) = x2c :: b' ++ e' ++ following rest) as Ef
      by (cbn; by rewrite <- app_assoc).
    rewrite Ef in *. destruct fuel as [|fuel]; [cbn in Hf; lia|]. pose proof (expression_length e He).
    assert (s = (pre ++ b ++ e) ++ x2c :: b' ++ e' ++ following rest) as E1 by (rewrite E, <- !app_assoc; done).
    assert (loop (S fuel) (length (pre ++ b ++ e)) (length pre) [] msgs r =
      loop fuel (length ((pre ++ b ++ e) ++ [x2c])) (length (pre ++ b ++ e)) []
        (msgs ++ named (globalCount r) [e]) (set_globalCount (u32 (globalCount r + 1)) r)) as El.
    { cbn [capture_loop]. rewrite decide_True by (eapply in_names; exact E1).
      unfold ex_outcome; unfold mbind at 1, ex_bind at 1. rewrite (char_at_middle s _ _ _ E1). cbn [mbind outcome_bind].
      change (is_opening x2c) with false. change (is_closing x2c) with false. change (is_quote x2c) with false.
      rewrite decide_True by (rewrite !length_app; repeat split; lia).
      unfold mbind at 1, ex_bind at 1.
      pose proof (new_message_ok pre b e [x2c] (b' ++ e' ++ following rest) msgs r) as Hm.
      replace (length (pre ++ b ++ e ++ [x2c]) - 1)%nat with (length (pre ++ b ++ e)) in Hm
        by (rewrite !length_app; cbn; lia).
      rewrite Hm; [|by rewrite E|done|done|by repeat constructor|done].
      f_equal. rewrite !length_app. cbn. lia. }
    destruct (loop_over _ _ (text_after_blanks b' e' Hb' (expression_text e' He')) fuel ((pre ++ b ++ e) ++ [x2c])
      (following rest) (length (pre ++ b ++ e)) [] (msgs ++ named (globalCount r) [e])
      (set_globalCount (u32 (globalCount r + 1)) r)) as (fuel' & Hf' & Eo).
    { rewrite E1, <- !app_assoc. done. }
    { done. }
    { cbn in Hf. rewrite <- app_assoc. lia. }
    specialize (IH fuel' (pre ++ b ++ e) (x2c :: b') e' (msgs ++ named (globalCount r) [e])
      (set_globalCount (u32 (globalCount r + 1)) r)).
    unfold mbind at 1, ex_bind at 1. rewrite El, Eo. unfold mbind at 1, ex_bind at 1 in IH.
    replace (length (((pre ++ b ++ e) ++ [x2c]) ++ b' ++ e')) with (length ((pre ++ b ++ e) ++ (x2c :: b') ++ e'))
      by (rewrite !length_app; cbn; rewrite ?length_app; lia).
    rewrite IH; [|by rewrite E1|done|done|by constructor; [|apply blanks_separate]|done|done].
    cbn. by rewrite <- app_assoc.
Qed.
End loop.

(** ** Values, and the scope *)
Lemma append_sequence v m : sequence (append_value v m) = sequence m.
Proof. done. Qed.
Lemma captureValues_ok todo : ∀ values done_ r, length values = length todo →
  let filled := zip_with (λ m v, append_value v m) todo values in
  captureValues (length done_) values (mk_Capturer (done_ ++ todo) (length done_)) r =
  Done (inr (mk_Capturer (done_ ++ filled) (length (done_ ++ filled))),
        set_messages (m_messages r ++ filled) (m_messageScopes r) r).
Proof.
  induction todo as [|m todo IH]; intros [|v values] done_ r Hl; try done; cbn [zip_with captureValues].
  - rewrite !app_nil_r. by destruct r.
  - assert (alter (append_value v) (length done_) (done_ ++ m :: todo) = done_ ++ append_value v m :: todo) as Ea.
    { replace (length done_) with (length done_ + 0)%nat by lia. by rewrite alter_app_r. }
    eapply ex_step.
    { unfold captureValue. cbn [c_messages m_captured]. eapply ex_step.
      { unfold ex_assert. rewrite bool_decide_true by (rewrite length_app; cbn; lia). reflexivity. }
      cbv zeta. rewrite Ea. eapply ex_step.
      { unfold ex_deref. rewrite list_lookup_middle by done. reflexivity. }
      eapply ex_step; reflexivity. }
    specialize (IH values (done_ ++ [append_value v m])
      (set_messages (m_messages r ++ [append_value v m]) (m_messageScopes r) r) ltac:(cbn in Hl; lia)).
    cbn zeta in IH. rewrite length_app, Nat.add_1_r, <- !app_assoc in IH. cbn [app] in IH. rewrite IH.
    f_equal. f_equal. cbn. by rewrite <- app_assoc.
Qed.

Lemma without_scoped_filter scopes ms :
  without_scoped scopes ms = List.filter (λ x, negb (existsb (message_eq x) scopes)) ms.
Proof.
  unfold without_scoped. revert ms. induction scopes as [|m scopes IH]; intros ms; cbn [foldl existsb].
  - cbn. induction ms as [|x ms IH]; [done|]. cbn. by rewrite <- IH.
  - rewrite IH. clear IH. induction ms as [|x ms IH]; [done|]. cbn.
    destruct (message_eq x m); cbn; [exact IH|]. by rewrite IH.
Qed.
Lemma without_scoped_added ms ms' : Forall (λ m, sequence m ∉ sequence <$> ms') ms → without_scoped ms' (ms ++ ms') = ms.
Proof.
  intros Hms. rewrite without_scoped_filter, List.filter_app.
  assert (∀ x, existsb (message_eq x) ms' = true ↔ sequence x ∈ sequence <$> ms') as He.
  { intros x. rewrite existsb_exists, list_elem_of_fmap. setoid_rewrite <- list_elem_of_In. unfold message_eq.
    setoid_rewrite bool_decide_eq_true. naive_solver. }
  rewrite <- (app_nil_r ms) at 2. f_equal.
  - induction Hms as [|x ms Hx _ IH]; [done|]. cbn. rewrite IH. destruct (existsb _ _) eqn:E; [|done].
    by apply He in E.
  - assert (∀ l, (∀ x, x ∈ l → x ∈ ms') → List.filter (λ x, negb (existsb (message_eq x) ms')) l = []) as Hnil; [|by apply Hnil].
    induction l as [|x l IH]; intros Hl; [done|]. cbn. rewrite (proj2 (He x)); [apply IH; intros y Hy; apply Hl; by right|].
    apply list_elem_of_fmap. exists x. split; [done|apply Hl; constructor].
Qed.

Lemma new_Capturer_ok catch_file macro li ty e rest r : expression e →
  Forall (λ x, Forall (λ c, isspace c = true) x.1 ∧ expression x.2) rest →
  Z.of_nat (length (e ++ following rest)) < 2 ^ 64 →
  new_Capturer catch_file macro li ty (StringRef_string (e ++ following rest)) r =
  Done (inr (mk_Capturer (named macro li ty (globalCount r) (e :: rest.*2)) 0),
        set_globalCount (last_number (globalCount r) (e :: rest.*2)) r).
Proof.
  intros He Hrest Hl.
  destruct (loop_over catch_file macro li ty (e ++ following rest) _ e (expression_text e He)
    (m_size (StringRef_string (e ++ following rest))) [] (following rest) 0 [] [] r) as (fuel & Hf & E); [done|done|done|].
  pose proof (loop_named catch_file macro li ty (e ++ following rest) rest fuel [] [] e [] r eq_refl He Hrest
    ltac:(constructor) Hl Hf) as H.
  cbn [app length] in E, H. unfold new_Capturer. unfold mbind at 1, ex_bind at 1. rewrite E.
  unfold mbind at 1, ex_bind at 1 in H. rewrite <- H. done.
Qed.
Lemma named_length macro li ty n es : length (named macro li ty n es) = length es.
Proof. revert n. induction es as [|e es IH]; intros n; [done|]. cbn. by rewrite IH. Qed.

(** C34 (functional): [CAPTURE] of expressions between commas puts one message per expression in scope, its text
    and its value, behind those that are; and when the capturer goes without an exception, the messages are
    what they were, as long as none has a number that is taken again.  An expression may hold round, square and curly brackets, as
    they match in number, strings and character literals, and commas inside these; at its ends are neither spaces nor commas.
    A comma between the angle brackets of a template divides it ([template_arguments_split]), and a single
    quote between digits begins a literal ([digit_separator_refused]).  There are as many values as
    expressions, and fewer characters than 2^64. *)
Theorem capture_scope (catch_file : list byte) (macro : StringRef) (li : SourceLineInfo) (ty : Z) (e : list byte)
    (rest : list (list byte * list byte)) (values : list (list byte)) (r : RunContext) : expression e →
  Forall (λ x, Forall (λ c, isspace c = true) x.1 ∧ expression x.2) rest →
  length values = S (length rest) → Z.of_nat (length (e ++ following rest)) < 2 ^ 64 → uncaught_exceptions r = false →
  let messages := zip_with (λ m v, append_value v m) (named macro li ty (globalCount r) (e :: rest.*2)) values in
  Forall (λ m, sequence m ∉ sequence <$> messages) (m_messages r) →
  mi_message <$> messages = zip_with (λ e v, e ++ str " := " ++ v) (e :: rest.*2) values ∧
  ∃ c r1, (c ← new_Capturer catch_file macro li ty (StringRef_string (e ++ following rest)); captureValues 0 values c) r =
      Done (inr c, r1) ∧
    m_messages r1 = m_messages r ++ messages ∧
    ∃ r2, delete_Capturer c r1 = Done (inr tt, r2) ∧ m_messages r2 = m_messages r ∧
      m_messageScopes r2 = m_messageScopes r.
Proof.
  intros He Hrest Hv Hl Hu messages Hfresh. split.
  { unfold messages. assert (length (e :: rest.*2) = length values) as Hlen by (cbn; by rewrite length_fmap).
    revert Hlen. clear. generalize (globalCount r), (e :: rest.*2). intros n es. revert n values.
    induction es as [|x es IH]; intros n [|v vs] Hlen; try done. cbn in *. rewrite IH by lia. by rewrite <- app_assoc. }
  pose proof (captureValues_ok (named macro li ty (globalCount r) (e :: rest.*2)) values []
    (set_globalCount (last_number (globalCount r) (e :: rest.*2)) r)) as Hc.
  cbn [app length] in Hc. fold messages in Hc. eexists _, _. split; [|split].
  - eapply ex_step; [by apply new_Capturer_ok|]. cbv beta. apply Hc. rewrite named_length. cbn. by rewrite length_fmap.
  - done.
  - eexists. split; [|split].
    + unfold delete_Capturer. eapply ex_step; [reflexivity|]. cbv beta. cbn [uncaught_exceptions set_messages set_globalCount].
      rewrite Hu. eapply ex_step.
      { unfold ex_assert. cbn [m_captured c_messages]. rewrite bool_decide_true by done. reflexivity. }
      cbn [m_captured c_messages]. rewrite firstn_all. apply pop_all_eq.
    + cbn. by apply without_scoped_added.
    + done.
Qed.

(** ** Examples *)
Definition capture_example : list byte := str "f(a, b)".
Lemma capture_example_expression : expression capture_example.
Proof.
  split; [|by exists x66, (str "(a, b)")|by exists (str "f(a, b"), x29].
  apply text_char; [done..|]. apply text_opening; [done|]. apply text_char; [done..|]. apply text_char; [done..|].
  apply text_char; [done..|]. apply text_char; [done..|]. apply text_closing; [done..|]. apply text_end.
Qed.
Definition quoted_example : list byte := [x22; x2c; x5c; x22; x22].
Lemma quoted_example_expression : expression quoted_example.
Proof.
  split; [|by exists x22, [x2c; x5c; x22; x22]|by exists [x22; x2c; x5c; x22], x22].
  apply (text_literal 0 x22 [x2c; x5c; x22; x22] []); [done..| |apply text_end].
  apply literal_char; [done..|]. apply literal_escape; [done|]. apply literal_end.
Qed.

Definition info_ref : StringRef := StringRef_string (str "CAPTURE").
Definition capture_line : SourceLineInfo := mk_SourceLineInfo (str "t.cpp") 5.
Lemma capture_scope_witness : ∃ c r1,
  (c ← new_Capturer (str "catch.hpp") info_ref capture_line Info (StringRef_string (str "f(a, b), " ++ quoted_example));
   captureValues 0 [str "1"; str "2"] c) (make_run_context sample_config) = Done (inr c, r1) ∧
  mi_message <$> m_messages r1 = [str "f(a, b) := 1"; quoted_example ++ str " := 2"].
Proof.
  destruct (capture_scope (str "catch.hpp") info_ref capture_line Info capture_example [([x20], quoted_example)]
    [str "1"; str "2"] (make_run_context sample_config)) as [E (c & r1 & H1 & H2 & _)].
  - exact capture_example_expression.
  - constructor; [split; [by repeat constructor|exact quoted_example_expression]|constructor].
  - reflexivity.
  - reflexivity.
  - reflexivity.
  - constructor.
  - exists c, r1. split; [exact H1|]. rewrite H2. exact E.
Defined.

(** The quote in a number is taken for one that opens a literal. *)
Theorem digit_separator_refused : ∃ r,
  new_Capturer (str "catch.hpp") info_ref capture_line Info (StringRef_string (str "1'000")) (make_run_context sample_config) =
  Done (inl (Logic_error (str "catch.hpp:11290: Internal Catch2 error: CAPTURE parsing encountered unmatched quote")), r).
Proof. eexists. vm_compute. reflexivity. Qed.
(** And the brackets of a template are none: what is between them is told apart. *)
Definition captured_texts (s : list byte) : outcome (list (list byte)) :=
  match new_Capturer (str "catch.hpp") info_ref capture_line Info (StringRef_string s) (make_run_context sample_config) with
  | Done (inr c, _) => Done (mi_message <$> c_messages c)
  | _ => Undefined
  end.
Example template_arguments_split :
  captured_texts (str "f<a, b>(), [=](int, char) { return ','; }") =
  Done [str "f<a := "; str "b>() := "; str "[=](int, char) { return ','; } := "].
Proof. by vm_compute. Qed.
