(* ===== verification/CatchExceptions.v ===== *)
(** * Catch: exceptions as text (catch_exception_translator_registry, catch_startup_exception_registry)

    An exception is a value of some type [E].  What it is caught as is a parameter, and so are the functions that
    have been registered for the types of a program's own. *)
From stdpp Require Import strings list.
From S2P Require Import Prelude CatchString.

Section exceptions.
Context {E : Type}.

(** The result of a function that may throw one. *)
Definition raising (A : Type) : Type := E + A.
#[local] Instance raising_bind : MBind raising := λ A B f m, match m with inl e => inl e | inr a => f a end.

(** [catch( T& ex ) { return m_translateFunction( ex ); }]: nothing for an exception that is no [T]. *)
Definition ExceptionTranslator : Type := E → option (raising (list byte)).

(** [translate( it, itEnd )] of a translator and the ones behind it, while [ex] is handled. *)
Fixpoint translate (m_translateFunction : ExceptionTranslator) (rest : list ExceptionTranslator) (ex : E)
    : raising (list byte) :=
  match match rest with [] => inl ex | t :: rest => translate t rest ex end with
  | inr text => inr text
  | inl thrown => match m_translateFunction thrown with Some result => result | None => inl thrown end
  end.

Record ExceptionTranslatorRegistry := mk_ExceptionTranslatorRegistry { m_translators : list ExceptionTranslator }.
Definition registerTranslator (translator : ExceptionTranslator) (r : ExceptionTranslatorRegistry)
    : ExceptionTranslatorRegistry := mk_ExceptionTranslatorRegistry (m_translators r ++ [translator]).
Definition tryTranslators (r : ExceptionTranslatorRegistry) (ex : E) : raising (list byte) :=
  match m_translators r with [] => inl ex | t :: rest => translate t rest ex end.

(** What the last resorts can tell an exception by. *)
Inductive caught_as :=
| TestFailureException
| std_exception (what : list byte)
| std_string (msg : list byte)
| c_string (msg : list byte)
| unknown.
Context (catch_as : E → caught_as).
Definition translateActiveException (r : ExceptionTranslatorRegistry) (ex : E) : raising (list byte) :=
  match tryTranslators r ex with
  | inr text => inr text
  | inl thrown =>
      match catch_as thrown with
      | TestFailureException => inl thrown
      | std_exception what => inr what
      | std_string msg => inr msg
      | c_string msg => inr msg
      | unknown => inr (str "Unknown exception")
      end
  end.

(** ** What was thrown before [main] *)
Record StartupExceptionRegistry := mk_StartupExceptionRegistry { m_exceptions : list E }.
Definition startup_add (exception : E) (r : StartupExceptionRegistry) : StartupExceptionRegistry :=
  mk_StartupExceptionRegistry (m_exceptions r ++ [exception]).
Definition getExceptions (r : StartupExceptionRegistry) : list E := m_exceptions r.
End exceptions.

(** * What is said of an exception

    Translators that do not throw themselves: the last one registered that knows the exception has its say. *)
Section properties.
Context {E : Type} (catch_as : E → caught_as).

Definition knows (f : E → option (list byte)) : ExceptionTranslator := λ e, inr <$> f e.
Fixpoint last_known (fs : list (E → option (list byte))) (ex : E) : option (list byte) :=
  match fs with
  | [] => None
  | f :: fs => match last_known fs ex with Some s => Some s | None => f ex end
  end.

Lemma translate_known f fs ex :
  translate (knows f) (knows <$> fs) ex = match last_known (f :: fs) ex with Some s => inr s | None => inl ex end.
Proof.
  revert f. induction fs as [|g fs IH]; intros f; cbn [translate fmap list_fmap last_known].
  - unfold knows. by destruct (f ex).
  - change (list_fmap _ _ knows fs) with (knows <$> fs). rewrite IH. cbn [last_known].
    destruct (last_known fs ex); [done|]. destruct (g ex); [done|]. unfold knows. by destruct (f ex).
Qed.

(** Property (error): of the translators that were registered, the last one that knows an exception says what it is,
    before Catch says so itself; only what Catch throws to end a test goes on, unless a translator knows
    even that. *)
Theorem last_translator_speaks (fs : list (E → option (list byte))) (ex : E) :
  translateActiveException catch_as
    (foldl (λ r f, registerTranslator (knows f) r) (mk_ExceptionTranslatorRegistry []) fs) ex =
  match last_known fs ex with
  | Some s => inr s
  | None => match catch_as ex with
            | TestFailureException => inl ex
            | std_exception s | std_string s | c_string s => inr s
            | unknown => inr (str "Unknown exception")
            end
  end.
Proof.
  assert (∀ r, m_translators (foldl (λ r f, registerTranslator (knows f) r) r fs) = m_translators r ++ (knows <$> fs)) as Hr.
  { induction fs as [|f fs IH]; intros r; cbn [foldl]; [by rewrite app_nil_r|]. rewrite IH. cbn. by rewrite <- app_assoc. }
  unfold translateActiveException, tryTranslators. rewrite Hr. cbn [m_translators app].
  destruct fs as [|f fs]; [cbn; by destruct (catch_as ex)|]. cbn [fmap list_fmap].
  change (list_fmap _ _ knows fs) with (knows <$> fs). rewrite translate_known.
  destruct (last_known (f :: fs) ex); [done|]. by destruct (catch_as ex).
Qed.
End properties.
