(* ===== verification/CatchAssertions.v ===== *)
(** * Catch: the assertion macros (catch_capture, catch_assertionhandler, catch_capture_matchers)

    An assertion is a handler, made where the macro stands, that is told how its expression ended and goes when
    the macro is left.  The expression is code of the test that may throw: exceptions are values of some type [E],
    what they are caught as a parameter, as in CatchExceptions.  The debugger is never broken into. *)
From stdpp Require Import strings list.
From S2P Require Import Prelude CatchString CatchTest CatchResult CatchTracker CatchRun CatchSections.
From S2P Require Import CatchRunProps CatchRunSections CatchToString CatchExceptions CatchCapture.

(** ** Code that may throw

    In any state; [E] is the type of what can be thrown. *)
Definition code (E S A : Type) : Type := S → outcome ((E + A) * S).
#[export] Instance code_ret E S : MRet (code E S) := λ A a s, Done (inr a, s).
#[export] Instance code_bind E S : MBind (code E S) := λ A B f m s,
  match m s with
  | Done (inr a, s') => f a s'
  | Done (inl e, s') => Done (inl e, s')
  | Assert_failed => Assert_failed
  | Undefined => Undefined
  end.
Definition raise {E S A} (e : E) : code E S A := λ s, Done (inl e, s).

(** ** AssertionHandler *)
Record AssertionHandler := mk_AssertionHandler {
  m_assertionInfo : AssertionInfo;
  m_reaction : AssertionReaction;
  m_completed : bool
}.
Definition new_handler (info : AssertionInfo) : AssertionHandler :=
  mk_AssertionHandler info (mk_AssertionReaction false false) false.

Section assertions.
Context {E : Type} (catch_as : E → caught_as) (translators : @ExceptionTranslatorRegistry E).
(** What [throw] makes of an exception of Catch's own, and the one that ends a test. *)
Context (of_exn : exn → E) (test_failure : E).

(** The code of a test, and of a macro while its handler exists. *)
Abbreviation test_code := (code E RunContext).
Abbreviation handling := (code E (RunContext * AssertionHandler)).

Definition evaluate {A} (c : test_code A) : handling A := λ '(r, h),
  match c r with
  | Done (a, r) => Done (a, (r, h))
  | Assert_failed => Assert_failed
  | Undefined => Undefined
  end.
(** A call of [m_resultCapture], which may fill in the reaction. *)
Definition tell (m : AssertionInfo → run (option AssertionReaction)) : handling unit := λ '(r, h),
  match m (m_assertionInfo h) r with
  | Done (inr None, r) => Done (inr tt, (r, h))
  | Done (inr (Some reaction), r) =>
      Done (inr tt, (r, mk_AssertionHandler (m_assertionInfo h) reaction (m_completed h)))
  | Done (inl e, r) => Done (inl (of_exn e), (r, h))
  | Assert_failed => Assert_failed
  | Undefined => Undefined
  end.

Definition handler_handleExpr (expr : ITransientExpression) : handling unit :=
  tell (λ info, handleExpr info expr).
Definition handler_handleMessage (resultType : Z) (message : list byte) : handling unit :=
  tell (λ info, handleMessage info resultType message).
Definition handler_allowThrows : handling bool := λ '(r, h),
  Done (inr (allowThrows (base_config (m_config r))), (r, h)).
Definition setCompleted : handling unit := λ '(r, h),
  Done (inr tt, (r, mk_AssertionHandler (m_assertionInfo h) (m_reaction h) true)).
Definition throw_if_asked : handling unit := λ '(r, h),
  Done (if shouldThrow (m_reaction h) then inl test_failure else inr tt, (r, h)).
Definition handler_complete : handling unit := _ ← setCompleted; throw_if_asked.

(** Translating an exception may throw it again. *)
Definition translate_active (ex : E) : handling (list byte) := λ s,
  Done (translateActiveException catch_as translators ex, s).
Definition handler_handleUnexpectedInflightException (ex : E) : handling unit :=
  text ← translate_active ex; tell (λ info, handleUnexpectedInflightException info text).
Definition handleExceptionThrownAsExpected : handling unit := tell (λ info, handleNonExpr info Ok).
Definition handleExceptionNotThrownAsExpected : handling unit := tell (λ info, handleNonExpr info Ok).
Definition handler_handleUnexpectedExceptionNotThrown : handling unit :=
  tell handleUnexpectedExceptionNotThrown.
Definition handleThrowingCallSkipped : handling unit := tell (λ info, handleNonExpr info Ok).

(** [MatchExpr<std::string, StringMatcher const&>]; a string matcher's text is never the unprintable one. *)
Definition string_match_expr (arg : list byte) (matcher : StringMatcher) : ITransientExpression :=
  mk_ITransientExpression (convert_string false arg ++ [x20] ++ describe matcher) (match_ matcher arg) true.
Definition handleExceptionMatchExpr (matcher : StringMatcher) (ex : E) : handling unit :=
  exceptionMessage ← translate_active ex; handler_handleExpr (string_match_expr exceptionMessage matcher).

(** [try { ... } catch( ... ) { ... }]: what is caught is in flight no more. *)
Definition try_catch (m : handling unit) (handle : E → handling unit) : handling unit := λ s,
  match m s with
  | Done (inl e, (r, h)) => handle e (set_uncaught false r, h)
  | o => o
  end.

(** The block of a macro: the handler's destructor reports an assertion that was not completed, and must not
    throw. *)
Definition with_handler (info : AssertionInfo) (m : handling unit) : test_code unit := λ r,
  match m (r, new_handler info) with
  | Done (how, (r, h)) =>
      if m_completed h then Done (how, r)
      else
        let r := match how with inl _ => set_uncaught true r | inr _ => r end in
        match handleIncomplete info r with
        | Done (inr _, r) => Done (how, r)
        | Done (inl _, _) => Assert_failed
        | Assert_failed => Assert_failed
        | Undefined => Undefined
        end
  | Assert_failed => Assert_failed
  | Undefined => Undefined
  end.

(** ** The macros *)
Definition INTERNAL_CATCH_TEST (info : AssertionInfo) (expr : test_code ITransientExpression) : test_code unit :=
  with_handler info (
    _ ← try_catch (e ← evaluate expr; handler_handleExpr e) handler_handleUnexpectedInflightException;
    handler_complete).

(** [CHECKED_IF( ... ) { then_ } else { else_ }]; [CHECKED_ELSE] swaps the two. *)
Definition lastAssertionPassed : test_code bool := λ r, Done (inr (m_lastAssertionPassed r), r).
Definition INTERNAL_CATCH_IF (info : AssertionInfo) (expr : test_code ITransientExpression)
    (then_ else_ : test_code unit) : test_code unit :=
  _ ← INTERNAL_CATCH_TEST info expr;
  passed ← lastAssertionPassed;
  if (passed : bool) then then_ else else_.
Definition INTERNAL_CATCH_ELSE (info : AssertionInfo) (expr : test_code ITransientExpression)
    (then_ else_ : test_code unit) : test_code unit :=
  _ ← INTERNAL_CATCH_TEST info expr;
  passed ← lastAssertionPassed;
  if negb passed then then_ else else_.

Definition INTERNAL_CATCH_NO_THROW (info : AssertionInfo) (expr : test_code unit) : test_code unit :=
  with_handler info (
    _ ← try_catch (_ ← evaluate expr; handleExceptionNotThrownAsExpected)
          handler_handleUnexpectedInflightException;
    handler_complete).

(** The macros that want an exception, and what they do with it. *)
Definition expecting (handle : E → handling unit) (info : AssertionInfo) (expr : test_code unit) : test_code unit :=
  with_handler info (
    _ ← (allowed ← handler_allowThrows;
         if (allowed : bool)
         then try_catch (_ ← evaluate expr; handler_handleUnexpectedExceptionNotThrown) handle
         else handleThrowingCallSkipped);
    handler_complete).
Definition INTERNAL_CATCH_THROWS := expecting (λ _, handleExceptionThrownAsExpected).

(** [catch( exceptionType const& )]: which exceptions are of the type. *)
Definition INTERNAL_CATCH_THROWS_AS (exceptionType : E → bool) :=
  expecting (λ ex, if exceptionType ex then handleExceptionThrownAsExpected
                   else handler_handleUnexpectedInflightException ex).
Definition INTERNAL_CATCH_THROWS_STR_MATCHES (matcher : StringMatcher) :=
  expecting (handleExceptionMatchExpr matcher).
(** [makeMatchExpr( ex, matcher, ... )] is the expression [match_expr ex]. *)
Definition INTERNAL_CATCH_THROWS_MATCHES (exceptionType : E → bool) (match_expr : E → ITransientExpression) :=
  expecting (λ ex, if exceptionType ex then handler_handleExpr (match_expr ex)
                   else handler_handleUnexpectedInflightException ex).
Definition INTERNAL_CHECK_THAT := INTERNAL_CATCH_TEST.

Definition INTERNAL_CATCH_MSG (info : AssertionInfo) (messageType : Z) (message : list byte) : test_code unit :=
  with_handler info (_ ← handler_handleMessage messageType message; handler_complete).

(** How the test's function sees what leaves its code; what a translator throws is not followed further. *)
Definition as_body (c : test_code unit) : body := λ r,
  match c r with
  | Done (inr _, r) => Done (Returned, r)
  | Done (inl e, r) =>
      match catch_as e, translateActiveException catch_as translators e with
      | TestFailureException, _ => Done (Test_failure, r)
      | _, inr text => Done (Threw text, r)
      | _, inl _ => Undefined
      end
  | Assert_failed => Assert_failed
  | Undefined => Undefined
  end.
End assertions.

(** * What an assertion comes to

    Each macro settles one assertion: how its expression ended says as what. *)
Section verdicts.
Context {E : Type} (catch_as : E → caught_as) (translators : @ExceptionTranslatorRegistry E).
Context (of_exn : exn → E) (test_failure : E).
Abbreviation test_code := (code E RunContext).

Inductive macro :=
| Test (expr : test_code ITransientExpression)
| No_throw (expr : test_code unit)
| Throws (expr : test_code unit)
| Throws_as (exceptionType : E → bool) (expr : test_code unit)
| Throws_with (matcher : StringMatcher) (expr : test_code unit)
| Throws_matches (exceptionType : E → bool) (match_expr : E → ITransientExpression) (expr : test_code unit)
| Message (messageType : Z) (message : list byte).

Definition assertion (info : AssertionInfo) (m : macro) : test_code unit :=
  match m with
  | Test expr => INTERNAL_CATCH_TEST catch_as translators of_exn test_failure info expr
  | No_throw expr => INTERNAL_CATCH_NO_THROW catch_as translators of_exn test_failure info expr
  | Throws expr => INTERNAL_CATCH_THROWS of_exn test_failure info expr
  | Throws_as ty expr => INTERNAL_CATCH_THROWS_AS catch_as translators of_exn test_failure ty info expr
  | Throws_with matcher expr =>
      INTERNAL_CATCH_THROWS_STR_MATCHES catch_as translators of_exn test_failure matcher info expr
  | Throws_matches ty match_expr expr =>
      INTERNAL_CATCH_THROWS_MATCHES catch_as translators of_exn test_failure ty match_expr info expr
  | Message ty text => INTERNAL_CATCH_MSG of_exn test_failure info ty text
  end.

(** A type of result, or an exception that the macro does not keep to itself. *)
Inductive fate := Verdict (type : Z) | Escapes (e : E).

Definition judged (info : AssertionInfo) (expr : ITransientExpression) : fate :=
  Verdict (if Bool.eqb (getResult expr) (isFalseTest (resultDisposition info)) then ExpressionFailed else Ok).
Definition unexpected (ex : E) : fate :=
  match translateActiveException catch_as translators ex with inr _ => Verdict ThrewException | inl e => Escapes e end.

Definition on_value (info : AssertionInfo) (m : macro) (value : option ITransientExpression) : fate :=
  match m, value with
  | Test _, Some expr => judged info expr
  | (Throws _ | Throws_as _ _ | Throws_with _ _ | Throws_matches _ _ _), _ => Verdict DidntThrowException
  | _, _ => Verdict Ok
  end.
Definition on_exception (info : AssertionInfo) (m : macro) (ex : E) : fate :=
  match m with
  | Throws _ => Verdict Ok
  | Throws_as ty _ => if ty ex then Verdict Ok else unexpected ex
  | Throws_matches ty match_expr _ => if ty ex then judged info (match_expr ex) else unexpected ex
  | Throws_with matcher _ =>
      match translateActiveException catch_as translators ex with
      | inr text => judged info (string_match_expr text matcher)
      | inl e => Escapes e
      end
  | _ => unexpected ex
  end.

(** The fate of a macro, and the state its expression leaves - in which nothing is in flight any more.  The
    expression is left out where exceptions are wanted but not allowed. *)
Definition ended {A} (expr : test_code A) (value : A → fate) (exception : E → fate) (r : RunContext)
    : option (fate * RunContext) :=
  match expr r with
  | Done (inr a, r) => Some (value a, r)
  | Done (inl ex, r) => Some (exception ex, set_uncaught false r)
  | _ => None
  end.
Definition fate_of (info : AssertionInfo) (m : macro) (r : RunContext) : option (fate * RunContext) :=
  match m with
  | Test expr => ended expr (λ e, on_value info m (Some e)) (on_exception info m) r
  | No_throw expr => ended expr (λ _, on_value info m None) (on_exception info m) r
  | Throws expr | Throws_as _ expr | Throws_with _ expr | Throws_matches _ _ expr =>
      if allowThrows (base_config (m_config r))
      then ended expr (λ _, on_value info m None) (on_exception info m) r else Some (Verdict Ok, r)
  | Message ty _ => Some (Verdict ty, r)
  end.

(** ** Settling one assertion *)
Definition of_type (info : AssertionInfo) (ty : Z) : AssertionResult := make_result info ty false [].
Record settles (t : TestCaseInfo) (info : AssertionInfo) (ty : Z) (r r' : RunContext) : Prop := {
  s_totals : m_totals r' = mk_Totals (error (m_totals r)) (counted t (of_type info ty) (assertions (m_totals r)))
               (testCases (m_totals r));
  s_passed : m_lastAssertionPassed r' = result_isOk (of_type info ty);
  s_config : m_config r' = m_config r;
  s_test : m_activeTestCase r' = m_activeTestCase r;
  s_tracker : m_testCaseTracker r' = m_testCaseTracker r;
  s_trackers : m_trackerContext r' = m_trackerContext r;
  s_active : m_activeSections r' = m_activeSections r;
  s_unfinished : m_unfinishedSections r' = m_unfinishedSections r
}.

Lemma counted_type t result ty info : m_info result = info → getResultType result = ty →
  counted t result = counted t (of_type info ty) ∧ result_isOk result = result_isOk (of_type info ty).
Proof.
  intros <- <-. unfold counted, result_isOk, getResultType. by destruct result.
Qed.

(** An assertion that ends in a state prepared for it. *)
Lemma assertionEnded_settles t info ty result r : m_info result = info → getResultType result = ty →
  m_activeTestCase r = Some t → m_lastAssertionInfo r = info →
  ∃ r', assertionEnded result r = Done (inr tt, r') ∧ settles t info ty r r' ∧
    resultDisposition (m_lastAssertionInfo r') = resultDisposition info.
Proof.
  intros Hi Hty Ht Hl. destruct (assertionEnded_eq result r t Ht) as (n & messages & He & _).
  destruct (counted_type t result ty info Hi Hty) as [Hc Hok].
  eexists. split; [exact He|]. unfold after_report, after_count.
  destruct (decide _); (split; [split; cbn; rewrite ?Hc, ?Hok; done|cbn; by rewrite Hl]).
Qed.

(** Whether the handler of a result is told to react. *)
Definition reacts (info : AssertionInfo) (ty : Z) : bool :=
  bool_decide (ty = ExpressionFailed) || bool_decide (ty = ThrewException) || negb (result_isOk (of_type info ty)).
Definition reaction_to (info : AssertionInfo) (ty : Z) (r : RunContext) : option AssertionReaction :=
  if reacts info ty then Some (mk_AssertionReaction (config_debugBreak (m_config r))
    (aborting r || bool_decide (Z.land (resultDisposition info) Normal ≠ 0))) else None.
Definition concludes (t : TestCaseInfo) (info : AssertionInfo) (ty : Z) (r : RunContext)
    (o : outcome (throwing (option AssertionReaction) * RunContext)) : Prop :=
  ∃ r', o = Done (inr (reaction_to info ty r'), r') ∧ settles t info ty r r'.

Lemma populate_eq info r : resultDisposition (m_lastAssertionInfo r) = resultDisposition info →
  populate r = Done (inr (Some (mk_AssertionReaction (config_debugBreak (m_config r))
    (aborting r || bool_decide (Z.land (resultDisposition info) Normal ≠ 0)))), r).
Proof. intros H. unfold populate. eapply ex_step; [reflexivity|]. unfold populateReaction. by rewrite H. Qed.

Lemma settles_from t info ty r0 r r' : m_totals r0 = m_totals r → m_config r0 = m_config r →
  m_activeTestCase r0 = m_activeTestCase r → m_testCaseTracker r0 = m_testCaseTracker r →
  m_trackerContext r0 = m_trackerContext r →
  m_activeSections r0 = m_activeSections r → m_unfinishedSections r0 = m_unfinishedSections r →
  settles t info ty r0 r' → settles t info ty r r'.
Proof. intros H1 H2 H3 H4 H5 H6 H7 []. split; congruence. Qed.

Lemma handleNonExpr_concludes t info ty r : m_activeTestCase r = Some t → ty ≠ ExpressionFailed →
  ty ≠ ThrewException → concludes t info ty r (handleNonExpr info ty r).
Proof.
  intros Ht H1 H2.
  destruct (assertionEnded_settles t info ty (of_type info ty) (set_lastAssertionInfo info r))
    as (r' & He & Hs & Hd); [done..|].
  exists r'. split; [|by apply (settles_from _ _ _ (set_lastAssertionInfo info r))].
  unfold handleNonExpr. eapply ex_step; [reflexivity|]. cbv zeta. eapply ex_step; [exact He|].
  unfold reaction_to, reacts. rewrite !bool_decide_eq_false_2 by done. cbn [orb].
  change (make_result info ty false []) with (of_type info ty).
  destruct (negb _); [by apply populate_eq|done].
Qed.

Lemma handleMessage_concludes t info ty text r : m_activeTestCase r = Some t → ty ≠ ExpressionFailed →
  ty ≠ ThrewException → concludes t info ty r (handleMessage info ty text r).
Proof.
  intros Ht H1 H2. set (r1 := set_lastAssertionInfo info (report (assertionStarting info) r)).
  destruct (assertionEnded_settles t info ty (make_result info ty false text) r1) as (r' & He & Hs & Hd); [done..|].
  exists r'. split; [|by apply (settles_from _ _ _ r1)].
  unfold handleMessage. do 2 (eapply ex_step; [reflexivity|]). cbv zeta. eapply ex_step; [exact He|].
  unfold reaction_to, reacts. rewrite !bool_decide_eq_false_2 by done. cbn [orb].
  assert (result_isOk (make_result info ty false text) = result_isOk (of_type info ty)) as -> by done.
  destruct (negb _); [by apply populate_eq|done].
Qed.

Lemma inflight_concludes t info text r : m_activeTestCase r = Some t →
  concludes t info ThrewException r (handleUnexpectedInflightException info text r).
Proof.
  intros Ht. set (r1 := set_lastAssertionInfo info r).
  destruct (assertionEnded_settles t info ThrewException (make_result info ThrewException false text) r1)
    as (r' & He & Hs & Hd); [done..|].
  exists r'. split; [|by apply (settles_from _ _ _ r1)].
  unfold handleUnexpectedInflightException. eapply ex_step; [reflexivity|]. eapply ex_step; [exact He|].
  by apply populate_eq.
Qed.

Lemma handleIncomplete_settles t info r : m_activeTestCase r = Some t →
  ∃ r', handleIncomplete info r = Done (inr tt, r') ∧ settles t info ThrewException r r'.
Proof.
  intros Ht. set (r1 := set_lastAssertionInfo info r).
  destruct (assertionEnded_settles t info ThrewException (make_result info ThrewException false
    (str "Exception translation was disabled by CATCH_CONFIG_FAST_COMPILE")) r1) as (r' & He & Hs & Hd); [done..|].
  exists r'. split; [|by apply (settles_from _ _ _ r1)].
  unfold handleIncomplete. eapply ex_step; [reflexivity|]. exact He.
Qed.

Definition type_judged (info : AssertionInfo) (expr : ITransientExpression) : Z :=
  if Bool.eqb (getResult expr) (isFalseTest (resultDisposition info)) then ExpressionFailed else Ok.

Lemma handleExpr_concludes t info expr r : m_activeTestCase r = Some t →
  concludes t info (type_judged info expr) r (handleExpr info expr r).
Proof.
  intros Ht. set (r1 := report (assertionStarting info) r). unfold type_judged.
  set (negated := isFalseTest (resultDisposition info)).
  assert (∀ ty, ∃ r', reportExpr info ty expr negated r1 = Done (inr tt, r') ∧ settles t info ty r1 r' ∧
    resultDisposition (m_lastAssertionInfo r') = resultDisposition info) as Hreport.
  { intros ty. destruct (assertionEnded_settles t info ty (mk_AssertionResult info (mk_AssertionResultData [] []
      (mk_LazyExpression (Some expr) negated) ty)) (set_lastAssertionInfo info r1)) as (r' & He & Hs & Hd); [done..|].
    exists r'. split; [|split; [|exact Hd]].
    - unfold reportExpr. eapply ex_step; [reflexivity|]. exact He.
    - by apply (settles_from _ _ _ (set_lastAssertionInfo info r1)). }
  destruct (Bool.eqb (getResult expr) negated) eqn:Heq.
  - destruct (Hreport ExpressionFailed) as (r' & He & Hs & Hd).
    exists r'. split; [|by apply (settles_from _ _ _ r1)].
    unfold handleExpr. eapply ex_step; [reflexivity|]. cbv zeta. fold negated. rewrite Heq. cbn [negb].
    eapply ex_step; [exact He|]. by apply populate_eq.
  - assert (∀ r', reaction_to info Ok r' = None) as Hno by done.
    unfold handleExpr. destruct (m_includeSuccessfulResults r1) eqn:Ei.
    + destruct (Hreport Ok) as (r' & He & Hs & Hd).
      exists r'. split; [|by apply (settles_from _ _ _ r1)]. rewrite Hno.
      eapply ex_step; [reflexivity|]. cbv zeta. fold negated. rewrite Heq. cbn [negb].
      eapply ex_step; [reflexivity|]. fold r1. rewrite Ei. cbn [negb]. eapply ex_step; [exact He|]. done.
    + exists (cleared (reset_info (set_assertions count_passed (set_lastAssertionPassed true r1)))). split.
      * rewrite Hno. eapply ex_step; [reflexivity|]. cbv zeta. fold negated. rewrite Heq. cbn [negb].
        eapply ex_step; [reflexivity|]. fold r1. rewrite Ei. cbn [negb].
        eapply ex_step; [|reflexivity]. unfold assertionPassed. do 3 (eapply ex_step; [reflexivity|]).
        apply clear_messageScopes_eq.
      * by split.
Qed.

(** ** The block of a macro *)
Lemma code_step {S A B} (m : code E S A) (f : A → code E S B) s a s' o :
  m s = Done (inr a, s') → f a s' = o → (m ≫= f) s = o.
Proof. intros H <-. unfold mbind, code_bind. by rewrite H. Qed.
Lemma code_throws {S A B} (m : code E S A) (f : A → code E S B) s e s' :
  m s = Done (inl e, s') → (m ≫= f) s = Done (inl e, s').
Proof. intros H. unfold mbind, code_bind. by rewrite H. Qed.

(** What is left of the block of a macro that settles its assertion, up to completion. *)
Definition settled_block (t : TestCaseInfo) (info : AssertionInfo) (ty : Z) (r : RunContext)
    (o : outcome ((E + unit) * (RunContext * AssertionHandler))) : Prop :=
  ∃ r', o = Done (inr tt, (r', mk_AssertionHandler info
    (default (mk_AssertionReaction false false) (reaction_to info ty r')) false)) ∧ settles t info ty r r'.

Lemma tell_settles m t info ty r : concludes t info ty r (m info r) →
  settled_block t info ty r (tell of_exn m (r, new_handler info)).
Proof.
  intros (r' & Hm & Hs). exists r'. split; [|done]. unfold tell. cbn. rewrite Hm. by destruct (reaction_to _ _ _).
Qed.

(** How the macro is left. *)
Definition left_as (info : AssertionInfo) (ty : Z) (r : RunContext) : E + unit :=
  if reacts info ty && (aborting r || bool_decide (Z.land (resultDisposition info) Normal ≠ 0))
  then inl test_failure else inr tt.

Lemma with_handler_settled t info ty r1 r (m : code E (RunContext * AssertionHandler) unit) : settled_block t info ty r1 (m (r, new_handler info)) →
  ∃ r', with_handler info (_ ← m; handler_complete test_failure) r = Done (left_as info ty r', r') ∧
    settles t info ty r1 r'.
Proof.
  intros (r' & Hm & Hs). exists r'. split; [|done]. unfold with_handler, handler_complete.
  rewrite (code_step _ _ _ _ _ _ Hm eq_refl). cbn.
  unfold left_as, reaction_to. destruct (reacts info ty); [|done]. cbn. by destruct (aborting r' || _).
Qed.

Lemma with_handler_escapes t info e r1 r (m : code E (RunContext * AssertionHandler) unit) : m (r, new_handler info) = Done (inl e, (r1, new_handler info)) →
  m_activeTestCase r1 = Some t →
  ∃ r', with_handler info (_ ← m; handler_complete test_failure) r = Done (inl e, r') ∧
    settles t info ThrewException r1 r'.
Proof.
  intros Hm Ht. destruct (handleIncomplete_settles t info (set_uncaught true r1) Ht) as (r' & Hi & Hs).
  exists r'. split; [|by apply (settles_from _ _ _ (set_uncaught true r1))].
  unfold with_handler. rewrite (code_throws _ _ _ _ _ Hm). cbn. by rewrite Hi.
Qed.

(** A block that meets its fate. *)
Definition meets (t : TestCaseInfo) (info : AssertionInfo) (f : fate) (r : RunContext)
    (o : outcome ((E + unit) * (RunContext * AssertionHandler))) : Prop :=
  match f with
  | Verdict ty => settled_block t info ty r o
  | Escapes e => o = Done (inl e, (r, new_handler info))
  end.
Lemma with_handler_meets t info f r1 r (m : code E (RunContext * AssertionHandler) unit) : meets t info f r1 (m (r, new_handler info)) →
  m_activeTestCase r1 = Some t →
  ∃ r', with_handler info (_ ← m; handler_complete test_failure) r =
      Done (match f with Verdict ty => left_as info ty r' | Escapes e => inl e end, r') ∧
    settles t info (match f with Verdict ty => ty | Escapes _ => ThrewException end) r1 r'.
Proof. destruct f as [ty|e]; intros Hm Ht; [by apply with_handler_settled|by apply with_handler_escapes]. Qed.

Lemma unexpected_meets t info ex r : m_activeTestCase r = Some t → meets t info (unexpected ex) r
  (handler_handleUnexpectedInflightException catch_as translators of_exn ex (r, new_handler info)).
Proof.
  intros Ht. unfold unexpected, handler_handleUnexpectedInflightException, translate_active.
  unfold mbind, code_bind. destruct (translateActiveException _ _ _) as [e|text]; [done|].
  apply tell_settles. by apply inflight_concludes.
Qed.
Lemma judged_meets t info expr r : m_activeTestCase r = Some t →
  meets t info (judged info expr) r (handler_handleExpr of_exn expr (r, new_handler info)).
Proof. intros Ht. apply tell_settles. by apply handleExpr_concludes. Qed.
Lemma nonExpr_meets t info ty r : m_activeTestCase r = Some t → ty ≠ ExpressionFailed → ty ≠ ThrewException →
  meets t info (Verdict ty) r (tell of_exn (λ info, handleNonExpr info ty) (r, new_handler info)).
Proof. intros. apply tell_settles. by apply handleNonExpr_concludes. Qed.

(** [try] and [catch] around an expression. *)
Lemma try_meets {A} t info (expr : test_code A) value exception after handle r f r1 :
  ended expr value exception r = Some (f, r1) → m_activeTestCase r1 = Some t →
  (∀ a r, m_activeTestCase r = Some t → meets t info (value a) r (after a (r, new_handler info)) ∧
     ∃ ty, value a = Verdict ty) →
  (∀ ex r, m_activeTestCase r = Some t → meets t info (exception ex) r (handle ex (r, new_handler info))) →
  meets t info f r1 (try_catch (a ← evaluate expr; after a) handle (r, new_handler info)).
Proof.
  intros He Ht Hv Hx. unfold ended in He. unfold try_catch, mbind, code_bind, evaluate.
  destruct (expr r) as [[[ex|a] r0]| |]; [| |done..]; injection He as <- <-; [by apply Hx|].
  destruct (Hv a r0 Ht) as [Hm [ty Hty]]. rewrite Hty in *. destruct Hm as (r' & Hm & Hs).
  exists r'. by rewrite Hm.
Qed.

(** The macros that want an exception. *)
Lemma expecting_meets t info (expr : test_code unit) exception handle r f r1 :
  (if allowThrows (base_config (m_config r)) then ended expr (λ _, Verdict DidntThrowException) exception r
   else Some (Verdict Ok, r)) = Some (f, r1) →
  m_activeTestCase r1 = Some t →
  (∀ ex r, m_activeTestCase r = Some t → meets t info (exception ex) r (handle ex (r, new_handler info))) →
  ∃ r', expecting of_exn test_failure handle info expr r =
      Done (match f with Verdict ty => left_as info ty r' | Escapes e => inl e end, r') ∧
    settles t info (match f with Verdict ty => ty | Escapes _ => ThrewException end) r1 r'.
Proof.
  intros He Ht Hx. apply with_handler_meets; [|exact Ht]. unfold handler_allowThrows, mbind at 1, code_bind at 1.
  destruct (allowThrows _); [|injection He as <- <-; by apply nonExpr_meets].
  eapply try_meets; [exact He|exact Ht| |exact Hx].
  intros [] r0 Ht0. split; [|by eexists]. by apply nonExpr_meets.
Qed.

Definition plain (m : macro) : Prop :=
  match m with Message ty _ => ty ≠ ExpressionFailed ∧ ty ≠ ThrewException | _ => True end.

(** C13 (error): an assertion macro settles exactly one assertion, with the result its expression's end asks
    for: a value, no exception, one of the type or with the text that was wanted, or one that was not.  It
    counts that result once and leaves sections and trackers alone; a failure ends the test if it was required
    or the run is to be aborted.  Only an exception that its translation throws again - the end of the test,
    from an assertion inside this one - goes on, counted as a failure. *)
Theorem assertion_settles info m r f r1 t :
  fate_of info m r = Some (f, r1) → m_activeTestCase r1 = Some t → plain m →
  ∃ r', assertion info m r = Done (match f with Verdict ty => left_as info ty r' | Escapes e => inl e end, r') ∧
    settles t info (match f with Verdict ty => ty | Escapes _ => ThrewException end) r1 r'.
Proof.
  intros Hf Ht Hp. destruct m as [expr|expr|expr|ty expr|matcher expr|ty match_expr expr|ty text]; cbn [assertion].
  - apply with_handler_meets; [|exact Ht]. eapply try_meets; [exact Hf|exact Ht| |].
    + intros e r0 Ht0. split; [by apply judged_meets|by eexists].
    + intros. by apply unexpected_meets.
  - apply with_handler_meets; [|exact Ht]. eapply try_meets; [exact Hf|exact Ht| |].
    + intros [] r0 Ht0. split; [by apply nonExpr_meets|by eexists].
    + intros. by apply unexpected_meets.
  - eapply expecting_meets; [exact Hf|exact Ht|]. intros. by apply nonExpr_meets.
  - eapply expecting_meets; [exact Hf|exact Ht|]. intros ex r0 Ht0. cbn [on_exception].
    destruct (ty ex); [by apply nonExpr_meets|by apply unexpected_meets].
  - eapply expecting_meets; [exact Hf|exact Ht|]. intros ex r0 Ht0. cbn [on_exception].
    unfold handleExceptionMatchExpr, translate_active, mbind, code_bind.
    destruct (translateActiveException _ _ _) as [e|text]; [done|by apply judged_meets].
  - eapply expecting_meets; [exact Hf|exact Ht|]. intros ex r0 Ht0. cbn [on_exception].
    destruct (ty ex); [by apply judged_meets|by apply unexpected_meets].
  - injection Hf as <- <-. destruct Hp. apply with_handler_settled. apply tell_settles.
    by apply handleMessage_concludes.
Qed.

(** [CHECKED_IF] and [CHECKED_ELSE]: which block is run is settled by the assertion. *)
Lemma checked_branches info expr e r r1 t then_ else_ : expr r = Done (inr e, r1) → m_activeTestCase r1 = Some t →
  Z.land (resultDisposition info) Normal = 0 →
  ∃ r2, settles t info (type_judged info e) r1 r2 ∧
    (aborting r2 = false →
     INTERNAL_CATCH_IF catch_as translators of_exn test_failure info expr then_ else_ r =
       (if result_isOk (of_type info (type_judged info e)) then then_ else else_) r2 ∧
     INTERNAL_CATCH_ELSE catch_as translators of_exn test_failure info expr then_ else_ r =
       (if result_isOk (of_type info (type_judged info e)) then else_ else then_) r2).
Proof.
  intros He Ht Hd. destruct (with_handler_meets t info (judged info e) r1 r
    (try_catch (e ← evaluate expr; handler_handleExpr of_exn e)
       (handler_handleUnexpectedInflightException catch_as translators of_exn))) as (r2 & Hm & Hs); [|exact Ht|].
  { eapply try_meets; [unfold ended; by rewrite He|exact Ht| |].
    - intros a r0 Ht0. split; [by apply judged_meets|by eexists].
    - intros ex r0 Ht0. by apply unexpected_meets. }
  exists r2. split; [exact Hs|]. intros Hab.
  assert (INTERNAL_CATCH_TEST catch_as translators of_exn test_failure info expr r = Done (inr tt, r2)) as Htest.
  { unfold INTERNAL_CATCH_TEST. rewrite Hm. cbn [judged]. unfold left_as. rewrite Hab, Hd. cbn.
    by rewrite andb_false_r. }
  split; (eapply code_step; [exact Htest|]; eapply code_step; [reflexivity|]); cbv beta;
    rewrite (s_passed _ _ _ _ _ Hs); fold (type_judged info e); by destruct (result_isOk _).
Qed.
End verdicts.

(** ** Assertions in assertions

    What a test may throw, for the examples. *)
Inductive thrown := Test_ended | Other_exception (what : list byte) | Unknown_exception.
Definition thrown_as (e : thrown) : caught_as :=
  match e with Test_ended => TestFailureException | Other_exception s => std_exception s | Unknown_exception => unknown end.
Definition no_translators : @ExceptionTranslatorRegistry thrown := mk_ExceptionTranslatorRegistry [].
Abbreviation REQUIRE_macro := (assertion thrown_as no_translators (λ _, Unknown_exception) Test_ended no_assertion).

Definition false_expr : ITransientExpression := mk_ITransientExpression (str "1 == 2") false true.
Definition failing_require : code thrown RunContext unit := REQUIRE_macro (Test (λ r, Done (inr false_expr, r))).
Definition outcome_of (o : outcome ((thrown + unit) * RunContext)) : option (bool * Counts) :=
  match o with
  | Done (how, r) => Some (match how with inl _ => false | inr _ => true end, assertions (m_totals r))
  | _ => None
  end.
Definition example_run : RunContext := set_activeTestCase (Some passing_info) (make_run_context quiet_config).

(** A required check that fails where an exception is wanted is that exception: the test goes on. *)
Lemma failure_taken_for_exception :
  outcome_of (failing_require example_run) = Some (false, mk_Counts 0 1 0) ∧
  outcome_of (REQUIRE_macro (Throws failing_require) example_run) = Some (true, mk_Counts 1 1 0).
Proof. split; vm_compute; reflexivity. Qed.

(** Where none is wanted it counts as a second failure, one that blames a way of compiling that was not used. *)
Lemma failure_counted_twice :
  outcome_of (REQUIRE_macro (No_throw failing_require) example_run) = Some (false, mk_Counts 0 2 0) ∧
  match REQUIRE_macro (No_throw failing_require) example_run with
  | Done (_, r) => match rev (m_reporter r) with
                   | assertionEnded_ stats :: _ => message (m_resultData (assertionResult stats)) =
                       str "Exception translation was disabled by CATCH_CONFIG_FAST_COMPILE"
                   | _ => False
                   end
  | _ => False
  end.
Proof. split; vm_compute; reflexivity. Qed.

Definition other_exception (e : thrown) : bool := match e with Other_exception _ => true | _ => false end.
Lemma assertion_settles_witness : ∃ r',
  REQUIRE_macro (Throws_as other_exception (raise (Other_exception (str "full")))) example_run = Done (inr tt, r') ∧
  assertions (m_totals r') = mk_Counts 1 0 0.
Proof.
  destruct (assertion_settles thrown_as no_translators (λ _, Unknown_exception) Test_ended no_assertion
    (Throws_as other_exception (raise (Other_exception (str "full")))) example_run (Verdict Ok)
    example_run passing_info) as (r' & E & Hs); [reflexivity|reflexivity|exact I|].
  exists r'. split; [exact E|]. destruct Hs as [Ht _ _ _ _ _ _ _]. rewrite Ht. reflexivity.
Defined.
