(* ===== verification/CatchGenerate.v ===== *)
(** * Catch: GENERATE in a test case (catch_generators, GeneratorTracker)

    A test case that takes values from generators is run once for each combination of them.  A test's use of
    generators is a tree: after [GENERATE] gave a value, the rest of the test may use other generators, which
    may depend on that value.  The trackers keep a generator by what its [next()] will answer. *)
From stdpp Require Import strings list.
From S2P Require Import Prelude CatchString CatchTest CatchResult CatchTracker CatchGenerators.
From S2P Require Import CatchGeneratorsProps CatchRun CatchSections CatchRunProps CatchRunSections.

(** ** GENERATE

    What a new generator of [n] values will answer; which of them it is at, by the answers left. *)
Definition answers (n : nat) : list bool := replicate (n - 1) true ++ [false].
Definition hasGenerator (t : TrackerBase) : ex TrackerContext bool :=
  match m_kind t with
  | SectionTracker _ => ex_undefined
  | GeneratorTracker g => mret (bool_decide (is_Some g))
  end.
Definition generator_at (n i : nat) : ex TrackerContext nat :=
  t ← get_tracker i;
  has ← hasGenerator t;
  _ ← (if (has : bool) then mret tt else setGenerator (answers n) i);
  t ← get_tracker i;
  match m_kind t with
  | GeneratorTracker (Some more) => mret (n - length more)%nat
  | _ => ex_undefined
  end.
Definition generator_name (lineInfo : SourceLineInfo) : NameAndLocation :=
  mk_NameAndLocation (str "generator") lineInfo.

Section trees.
Context {V : Type}.

(** What is left of a test: nothing, or a generator and for each of its values the value and what is left then. *)
Inductive gtree := Leaf | Gen (lineInfo : SourceLineInfo) (alts : list (V * gtree)).

Fixpoint paths (g : gtree) : list (list V) :=
  match g with
  | Leaf => [[]]
  | Gen _ alts =>
      (fix all (alts : list (V * gtree)) : list (list V) :=
         match alts with [] => [] | (x, sub) :: alts => List.map (cons x) (paths sub) ++ all alts end) alts
  end.
Fixpoint all_paths (alts : list (V * gtree)) : list (list V) :=
  match alts with [] => [] | (x, sub) :: alts => List.map (cons x) (paths sub) ++ all_paths alts end.

(** A generator has values. *)
Fixpoint inhabited (g : gtree) : Prop :=
  match g with
  | Leaf => True
  | Gen _ alts => alts ≠ [] ∧
      (fix all (alts : list (V * gtree)) : Prop :=
         match alts with [] => True | (_, sub) :: alts => inhabited sub ∧ all alts end) alts
  end.
Fixpoint height (g : gtree) : nat :=
  match g with
  | Leaf => 0
  | Gen _ alts => S
      ((fix all (alts : list (V * gtree)) : nat :=
         match alts with [] => 0%nat | (_, sub) :: alts => Nat.max (height sub) (all alts) end) alts)
  end.

Section run.
Context (depth : nat).

(** What a cycle does with it: the values it is given. *)
Fixpoint run_gtree (g : gtree) : ex TrackerContext (list V) :=
  match g with
  | Leaf => mret []
  | Gen lineInfo alts =>
      i ← acquire_generator depth (generator_name lineInfo);
      t ← get_tracker i;
      _ ← ex_assert (isOpen t);
      n ← generator_at (length alts) i;
      (fix pick (n : nat) (alts : list (V * gtree)) {struct alts} : ex TrackerContext (list V) :=
         match alts with
         | [] => ex_undefined
         | (x, sub) :: alts =>
             match n with O => l ← run_gtree sub; mret (x :: l) | S n => pick n alts end
         end) n alts
  end.

(** The loop of [runTest], with fuel; each cycle with the values it was given. *)
Fixpoint run_gen_cycles (fuel : nat) (nl : NameAndLocation) (g : gtree) : ex TrackerContext (list (list V)) :=
  match fuel with
  | O => ex_undefined
  | S fuel =>
      _ ← startCycle;
      i ← acquire depth nl;
      l ← run_gtree g;
      _ ← tracker_close depth i;
      t ← get_tracker i;
      if isSuccessfullyCompleted t then mret [l]
      else rest ← run_gen_cycles fuel nl g; mret (l :: rest)
  end.
End run.

(** ** Trees *)
Lemma gtree_ind' (P : gtree → Prop) : P Leaf →
  (∀ lineInfo alts, Forall (λ a, P a.2) alts → P (Gen lineInfo alts)) → ∀ g, P g.
Proof.
  intros HL HG. fix IH 1. intros [|lineInfo alts]; [exact HL|]. apply HG.
  induction alts as [|[x sub] alts IHa]; constructor; [apply IH|exact IHa].
Qed.

Lemma paths_Gen lineInfo alts : paths (Gen lineInfo alts) = all_paths alts.
Proof. cbn. induction alts as [|[x sub] alts IH]; [done|]. cbn. by rewrite IH. Qed.
Lemma inhabited_Gen lineInfo alts : inhabited (Gen lineInfo alts) ↔ alts ≠ [] ∧ Forall (λ a, inhabited a.2) alts.
Proof.
  cbn. assert (∀ l, (fix all (alts : list (V * gtree)) : Prop :=
    match alts with [] => True | (_, sub) :: alts => inhabited sub ∧ all alts end) l ↔
    Forall (λ a, inhabited a.2) l) as ->; [|done].
  induction l as [|[x sub] l IH]; [by split|]. rewrite IH, list.Forall_cons. done.
Qed.
Lemma height_Gen lineInfo alts : Forall (λ a, height a.2 < height (Gen lineInfo alts))%nat alts.
Proof.
  apply list.Forall_forall. intros a. cbn [height]. induction alts as [|[x sub] alts IH]; [by intros ?%elem_of_nil|].
  intros [->|H]%elem_of_cons; [cbn [snd]; lia|]. specialize (IH H). lia.
Qed.

Definition count (g : gtree) : nat := length (paths g).
Definition count_all (alts : list (V * gtree)) : nat := length (all_paths alts).
Lemma count_all_app a b : count_all (a ++ b) = (count_all a + count_all b)%nat.
Proof.
  unfold count_all. induction a as [|[x sub] a IH]; [done|]. cbn.
  rewrite !length_app, IH. lia.
Qed.
Lemma count_all_cons x sub alts : count_all ((x, sub) :: alts) = (count sub + count_all alts)%nat.
Proof. unfold count_all, count. cbn. by rewrite length_app, List.length_map. Qed.
Lemma all_paths_app a b : all_paths (a ++ b) = all_paths a ++ all_paths b.
Proof. induction a as [|[x sub] a IH]; [done|]. cbn. by rewrite IH, app_assoc. Qed.
Lemma count_pos g : inhabited g → (0 < count g)%nat.
Proof.
  induction g as [|lineInfo alts IH] using gtree_ind'; [unfold count; cbn; lia|].
  rewrite inhabited_Gen. intros [Hne Hall]. unfold count. rewrite paths_Gen.
  destruct alts as [|[x sub] alts]; [done|]. fold (count_all ((x, sub) :: alts)). rewrite count_all_cons.
  apply list.Forall_cons in IH as [IH _]. apply list.Forall_cons in Hall as [Hs _]. specialize (IH Hs). cbn [snd] in IH. lia.
Qed.

(** The path in an alternative. *)
Lemma path_in pre x sub post k path : paths sub !! k = Some path →
  all_paths (pre ++ (x, sub) :: post) !! (count_all pre + k)%nat = Some (x :: path).
Proof.
  intros H. rewrite all_paths_app, lookup_app_r by (unfold count_all; lia).
  replace (count_all pre + k - length (all_paths pre))%nat with k by (unfold count_all; lia).
  cbn [all_paths]. rewrite lookup_app_l by (rewrite List.length_map; by eapply lookup_lt_Some).
  change (List.map (cons x)) with (fmap (M := list) (cons x)). by rewrite list_lookup_fmap, H.
Qed.
(** ** The trackers between cycles

    Tracker [i], child of [p], stands for a generator with the alternatives [alts], of which the first [k] paths
    are done.  Trackers are made in the order in which they are met, so children come after their parents. *)
Definition answers_left (post : list (V * gtree)) : list bool := replicate (length post) true ++ [false].
Definition gen_tracker (lineInfo : SourceLineInfo) (p : nat) (ids : list nat) (post : list (V * gtree))
    (st : CycleState) : TrackerBase :=
  mk_TrackerBase (generator_name lineInfo) (GeneratorTracker (Some (answers_left post))) (Some p) ids st.

Inductive gstat (ts : list TrackerBase) : nat → nat → SourceLineInfo → list (V * gtree) → nat → Prop :=
| gs_fresh p i li pre x sub post : (p < i)%nat →
    ts !! i = Some (gen_tracker li p [] post Executing) →
    gstat ts p i li (pre ++ (x, sub) :: post) (count_all pre)
| gs_sub p i li pre x li' alts' post i' k : (p < i)%nat →
    ts !! i = Some (gen_tracker li p [i'] post ExecutingChildren) →
    gstat ts i i' li' alts' k → (k < count_all alts')%nat →
    gstat ts p i li (pre ++ (x, Gen li' alts') :: post) (count_all pre + k).

Lemma gstat_frame ts ts' p i li alts k : gstat ts p i li alts k →
  (∀ x, (i ≤ x)%nat → (x < length ts)%nat → ts' !! x = ts !! x) → gstat ts' p i li alts k.
Proof.
  induction 1 as [p i li pre x sub post Hp Hi|p i li pre x li' alts' post i' k Hp Hi Hs IH Hk]; intros Hts;
    pose proof (lookup_lt_Some _ _ _ Hi) as Hlt.
  - apply gs_fresh; [done|]. by rewrite Hts.
  - apply gs_sub with i'; [done|by rewrite Hts| |done]. apply IH. intros y Hy. apply Hts.
    inversion Hs; lia.
Qed.
Lemma gstat_tracker ts p i li alts k : gstat ts p i li alts k → ∃ ids post st,
  ts !! i = Some (gen_tracker li p ids post st) ∧ (st = Executing ∨ st = ExecutingChildren) ∧ (p < i)%nat.
Proof. inversion 1; eauto 10. Qed.

(** The alternative it is in, and what is known of the tracker of the generator there. *)
Lemma gstat_split ts p i li alts k : gstat ts p i li alts k → inhabited (Gen li alts) →
  ∃ pre x sub post ids st k', alts = pre ++ (x, sub) :: post ∧ k = (count_all pre + k')%nat ∧ (k' < count sub)%nat ∧
    ts !! i = Some (gen_tracker li p ids post st) ∧ (st = Executing ∨ st = ExecutingChildren) ∧ (p < i)%nat ∧
    match sub with
    | Leaf => ids = [] ∧ k' = 0%nat
    | Gen li' alts' => (ids = [] ∧ k' = 0%nat) ∨ ∃ i', ids = [i'] ∧ gstat ts i i' li' alts' k'
    end.
Proof.
  intros Hs [_ Hall]%inhabited_Gen.
  inversion Hs as [? ? ? pre x sub post Hp Hi|? ? ? pre x li' alts' post i' k' Hp Hi Hs' Hk]; subst.
  - exists pre, x, sub, post, [], Executing, 0%nat. apply list.Forall_app in Hall as [_ Hall].
    apply list.Forall_cons in Hall as [Hsub _].
    split_and!; [done|lia|by apply count_pos|done|by left|done|]. destruct sub; [done|by left].
  - exists pre, x, (Gen li' alts'), post, [i'], ExecutingChildren, k'.
    split_and!; [done|done|unfold count; by rewrite paths_Gen|done|by right|done|]. right. by exists i'.
Qed.

(** During a cycle, once the test has its values: [m] is the last of the [n] generators. *)
Inductive gopen (ts : list TrackerBase) : nat → nat → SourceLineInfo → list (V * gtree) → nat → nat → nat → Prop :=
| go_leaf p i li pre x post : (p < i)%nat →
    ts !! i = Some (gen_tracker li p [] post Executing) →
    gopen ts p i li (pre ++ (x, Leaf) :: post) (count_all pre) i 1
| go_sub p i li pre x li' alts' post i' k m n : (p < i)%nat →
    ts !! i = Some (gen_tracker li p [i'] post ExecutingChildren) →
    gopen ts i i' li' alts' k m n →
    gopen ts p i li (pre ++ (x, Gen li' alts') :: post) (count_all pre + k) m (S n).

(** What is known of the children [ids] of [p] before the rest of the test, and after it. *)
Definition starts (ts : list TrackerBase) (p : nat) (ids : list nat) (g : gtree) (k : nat) : Prop :=
  match g with
  | Leaf => ids = [] ∧ k = 0%nat
  | Gen li alts => (ids = [] ∧ k = 0%nat) ∨ ∃ i, ids = [i] ∧ gstat ts p i li alts k
  end.
Definition ran (ts : list TrackerBase) (p : nat) (tp : TrackerBase) (g : gtree) (k m n : nat) : Prop :=
  match g with
  | Leaf => m = p ∧ n = 0%nat ∧ ts !! p = Some tp
  | Gen li alts => ∃ i, ts !! p = Some (with_state ExecutingChildren (with_children [i] tp)) ∧
                        gopen ts p i li alts k m n
  end.
Definition parent_executing (ts : list TrackerBase) (p : nat) (tp : TrackerBase) : Prop :=
  match m_parent tp with
  | Some q => ∃ tq, ts !! q = Some tq ∧ m_runState tq = ExecutingChildren ∧ (q < p)%nat
  | None => True
  end.

(** ** Meeting a generator *)
Section operations.
Context (d : nat) (root : option nat).

Lemma acquire_generator_known ts p tp i li ids post st :
  ts !! p = Some tp → m_children tp = [i] → ts !! i = Some (gen_tracker li p ids post st) →
  (st = Executing ∨ st = ExecutingChildren) → (p < i)%nat → parent_executing ts p tp →
  acquire_generator (S (S d)) (generator_name li) (mk_TrackerContext ts root (Some p) Run_Executing) =
    Done (inr i, mk_TrackerContext (<[p := with_state ExecutingChildren tp]>
      (<[i := gen_tracker li p ids post Executing]> ts)) root (Some i) Run_Executing).
Proof.
  intros Hp Hc Hi Hst Hlt Hq. unfold acquire_generator. eapply ex_step; [reflexivity|].
  eapply ex_step; [by eapply findChild_eq|]. rewrite Hc. cbn [List.find].
  assert (matches ts (generator_name li) i = true) as -> by (apply matches_spec; by eexists).
  eapply ex_step; [eapply ex_step; [by apply get_tracker_eq|]; eapply ex_step; [reflexivity|]; reflexivity|].
  eapply ex_step; [reflexivity|]. eapply ex_step; [by apply get_tracker_eq|]. cbv beta.
  assert (isComplete (gen_tracker li p ids post st) = false) as -> by (by destruct Hst as [-> | ->]).
  cbn [completedCycle ctx_runState]. change (completedCycle _ || false) with false. cbv iota.
  eapply ex_step; [|reflexivity].
  eapply (tracker_open_eq d ts root (Some p) Run_Executing i _ p tp Hi eq_refl Hp); [lia|].
  unfold parent_executing in Hq. destruct (m_parent tp) as [q|]; [|done].
  destruct Hq as (tq & Htq & Hs & Hlt'). exists tq. split_and!; [done|done|lia|lia].
Qed.

Lemma acquire_generator_new ts p tp li :
  ts !! p = Some tp → m_children tp = [] → parent_executing ts p tp →
  acquire_generator (S (S d)) (generator_name li) (mk_TrackerContext ts root (Some p) Run_Executing) =
    Done (inr (length ts), mk_TrackerContext
      (<[p := with_state ExecutingChildren (with_children [length ts] tp)]>
        (ts ++ [mk_TrackerBase (generator_name li) (GeneratorTracker None) (Some p) [] Executing])) root
      (Some (length ts)) Run_Executing).
Proof.
  intros Hp Hc Hq. pose proof (lookup_lt_Some _ _ _ Hp) as Hplt. unfold acquire_generator.
  eapply ex_step; [reflexivity|]. eapply ex_step; [by eapply findChild_eq|]. rewrite Hc. cbn [List.find].
  set (new := mk_TrackerBase (generator_name li) (GeneratorTracker None) (Some p) [] NotStarted).
  assert ((ts ++ [new]) !! p = Some tp) as Hp1 by by rewrite lookup_app_l.
  set (ts1 := <[p := with_child (length ts) tp]> (ts ++ [new])).
  assert (ts1 !! length ts = Some new) as Hn.
  { unfold ts1. rewrite list_lookup_insert_ne by lia. by rewrite lookup_app_r, Nat.sub_diag by lia. }
  eapply ex_step.
  { eapply ex_step; [reflexivity|]. eapply ex_step; [by apply (update_tracker_eq _ _ _ _ _ tp)|]. reflexivity. }
  eapply ex_step; [reflexivity|]. eapply ex_step; [apply get_tracker_eq; exact Hn|]. cbv beta.
  change (completedCycle _ || isComplete new) with false. cbv iota.
  eapply ex_step with (a := tt); [|reflexivity].
  change (tracker_open (S (S d)) (length ts) (mk_TrackerContext ts1 root (Some p) Run_Executing) = Done (inr tt,
    mk_TrackerContext (<[p := with_state ExecutingChildren (with_children [length ts] tp)]>
      (ts ++ [with_state Executing new])) root (Some (length ts)) Run_Executing)).
  rewrite (tracker_open_eq d ts1 root (Some p) Run_Executing (length ts) new p (with_child (length ts) tp) Hn eq_refl).
  - do 3 f_equal. unfold ts1. rewrite (list_insert_insert_ne _ (length ts) p) by lia. rewrite list_insert_insert_eq.
    rewrite insert_app_r_alt, Nat.sub_diag by lia. cbn. unfold with_child, with_children. by rewrite Hc.
  - unfold ts1. apply list_lookup_insert_eq. rewrite length_app. cbn. lia.
  - lia.
  - unfold parent_executing in Hq. cbn [with_child m_parent]. destruct (m_parent tp) as [q|]; [|done].
    destruct Hq as (tq & Htq & Hs & Hlt'). exists tq. split_and!; [|done|lia|lia].
    unfold ts1. rewrite list_lookup_insert_ne, lookup_app_l by (lia || by eapply lookup_lt_Some). done.
Qed.

(** The place of the value among the alternatives. *)
Lemma generator_at_known ts r cur i li p ids pre post x st : ts !! i = Some (gen_tracker li p ids post st) →
  generator_at (length (pre ++ x :: post)) i (mk_TrackerContext ts root cur r) =
    Done (inr (length pre), mk_TrackerContext ts root cur r).
Proof.
  intros Hi. unfold generator_at. eapply ex_step; [by apply get_tracker_eq|]. cbn [hasGenerator gen_tracker m_kind].
  eapply ex_step; [reflexivity|]. eapply ex_step; [reflexivity|]. eapply ex_step; [by apply get_tracker_eq|].
  cbn [gen_tracker m_kind]. unfold answers_left, mret, ex_ret. do 3 f_equal.
  rewrite !length_app, length_replicate. cbn [length]. lia.
Qed.
Lemma generator_at_new ts r cur i li p x post :
  ts !! i = Some (mk_TrackerBase (generator_name li) (GeneratorTracker None) (Some p) [] Executing) →
  generator_at (length (x :: post)) i (mk_TrackerContext ts root cur r) =
    Done (inr 0%nat, mk_TrackerContext (<[i := gen_tracker li p [] post Executing]> ts) root cur r).
Proof.
  intros Hi. unfold generator_at. eapply ex_step; [by apply get_tracker_eq|]. cbn [hasGenerator m_kind].
  eapply ex_step; [reflexivity|]. eapply ex_step; [by apply update_tracker_eq|].
  assert (with_kind (GeneratorTracker (Some (answers (length (x :: post)))))
    (mk_TrackerBase (generator_name li) (GeneratorTracker None) (Some p) [] Executing) =
    gen_tracker li p [] post Executing) as ->.
  { unfold gen_tracker, answers_left, answers. cbn. by rewrite Nat.sub_0_r. }
  eapply ex_step; [apply get_tracker_eq; apply list_lookup_insert_eq; by eapply lookup_lt_Some|].
  cbn [gen_tracker m_kind]. unfold answers_left, mret, ex_ret. do 3 f_equal.
  rewrite length_app, length_replicate. cbn [length]. lia.
Qed.

Fixpoint run_alt (n : nat) (alts : list (V * gtree)) {struct alts} : ex TrackerContext (list V) :=
  match alts with
  | [] => ex_undefined
  | (x, sub) :: alts =>
      match n with O => l ← run_gtree (S (S d)) sub; mret (x :: l) | S n => run_alt n alts end
  end.
Lemma run_gtree_Gen li alts : run_gtree (S (S d)) (Gen li alts) =
  (i ← acquire_generator (S (S d)) (generator_name li);
   t ← get_tracker i;
   _ ← ex_assert (isOpen t);
   n ← generator_at (length alts) i;
   run_alt n alts).
Proof. done. Qed.
Lemma run_alt_eq pre x sub post c : run_alt (length pre) (pre ++ (x, sub) :: post) c =
  (l ← run_gtree (S (S d)) sub; mret (x :: l) : ex TrackerContext (list V)) c.
Proof. by induction pre as [|[y s] pre IH]. Qed.

(** A generator is met and says which value it is at: what is left of the test then starts there. *)
Lemma meet_generator ts p tp li alts k : ts !! p = Some tp → parent_executing ts p tp →
  starts ts p (m_children tp) (Gen li alts) k → inhabited (Gen li alts) →
  ∃ ts1 i pre x sub post ids k', alts = pre ++ (x, sub) :: post ∧ k = (count_all pre + k')%nat ∧ (k' < count sub)%nat ∧
    (∀ o, run_alt (length pre) alts (mk_TrackerContext ts1 root (Some i) Run_Executing) = o →
      run_gtree (S (S d)) (Gen li alts) (mk_TrackerContext ts root (Some p) Run_Executing) = o) ∧
    ts1 !! p = Some (with_state ExecutingChildren (with_children [i] tp)) ∧
    ts1 !! i = Some (gen_tracker li p ids post Executing) ∧ starts ts1 i ids sub k' ∧
    (p < i)%nat ∧ (∀ y, (y < p)%nat → ts1 !! y = ts !! y).
Proof.
  intros Hp Hq Hs [Hne Hall]%inhabited_Gen. pose proof (lookup_lt_Some _ _ _ Hp) as Hplt.
  destruct Hs as [[Hc ->]|(i & Hc & Hs)].
  - destruct alts as [|[x sub] post]; [done|]. apply list.Forall_cons in Hall as [Hsub _]. cbn [snd] in Hsub.
    set (ts0 := <[p := with_state ExecutingChildren (with_children [length ts] tp)]>
        (ts ++ [mk_TrackerBase (generator_name li) (GeneratorTracker None) (Some p) [] Executing])).
    assert (ts0 !! length ts = Some (mk_TrackerBase (generator_name li) (GeneratorTracker None) (Some p) [] Executing)) as Hi.
    { unfold ts0. rewrite list_lookup_insert_ne, lookup_app_r, Nat.sub_diag by lia. done. }
    exists (<[length ts := gen_tracker li p [] post Executing]> ts0), (length ts), [], x, sub, post, [], 0%nat.
    split_and!; [done|done|by apply count_pos| | | | |done|].
    + intros o Ho. rewrite run_gtree_Gen. eapply ex_step; [by apply acquire_generator_new|].
      eapply ex_step; [apply get_tracker_eq; exact Hi|]. eapply ex_step; [reflexivity|].
      eapply ex_step; [by apply generator_at_new|exact Ho].
    + unfold ts0. rewrite list_lookup_insert_ne by lia. apply list_lookup_insert_eq. rewrite length_app. cbn. lia.
    + apply list_lookup_insert_eq. by eapply lookup_lt_Some.
    + destruct sub; [done|by left].
    + intros y Hy. unfold ts0. rewrite !list_lookup_insert_ne, lookup_app_l by lia. done.
  - destruct (gstat_split _ _ _ _ _ _ Hs) as (pre & x & sub & post & ids & st & k' & -> & -> & Hk & Hi & Hst & Hlt & Hsub);
      [by apply inhabited_Gen|].
    set (ts1 := <[p := with_state ExecutingChildren tp]> (<[i := gen_tracker li p ids post Executing]> ts)).
    assert (ts1 !! i = Some (gen_tracker li p ids post Executing)) as Hi1.
    { unfold ts1. rewrite list_lookup_insert_ne by lia. apply list_lookup_insert_eq. by eapply lookup_lt_Some. }
    exists ts1, i, pre, x, sub, post, ids, k'. split_and!; [done..| | |done| |done|].
    + intros o Ho. rewrite run_gtree_Gen. eapply ex_step; [by eapply acquire_generator_known|].
      eapply ex_step; [apply get_tracker_eq; exact Hi1|]. eapply ex_step; [reflexivity|].
      eapply ex_step; [apply (generator_at_known _ _ _ _ _ _ _ _ _ _ _ Hi1)|exact Ho].
    + unfold ts1. rewrite list_lookup_insert_eq by (rewrite length_insert; lia). do 2 f_equal.
      destruct tp. cbn in *. by subst.
    + destruct sub as [|li' alts']; [done|]. destruct Hsub as [?|(i' & -> & Hs')]; [by left|].
      right. exists i'. split; [done|]. destruct (gstat_tracker _ _ _ _ _ _ Hs') as (? & ? & ? & _ & _ & Hlt').
      apply (gstat_frame ts); [done|]. intros y Hy _. unfold ts1. by rewrite !list_lookup_insert_ne by lia.
    + intros y Hy. unfold ts1. by rewrite !list_lookup_insert_ne by lia.
Qed.

(** A cycle gives the test the values of the first path that is not done. *)
Lemma run_gtree_ok g : inhabited g → ∀ ts p tp k, ts !! p = Some tp → parent_executing ts p tp →
  starts ts p (m_children tp) g k → (k < count g)%nat →
  ∃ ts' path m n, run_gtree (S (S d)) g (mk_TrackerContext ts root (Some p) Run_Executing) =
      Done (inr path, mk_TrackerContext ts' root (Some m) Run_Executing) ∧
    paths g !! k = Some path ∧ ran ts' p tp g k m n ∧ (n ≤ height g)%nat ∧ (∀ y, (y < p)%nat → ts' !! y = ts !! y).
Proof.
  induction g as [|li alts IH] using gtree_ind'; intros Hin ts p tp k Hp Hq Hs Hk.
  - destruct Hs as [_ ->]. exists ts, [], p, 0%nat. by split_and!.
  - destruct (meet_generator ts p tp li alts k Hp Hq Hs Hin)
      as (ts1 & i & pre & x & sub & post & ids & k' & -> & -> & Hk' & Hrun & Hp1 & Hi1 & Hs1 & Hlt & Hb1).
    pose proof (height_Gen li (pre ++ (x, sub) :: post)) as Hheight.
    apply inhabited_Gen in Hin as [_ Hin]. rewrite !list.Forall_app, !list.Forall_cons in Hin, IH, Hheight.
    destruct IH as [_ [IH _]], Hin as [_ [Hsub _]], Hheight as [_ [Hheight _]]. cbn [snd] in *.
    destruct (IH Hsub ts1 i (gen_tracker li p ids post Executing) k' Hi1) as (ts2 & path & m & n & Hr & Hpath & Hran & Hn & Hb2);
      [by exists (with_state ExecutingChildren (with_children [i] tp))|done|done|].
    exists ts2, (x :: path), m, (S n). split_and!.
    + apply Hrun. rewrite run_alt_eq. by eapply ex_step; [exact Hr|].
    + rewrite paths_Gen. by apply path_in.
    + exists i. split; [by rewrite Hb2|]. destruct sub as [|li' alts'].
      * destruct Hran as (-> & -> & Hi2). destruct Hs1 as [-> ->]. rewrite Nat.add_0_r. by apply go_leaf.
      * destruct Hran as (i' & Hi2 & Ho). by apply go_sub with i'.
    + lia.
    + intros y Hy. rewrite Hb2, Hb1 by lia. done.
Qed.

(** ** Closing generators *)
Definition gclosed (ts : list TrackerBase) (p i : nat) (li : SourceLineInfo) (alts : list (V * gtree)) (k : nat) : Prop :=
  (k < count_all alts)%nat ∧ gstat ts p i li alts k ∨
  k = count_all alts ∧ ∃ t, ts !! i = Some t ∧ m_kind t = GeneratorTracker (Some []) ∧ m_runState t = CompletedSuccessfully.

Lemma close_generator_eq ts r i li p ids post st : ts !! i = Some (gen_tracker li p ids post st) →
  (st = Executing ∨ st = ExecutingChildren ∧ ∃ j t, ids = [j] ∧ ts !! j = Some t ∧ isComplete t = true) →
  tracker_close (S d) i (mk_TrackerContext ts root (Some i) r) =
    Done (inr tt, mk_TrackerContext
      (<[i := match post with
              | [] => mk_TrackerBase (generator_name li) (GeneratorTracker (Some [])) (Some p) ids CompletedSuccessfully
              | _ :: post => gen_tracker li p [] post Executing
              end]> ts) root (Some p) Run_CompletedCycle).
Proof.
  intros Hi Hst. pose proof (lookup_lt_Some _ _ _ Hi) as Hlt.
  cbn [tracker_close]. eapply ex_step; [reflexivity|]. rewrite decide_False by (intros H; by apply H).
  set (done_ := gen_tracker li p ids post CompletedSuccessfully).
  set (ts1 := <[i := done_]> ts).
  assert (ts1 !! i = Some done_) as Hi1 by by apply list_lookup_insert_eq.
  eapply ex_step with (a := tt) (s' := mk_TrackerContext ts1 root (Some p) Run_CompletedCycle).
  - unfold close_this. eapply ex_step; [by apply get_tracker_eq|].
    eapply ex_step with (a := tt) (s' := mk_TrackerContext ts1 root (Some i) r).
    + cbn [gen_tracker m_runState m_children].
      destruct Hst as [->|[-> (j & t & -> & Hj & Hc)]]; [exact (update_tracker_eq _ _ _ _ _ _ _ Hi)|].
      cbn [rev head app]. eapply ex_step; [by apply get_tracker_eq|]. cbv beta. rewrite Hc.
      exact (update_tracker_eq _ _ _ _ _ _ _ Hi).
    + eapply ex_step; [eapply ex_step; [by apply get_tracker_eq|]; by eapply ex_step|]. reflexivity.
  - unfold close_generator. eapply ex_step; [by apply get_tracker_eq|].
    cbn [done_ gen_tracker m_kind m_runState]. rewrite decide_True by done. eapply ex_step; [reflexivity|].
    eapply ex_step; [by apply update_tracker_eq|]. unfold answers_left. destruct post as [|a post].
    + cbn [length replicate app head tail default]. unfold ts1. by rewrite list_insert_insert_eq.
    + cbn [length replicate app head tail default]. unfold ts1. rewrite list_insert_insert_eq. unfold id.
      erewrite update_tracker_eq by by apply list_lookup_insert_eq. by rewrite list_insert_insert_eq.
Qed.

(** The child goes on: so does the generator. *)
Lemma close_generator_open ts r i li p post j t :
  ts !! i = Some (gen_tracker li p [j] post ExecutingChildren) → ts !! j = Some t → isComplete t = false →
  tracker_close (S d) i (mk_TrackerContext ts root (Some i) r) =
    Done (inr tt, mk_TrackerContext ts root (Some p) Run_CompletedCycle).
Proof.
  intros Hi Hj Hc. cbn [tracker_close]. eapply ex_step; [reflexivity|]. rewrite decide_False by (intros H; by apply H).
  eapply ex_step with (a := tt) (s' := mk_TrackerContext ts root (Some p) Run_CompletedCycle).
  - unfold close_this. eapply ex_step; [by apply get_tracker_eq|].
    eapply ex_step with (a := tt) (s' := mk_TrackerContext ts root (Some i) r).
    + cbn [gen_tracker m_runState m_children rev head app]. eapply ex_step; [by apply get_tracker_eq|]. cbv beta.
      by rewrite Hc.
    + eapply ex_step; [eapply ex_step; [by apply get_tracker_eq|]; by eapply ex_step|]. reflexivity.
  - unfold close_generator. eapply ex_step; [by apply get_tracker_eq|]. done.
Qed.
End operations.

Lemma gclosed_tracker ts p i li alts k : gclosed ts p i li alts k → ∃ t, ts !! i = Some t ∧
  isComplete t = bool_decide (k = count_all alts).
Proof.
  intros [[Hk Hs]|[-> (t & Hi & Hkind & Hst)]].
  - destruct (gstat_tracker _ _ _ _ _ _ Hs) as (ids & post & st & Hi & Hst & _). eexists. split; [exact Hi|].
    rewrite bool_decide_eq_false_2 by lia. by destruct Hst as [-> | ->].
  - exists t. split; [done|]. rewrite bool_decide_eq_true_2 by done. unfold isComplete, base_isComplete.
    by rewrite Hkind, Hst.
Qed.

(** The generator moves on to the next alternative, if there is one. *)
Lemma gclosed_move ts p i li pre x sub post ids : (p < i)%nat → (i < length ts)%nat →
  inhabited (Gen li (pre ++ (x, sub) :: post)) →
  gclosed (<[i := match post with
              | [] => mk_TrackerBase (generator_name li) (GeneratorTracker (Some [])) (Some p) ids CompletedSuccessfully
              | _ :: post => gen_tracker li p [] post Executing
              end]> ts) p i li (pre ++ (x, sub) :: post) (count_all pre + count sub).
Proof.
  intros Hp Hi [_ Hin]%inhabited_Gen. unfold gclosed. rewrite count_all_app, count_all_cons. destruct post as [|[y s] post].
  - right. change (count_all []) with 0%nat. split; [lia|]. rewrite list_lookup_insert_eq by done. by eexists.
  - left. rewrite count_all_cons. apply list.Forall_app in Hin as [_ Hin]. rewrite !list.Forall_cons in Hin.
    destruct Hin as (_ & Hs & _). pose proof (count_pos s Hs). split; [lia|].
    replace (count_all pre + count sub)%nat with (count_all (pre ++ [(x, sub)]))
      by (rewrite count_all_app, count_all_cons; change (count_all []) with 0%nat; lia).
    replace (pre ++ (x, sub) :: (y, s) :: post) with ((pre ++ [(x, sub)]) ++ (y, s) :: post) by by rewrite <-app_assoc.
    apply gs_fresh; [done|]. by apply list_lookup_insert_eq.
Qed.

(** Closing the test closes the generators from the last to the first, each of which moves on if the ones in it
    are through. *)
Lemma close_generators root ts p i li alts k m n : gopen ts p i li alts k m n → inhabited (Gen li alts) →
  ∀ target f r, (target ≤ p)%nat → (1 ≤ f)%nat → ∃ ts',
  tracker_close (n + f) target (mk_TrackerContext ts root (Some m) r) =
    tracker_close f target (mk_TrackerContext ts' root (Some p) Run_CompletedCycle) ∧
  gclosed ts' p i li alts (S k) ∧ (∀ y, (y < i)%nat → ts' !! y = ts !! y) ∧ length ts' = length ts.
Proof.
  assert (∀ f target i ts r c, target ≠ i → tracker_close f i (mk_TrackerContext ts root (Some i) r) = Done (inr tt, c) →
    tracker_close (S f) target (mk_TrackerContext ts root (Some i) r) = tracker_close f target c) as Hone.
  { intros f target i0 ts0 r c Hne Hc. cbn [tracker_close]. eapply ex_step; [reflexivity|]. cbv beta.
    rewrite decide_True by done. by eapply ex_step; [exact Hc|]. }
  induction 1 as [p i li pre x post Hp Hi|p i li pre x li' alts' post i' k m n Hp Hi Ho IH]; intros Hin target f r Ht Hf;
    pose proof (lookup_lt_Some _ _ _ Hi) as Hlt; (destruct f as [|f]; [lia|]).
  - eexists. split; [|split; [|split]].
    + apply Hone; [lia|]. apply close_generator_eq with (1 := Hi). by left.
    + replace (S (count_all pre)) with (count_all pre + count Leaf)%nat by (unfold count; cbn [paths length]; lia).
      by apply gclosed_move.
    + intros y Hy. by rewrite list_lookup_insert_ne by lia.
    + apply length_insert.
  - pose proof Hin as [_ Hin']%inhabited_Gen. apply list.Forall_app in Hin' as [_ Hin'].
    apply list.Forall_cons in Hin' as [Hsub _]. cbn [snd] in Hsub.
    destruct (IH Hsub target (S (S f)) r) as (ts1 & Hc1 & Hcl1 & Hb1 & Hl1); [lia|lia|].
    assert (i < i')%nat as Hii by (inversion Ho; lia).
    assert (ts1 !! i = Some (gen_tracker li p [i'] post ExecutingChildren)) as Hi1 by by rewrite Hb1.
    destruct (gclosed_tracker _ _ _ _ _ _ Hcl1) as (t & Hi' & Hcomp).
    replace (S n + S f)%nat with (n + S (S f))%nat by lia. rewrite Hc1.
    destruct (bool_decide (S k = count_all alts')) eqn:Hlast.
    + apply bool_decide_eq_true in Hlast. eexists. split; [|split; [|split]].
      * apply Hone; [lia|]. apply close_generator_eq with (1 := Hi1). right. split; [done|]. by exists i', t.
      * replace (S (count_all pre + k)) with (count_all pre + count (Gen li' alts'))%nat
          by (unfold count; rewrite paths_Gen; unfold count_all in *; lia).
        apply gclosed_move; [done|by rewrite Hl1|done].
      * intros y Hy. rewrite list_lookup_insert_ne by lia. apply Hb1. lia.
      * by rewrite length_insert.
    + apply bool_decide_eq_false in Hlast. exists ts1. split; [|split; [|split]].
      * apply Hone; [lia|]. by apply (close_generator_open f root ts1 _ i li p post i' t).
      * destruct Hcl1 as [[Hk Hs]|[? _]]; [|done]. left. split.
        -- rewrite count_all_app, count_all_cons. unfold count. rewrite paths_Gen. unfold count_all in *. lia.
        -- replace (S (count_all pre + k)) with (count_all pre + S k)%nat by lia. by apply gs_sub with i'.
      * intros y Hy. apply Hb1. lia.
      * done.
Qed.

(** ** The cycles of a test case

    What the trackers know before the cycle that gives the path [k]: nothing yet, or that the test's tracker, the
    root's only child, has got there. *)
Definition ready (nl : NameAndLocation) (g : gtree) (ts : list TrackerBase) (k : nat) : Prop :=
  (∃ rnl, ts = [root_tracker rnl [] NotStarted] ∧ k = 0%nat) ∨
  ∃ rnl ids st, ts !! 0%nat = Some (root_tracker rnl [1%nat] st) ∧
    ts !! 1%nat = Some (sec_tracker nl 0 ids ExecutingChildren) ∧ starts ts 1 ids g k.

Lemma acquire_test d nl g ts k : ready nl g ts k → ∃ ts1 rnl ids,
  acquire (S (S d)) nl (mk_TrackerContext ts (Some 0%nat) (Some 0%nat) Run_Executing) =
    Done (inr 1%nat, mk_TrackerContext ts1 (Some 0%nat) (Some 1%nat) Run_Executing) ∧
  ts1 !! 0%nat = Some (root_tracker rnl [1%nat] ExecutingChildren) ∧
  ts1 !! 1%nat = Some (sec_tracker nl 0 ids Executing) ∧ starts ts1 1 ids g k.
Proof.
  intros [(rnl & -> & ->)|(rnl & ids & st & H0 & H1 & Hs)].
  - exists [root_tracker rnl [1%nat] ExecutingChildren; sec_tracker nl 0 [] Executing], rnl, [].
    split_and!; [reflexivity..|]. destruct g; [done|by left].
  - set (ts1 := <[0%nat := root_tracker rnl [1%nat] ExecutingChildren]> (<[1%nat := sec_tracker nl 0 ids Executing]> ts)).
    pose proof (lookup_lt_Some _ _ _ H1) as Hlt.
    exists ts1, rnl, ids. split_and!.
    + rewrite (acquire_eq _ _ _ _ _ _ 1%nat (mk_TrackerContext ts (Some 0%nat) (Some 0%nat) Run_Executing)).
      * eapply ex_step with (a := tt); [|reflexivity]. change (completedCycle _) with false. cbv iota. unfold tryOpen.
        eapply ex_step; [by apply get_tracker_eq|]. cbn [sec_tracker m_kind]. change (negb (isComplete _) && true) with true.
        cbv iota. by apply (tracker_open_eq d ts _ (Some 0%nat) _ 1%nat _ 0%nat (root_tracker rnl [1%nat] st) H1).
      * unfold find_or_make. eapply ex_step; [by eapply findChild_eq|]. cbn [root_tracker m_children List.find].
        assert (matches ts nl 1 = true) as -> by (apply matches_spec; by eexists).
        eapply ex_step; [by apply get_tracker_eq|]. by eapply ex_step.
    + unfold ts1. apply list_lookup_insert_eq. rewrite length_insert. lia.
    + unfold ts1. rewrite list_lookup_insert_ne by done. by apply list_lookup_insert_eq.
    + destruct g as [|li alts]; [done|]. destruct Hs as [?|(i & -> & Hs)]; [by left|]. right. exists i. split; [done|].
      destruct (gstat_tracker _ _ _ _ _ _ Hs) as (? & ? & ? & _ & _ & Hlt').
      apply (gstat_frame ts); [done|]. intros y Hy _. unfold ts1. by rewrite !list_lookup_insert_ne by lia.
Qed.

(** Closing the test's tracker after a path. *)
Lemma close_test d nl g ts1 ts2 ids k m n : inhabited g → (height g ≤ S d)%nat → starts ts1 1 ids g k →
  ran ts2 1 (sec_tracker nl 0 ids Executing) g k m n → (n ≤ height g)%nat → ∃ ts3 ids3 st3,
  tracker_close (S (S d)) 1 (mk_TrackerContext ts2 (Some 0%nat) (Some m) Run_Executing) =
    Done (inr tt, mk_TrackerContext ts3 (Some 0%nat) (Some 0%nat) Run_CompletedCycle) ∧
  ts3 !! 0%nat = ts2 !! 0%nat ∧ ts3 !! 1%nat = Some (sec_tracker nl 0 ids3 st3) ∧
  (S k = count g ∧ st3 = CompletedSuccessfully ∨
   (S k < count g)%nat ∧ st3 = ExecutingChildren ∧ starts ts3 1 ids3 g (S k)).
Proof.
  intros Hin Hh Hs Hran Hn.
  destruct g as [|li alts].
  - destruct Hran as (-> & -> & H12). destruct Hs as [-> ->]. eexists _, [], CompletedSuccessfully. split_and!.
    + apply (tracker_close_eq (S d) ts2 _ _ 1 nl 0 [] Executing CompletedSuccessfully H12). by left.
    + by rewrite list_lookup_insert_ne.
    + apply list_lookup_insert_eq. by eapply lookup_lt_Some.
    + by left.
  - destruct Hran as (i & H12 & Ho). change (with_state _ _) with (sec_tracker nl 0 [i] ExecutingChildren) in H12.
    destruct (close_generators (Some 0%nat) ts2 1 i li alts k m n Ho Hin 1 (S (S d) - n) Run_Executing)
      as (ts3 & Hc3 & Hcl & Hb3 & Hl3); [lia|lia|].
    replace (n + (S (S d) - n))%nat with (S (S d)) in Hc3 by lia.
    assert (1 < i)%nat as Hi by (inversion Ho; lia). pose proof (lookup_lt_Some _ _ _ H12) as Hlt2.
    destruct (gclosed_tracker _ _ _ _ _ _ Hcl) as (t & Hti & Htc).
    assert (ts3 !! 1%nat = Some (sec_tracker nl 0 [i] ExecutingChildren)) as H13 by (by rewrite Hb3).
    replace (S (S d) - n)%nat with (S (S d - n)) in Hc3 by lia.
    eexists (<[1%nat := sec_tracker nl 0 [i] (if isComplete t then CompletedSuccessfully else ExecutingChildren)]> ts3), [i],
      (if isComplete t then CompletedSuccessfully else ExecutingChildren). split_and!.
    + rewrite Hc3. apply (tracker_close_eq _ ts3 _ _ 1 nl 0 [i] ExecutingChildren _ H13). right. split; [done|].
      by exists i, t.
    + rewrite list_lookup_insert_ne by done. apply Hb3. lia.
    + apply list_lookup_insert_eq. by rewrite Hl3.
    + rewrite Htc. destruct Hcl as [[Hlt Hgs]|[Heq _]].
      * rewrite bool_decide_eq_false_2 by lia. right. split; [unfold count; by rewrite paths_Gen|]. split; [done|].
        right. exists i. split; [done|]. apply (gstat_frame ts3); [done|].
        intros y Hy _. by rewrite list_lookup_insert_ne by lia.
      * rewrite bool_decide_eq_true_2 by done. left. split; [unfold count; by rewrite paths_Gen|done].
Qed.

(** One cycle, from the root's being the current tracker: the test is entered, given its values and closed. *)
Lemma gen_cycle d nl g ts k : inhabited g → (height g ≤ S d)%nat → ready nl g ts k → (k < count g)%nat →
  ∃ c1 c2 c3 path t,
    acquire (S (S d)) nl (mk_TrackerContext ts (Some 0%nat) (Some 0%nat) Run_Executing) = Done (inr 1%nat, c1) ∧
    run_gtree (S (S d)) g c1 = Done (inr path, c2) ∧ paths g !! k = Some path ∧
    tracker_close (S (S d)) 1 c2 = Done (inr tt, c3) ∧ get_tracker 1 c3 = Done (inr t, c3) ∧
    isSuccessfullyCompleted t = bool_decide (S k = count g) ∧
    ((S k < count g)%nat → m_rootTracker c3 = Some 0%nat ∧ ready nl g (trackers c3) (S k)).
Proof.
  intros Hin Hh Hr Hk. destruct (acquire_test d nl g ts k Hr) as (ts1 & rnl & ids & Ha & H0 & H1 & Hs).
  destruct (run_gtree_ok d (Some 0%nat) g Hin ts1 1 _ k H1) as (ts2 & path & m & n & Hrun & Hpath & Hran & Hn & Hb);
    [by eexists; split_and!; [exact H0|done|lia]|exact Hs|exact Hk|].
  destruct (close_test d nl g ts1 ts2 ids k m n Hin Hh Hs Hran Hn) as (ts3 & ids3 & st3 & Hclose & H03 & H13 & Hst3).
  eexists _, _.
  exists (mk_TrackerContext ts3 (Some 0%nat) (Some 0%nat) Run_CompletedCycle), path, (sec_tracker nl 0 ids3 st3).
  split_and!; [exact Ha|exact Hrun|exact Hpath|exact Hclose|by apply get_tracker_eq| |].
  - destruct Hst3 as [[-> ->]|(Hlt & -> & _)]; [by rewrite bool_decide_eq_true_2|by rewrite bool_decide_eq_false_2 by lia].
  - intros Hlt. split; [done|]. right. destruct Hst3 as [[? _]|(_ & -> & Hs3)]; [lia|].
    exists rnl, ids3, ExecutingChildren. split_and!; [|exact H13|exact Hs3]. cbn. rewrite H03, Hb by lia. exact H0.
Qed.

Lemma run_gen_cycles_ok d nl g : inhabited g → (height g ≤ S d)%nat → ∀ fuel ts cur r k, ready nl g ts k →
  (k < count g)%nat → (count g ≤ k + fuel)%nat → ∃ c,
  run_gen_cycles (S (S d)) fuel nl g (mk_TrackerContext ts (Some 0%nat) cur r) = Done (inr (drop k (paths g)), c).
Proof.
  intros Hin Hh. induction fuel as [|fuel IH]; intros ts cur r k Hr Hk Hf; [lia|].
  destruct (gen_cycle d nl g ts k Hin Hh Hr Hk) as (c1 & c2 & c3 & path & t & Ha & Hrun & Hp & Hclose & Ht & Hc & Hnext).
  rewrite (drop_S _ _ _ Hp). cbn [run_gen_cycles]. destruct (decide (S k = count g)) as [Hlast|Hlast].
  - exists c3. eapply ex_step; [reflexivity|]. eapply ex_step; [exact Ha|]. eapply ex_step; [exact Hrun|].
    eapply ex_step; [exact Hclose|]. eapply ex_step; [exact Ht|]. cbv beta. rewrite Hc, bool_decide_eq_true_2 by done.
    by rewrite drop_ge by (unfold count in *; lia).
  - destruct c3 as [ts3 root3 cur3 r3]. destruct Hnext as [Hroot Hr3]; [lia|]. cbn in Hroot, Hr3. subst root3.
    destruct (IH ts3 cur3 r3 (S k) Hr3) as [c E]; [lia|lia|].
    exists c. eapply ex_step; [reflexivity|]. eapply ex_step; [exact Ha|]. eapply ex_step; [exact Hrun|].
    eapply ex_step; [exact Hclose|]. eapply ex_step; [exact Ht|]. cbv beta. rewrite Hc, bool_decide_eq_false_2 by done.
    eapply ex_step; [exact E|]. done.
Qed.

(** C10 (liveness): a test case that takes values from generators - one after the other, each of them perhaps
    other generators than before - is run once for each combination of values, in order, the last generator moving
    on first; then it is through. *)
Theorem generators_run_once nl g internal_lineinfo fuel depth c : inhabited g → (count g ≤ fuel)%nat →
  (2 ≤ depth)%nat → (height g < depth)%nat → ∃ c',
  (_ ← startRun internal_lineinfo; run_gen_cycles depth fuel nl g : ex TrackerContext _) c = Done (inr (paths g), c').
Proof.
  intros Hin Hf Hd Hh. destruct depth as [|[|d]]; [lia|lia|].
  destruct (run_gen_cycles_ok d nl g Hin ltac:(lia) fuel
    [root_tracker (mk_NameAndLocation (str "{root}") internal_lineinfo) [] NotStarted] None Run_Executing 0)
    as [c' E]; [left; by eexists|by apply count_pos|lia|].
  exists c'. eapply ex_step; [reflexivity|exact E].
Qed.
End trees.
Arguments gtree : clear implicits.

(** Two generators, the second one there for the first value only. *)
Definition sample_generators : gtree Z :=
  let line n := mk_SourceLineInfo (str "test.cpp") n in
  Gen (line 3%nat) [(1, Gen (line 4%nat) [(10, Leaf); (20, Leaf)]); (2, Leaf)].

Lemma generators_run_once_witness : ∃ c',
  (_ ← startRun (mk_SourceLineInfo (str "catch.hpp") 1);
   run_gen_cycles 3 3 (mk_NameAndLocation (str "buffers") (mk_SourceLineInfo (str "test.cpp") 2)) sample_generators
   : ex TrackerContext _) new_context = Done (inr [[1; 10]; [1; 20]; [2]], c').
Proof.
  apply (generators_run_once (mk_NameAndLocation (str "buffers") (mk_SourceLineInfo (str "test.cpp") 2))
    sample_generators (mk_SourceLineInfo (str "catch.hpp") 1) 3 3 new_context); [by repeat split|cbn; lia..].
Defined.
