(* ===== verification/CatchGenerateRun.v ===== *)
(** * Catch: running a test case with generators (acquireGeneratorTracker, generate, runTest)

    A test case that makes a check of the values it takes from generators, run by the run context: every
    combination is checked, also after one for which a required check failed. *)
From stdpp Require Import strings list.
From S2P Require Import Prelude CatchString CatchTest CatchResult CatchTracker CatchRun CatchSections.
From S2P Require Import CatchRunProps CatchRunSections CatchAssertions CatchGenerate.

(** ** The code of the test *)
Section bodies.
Context (depth : nat) {V : Type} (check : list V → body).

(** [generate]: which of its [n] values. *)
Definition generate (lineInfo : SourceLineInfo) (n : nat) : run nat :=
  i ← acquireGeneratorTracker depth lineInfo; on_trackers (generator_at n i).

(** The rest of the test, the values it has got so far being [seen]. *)
Fixpoint gen_body (g : gtree V) (seen : list V) : body :=
  match g with
  | Leaf => check seen
  | Gen lineInfo alts => λ r,
      match generate lineInfo (length alts) r with
      | Done (inr n, r) =>
          (fix pick (n : nat) (alts : list (V * gtree V)) {struct alts} : body :=
             match alts with
             | [] => λ _, Undefined
             | (x, sub) :: alts => match n with O => gen_body sub (seen ++ [x]) | S n => pick n alts end
             end) n alts r
      | Done (inl e, r) => Done (Threw (what e), r)
      | Assert_failed => Assert_failed
      | Undefined => Undefined
      end
  end.
End bodies.

(** ** What a test leaves alone

    Only the assertions are counted on, as [f] says. *)
Record tallies (f : Counts → Counts) (r r' : RunContext) : Prop := {
  t_config : m_config r' = m_config r;
  t_test : m_activeTestCase r' = m_activeTestCase r;
  t_tracker : m_testCaseTracker r' = m_testCaseTracker r;
  t_totals : m_totals r' = mk_Totals (error (m_totals r)) (f (assertions (m_totals r))) (testCases (m_totals r));
  t_unfinished : m_unfinishedSections r' = m_unfinishedSections r
}.
Lemma tallies_from f r0 r r' : m_config r0 = m_config r → m_activeTestCase r0 = m_activeTestCase r →
  m_testCaseTracker r0 = m_testCaseTracker r → m_totals r0 = m_totals r →
  m_unfinishedSections r0 = m_unfinishedSections r → tallies f r0 r' → tallies f r r'.
Proof. intros H1 H2 H3 H4 H5 []. split; congruence. Qed.

(** A body that ends by itself or at a required assertion, and brings the trackers from [c] to [c']. *)
Definition ends (b : body) (t : TestCaseInfo) (f : Counts → Counts) (c c' : TrackerContext) : Prop := ∀ r,
  m_trackerContext r = c → m_activeTestCase r = Some t →
  ∃ r' e, b r = Done (e, r') ∧ (e = Returned ∨ e = Test_failure) ∧ tallies f r r' ∧ m_trackerContext r' = c'.

Lemma check_ends info expr t c :
  ends (internal_catch_test info expr) t (counted t (of_type info (type_judged info expr))) c c.
Proof.
  intros r Hc Ht. destruct (handleExpr_concludes t info expr r Ht) as (r' & He & Hs).
  exists r', (complete (reaction_to info (type_judged info expr) r')). unfold internal_catch_test. rewrite He.
  split; [done|]. split.
  - unfold complete. destruct (reaction_to _ _ _) as [a|]; [|by left]. destruct (shouldThrow a); [by right|by left].
  - destruct Hs. split; [split; congruence|congruence].
Qed.

(** ** Taking values *)
Section values.
Context (d : nat) {V : Type} (check : list V → body) (t : TestCaseInfo) (f : list V → Counts → Counts).
Context (check_ok : ∀ path c, ends (check path) t (f path) c c).

Lemma generate_eq li n r i c1 tr c2 k : acquire_generator d (generator_name li) (m_trackerContext r) = Done (inr i, c1) →
  get_tracker i c1 = Done (inr tr, c1) → isOpen tr = true → generator_at n i c1 = Done (inr k, c2) →
  ∃ r', generate d li n r = Done (inr k, r') ∧ m_trackerContext r' = c2 ∧ m_activeTestCase r' = m_activeTestCase r ∧
    ∀ g r'', tallies g r' r'' → tallies g r r''.
Proof.
  intros Ha Ht Ho Hg.
  set (a := m_lastAssertionInfo r).
  exists (set_trackerContext c2 (set_lastAssertionInfo (mk_AssertionInfo (macroName a) li (capturedExpression a)
    (resultDisposition a)) (set_trackerContext c1 (set_trackerContext c1 r)))). split; [|split; [done|split; [done|]]].
  - unfold generate, acquireGeneratorTracker. eapply ex_step.
    { eapply ex_step; [by apply on_trackers_eq|]. eapply ex_step; [apply on_trackers_eq; exact Ht|]. cbv beta.
      rewrite Ho. eapply ex_step; [reflexivity|]. eapply ex_step; [reflexivity|]. reflexivity. }
    apply on_trackers_eq. exact Hg.
  - intros g r''. by apply tallies_from.
Qed.

Lemma gen_body_ends g : ∀ seen c path c', run_gtree d g c = Done (inr path, c') →
  ends (gen_body d check g seen) t (f (seen ++ path)) c c'.
Proof using check_ok.
  induction g as [|li alts IH] using gtree_ind'; intros seen c path c' Hrun r Hc Ht.
  - injection Hrun as <- <-. rewrite app_nil_r. by apply check_ok.
  - cbn [run_gtree] in Hrun. apply ex_bind_inv in Hrun as (i & c1 & Ha & Hrun).
    apply ex_bind_inv in Hrun as (tr & c1' & Htr & Hrun).
    assert (c1' = c1) as -> by (unfold get_tracker, ex_deref in Htr; by destruct (trackers c1 !! i); simplify_eq).
    apply ex_bind_inv in Hrun as ([] & c1' & Ho & Hrun). unfold ex_assert in Ho. destruct (isOpen tr) eqn:Eo; [|done].
    injection Ho as <-. apply ex_bind_inv in Hrun as (n & c2 & Hg & Hrun).
    rewrite <-Hc in Ha. destruct (generate_eq li (length alts) r i c1 tr c2 n Ha Htr Eo Hg) as (r1 & Er & Hc1 & Ht1 & Hk).
    cbn [gen_body]. rewrite Er. rewrite <-Ht1 in Ht. clear Er Hg.
    revert n Hrun. induction IH as [|[x sub] alts Hsub _ IHa]; intros n Hrun; [done|]. destruct n as [|n].
    + apply ex_bind_inv in Hrun as (l & c3 & Hl & Hrun). injection Hrun as <- <-.
      destruct (Hsub (seen ++ [x]) c2 l c3 Hl r1 Hc1 Ht) as (r2 & e & Eb & He & Htal & Hc2).
      exists r2, e. rewrite <-app_assoc in Htal. split_and!; [done|done|by apply Hk|done].
    + by apply IHa.
Qed.
End values.

(** ** The test case *)
Lemma runCurrentTest_ends d invoke t f c' r i c3 : m_activeTestCase r = Some t → m_testCaseTracker r = Some i →
  m_unfinishedSections r = [] → warnAboutMissingAssertions (m_config r) = false →
  ends invoke t f (m_trackerContext r) c' → tracker_close d i c' = Done (inr tt, c3) →
  ∃ r', runCurrentTest d invoke r = Done (inr tt, r') ∧ tallies f r r' ∧ m_trackerContext r' = c3 ∧
    uncaught_exceptions r' = false.
Proof.
  intros Ht Hi Hun Hw Hb Hclose.
  set (r1 := set_lastAssertionInfo (mk_AssertionInfo (literal "TEST_CASE") (lineInfo t) StringRef_empty Normal)
    (set_shouldReportUnexpected true (report (sectionStarting (mk_SectionInfo (name t) (lineInfo t))) r))).
  destruct (Hb r1) as (r2 & e & Eb & He & [Qc Qt Qk Qn Qf] & T); [done|done|]. cbn in Qc, Qt, Qk, Qn, Qf.
  eexists. split.
  - unfold runCurrentTest. eapply ex_step; [reflexivity|]. cbv beta.
    eapply ex_step with (a := t); [by rewrite Ht|]. cbv beta zeta.
    eapply ex_step; [reflexivity|]. eapply ex_step; [reflexivity|]. cbv beta zeta.
    eapply ex_step; [reflexivity|]. eapply ex_step; [reflexivity|].
    eapply ex_step with (a := e) (s' := set_uncaught false r2).
    { change (invokeActiveTestCase invoke r1 = Done (inr e, set_uncaught false r2)).
      unfold invokeActiveTestCase. by rewrite Eb. }
    eapply ex_step; [reflexivity|]. eapply ex_step with (a := tt) (s' := set_uncaught false r2); [by destruct He as [-> | ->]|].
    eapply ex_step; [reflexivity|]. cbv beta zeta.
    eapply ex_step; [by apply no_missing_assertions; cbn; rewrite Qc|]. cbv beta iota.
    eapply ex_step; [reflexivity|]. cbv beta.
    eapply ex_step with (a := i) (s' := set_uncaught false r2); [cbn; by rewrite Qk, Hi|].
    eapply ex_step; [apply on_trackers_eq; cbn; by rewrite T|].
    eapply ex_step with (a := tt) (s' := set_sections [] (m_activeSections r2)
      (set_trackerContext c3 (set_uncaught false r2))).
    { unfold handleUnfinishedSections. eapply ex_step; [reflexivity|]. cbn. by rewrite Qf, Hun. }
    eapply ex_step; [reflexivity|]. eapply ex_step; [apply clear_messageScopes_eq|]. reflexivity.
  - split; [|split; done]. split; cbn; try congruence.
Qed.

Section test.
Context {V : Type} (info : AssertionInfo) (expr : list V → ITransientExpression) (t : TestCaseInfo).

(** A check of the values, and what the checks of some paths add up to. *)
Definition value_check (path : list V) : body := internal_catch_test info (expr path).
Definition judge (path : list V) : Counts → Counts := counted t (of_type info (type_judged info (expr path))).
Definition judge_all (ps : list (list V)) (c : Counts) : Counts := foldl (λ c p, judge p c) c ps.

Lemma gen_cycles_run d g : inhabited g → (height g ≤ S d)%nat → ∀ fuel r ts cur st k,
  m_trackerContext r = mk_TrackerContext ts (Some 0%nat) cur st →
  ready (mk_NameAndLocation (name t) (lineInfo t)) g ts k → (k < count g)%nat → (count g ≤ k + fuel)%nat →
  m_activeTestCase r = Some t → m_unfinishedSections r = [] → warnAboutMissingAssertions (m_config r) = false →
  (∀ n, (n < length (drop k (paths g)))%nat →
     failed (judge_all (take n (drop k (paths g))) (assertions (m_totals r))) < u64 (abortAfter (m_config r))) →
  ∃ r', cycles (S (S d)) (gen_body (S (S d)) value_check g []) fuel t r = Done (inr tt, r') ∧
    tallies (judge_all (drop k (paths g))) (set_testCaseTracker (m_testCaseTracker r') r) r' ∧
    uncaught_exceptions r' = false.
Proof.
  intros Hin Hh. induction fuel as [|fuel IH]; intros r ts cur st k Htc Hr Hk Hf Ht Hun Hw Hab; [lia|].
  destruct (gen_cycle d _ g ts k Hin Hh Hr Hk) as (c1 & c2 & c3 & path & tr & Ha & Hrun & Hp & Hclose & Htr & Hc & Hnext).
  rewrite (drop_S _ _ _ Hp) in Hab |- *.
  set (r0 := set_trackerContext (mk_TrackerContext ts (Some 0%nat) (Some 0%nat) Run_Executing) r).
  set (r1 := set_testCaseTracker (Some 1%nat) (set_trackerContext c1 r0)).
  destruct (runCurrentTest_ends (S (S d)) (gen_body (S (S d)) value_check g []) t (judge path) c2 r1 1%nat c3)
    as (r2 & E2 & T2 & C2 & U2); [done..| |done|].
  { apply (gen_body_ends (S (S d)) value_check t judge (λ p c, check_ends info (expr p) t c) g [] c1 path c2 Hrun). }
  pose proof T2 as [Qc Qt Qk Qn Qf]. cbn in Qc, Qt, Qk, Qn, Qf.
  assert (∀ o, (get_tracker 1 (m_trackerContext r2) = Done (inr tr, c3) →
    (if negb (isSuccessfullyCompleted tr) && negb (aborting (set_trackerContext c3 r2))
     then cycles (S (S d)) (gen_body (S (S d)) value_check g []) fuel t else mret tt) (set_trackerContext c3 r2) = o) →
    cycles (S (S d)) (gen_body (S (S d)) value_check g []) (S fuel) t r = o) as Hcycle.
  { intros o Ho. cbn [cycles].
    eapply ex_step; [apply (on_trackers_eq _ _ tt (mk_TrackerContext ts (Some 0%nat) (Some 0%nat) Run_Executing));
      by rewrite Htc|].
    eapply ex_step; [by apply (on_trackers_eq _ r0)|]. eapply ex_step; [reflexivity|].
    eapply ex_step; [exact E2|]. eapply ex_step; [apply on_trackers_eq; rewrite C2; exact Htr|].
    eapply ex_step; [reflexivity|]. cbv beta. apply Ho. by rewrite C2. }
  destruct (decide (S k = count g)) as [Hlast|Hlast].
  - exists (set_trackerContext c3 r2). split; [|split; [|done]].
    + apply Hcycle. intros _. by rewrite Hc, bool_decide_eq_true_2.
    + rewrite drop_ge by (unfold count in *; lia). split; cbn; try congruence.
  - destruct c3 as [ts3 root3 cur3 st3]. destruct Hnext as [Hroot Hr3]; [lia|]. cbn in Hroot, Hr3. subst root3.
    assert (aborting (set_trackerContext (mk_TrackerContext ts3 (Some 0%nat) cur3 st3) r2) = false) as Hab2.
    { unfold aborting. cbn [m_config m_totals set_trackerContext]. rewrite Qc, Qn. cbn [assertions].
      apply bool_decide_eq_false_2. specialize (Hab 1%nat). cbn in Hab. rewrite length_drop in Hab.
      apply Z.lt_nge. apply Hab. unfold count in *. lia. }
    destruct (IH (set_trackerContext (mk_TrackerContext ts3 (Some 0%nat) cur3 st3) r2) ts3 cur3 st3 (S k))
      as (r3 & E3 & T3 & U3); [done|done|lia|lia|cbn; congruence|cbn; congruence|cbn; by rewrite Qc| |].
    { intros n Hn. cbn [m_totals m_config set_trackerContext]. rewrite Qc, Qn. cbn [assertions].
      specialize (Hab (S n)). apply Hab. cbn. lia. }
    exists r3. split; [|split; [|done]].
    + apply Hcycle. intros _. rewrite Hc, bool_decide_eq_false_2, Hab2 by done. exact E3.
    + destruct T3 as [Q3c Q3t Q3k Q3n Q3f]. cbn in Q3c, Q3t, Q3k, Q3n, Q3f.
      split; cbn; try congruence. by rewrite Q3n, Qn.
Qed.

(** *** What the checks add up to *)
Definition holds (path : list V) : bool := negb (Bool.eqb (getResult (expr path)) (isFalseTest (resultDisposition info))).
Definition passing (ps : list (list V)) : nat := length (List.filter holds ps).
Definition failing (ps : list (list V)) : nat := length (List.filter (λ p, negb (holds p)) ps).

(** A failed check is not counted if its failure is suppressed ([CHECK_NOFAIL]), and counted as one
    that may fail in a test that may or should fail. *)
Definition check_counts (ps : list (list V)) : Counts :=
  let suppressed := shouldSuppressFailure (resultDisposition info) in
  mk_Counts (Z.of_nat (passing ps))
    (if suppressed || okToFail t then 0 else Z.of_nat (failing ps))
    (if negb suppressed && okToFail t then Z.of_nat (failing ps) else 0).

Lemma judge_all_eq ps c : counts_in_range c → judge_all ps c = counts_add c (check_counts ps).
Proof.
  unfold judge_all. revert c. induction ps as [|p ps IH]; intros c Hc.
  - destruct Hc as (H1 & H2 & H3). unfold counts_add, check_counts. cbn.
    destruct (shouldSuppressFailure (resultDisposition info)), (okToFail t); cbn; rewrite !Z.add_0_r, !u64_id by done; by destruct c.
  - cbn [foldl].
    assert (judge p c = if holds p then count_passed c
      else if shouldSuppressFailure (resultDisposition info) then c
      else if okToFail t then count_failedButOk c else count_failed c) as Hj.
    { unfold judge, counted, holds, type_judged, result_isOk, getResultType. cbn.
      destruct (Bool.eqb _ _); [|done]. cbn. by destruct (shouldSuppressFailure (resultDisposition info)). }
    assert (counts_in_range (judge p c)) as Hr.
    { rewrite Hj. destruct Hc as (H1 & H2 & H3).
      destruct (holds p), (shouldSuppressFailure (resultDisposition info)), (okToFail t); (split; [|split]); cbn; try done; apply u64_range. }
    rewrite IH by exact Hr. rewrite Hj. destruct Hc as (H1 & H2 & H3).
    unfold check_counts, passing, failing. cbn [List.filter].
    destruct (holds p), (shouldSuppressFailure (resultDisposition info)), (okToFail t); cbn [negb length orb andb];
      unfold counts_add, count_passed, count_failed, count_failedButOk; cbn; f_equal; word_lia.
Qed.
Lemma failing_take ps n : (failing (take n ps) ≤ failing ps)%nat.
Proof.
  unfold failing. rewrite <-(take_drop n ps) at 2. rewrite List.filter_app, length_app. lia.
Qed.
Lemma passing_failing ps : (passing ps + failing ps = length ps)%nat.
Proof. unfold passing, failing. induction ps as [|p ps IH]; [done|]. cbn. destruct (holds p); cbn; lia. Qed.

Lemma check_counts_range ps : Z.of_nat (length ps) < u64_modulus → counts_in_range (check_counts ps).
Proof.
  intros Hn. pose proof (passing_failing ps). unfold check_counts.
  destruct (shouldSuppressFailure (resultDisposition info)), (okToFail t); repeat split; cbn; unfold u64_modulus in *; lia.
Qed.
Lemma check_counts_take n ps : failed (check_counts (take n ps)) ≤ failed (check_counts ps).
Proof. pose proof (failing_take ps n). unfold check_counts. cbn. destruct (_ || _); lia. Qed.

(** C12 (functional): a test case that makes a required or unrequired check of the values it takes from
    generators, each with a value at least, checks every combination of them exactly once, also after one of the checks has failed - if the
    failures do not reach the abort limit of the run, which has neither the option -c nor the warning for missing
    assertions.  The checks are counted as they came out: a failed one as failed, in a test that may or should
    fail as failed but ok, and not at all if its failures are suppressed.  The test case has failed if a check
    is counted as failed, failed but ok if one is so counted, and passed otherwise, unless it should have failed:
    then it has failed, with one more failed assertion. *)
Theorem run_test_of_generators depth g fuel internal_lineinfo r :
  inhabited g → (count g ≤ fuel)%nat → (2 ≤ depth)%nat → (height g < depth)%nat → Z.of_nat (count g) < u64_modulus →
  between_tests r → counts_in_range (assertions (m_totals r)) →
  let c := check_counts (paths g) in
  failed (assertions (m_totals r)) + failed c < u64 (abortAfter (m_config r)) →
  ∃ r', runTest depth (gen_body depth value_check g []) fuel internal_lineinfo t r =
      Done (inr (if decide (0 < failed c) then mk_Totals 0 c (mk_Counts 0 1 0)
                 else if decide (0 < failedButOk c) then mk_Totals 0 c (mk_Counts 0 0 1)
                 else if expectedToFail t then mk_Totals 0 (count_failed c) (mk_Counts 0 1 0)
                 else mk_Totals 0 c (mk_Counts 1 0 0)), r') ∧
    assertions (m_totals r') = counts_add (assertions (m_totals r)) c.
Proof.
  intros Hin Hfuel Hd Hh Hsmall [Hun Hu Hw Hsec Hab Hp64] Hrange c Hfail.
  destruct depth as [|[|d]]; [lia|lia|].
  set (rnl := mk_NameAndLocation (str "{root}") internal_lineinfo).
  assert (counts_in_range c) as Hcr by (apply check_counts_range; exact Hsmall).
  destruct (gen_cycles_run d g Hin ltac:(lia) fuel (test_started internal_lineinfo t r) [root_tracker rnl [] NotStarted] None Run_Executing 0)
    as (r2 & Hcyc & T & U); [done|left; by eexists|by apply count_pos|lia|done|done|done| |].
  { intros n Hn. cbn. rewrite drop_0, judge_all_eq by done. cbn [failed counts_add].
    pose proof (check_counts_take n (paths g)). fold c in H. destruct Hrange as (_ & [Hf _] & _).
    pose proof (u64_range (abortAfter (m_config r))) as [_ Hr].
    assert (0 ≤ failed (check_counts (take n (paths g)))) by (unfold check_counts; cbn; destruct (_ || _); lia).
    unfold u64 at 1. rewrite Z.mod_small; [lia|]. unfold u64_modulus in *. lia. }
  rewrite drop_0 in T. destruct T as [Qc Qt Qk Qn Qf]. cbn in Qc, Qt, Qk, Qn, Qf.
  rewrite judge_all_eq in Qn by done. fold c in Qn.
  assert (adjust_expected t (delta (m_totals r2) (m_totals r)) = verdict t c) as Hadj.
  { rewrite <-verdict_adjusts. f_equal. unfold delta, totals_sub.
    cbn [error assertions testCases]. rewrite Qn. cbn [assertions testCases].
    rewrite counts_add_sub, counts_sub_self by done. f_equal. }
  eexists. split.
  - rewrite (runTest_eq _ _ fuel internal_lineinfo t r r2 Hsec Hcyc), Hadj. reflexivity.
  - cbn. by rewrite Qn.
Qed.
End test.

(** Of three combinations one fails, and the last one is checked nevertheless. *)
Definition sum_is_small (path : list Z) : ITransientExpression :=
  mk_ITransientExpression (str "a + b < 20") (bool_decide (foldr Z.add 0 path < 20)) true.
Lemma run_test_of_generators_witness : ∃ r',
  runTest 3 (gen_body 3 (value_check no_assertion sum_is_small) sample_generators []) 3
      (mk_SourceLineInfo (str "catch.hpp") 1) passing_info (make_run_context quiet_config) =
    Done (inr (mk_Totals 0 (mk_Counts 2 1 0) (mk_Counts 0 1 0)), r') ∧
  assertions (m_totals r') = mk_Counts 2 1 0.
Proof.
  destruct (run_test_of_generators no_assertion sum_is_small passing_info 3 sample_generators 3
    (mk_SourceLineInfo (str "catch.hpp") 1) (make_run_context quiet_config)) as (r' & E & Ha).
  - by repeat split.
  - cbn. lia.
  - lia.
  - cbn. lia.
  - by vm_compute.
  - split; try reflexivity. by vm_compute.
  - by vm_compute.
  - by vm_compute.
  - exists r'. split; [rewrite E; reflexivity|rewrite Ha; reflexivity].
Defined.
