(* ===== verification/CatchPlatform.v ===== *)
(** * Catch: the platform (catch_fatal_condition, catch_console_colour, catch_debugger, catch_errno_guard)

    What Catch asks of a POSIX system: the actions for the signals that end a program, the terminal's colours, the
    status of the process.  The numbers of the signals, the actions others have set and the stacks they run on are
    parameters. *)
From stdpp Require Import strings list.
From S2P Require Import Prelude CatchString CatchTest CatchResult CatchTracker CatchRun CatchSections.
From S2P Require Import CatchRunProps CatchRunSections CatchText CatchClara CatchConfig.
From S2P Require Import CatchAssertions.

(** ** FatalConditionHandler *)
Section signals.
Context (SIGINT SIGILL SIGFPE SIGSEGV SIGTERM SIGABRT : Z).
Context {action stack : Type}.

Definition signalDefs : list (Z * list byte) := [
  (SIGINT, str "SIGINT - Terminal interrupt signal");
  (SIGILL, str "SIGILL - Illegal instruction signal");
  (SIGFPE, str "SIGFPE - Floating point error signal");
  (SIGSEGV, str "SIGSEGV - Segmentation violation signal");
  (SIGTERM, str "SIGTERM - Termination request signal");
  (SIGABRT, str "SIGABRT - Abort (abnormal termination) signal")].

(** What a signal does: what somebody else has set, or a call of [handleSignal]. *)
Inductive sa_handler := Previous (a : action) | Handle_signal.
Inductive sig_stack := Old_stack (s : stack) | altStackMem.
(** The process, and the static members of the handler. *)
Record signals := mk_signals {
  actions : Z → sa_handler;
  current_stack : sig_stack;
  isSet : bool;
  oldSigActions : list sa_handler;
  oldSigStack : sig_stack
}.
Definition sigaction (signo : Z) (a : sa_handler) (s : signals) : signals :=
  mk_signals (λ n, if decide (n = signo) then a else actions s n) (current_stack s) (isSet s) (oldSigActions s)
    (oldSigStack s).

(** The loop of the constructor, over the definitions that are left: each action is kept in its place. *)
Fixpoint set_actions (defs : list (Z * list byte)) (s : signals) : signals :=
  match defs with
  | [] => s
  | (id, _) :: defs =>
      let old := oldSigActions s ++ [actions s id] in
      let s := sigaction id Handle_signal s in
      set_actions defs (mk_signals (actions s) (current_stack s) (isSet s) old (oldSigStack s))
  end.
Definition new_FatalConditionHandler (s : signals) : signals :=
  set_actions signalDefs (mk_signals (actions s) altStackMem true [] (current_stack s)).

Fixpoint restore_actions (defs : list (Z * list byte)) (old : list sa_handler) (s : signals) : signals :=
  match defs, old with
  | (id, _) :: defs, a :: old => restore_actions defs old (sigaction id a s)
  | _, _ => s
  end.
Definition reset (s : signals) : signals :=
  if isSet s then
    let s := restore_actions signalDefs (oldSigActions s) s in
    mk_signals (actions s) (oldSigStack s) false (oldSigActions s) (oldSigStack s)
  else s.
Definition delete_FatalConditionHandler (s : signals) : signals := reset s.

Fixpoint signal_name (defs : list (Z * list byte)) (sig : Z) : list byte :=
  match defs with
  | [] => str "<unknown signal>"
  | (id, name) :: defs => if decide (sig = id) then name else signal_name defs sig
  end.

(** *** A signal in a run

    [raise]: the action for the signal is done; where it is not Catch's, the rest is up to the system.  Fuel: how
    often [handleSignal] may be called. *)
Section run.
Context (depth : nat).
Fixpoint raise (fuel : nat) (sig : Z) (s : signals) (r : RunContext) : outcome (throwing action * signals * RunContext) :=
  match fuel with
  | O => Undefined
  | S fuel =>
      match actions s sig with
      | Previous a => Done (inr a, s, r)
      | Handle_signal =>
          let s := reset s in
          match handleFatalErrorCondition depth (signal_name signalDefs sig) r with
          | Done (inr _, r) => raise fuel sig s r
          | Done (inl e, r) => Done (inl e, s, r)
          | Assert_failed => Assert_failed
          | Undefined => Undefined
          end
      end
  end.

(** [invokeActiveTestCase]: the handler is there while the test runs, whichever way the test ends. *)
Definition invoke_guarded (invoke : signals → body) (s : signals) (r : RunContext)
    : outcome (body_exit * RunContext) * signals :=
  let s := new_FatalConditionHandler s in
  let o := invoke s r in
  (o, match o with
      | Done (Returned, _) => delete_FatalConditionHandler (reset s)
      | _ => delete_FatalConditionHandler s
      end).
End run.
End signals.
Arguments signals : clear implicits.

(** ** Colours *)
Definition None_ : Z := 0.
Definition White : Z := 1.
Definition Red : Z := 2.
Definition Green : Z := 3.
Definition Blue : Z := 4.
Definition Cyan : Z := 5.
Definition Yellow : Z := 6.
Definition Grey : Z := 7.
Definition Bright : Z := 0x10.
Definition BrightRed : Z := Z.lor Bright Red.
Definition BrightGreen : Z := Z.lor Bright Green.
Definition LightGrey : Z := Z.lor Bright Grey.
Definition BrightWhite : Z := Z.lor Bright White.
Definition BrightYellow : Z := Z.lor Bright Yellow.

(** [PosixColourImpl::use]: the codes for the terminal. *)
Definition posix_codes : list (Z * list byte) := [
  (None_, str "[0m"); (White, str "[0m"); (Red, str "[0;31m"); (Green, str "[0;32m"); (Blue, str "[0;34m");
  (Cyan, str "[0;36m"); (Yellow, str "[0;33m"); (Grey, str "[1;30m"); (LightGrey, str "[0;37m");
  (BrightRed, str "[1;31m"); (BrightGreen, str "[1;32m"); (BrightWhite, str "[1;37m"); (BrightYellow, str "[1;33m")].
Fixpoint escape_code (codes : list (Z * list byte)) (code : Z) : option (list byte) :=
  match codes with
  | [] => None
  | (c, e) :: codes => if decide (c = code) then Some e else escape_code codes code
  end.
Section colours.
Context (catch_file : list byte).
(** [CATCH_INTERNAL_ERROR] in a line of the header. *)
Definition internal_error (line : nat) (message : list byte) : exn :=
  Logic_error (print_sli (mk_SourceLineInfo catch_file line) ++ str ": Internal Catch2 error: " ++ message).
Definition posix_use (code : Z) : throwing (list byte) :=
  match escape_code posix_codes code with
  | Some e => inr (x1b :: e)
  | None => inl (if decide (code = Bright) then internal_error 9753 (str "not a colour")
                 else internal_error 9754 (str "Unknown colour requested"))
  end.

(** [platformColourInstance]: whether the terminal's codes are used. *)
Definition platformColourInstance (config : option YesOrNo) (isatty : bool) : bool :=
  match default Auto config with Yes => true | No => false | Auto => isatty end.

(** The stream of the configuration, with the implementation that was chosen. *)
Context (posix : bool).
Definition use (code : Z) : ex (list byte) unit := λ os,
  if posix then
    match posix_use code with inr e => Done (inr tt, os ++ e) | inl e => Done (inl e, os) end
  else Done (inr tt, os).

(** [Colour]: whether it was moved from. *)
Definition new_Colour (code : Z) : ex (list byte) bool := _ ← use code; mret false.
Definition move_Colour (rhs : bool) : bool * bool := (rhs, true).
Definition assign_Colour (lhs rhs : bool) : bool * bool := (rhs, true).
Definition delete_Colour (m_moved : bool) : ex (list byte) unit := if m_moved then mret tt else use None_.
End colours.

(** ** isDebuggerActive, on Linux

    The lines of [/proc/self/status]. *)
Definition tracer_prefix : list byte := str "TracerPid:" ++ [x09].
Fixpoint debugger_active (lines : list (list byte)) : bool :=
  match lines with
  | [] => false
  | line :: lines =>
      if decide (take (length tracer_prefix) line = tracer_prefix) then
        match line !! length tracer_prefix with
        | Some c => negb (bool_decide (c = x30))
        | None => false
        end
      else debugger_active lines
  end.

(** [ErrnoGuard] around code that may change [errno]. *)
Definition errno_guarded {A} (m : ex Z A) : ex Z A := λ errno,
  match m errno with Done (a, _) => Done (a, errno) | Assert_failed => Assert_failed | Undefined => Undefined end.
(** Reading the file: its lines, and what that leaves in [errno]. *)
Definition isDebuggerActive (status : ex Z (list (list byte))) : ex Z bool :=
  errno_guarded (lines ← status; mret (debugger_active lines)).

(** * Fatal errors in a run

    What the reporter is told when a test ends fatally: from the message on to the end of the run. *)
Definition fatal_events (t : TestCaseInfo) (msg : list byte) (stats : AssertionStats) (r : RunContext) : list event := [
  fatalErrorEncountered msg; assertionEnded_ stats;
  sectionEnded_ (mk_SectionInfo (name t) (lineInfo t)) (mk_Counts 0 1 0) false;
  testCaseEnded t (mk_Totals 0 (mk_Counts 0 1 0) (mk_Counts 0 1 0)) false;
  testGroupEnded_ [] 1 1 (m_totals r) (aborting r); testRunEnded (config_name (m_config r)) (m_totals r) false].

Lemma handleFatalErrorCondition_eq depth msg r t : m_activeTestCase r = Some t → m_unfinishedSections r = [] →
  ∃ r' stats, handleFatalErrorCondition depth msg r = Done (inr tt, r') ∧
    m_reporter r' = m_reporter r ++ fatal_events t msg stats r' ∧
    getResultType (assertionResult stats) = FatalErrorCondition ∧
    message (m_resultData (assertionResult stats)) = msg ∧ m_info (assertionResult stats) = m_lastAssertionInfo r ∧
    m_totals r' = mk_Totals (error (m_totals r))
      (counted t (make_result (m_lastAssertionInfo r) FatalErrorCondition false msg) (assertions (m_totals r)))
      (count_failed (testCases (m_totals r))).
Proof.
  intros Ht Hun. set (r1 := report (fatalErrorEncountered msg) r).
  set (result := make_result (m_lastAssertionInfo r) FatalErrorCondition false msg).
  destruct (assertionEnded_eq result r1 t Ht) as (n & messages & He & _). set (stats := mk_AssertionStats _ _ _) in He.
  pose proof (after_report_reporter result stats n (after_count t result r1)) as Hrep.
  set (r2 := after_report _ _ _ _) in *.
  assert (m_activeTestCase r2 = Some t ∧ m_unfinishedSections r2 = [] ∧ m_config r2 = m_config r ∧
    m_totals r2 = mk_Totals (error (m_totals r)) (counted t result (assertions (m_totals r))) (testCases (m_totals r)))
    as (Ht2 & Hun2 & Hc2 & Htot2) by (unfold r2, after_report; by destruct (decide _)).
  clearbody r2. eexists _, stats. split; [|split].
  - unfold handleFatalErrorCondition. eapply ex_step; [reflexivity|]. eapply ex_step; [reflexivity|].
    eapply ex_step; [exact He|].
    eapply ex_step with (a := tt) (s' := set_sections [] (m_activeSections r2) r2).
    { unfold handleUnfinishedSections. eapply ex_step; [reflexivity|]. rewrite Hun2. reflexivity. }
    eapply ex_step; [reflexivity|]. eapply ex_step with (a := t); [cbn; by rewrite Ht2|].
    do 5 (eapply ex_step; [reflexivity|]). eapply ex_step; [reflexivity|]. reflexivity.
  - cbn [m_reporter report set_totals set_sections]. rewrite Hrep. cbn [m_reporter after_count r1 report set_lastAssertionPassed set_flags set_totals].
    rewrite <-!app_assoc. reflexivity.
  - split_and!; [done..|]. cbn. by rewrite Htot2.
Qed.

(** * Signals: told once, and put back *)
Section told.
Context (SIGINT SIGILL SIGFPE SIGSEGV SIGTERM SIGABRT : Z).
Context {action stack : Type}.
Implicit Types (s : signals action stack).
Abbreviation defs := (signalDefs SIGINT SIGILL SIGFPE SIGSEGV SIGTERM SIGABRT).
Abbreviation handler := (new_FatalConditionHandler SIGINT SIGILL SIGFPE SIGSEGV SIGTERM SIGABRT).
Abbreviation undo := (reset SIGINT SIGILL SIGFPE SIGSEGV SIGTERM SIGABRT).
Context (numbers_differ : NoDup defs.*1).

Lemma set_actions_eq ds : NoDup ds.*1 → ∀ s,
  oldSigActions (set_actions ds s) = oldSigActions s ++ ((λ d, actions s d.1) <$> ds) ∧
  current_stack (set_actions ds s) = current_stack s ∧ isSet (set_actions ds s) = isSet s ∧
  oldSigStack (set_actions ds s) = oldSigStack s ∧
  ∀ n, actions (set_actions ds s) n = if decide (n ∈ ds.*1) then Handle_signal else actions s n.
Proof.
  induction ds as [|[id name] ds IH]; intros Hnd s.
  - cbn. rewrite app_nil_r. split_and!; try done. 
  - cbn [fmap list_fmap fst] in Hnd. apply list.NoDup_cons in Hnd as [Hid Hnd].
    change (list_fmap _ _ fst ds) with (ds.*1) in Hid.
    cbn [set_actions]. set (s1 := mk_signals _ _ _ _ _).
    destruct (IH Hnd s1) as (Ho & Hs & Hb & Hk & Ha). rewrite Ho, Hs, Hb, Hk. split_and!; try done.
    + cbn [s1 oldSigActions sigaction]. rewrite <-app_assoc. cbn. do 2 f_equal.
      apply list_fmap_ext. intros i [n' nm] Hn. cbn. rewrite decide_False; [done|].
      intros ->. apply Hid. apply (list_elem_of_lookup_2 _ i). by rewrite list_lookup_fmap, Hn.
    + intros n. rewrite Ha. cbn [s1 actions sigaction]. change (((id, name) :: ds).*1) with (id :: ds.*1).
      destruct (decide (n ∈ ds.*1)) as [Hn|Hn].
      * rewrite decide_True; [done|]. apply elem_of_cons. by right.
      * destruct (decide (n = id)) as [->|Hne]; [rewrite decide_True; [done|]; apply elem_of_cons; by left|].
        rewrite decide_False; [done|]. by intros [?|?]%elem_of_cons.
Qed.

Lemma restore_actions_eq f ds s n :
  actions (restore_actions ds ((λ d, f d.1) <$> ds) s) n = if decide (n ∈ ds.*1) then f n else actions s n.
Proof.
  revert s. induction ds as [|[id name] ds IH]; intros s; [done|]. cbn [fmap list_fmap restore_actions fst].
  change (list_fmap _ _ fst ds) with (ds.*1). change (list_fmap _ _ _ ds) with ((λ d, f d.1) <$> ds). rewrite IH. cbn.
  destruct (decide (n ∈ ds.*1)) as [Hn|Hn].
  - rewrite decide_True; [done|]. apply elem_of_cons. by right.
  - destruct (decide (n = id)) as [->|Hne]; [rewrite decide_True; [done|]; apply elem_of_cons; by left|].
    rewrite decide_False; [done|]. by intros [?|?]%elem_of_cons.
Qed.

(** While the handler is there its signals are Catch's, and only they. *)
Lemma handler_set s : isSet (handler s) = true ∧ current_stack (handler s) = altStackMem ∧
  ∀ n, actions (handler s) n = if decide (n ∈ defs.*1) then Handle_signal else actions s n.
Proof using numbers_differ.
  destruct (set_actions_eq defs numbers_differ (mk_signals (actions s) altStackMem true [] (current_stack s)))
    as (_ & Hs & Hb & _ & Ha). by split_and!.
Qed.

Lemma undo_handler s : isSet (undo (handler s)) = false ∧ current_stack (undo (handler s)) = current_stack s ∧
  ∀ n, actions (undo (handler s)) n = actions s n.
Proof using numbers_differ.
  destruct (set_actions_eq defs numbers_differ (mk_signals (actions s) altStackMem true [] (current_stack s)))
    as (Ho & _ & Hb & Hk & Ha). change (set_actions defs _) with (handler s) in Ho, Hb, Hk, Ha.
  unfold reset. rewrite Hb. cbn [isSet current_stack actions].
  split_and!; [done|exact Hk|]. intros n. rewrite Ho. cbn [oldSigActions app].
  rewrite (restore_actions_eq (actions s)), Ha. cbn [actions]. by destruct (decide _).
Qed.
Lemma undo_twice s : isSet s = false → undo s = s.
Proof. unfold reset. by intros ->. Qed.
(** The handler is undone once, by the reset or by its end. *)
Lemma invoke_guarded_undone invoke s r :
  (invoke_guarded SIGINT SIGILL SIGFPE SIGSEGV SIGTERM SIGABRT invoke s r).2 = undo (handler s).
Proof using numbers_differ.
  destruct (undo_handler s) as [Hoff _]. unfold invoke_guarded, delete_FatalConditionHandler. cbn [snd].
  generalize (handler s), Hoff. intros h Hh. rewrite (undo_twice (undo h) Hh).
  destruct (invoke h r) as [[[] ?]| |]; reflexivity.
Qed.

Lemma signal_name_in ds sig name : NoDup ds.*1 → (sig, name) ∈ ds → signal_name ds sig = name.
Proof.
  induction ds as [|[id n] ds IH]; intros Hnd Hin; [by apply elem_of_nil in Hin|].
  cbn [fmap list_fmap fst] in Hnd. apply list.NoDup_cons in Hnd as [Hid Hnd]. cbn [signal_name].
  apply elem_of_cons in Hin as [[= -> ->]|Hin]; [by rewrite decide_True|].
  rewrite decide_False; [by apply IH|]. intros ->. apply Hid. by apply (list_elem_of_fmap_2 fst _ (id, name)).
Qed.

(** C14 (safety): let the six signals have different numbers, and one of them arrive while a test runs, none of
    whose sections is being left by an exception; the action before Catch's was not Catch's.  The reporter is told
    once: the signal's name as a fatal error, an assertion with the result [FatalErrorCondition] and that message,
    then the ends of the test case's own section, of the test case, of its group and of the run, whose totals count
    the assertion and one more failed test case.  Sections nested in the test case that are still open are not
    ended.  All signals do again what they did before the test, on the stack they had, and the signal is sent on to
    that.  And a test that is not interrupted leaves the actions for all signals, and their stack, as they were,
    however it ends. *)
Theorem fatal_signal_told depth (s : signals action stack) r t sig msg old :
  (sig, msg) ∈ defs → actions s sig = Previous old → m_activeTestCase r = Some t → m_unfinishedSections r = [] →
  (∃ s' r' stats, raise SIGINT SIGILL SIGFPE SIGSEGV SIGTERM SIGABRT depth 2 sig (handler s) r = Done (inr old, s', r') ∧
     m_reporter r' = m_reporter r ++ fatal_events t msg stats r' ∧
     getResultType (assertionResult stats) = FatalErrorCondition ∧
     message (m_resultData (assertionResult stats)) = msg ∧
     m_totals r' = mk_Totals (error (m_totals r))
       (counted t (make_result (m_lastAssertionInfo r) FatalErrorCondition false msg) (assertions (m_totals r)))
       (count_failed (testCases (m_totals r))) ∧
     (∀ n, actions s' n = actions s n) ∧ current_stack s' = current_stack s) ∧
  ∀ invoke, let s' := (invoke_guarded SIGINT SIGILL SIGFPE SIGSEGV SIGTERM SIGABRT invoke s r).2 in
    (∀ n, actions s' n = actions s n) ∧ current_stack s' = current_stack s ∧ isSet s' = false.
Proof using numbers_differ.
  intros Hin Hold Ht Hun. destruct (handler_set s) as (Hset & _ & Ha). destruct (undo_handler s) as (Hoff & Hstack & Hact).
  split.
  - destruct (handleFatalErrorCondition_eq depth msg r t Ht Hun) as (r' & stats & He & Hr & Hty & Hm & _ & Htot).
    exists (undo (handler s)), r', stats. split_and!; [|done|done|done|done|done|done].
    cbn [raise]. rewrite Ha, decide_True by (by apply (list_elem_of_fmap_2 fst _ (sig, msg))).
    rewrite (signal_name_in _ sig msg numbers_differ Hin), He. by rewrite Hact, Hold.
  - intros invoke. cbv zeta. rewrite (invoke_guarded_undone invoke s r). exact (conj Hact (conj Hstack Hoff)).
Qed.
End told.

(** The numbers of Linux; an action is a name here. *)
Lemma fatal_signal_told_witness : ∃ s' r',
  raise 2 4 8 11 15 6 5 2 11
    (new_FatalConditionHandler 2 4 8 11 15 6 (mk_signals (λ _, Previous (str "default")) (Old_stack 0%nat) false [] altStackMem))
    example_run = Done (inr (str "default"), s', r') ∧
  actions s' 11 = Previous (str "default") ∧
  head (drop 1 (m_reporter r')) = Some (fatalErrorEncountered (str "SIGSEGV - Segmentation violation signal")).
Proof.
  destruct (fatal_signal_told 2 4 8 11 15 6 (action := list byte) (stack := nat)) with (depth := 5%nat) (r := example_run) (t := passing_info) (sig := 11)
    (msg := str "SIGSEGV - Segmentation violation signal") (old := str "default")
    (s := mk_signals (λ _, @Previous (list byte) (str "default")) (Old_stack 0%nat) false [] altStackMem)
    as [(s' & r' & stats & E & Hr & _ & _ & _ & Ha & _) _].
  - by apply (bool_decide_eq_true_1 (NoDup _)).
  - cbn. do 3 (apply list_elem_of_further). apply list_elem_of_here.
  - reflexivity.
  - reflexivity.
  - reflexivity.
  - exists s', r'. split; [exact E|]. split; [by rewrite Ha|]. rewrite Hr. reflexivity.
Defined.

(** * The tracer's process

    The first character is enough: only the number 0 starts with a 0. *)
Lemma decimal_digits_head fuel n acc : (n < fuel)%nat → (0 < n)%nat →
  ∃ c l, decimal_digits fuel n acc = c :: l ∧ c ≠ x30.
Proof.
  revert n acc. induction fuel as [|fuel IH]; intros n acc Hf Hn; [lia|]. cbn [decimal_digits].
  case_decide as Hten.
  - eexists _, _. split; [done|]. do 10 (destruct n as [|n]; [first [lia|done]|]). lia.
  - apply IH; [|apply Nat.div_str_pos; lia]. pose proof (Nat.div_lt n 10). lia.
Qed.
Lemma decimal_head n : ∃ c l, decimal n = c :: l ∧ (c = x30 ↔ n = 0%nat).
Proof.
  unfold decimal. destruct (decide (n = 0%nat)) as [->|Hn]; [by exists x30, []|].
  destruct (decimal_digits_head (S n) n []) as (c & l & -> & Hc); [lia..|]. by exists c, l.
Qed.

(** Property (functional): where the system tells the number of the process that traces this one, in the first line
    that starts so, there is a debugger exactly if the number is not 0; without such a line there is none; and
    asking leaves [errno] as it was, whatever reading the file does to it. *)
Theorem debugger_detected before pid after (status : ex Z (list (list byte))) errno errno' lines :
  Forall (λ l, take (length tracer_prefix) l ≠ tracer_prefix) before →
  status errno = Done (inr lines, errno') →
  (lines = before ++ (tracer_prefix ++ decimal pid) :: after →
   isDebuggerActive status errno = Done (inr (negb (bool_decide (pid = 0%nat))), errno)) ∧
  (lines = before → isDebuggerActive status errno = Done (inr false, errno)).
Proof.
  intros Hb Hst. unfold isDebuggerActive, errno_guarded.
  assert ((lines ← status; mret (debugger_active lines)) errno = Done (inr (debugger_active lines), errno')) as ->
    by (by eapply ex_step).
  assert (∀ rest, debugger_active (before ++ rest) = debugger_active rest) as Hskip.
  { intros rest. induction Hb as [|l ls Hl _ IH]; [done|]. cbn [app debugger_active]. by rewrite decide_False. }
  split; intros ->.
  - rewrite Hskip. cbn [debugger_active]. rewrite take_app_length, decide_True by done.
    destruct (decimal_head pid) as (c & l & -> & Hc).
    assert ((tracer_prefix ++ c :: l) !! length tracer_prefix = Some c) as -> by (by rewrite lookup_app_r, Nat.sub_diag).
    by rewrite (bool_decide_ext _ _ Hc).
  - by rewrite <-(app_nil_r before), Hskip.
Qed.

Lemma debugger_detected_witness :
  isDebuggerActive (λ _, Done (inr [str "State:"; tracer_prefix ++ str "1207"], 0)) 7 = Done (inr true, 7).
Proof.
  apply (debugger_detected [str "State:"] 1207 [] (λ _, Done (inr [str "State:"; tracer_prefix ++ str "1207"], 0)) 7 0
    [str "State:"; tracer_prefix ++ str "1207"]); [|reflexivity|reflexivity].
  constructor; [discriminate|constructor].
Defined.
