(* ===== verification/CatchHub.v ===== *)
(** * Catch: the registries and the start of a program (catch_registry_hub, catch_singletons, catch_context, AutoReg)

    What a program registers before [main] goes to the hub, the one object of its class, which is made when it is
    first asked for; what is thrown meanwhile is kept, for the session to tell.  The end of the session deletes
    the hub, and the pointer to it stays. *)
From Stdlib Require Import Sorted.
From stdpp Require Import strings list.
From S2P Require Import Prelude CatchString CatchTest CatchResult CatchTracker CatchRun.
From S2P Require Import CatchText CatchTextProps CatchClara CatchConfig CatchReporters CatchSession.
From S2P Require Import CatchExceptions CatchPlatform CatchConsole CatchDefaultReporters CatchSessionProps.

Section hub.
Context {double R E : Type} `{IStreamingReporter R}.

Record RegistryHub := mk_RegistryHub {
  m_testCaseRegistry : TestRegistry;
  m_reporterRegistry : ReporterRegistry double R;
  m_exceptionTranslatorRegistry : @ExceptionTranslatorRegistry E;
  m_tagAliasRegistry : TagAliasRegistry;
  m_exceptionRegistry : @StartupExceptionRegistry exn
}.
Definition new_RegistryHub : RegistryHub :=
  mk_RegistryHub new_registry new_ReporterRegistry (mk_ExceptionTranslatorRegistry []) []
    (mk_StartupExceptionRegistry []).

Definition hub_registerTest (testInfo : TestCase) (h : RegistryHub) : RegistryHub :=
  mk_RegistryHub (registerTest testInfo (m_testCaseRegistry h)) (m_reporterRegistry h)
    (m_exceptionTranslatorRegistry h) (m_tagAliasRegistry h) (m_exceptionRegistry h).
Definition set_reporterRegistry (rr : ReporterRegistry double R) (h : RegistryHub) : RegistryHub :=
  mk_RegistryHub (m_testCaseRegistry h) rr (m_exceptionTranslatorRegistry h) (m_tagAliasRegistry h)
    (m_exceptionRegistry h).
Definition hub_registerReporter (name : list byte) (factory : IReporterFactory double R) (h : RegistryHub) : RegistryHub :=
  set_reporterRegistry (registerReporter name factory (m_reporterRegistry h)) h.
Definition hub_registerListener (factory : IReporterFactory double R) (h : RegistryHub) : RegistryHub :=
  set_reporterRegistry (registerListener factory (m_reporterRegistry h)) h.
Definition hub_registerTranslator (translator : ExceptionTranslator) (h : RegistryHub) : RegistryHub :=
  mk_RegistryHub (m_testCaseRegistry h) (m_reporterRegistry h)
    (registerTranslator translator (m_exceptionTranslatorRegistry h)) (m_tagAliasRegistry h) (m_exceptionRegistry h).
Definition hub_registerTagAlias (alias tag : list byte) (lineInfo : SourceLineInfo) (h : RegistryHub)
    : throwing RegistryHub :=
  r ← add_alias (m_tagAliasRegistry h) alias tag lineInfo;
  mret (mk_RegistryHub (m_testCaseRegistry h) (m_reporterRegistry h) (m_exceptionTranslatorRegistry h) r
          (m_exceptionRegistry h)).
Definition hub_registerStartupException (e : exn) (h : RegistryHub) : RegistryHub :=
  mk_RegistryHub (m_testCaseRegistry h) (m_reporterRegistry h) (m_exceptionTranslatorRegistry h)
    (m_tagAliasRegistry h) (startup_add e (m_exceptionRegistry h)).

(** ** What lives as long as the process *)
Inductive instance := Null | Live (h : RegistryHub) | Deleted.
Record Context := mk_Context { context_config : option (Config double) }.
Record globals := mk_globals {
  s_instance : instance;
  currentContext : option Context;
  alreadyInstantiated : bool
}.
Definition fresh : globals := mk_globals Null None false.
Definition set_instance (i : instance) (g : globals) : globals :=
  mk_globals i (currentContext g) (alreadyInstantiated g).
Definition set_currentContext (c : option Context) (g : globals) : globals :=
  mk_globals (s_instance g) c (alreadyInstantiated g).
Definition set_alreadyInstantiated (g : globals) : globals := mk_globals (s_instance g) (currentContext g) true.

Definition program (A : Type) : Type := ex globals A.

(** [Singleton::getInternal], for the hub. *)
Definition getMutableRegistryHub : program RegistryHub :=
  g ← ex_get;
  match s_instance g with
  | Null => _ ← ex_modify (set_instance (Live new_RegistryHub)); mret new_RegistryHub
  | Live h => mret h
  | Deleted => ex_undefined
  end.
(** A member of the hub is called. *)
Definition with_hub (f : RegistryHub → throwing RegistryHub) : program unit :=
  h ← getMutableRegistryHub;
  match f h with inr h => ex_modify (set_instance (Live h)) | inl e => ex_throw e end.
Definition cleanupSingletons : program unit :=
  ex_modify (λ g, match s_instance g with Live _ => set_instance Deleted g | _ => g end).

Definition createContext : program unit := ex_modify (set_currentContext (Some (mk_Context None))).
Definition getCurrentMutableContext : program Context :=
  g ← ex_get;
  _ ← match currentContext g with None => createContext | Some _ => mret tt end;
  g ← ex_get; ex_deref (currentContext g).
Definition setConfig (c : option (Config double)) : program unit :=
  _ ← getCurrentMutableContext; ex_modify (set_currentContext (Some (mk_Context c))).
Definition cleanUpContext : program unit := ex_modify (set_currentContext None).
Definition cleanUp : program unit := _ ← cleanupSingletons; cleanUpContext.

(** ** Before main

    [CATCH_TRY { ... } CATCH_CATCH_ALL { registerStartupException }] *)
Definition or_at_startup (m : program unit) : program unit := λ g,
  match m g with
  | Done (inl e, g) => with_hub (λ h, inr (hub_registerStartupException e h)) g
  | o => o
  end.
Definition AutoReg (invoker : nat) (lineInfo : SourceLineInfo) (classOrMethod name tags : list byte) : program unit :=
  or_at_startup (with_hub (λ h,
    c ← extractClassName classOrMethod;
    t ← makeTestCase invoker c name tags lineInfo;
    mret (hub_registerTest t h))).
Definition RegistrarForTagAliases (alias tag : list byte) (lineInfo : SourceLineInfo) : program unit :=
  or_at_startup (with_hub (hub_registerTagAlias alias tag lineInfo)).
Definition ReporterRegistrar (name : list byte) (factory : IReporterFactory double R) : program unit :=
  with_hub (λ h, inr (hub_registerReporter name factory h)).
Definition ListenerRegistrar (factory : IReporterFactory double R) : program unit :=
  with_hub (λ h, inr (hub_registerListener factory h)).
Definition ExceptionTranslatorRegistrar (translateFunction : ExceptionTranslator) : program unit :=
  with_hub (λ h, inr (hub_registerTranslator translateFunction h)).

(** The objects a program has at namespace scope. *)
Inductive static_object :=
| a_test (invoker : nat) (lineInfo : SourceLineInfo) (classOrMethod name tags : list byte)
| a_tag_alias (alias tag : list byte) (lineInfo : SourceLineInfo)
| a_reporter (name : list byte) (factory : IReporterFactory double R)
| a_listener (factory : IReporterFactory double R)
| a_translator (translateFunction : @ExceptionTranslator E).
Definition construct (o : static_object) : program unit :=
  match o with
  | a_test invoker lineInfo classOrMethod name tags => AutoReg invoker lineInfo classOrMethod name tags
  | a_tag_alias alias tag lineInfo => RegistrarForTagAliases alias tag lineInfo
  | a_reporter name factory => ReporterRegistrar name factory
  | a_listener factory => ListenerRegistrar factory
  | a_translator translateFunction => ExceptionTranslatorRegistrar translateFunction
  end.
Fixpoint constructs (os : list static_object) : program unit :=
  match os with [] => mret tt | o :: os => _ ← construct o; constructs os end.

(** ** The session *)
Section session.
Context (confidence : double) (convertInto_double : converter double) (time : Z)
  (read_file : list byte → option (list (list byte))) (can_open : list byte → bool)
  (shuffle : list TestCase → list TestCase) (run_case : TestCase → run Totals) (fuel : nat)
  (catch_file : list byte).

Fixpoint tell_exceptions (exceptions : list exn) : @ses double unit :=
  match exceptions with
  | [] => mret tt
  | e :: exceptions =>
      text ← from_outcome (column_toString fuel (indent 2 (new_Column (what_ e))));
      _ ← ex_modify (print_err (text ++ [x0a]));
      tell_exceptions exceptions
  end.
Definition startup_header : list byte := str "Errors occurred during startup!" ++ [x0a].

(** A member function of the session as it is made, in the program. *)
Definition on_session {A} (m : @ses double A) (s : Session) : program (A * Session) := λ g,
  match m s with
  | Done (inr a, s) => Done (inr (a, s), g)
  | Done (inl e, _) => Done (inl e, g)
  | Assert_failed => Assert_failed
  | Undefined => Undefined
  end.

Definition second_session : exn :=
  internal_error catch_file 12663 (str "Only one instance of Catch::Session can ever be used").
Definition Session_Session : program Session :=
  g ← ex_get;
  _ ← (if alreadyInstantiated g then or_at_startup (ex_throw second_session) else mret tt);
  h ← getMutableRegistryHub;
  let exceptions := getExceptions (m_exceptionRegistry h) in
  let made := make_Session confidence convertInto_double (m_reporterRegistry h) time read_file in
  s ← (if decide (exceptions = []) then mret (made false (m_testCaseRegistry h))
       else
         '(_, s) ← on_session (config can_open (m_tagAliasRegistry h)) (made true (m_testCaseRegistry h));
         _ ← setConfig (ses_config s);
         '(_, s) ← on_session (_ ← ex_modify (print_err startup_header); tell_exceptions exceptions) s;
         mret s);
  _ ← ex_modify set_alreadyInstantiated;
  mret s.

(** [Catch::Session().run( argc, argv )], the session deleted at the end. *)
Definition main (argv : list (list byte)) : program (Z * Session) :=
  s ← Session_Session;
  h ← getMutableRegistryHub;
  '(code, s) ← on_session
    (main_run (m_reporterRegistry h) can_open (m_tagAliasRegistry h) shuffle run_case fuel argv) s;
  _ ← cleanUp;
  mret (code, s).
(** A process: its objects, and then [main]. *)
Definition process (os : list static_object) (argv : list (list byte)) : program (Z * Session) :=
  _ ← constructs os; main argv.
End session.
End hub.
Arguments RegistryHub : clear implicits.
Arguments globals : clear implicits.
Arguments static_object : clear implicits.

(** * What has been registered

    Said of the objects themselves: the tests that can be made, in their order, the first reporter and the first
    tag alias of a name, and what is thrown by the others. *)
Section registered.
Context {double R E : Type} `{IStreamingReporter R}.
Abbreviation object := (static_object double R E).

Definition made_test (o : object) : option (throwing TestCase) :=
  match o with
  | a_test invoker lineInfo classOrMethod name tags =>
      Some (c ← extractClassName classOrMethod; makeTestCase invoker c name tags lineInfo)
  | _ => None
  end.
Definition tests_of : list object → list TestCase :=
  omap (λ o, match made_test o with Some (inr t) => Some t | _ => None end).
(** The tests without a name are numbered. *)
Fixpoint named (n : nat) (ts : list TestCase) : list TestCase :=
  match ts with
  | [] => []
  | t :: ts => if decide (name (info t) = [])
               then withName t (str "Anonymous test case " ++ decimal (S n)) :: named (S n) ts
               else t :: named n ts
  end.
Definition anonymous (ts : list TestCase) : nat := length (List.filter (λ t, bool_decide (name (info t) = [])) ts).

Definition alias_form (alias : list byte) : bool := startsWith alias (str "[@") && endsWith_char alias x5d.
Fixpoint first_alias (alias : list byte) (os : list object) : option TagAlias :=
  match os with
  | [] => None
  | a_tag_alias a tag lineInfo :: os =>
      if decide (a = alias ∧ alias_form a = true) then Some (mk_TagAlias tag lineInfo) else first_alias alias os
  | _ :: os => first_alias alias os
  end.
Fixpoint first_reporter (n : list byte) (os : list object) : option (IReporterFactory double R) :=
  match os with
  | [] => None
  | a_reporter name factory :: os => if decide (n = name) then Some factory else first_reporter n os
  | _ :: os => first_reporter n os
  end.

(** What an object throws behind some others. *)
Definition refusal (before : list object) (o : object) : option exn :=
  match o with
  | a_test _ _ _ _ _ => match made_test o with Some (inl e) => Some e | _ => None end
  | a_tag_alias alias tag lineInfo =>
      if negb (alias_form alias) then
        Some (Domain_error (str "error: tag alias, '" ++ alias ++ str "' is not of the form [@alias name]." ++ [x0a] ++
          print_sli lineInfo))
      else match first_alias alias before with
           | Some first => Some (Domain_error (str "error: tag alias, '" ++ alias ++ str "' already registered." ++
               [x0a] ++ [x09] ++ str "First seen at: " ++ print_sli (alias_line first) ++ [x0a] ++
               [x09] ++ str "Redefined at: " ++ print_sli lineInfo))
           | None => None
           end
  | _ => None
  end.
Fixpoint refusals (before os : list object) : list exn :=
  match os with
  | [] => []
  | o :: os => option_list (refusal before o) ++ refusals (before ++ [o]) os
  end.

(** The hub after some objects. *)
Record holds (os : list object) (h : RegistryHub double R E) : Prop := {
  h_tests : m_functions (m_testCaseRegistry h) = named 0 (tests_of os);
  h_unnamed : m_unnamedCount (m_testCaseRegistry h) = anonymous (tests_of os);
  h_unsorted : m_sortedFunctions (m_testCaseRegistry h) = [];
  h_sorted : ascending ((m_factories (m_reporterRegistry h)).*1);
  h_reporters n : find_factory n (m_factories (m_reporterRegistry h)) = first_reporter n os;
  h_listeners : getListeners (m_reporterRegistry h) = omap (λ o, match o with a_listener f => Some f | _ => None end) os;
  h_translators : m_translators (m_exceptionTranslatorRegistry h) =
    omap (λ o, match o with a_translator t => Some t | _ => None end) os;
  h_aliases a : find_alias a (m_tagAliasRegistry h) = first_alias a os;
  h_exceptions : getExceptions (m_exceptionRegistry h) = refusals [] os
}.

(** ** One more *)
Lemma named_snoc n ts t : named n (ts ++ [t]) = named n ts ++ named (n + anonymous ts) [t].
Proof.
  revert n. induction ts as [|u ts IH]; intros n; [by rewrite Nat.add_0_r|].
  cbn [app named]. unfold anonymous. cbn [List.filter]. case_decide as Hu.
  - rewrite bool_decide_eq_true_2 by done. cbn [length app]. rewrite IH. by rewrite Nat.add_succ_comm.
  - rewrite bool_decide_eq_false_2 by done. cbn [app]. by rewrite IH.
Qed.
Lemma anonymous_snoc ts t :
  anonymous (ts ++ [t]) = (anonymous ts + if decide (name (info t) = []) then 1 else 0)%nat.
Proof.
  unfold anonymous. rewrite List.filter_app, length_app. cbn [List.filter].
  case_decide; [by rewrite bool_decide_eq_true_2|by rewrite bool_decide_eq_false_2].
Qed.
Lemma refusals_snoc b os o : refusals b (os ++ [o]) = refusals b os ++ option_list (refusal (b ++ os) o).
Proof.
  revert b. induction os as [|p os IH]; intros b; cbn [app refusals]; [by rewrite !app_nil_r|].
  by rewrite IH, <-!app_assoc.
Qed.
Lemma first_alias_snoc a os o :
  first_alias a (os ++ [o]) = match first_alias a os with Some x => Some x | None => first_alias a [o] end.
Proof. induction os as [|[] os IH]; cbn [app first_alias]; try done. by case_decide. Qed.
Lemma first_reporter_snoc n os o :
  first_reporter n (os ++ [o]) = match first_reporter n os with Some x => Some x | None => first_reporter n [o] end.
Proof. induction os as [|[] os IH]; cbn [app first_reporter]; try done. by case_decide. Qed.

Lemma find_alias_insert k v a m : find_alias k m = None →
  find_alias a (insert_sorted (λ x y : list byte * TagAlias, bytes_le x.1 y.1) (k, v) m) =
  if decide (k = a) then Some v else find_alias a m.
Proof.
  induction m as [|[k' v'] m IH]; cbn [find_alias insert_sorted]; [done|]. intros Hk. case_decide as Heq; [done|].
  destruct (bytes_le _ _); cbn [find_alias]; [done|]. rewrite IH by done. repeat case_decide; congruence.
Qed.

Lemma find_factory_fresh n (m : list (list byte * IReporterFactory double R)) :
  n ∉ m.*1 → find_factory n m = None.
Proof.
  induction m as [|[k f] m IH]; [done|]. cbn [fmap list_fmap fst find_factory]. rewrite not_elem_of_cons.
  intros [Hk Hm]. rewrite decide_False by done. by apply IH.
Qed.
Lemma emplace_spec n f (m : list (list byte * IReporterFactory double R)) : ascending m.*1 →
  ascending (emplace n f m).*1 ∧ (∀ k, k ∈ (emplace n f m).*1 ↔ k = n ∨ k ∈ m.*1) ∧
  ∀ k, find_factory k (emplace n f m) =
    match find_factory k m with Some g => Some g | None => if decide (k = n) then Some f else None end.
Proof.
  induction m as [|[k' g] m IH]; cbn [fmap list_fmap fst emplace]; intros Hs.
  - split_and!; [by repeat constructor|intros k; by rewrite list_elem_of_singleton, elem_of_nil; naive_solver|].
    intros k. done.
  - change (list_fmap _ _ fst m) with (m.*1) in *. pose proof Hs as [Hs' Hk]%StronglySorted_inv.
    destruct (IH Hs') as (IHs & IHk & IHf). case_decide as Heq; [|destruct (bytes_lt n k') eqn:Elt].
    + subst k'. split_and!; [done|intros k; cbn [fmap list_fmap fst]; rewrite elem_of_cons; naive_solver|].
      intros k. cbn [find_factory]. repeat case_decide; try done. by destruct (find_factory k m).
    + cbn [fmap list_fmap fst]. split_and!.
      * constructor; [done|]. constructor; [done|]. eapply Forall_impl; [|exact Hk]. intros z Hz.
        by eapply bytes_lt_trans.
      * intros k. by rewrite !elem_of_cons.
      * intros k. cbn [find_factory]. case_decide as Ek; [|by destruct (if decide _ then _ else _)].
        subst k. rewrite decide_False by done. rewrite find_factory_fresh; [done|].
        intros Hin. eapply list.Forall_forall in Hin; [|exact Hk]. apply (bytes_lt_trans n k' n) in Hin; [|done].
        apply bytes_lt_spec in Hin. naive_solver.
    + cbn [fmap list_fmap fst]. change (list_fmap _ _ fst (emplace n f m)) with ((emplace n f m).*1). split_and!.
      * constructor; [done|]. apply list.Forall_forall. intros z [->|Hz]%IHk.
        -- apply bytes_lt_total; [by apply not_eq_sym|done].
        -- by eapply list.Forall_forall in Hk.
      * intros k. rewrite !elem_of_cons, IHk. naive_solver.
      * intros k. cbn [find_factory]. case_decide; [done|]. apply IHf.
Qed.

Abbreviation live h := (set_instance (Live h) (fresh (double := double) (R := R) (E := E))).

(** What becomes of an object, without the process around the hub. *)
Definition offer (o : object) (h : RegistryHub double R E) : throwing (RegistryHub double R E) :=
  match o with
  | a_test invoker lineInfo classOrMethod name tags =>
      t ← (c ← extractClassName classOrMethod; makeTestCase invoker c name tags lineInfo); inr (hub_registerTest t h)
  | a_tag_alias alias tag lineInfo => hub_registerTagAlias alias tag lineInfo h
  | a_reporter name factory => inr (hub_registerReporter name factory h)
  | a_listener factory => inr (hub_registerListener factory h)
  | a_translator translateFunction => inr (hub_registerTranslator translateFunction h)
  end.
Definition account (o : object) (h : RegistryHub double R E) : RegistryHub double R E :=
  match offer o h with inr h => h | inl e => hub_registerStartupException e h end.

Lemma construct_made o : construct o fresh = construct o (live new_RegistryHub).
Proof. by destruct o. Qed.
Lemma with_hub_live (f : RegistryHub double R E → throwing (RegistryHub double R E)) h :
  with_hub f (live h) = match f h with inr h => Done (inr tt, live h) | inl e => Done (inl e, live h) end.
Proof. unfold with_hub. eapply ex_step; [reflexivity|]. by destruct (f h). Qed.
(** A test or a tag alias: it is there, or what it threw. *)
Lemma or_at_startup_live (f : RegistryHub double R E → throwing (RegistryHub double R E)) h :
  or_at_startup (with_hub f) (live h) =
  Done (inr tt, live (match f h with inr h => h | inl e => hub_registerStartupException e h end)).
Proof. unfold or_at_startup. rewrite with_hub_live. by destruct (f h). Qed.

Lemma construct_eq o h : construct o (live h) = Done (inr tt, live (account o h)).
Proof.
  destruct o; cbn [construct]; try reflexivity; unfold AutoReg, RegistrarForTagAliases; rewrite or_at_startup_live.
  - unfold account. cbn [offer]. unfold mbind, throwing_bind. by destruct (extractClassName _).
  - reflexivity.
Qed.

Lemma new_hub_holds : holds [] (new_RegistryHub (double := double) (R := R) (E := E)).
Proof. by split; try constructor. Qed.

Lemma registerTest_named t ts r :
  m_functions r = named 0 ts → m_unnamedCount r = anonymous ts → m_sortedFunctions r = [] →
  m_functions (registerTest t r) = named 0 (ts ++ [t]) ∧ m_unnamedCount (registerTest t r) = anonymous (ts ++ [t]) ∧
  m_sortedFunctions (registerTest t r) = [].
Proof.
  intros Hf Hn Hs. rewrite named_snoc, anonymous_snoc. unfold registerTest. cbn [named]. rewrite Nat.add_0_l.
  case_decide as Ht; cbn [m_functions m_unnamedCount m_sortedFunctions]; rewrite Hf, Hn; split_and!; try done; lia.
Qed.

Lemma omap_snoc {A B} (f : A → option B) os o : omap f (os ++ [o]) = omap f os ++ option_list (f o).
Proof. rewrite omap_app. cbn. by destruct (f o). Qed.

Lemma or_nothing {A} (o : option A) : match o with Some x => Some x | None => None end = o.
Proof. by destruct o. Qed.

(** The fields of [holds] for one object more, where it does not touch them. *)
Ltac untouched Hr Ha :=
  split; rewrite ?refusals_snoc; unfold tests_of; rewrite ?omap_snoc;
  try (intros ?; rewrite ?first_alias_snoc, ?first_reporter_snoc);
  cbn [made_test option_list app refusal first_alias first_reporter]; rewrite ?app_nil_r, ?or_nothing; try done;
  try apply Hr; try apply Ha.

Lemma account_holds o os h : holds os h → holds (os ++ [o]) (account o h).
Proof.
  intros [Ht Hu Hs Ho Hr Hl Hx Ha He]. unfold account.
  destruct o as [invoker l c n tags|alias tag l|n f|f|t]; cbn [offer].
  - destruct (made_test (a_test invoker l c n tags)) as [[e|t]|] eqn:Hm; cbn [made_test] in Hm; [| |done];
      injection Hm as Hm; rewrite Hm.
    + untouched Hr Ha; rewrite Hm; cbn; rewrite ?app_nil_r; try done. by rewrite <-He.
    + destruct (registerTest_named t _ _ Ht Hu Hs) as (Hf & Hn & Hs').
      untouched Hr Ha; rewrite ?Hm; cbn; rewrite ?app_nil_r; done.
  - cbn [hub_registerTagAlias]. unfold hub_registerTagAlias, add_alias. fold (alias_form alias).
    rewrite Ha. destruct (alias_form alias) eqn:Hform; cbn [negb].
    + destruct (first_alias alias os) as [first|] eqn:Hfirst; cbn [mbind throwing_bind].
      * untouched Hr Ha; rewrite ?Hform, ?Hfirst; cbn; try (by rewrite <-He).
        rewrite Ha. destruct (first_alias a os) eqn:?; [done|]. case_decide as Hal; [|done]. naive_solver.
      * untouched Hr Ha; rewrite ?Hform, ?Hfirst; cbn; rewrite ?app_nil_r;  try (by rewrite <-He).
        rewrite find_alias_insert by (by rewrite Ha). rewrite Ha. destruct (decide (alias = a)) as [->|Hne].
        -- by rewrite Hfirst, decide_True.
        -- rewrite decide_False by naive_solver. by rewrite or_nothing.
    + untouched Hr Ha; rewrite ?Hform; cbn; try (by rewrite <-He).
      rewrite Ha, decide_False by naive_solver. by rewrite or_nothing.
  - destruct (emplace_spec n f _ Ho) as (Hs1 & _ & Hs3). untouched Hr Ha. etrans; [apply Hs3|]. by rewrite Hr.
  - untouched Hr Ha. by rewrite <-Hl.
  - untouched Hr Ha. by rewrite <-Hx.
Qed.

Lemma constructs_eq os h : constructs os (live h) = Done (inr tt, live (foldl (λ h o, account o h) h os)).
Proof.
  revert h. induction os as [|o os IH]; intros h; [done|]. cbn [constructs foldl].
  eapply ex_step; [apply construct_eq|]. apply IH.
Qed.
Lemma accounts_hold os h before : holds before h → holds (before ++ os) (foldl (λ h o, account o h) h os).
Proof.
  revert h before. induction os as [|o os IH]; intros h before Hh; [by rewrite app_nil_r|].
  rewrite cons_middle, app_assoc. by apply IH, account_holds.
Qed.

(** All the objects, and then the first that asks for the hub. *)
Lemma hub_after os : ∃ g h, constructs os fresh = Done (inr tt, g) ∧ getMutableRegistryHub g = Done (inr h, live h) ∧
  alreadyInstantiated g = false ∧ holds os h.
Proof.
  destruct os as [|o os].
  - exists fresh, new_RegistryHub. by split_and!; [..|apply new_hub_holds].
  - set (h := foldl (λ h o, account o h) new_RegistryHub (o :: os)).
    assert (holds (o :: os) h) as Hh by (apply (accounts_hold (o :: os) _ []), new_hub_holds).
    exists (live h), h. split_and!; [|done..]. cbn [constructs].
    eapply ex_step; [rewrite construct_made; apply construct_eq|]. apply constructs_eq.
Qed.

(** Property (functional): the hub knows after a program's start what its objects have registered: the tests that can
    be made in the order of the objects, those without a name numbered; of each reporter's name and each tag alias
    the first; the listeners and the translators in their order; and what the other objects have thrown, so
    that every object is accounted for and none of them ends the program. *)
Theorem everything_registered os : ∃ h,
  (_ ← constructs os; getMutableRegistryHub) fresh = Done (inr h, live h) ∧
  m_functions (m_testCaseRegistry h) = named 0 (tests_of os) ∧
  (∀ n, find_factory n (m_factories (m_reporterRegistry h)) = first_reporter n os) ∧
  getListeners (m_reporterRegistry h) = omap (λ o, match o with a_listener f => Some f | _ => None end) os ∧
  m_translators (m_exceptionTranslatorRegistry h) = omap (λ o, match o with a_translator t => Some t | _ => None end) os ∧
  (∀ a, find_alias a (m_tagAliasRegistry h) = first_alias a os) ∧
  getExceptions (m_exceptionRegistry h) = refusals [] os.
Proof.
  destruct (hub_after os) as (g & h & Hg & Hh & _ & [Ht _ _ _ Hr Hl Hx Ha He]).
  exists h. split_and!; [|done..]. by eapply ex_step.
Qed.
End registered.

(** * What went wrong before main is told *)
Section told.
Context {double R E : Type} `{IStreamingReporter R} (confidence : double) (convertInto_double : converter double)
  (time : Z) (read_file : list byte → option (list (list byte))) (can_open : list byte → bool)
  (shuffle : list TestCase → list TestCase) (run_case : TestCase → run Totals) (fuel : nat) (catch_file : list byte).

(** The lines that show an exception: each indented by two, with the visible characters of its text. *)
Definition shows (e : exn) (text : list byte) : Prop := ∃ ps, text = join_lines (layout 2 2 ps) ∧
  Forall (λ l, length l ≤ TEXTFLOW_CONSOLE_WIDTH)%nat (layout 2 2 ps) ∧
  visible (List.concat (List.map shown ps)) = visible (what_ e).
Definition told (texts : list (list byte)) : list byte := List.concat ((λ t, t ++ [x0a]) <$> texts).

Lemma exception_column e : (length (what_ e) < fuel)%nat →
  ∃ text, column_toString fuel (indent 2 (new_Column (what_ e))) = Done text ∧ shows e text.
Proof.
  intros Hf. destruct (column_lines_layout (indent 2 (new_Column (what_ e))) (what_ e) eq_refl) with (fuel := fuel)
    as (ps & Hl & Hw & Hv); [by apply Nat.leb_le|by apply Nat.leb_le|done|].
  exists (join_lines (layout 2 2 ps)). split; [unfold column_toString; by rewrite Hl|]. by exists ps.
Qed.
Lemma print_err_twice a b (s : Session (double := double)) : print_err b (print_err a s) = print_err (a ++ b) s.
Proof. unfold print_err. cbn. by rewrite <-app_assoc. Qed.

Lemma tell_exceptions_eq es (s : Session (double := double)) : Forall (λ e, length (what_ e) < fuel)%nat es →
  ∃ texts, tell_exceptions fuel es s = Done (inr tt, print_err (told texts) s) ∧ Forall2 shows es texts.
Proof.
  intros Hes. revert s. induction Hes as [|e es He Hes IH]; intros s.
  - exists []. split; [|constructor]. cbn. unfold print_err. rewrite app_nil_r. by destruct s.
  - destruct (exception_column e He) as (t & Ht & Hsh).
    destruct (IH (print_err (t ++ [x0a]) s)) as (ts & Hts & Hall). exists (t :: ts). split; [|by constructor].
    cbn [tell_exceptions]. eapply ex_step; [unfold from_outcome; by rewrite Ht|]. eapply ex_step; [reflexivity|].
    rewrite Hts, print_err_twice. done.
Qed.

Abbreviation started := (make_Session confidence convertInto_double).
Abbreviation whole := (process (R := R) (E := E) confidence convertInto_double time read_file can_open shuffle run_case
  fuel catch_file).

(** Nothing is set when the exceptions are told, so the configuration can be made. *)
Lemma default_configured (rr : ReporterRegistry double R) tests aliases : let s := started rr time read_file true tests in
  ∃ c, config can_open aliases s = Done (inr c, set_ses_config (Some c) s).
Proof. eexists. reflexivity. Qed.

(** C31 (error): what a program's objects throw before [main] does not run its tests: the session writes all
    of it, in its order, each in lines of its own with every visible character, says no more and ends with 1,
    whatever the arguments; and a program whose objects throw nothing does what its session does.  The hub and
    the context are gone at the end. *)
Theorem startup_exceptions_told os argv : let errors := refusals [] os in
  Forall (λ e, length (what_ e) < fuel)%nat errors → ∃ h, holds os h ∧
  let s b := started (m_reporterRegistry h) time read_file b (m_testCaseRegistry h) in
  let ended := set_alreadyInstantiated (set_instance Deleted fresh) in
  if decide (errors = []) then
    ∀ code s', main_run (m_reporterRegistry h) can_open (m_tagAliasRegistry h) shuffle run_case fuel argv (s false) =
      Done (inr code, s') → whole os argv fresh = Done (inr (code, s'), ended)
  else ∃ texts s', Forall2 shows errors texts ∧ whole os argv fresh = Done (inr (1, s'), ended) ∧
    cout s' = [] ∧ cerr s' = startup_header ++ told texts ∧ registry s' = m_testCaseRegistry h.
Proof.
  intros errors Hf. destruct (hub_after os) as (g & h & Hg & Hh & Hi & Hhold). exists h. split; [done|].
  pose proof (h_exceptions _ _ Hhold) as He. fold errors in He. intros s ended.
  case_decide as Hnone.
  - intros code s' Hrun. unfold process. eapply ex_step; [exact Hg|]. unfold main.
    eapply ex_step with (a := s false) (s' := set_alreadyInstantiated (set_instance (Live h) fresh)).
    { unfold Session_Session. eapply ex_step; [reflexivity|]. rewrite Hi. eapply ex_step; [reflexivity|].
      eapply ex_step; [exact Hh|]. rewrite He, decide_True by done. reflexivity. }
    eapply ex_step; [reflexivity|]. eapply ex_step; [unfold on_session; by rewrite Hrun|]. reflexivity.
  - destruct (default_configured (m_reporterRegistry h) (m_testCaseRegistry h) (m_tagAliasRegistry h)) as [c Hc].
    change (started _ _ _ _ _) with (s true) in Hc.
    destruct (tell_exceptions_eq errors (print_err startup_header (set_ses_config (Some c) (s true))) Hf)
      as (texts & Ht & Hall). rewrite print_err_twice in Ht.
    set (s' := print_err (startup_header ++ told texts) (set_ses_config (Some c) (s true))) in Ht.
    exists texts, s'. split_and!; [done| |done..]. unfold process. eapply ex_step; [exact Hg|]. unfold main.
    eapply ex_step with (a := s') (s' := mk_globals (Live h) (Some (mk_Context (Some c))) true); [|reflexivity].
    unfold Session_Session. eapply ex_step; [reflexivity|]. rewrite Hi. eapply ex_step; [reflexivity|].
    eapply ex_step; [exact Hh|]. rewrite He, decide_False by done.
    eapply ex_step with (a := s') (s' := mk_globals (Live h) (Some (mk_Context (Some c))) false); [|reflexivity].
    eapply ex_step; [unfold on_session; cbv zeta beta; change (make_Session _ _ _ _ _ _ _) with (s true); by rewrite Hc|].
    cbv beta iota. eapply ex_step; [reflexivity|].
    eapply ex_step with (a := (tt, s')); [|reflexivity]. unfold on_session.
    change ((_ ← ex_modify (print_err startup_header); tell_exceptions fuel errors) (set_ses_config (Some c) (s true)))
      with (tell_exceptions fuel errors (print_err startup_header (set_ses_config (Some c) (s true)))). by rewrite Ht.
Qed.
End told.

(** * Programs *)
#[local] Existing Instance sample_interface.

(** A test, a tag alias that is none, a test with a tag that may not be used, a reporter, and the first test again. *)
Definition sample_objects : list (static_object (list byte) sample_reporter unit) :=
  let l := mk_SourceLineInfo (str "t.cpp") in
  [a_test 0 (l 10%nat) [] (str "put") (str "[kv]"); a_tag_alias (str "@fast") (str "[kv]") (l 20%nat);
   a_test 1 (l 30%nat) [] (str "get") (str "[!wrong]"); a_tag_alias (str "[@kv]") (str "[kv]") (l 40%nat);
   a_test 2 (l 50%nat) [] [] (str "[kv]")].
Definition sample_process (os : list (static_object (list byte) sample_reporter unit)) (argv : list (list byte)) :=
  process (str "0.95") convertInto_string 0 (λ _, None) no_files (λ l, l) two_fail 300 (str "catch.hpp") os argv.

Example sample_named : name ∘ info <$> named 0 (tests_of sample_objects) = [str "put"; str "Anonymous test case 1"].
Proof. vm_compute. reflexivity. Qed.

Lemma startup_exceptions_told_witness : ∃ texts s', Forall2 shows (refusals [] sample_objects) texts ∧
  sample_process sample_objects [str "tests"; str "-s"] fresh =
    Done (inr (1, s'), set_alreadyInstantiated (set_instance Deleted fresh)) ∧
  cout s' = [] ∧ cerr s' = startup_header ++ told texts.
Proof.
  destruct (startup_exceptions_told (str "0.95") convertInto_string 0 (λ _, None) no_files (λ l, l) two_fail 300
    (str "catch.hpp") sample_objects [str "tests"; str "-s"]) as (h & _ & Hs).
  - apply (bool_decide_eq_true_1 (Forall _ _)). vm_compute. reflexivity.
  - rewrite decide_False in Hs by (vm_compute; discriminate).
    destruct Hs as (texts & s' & Hall & Hw & Ho & He & _).
    exists texts, s'. exact (conj Hall (conj Hw (conj Ho He))).
Defined.

(** The objects of the library itself, in front of a program's, make the registry of the reporters. *)
Definition library_objects : list (static_object (list byte) sample_reporter unit) :=
  [a_reporter (str "compact") compact_factory; a_reporter (str "console") console_factory;
   a_reporter (str "junit") junit_factory; a_reporter (str "xml") xml_factory].
Example library_registered : m_reporterRegistry (foldl (λ h o, account o h) new_RegistryHub library_objects) = sample_registry.
Proof. reflexivity. Qed.

Definition code_of {S A} (o : outcome (throwing (Z * A) * S)) : option Z :=
  match o with Done (inr (z, _), _) => Some z | _ => None end.
Example starts_well : code_of (sample_process
  (library_objects ++ [a_test 0 (mk_SourceLineInfo (str "t.cpp") 10) [] (str "put") (str "[kv]")]) [str "tests"] fresh) = Some 2.
Proof. vm_compute. reflexivity. Qed.

(** A second session is refused while the first one lives; behind its end the hub is asked for where it no
    longer is. *)
Section again.
Context {double R E : Type} (confidence : double) (convertInto_double : converter double)
  (time : Z) (read_file : list byte → option (list (list byte))) (can_open : list byte → bool) (fuel : nat)
  (catch_file : list byte).

Lemma session_after_session (ctx : option Context) :
  Session_Session (R := R) (E := E) confidence convertInto_double time read_file can_open fuel catch_file
    (mk_globals Deleted ctx true) = Undefined.
Proof. reflexivity. Qed.
End again.
