(* ===== verification/CatchBenchmark.v ===== *)
(** * Catch: benchmarks (catch_stats, catch_run_for_at_least, catch_estimate_clock, catch_execution_plan, catch_analyse)

    What a benchmark measures and what is made of it.  The build does not enable benchmarks.  A [double] is that of
    CatchFloat; the functions of the mathematical library that need not be rounded correctly, the random numbers and
    the clock are parameters.  The clock counts nanoseconds. *)
From Stdlib Require Import SpecFloat.
From stdpp Require Import strings list sorting.
From S2P Require Import Prelude CatchString CatchTest CatchToString CatchResult CatchMatchers.
From S2P Require Import CatchExceptions CatchAssertions CatchFloat CatchFloatProps.

Abbreviation double := spec_float.

(** ** Arithmetic *)
Definition sub (x y : double) : double := SFsub 53 1024 x y.
Definition div (x y : double) : double := SFdiv 53 1024 x y.
Definition sqrt (x : double) : double := SFsqrt 53 1024 x.
Definition neg (x : double) : double := SFopp x.
Definition of_int (n : Z) : double := binary_normalize 53 1024 n 0 false.
(** [std::min] and [std::max]. *)
Definition fmin_ (a b : double) : double := if SFltb b a then b else a.
Definition fmax_ (a b : double) : double := if SFltb a b then b else a.

(** A literal: its digits as a number, and the power of ten it is to be multiplied by. *)
Fixpoint scan_exponent (s : list byte) (minus : bool) (n : Z) : Z :=
  match s with
  | [] => if minus then - n else n
  | c :: s => if decide (c = x2d) then scan_exponent s true n
              else if decide (c = x2b) then scan_exponent s minus n
              else scan_exponent s minus (10 * n + (b2z c - 48))
  end.
Fixpoint scan (s : list byte) (point : bool) (m k : Z) : Z * Z :=
  match s with
  | [] => (m, k)
  | c :: s => if decide (c = x2e) then scan s true m k
              else if decide (c = x65) then (m, k + scan_exponent s false 0)
              else scan s point (10 * m + (b2z c - 48)) (if point then k - 1 else k)
  end.
(** The number next to it: the quotient of two integers, rounded once. *)
Definition literal (s : string) : double :=
  let '(m, k) := scan (str s) false 0 0 in
  match m with
  | Zpos p => if decide (0 ≤ k) then binary_round 53 1024 false (p * Z.to_pos (10 ^ k)) 0
              else div (S754_finite false p 0) (S754_finite false (Z.to_pos (10 ^ (- k))) 0)
  | _ => zero
  end.
Definition minus_literal (s : string) : double := neg (literal s).

(** *** To integers: towards zero, upwards, and to the nearest with ties away from zero.  What is not an [int] or a
    [long] is undefined. *)
Definition in_range (bits : Z) (n : Z) : outcome Z :=
  if decide (- 2 ^ (bits - 1) ≤ n < 2 ^ (bits - 1)) then Done n else Undefined.
Definition with_value (f : Z → Z → Z) (x : double) : outcome Z :=
  match x with
  | S754_zero _ => Done 0
  | S754_finite s m e =>
      let v := if s then Zneg m else Zpos m in
      Done (if decide (0 ≤ e) then f (v * 2 ^ e) 1 else f v (2 ^ (- e)))
  | _ => Undefined
  end.
Definition to_integer (bits : Z) (x : double) : outcome Z := n ← with_value Z.quot x; in_range bits n.
Definition ceil_int (x : double) : outcome Z := n ← with_value (λ v d, - ((- v) / d)) x; in_range 32 n.
Definition lround (x : double) : outcome Z :=
  n ← with_value (λ v d, Z.sgn v * ((2 * Z.abs v + d) / (2 * d))) x; in_range 64 n.

(** ** Outliers *)
Record OutlierClassification := mk_OutlierClassification {
  samples_seen : Z;
  low_severe : Z;
  low_mild : Z;
  high_mild : Z;
  high_severe : Z
}.
Definition no_outliers : OutlierClassification := mk_OutlierClassification 0 0 0 0 0.
Definition outliers_total (o : OutlierClassification) : Z := low_severe o + low_mild o + high_mild o + high_severe o.

(** [std::nth_element] may sort it all. *)
Fixpoint insert_double (x : double) (l : list double) : list double :=
  match l with
  | [] => [x]
  | y :: l => if SFltb y x then y :: insert_double x l else x :: y :: l
  end.
Fixpoint sort_doubles (l : list double) : list double :=
  match l with [] => [] | x :: l => insert_double x (sort_doubles l) end.
Definition nth_element (j : Z) (l : list double) : list double := sort_doubles l.
Definition min_element (l : list double) : option double :=
  match l with [] => None | x :: l => Some (foldl fmin_ x l) end.
Definition weighted_average_quantile (k q : Z) (l : list double) : outcome double :=
  let count := Z.of_nat (length l) in
  let idx := div (of_int ((count - 1) * k)) (of_int q) in
  j ← to_integer 32 idx;
  let g := sub idx (of_int j) in
  let l := nth_element j l in
  xj ← or_undefined (l !! Z.to_nat j);
  if SFeqb g zero then Done xj
  else xj1 ← or_undefined (min_element (drop (S (Z.to_nat j)) l)); Done (add xj (mul g (sub xj1 xj))).

Definition classify (los lom him his : double) (o : OutlierClassification) (t : double) : OutlierClassification :=
  let '(mk_OutlierClassification n ls lm hm hs) := o in
  if SFltb t los then mk_OutlierClassification (n + 1) (ls + 1) lm hm hs
  else if SFltb t lom then mk_OutlierClassification (n + 1) ls (lm + 1) hm hs
  else if SFltb his t then mk_OutlierClassification (n + 1) ls lm hm (hs + 1)
  else if SFltb him t then mk_OutlierClassification (n + 1) ls lm (hm + 1) hs
  else mk_OutlierClassification (n + 1) ls lm hm hs.
Definition classify_outliers (l : list double) : outcome OutlierClassification :=
  q1 ← weighted_average_quantile 1 4 l;
  q3 ← weighted_average_quantile 3 4 l;
  let iqr := sub q3 q1 in
  let los := sub q1 (mul iqr (literal "3.")) in
  let lom := sub q1 (mul iqr (literal "1.5")) in
  let him := add q3 (mul iqr (literal "1.5")) in
  let his := add q3 (mul iqr (literal "3.")) in
  Done (foldl (classify los lom him his) no_outliers l).

(** ** Statistics *)
Definition mean (l : list double) : double := div (foldl add zero l) (of_int (Z.of_nat (length l))).
Definition standard_deviation (l : list double) : double :=
  let m := mean l in
  let variance := div (foldl (λ a b, let diff := sub b m in add a (mul diff diff)) zero l) (of_int (Z.of_nat (length l))) in
  sqrt variance.

(** [jackknife] works on the samples themselves: the element in turn is swapped to the front and stays there until
    the next one's. *)
Definition swap {A} (i j : nat) (l : list A) : list A :=
  match l !! i, l !! j with Some x, Some y => <[j := x]> (<[i := y]> l) | _, _ => l end.
Fixpoint jackknife_from {A} (estimator : list A → double) (todo it : nat) (l : list A) (results : list double)
    : list double * list A :=
  match todo with
  | O => (results, l)
  | S todo => let l := swap it 0 l in jackknife_from estimator todo (S it) l (results ++ [estimator (drop 1 l)])
  end.
Definition jackknife {A} (estimator : list A → double) (l : list A) : outcome (list double * list A) :=
  if decide (l = []) then Undefined else Done (jackknife_from estimator (length l) 0 l []).

(** The numbers the generator gives for the [i]th resample. *)
Definition resample {A} (draws : nat → nat → nat) (resamples : nat) (l : list A) (estimator : list A → double)
    : outcome (list double) :=
  if decide (l = []) then Undefined
  else
    let one i := omap (λ j, l !! (draws i j mod length l)%nat) (seq 0 (length l)) in
    Done (sort_doubles ((λ i, estimator (one i)) <$> seq 0 resamples)).

(** ** Normal quantiles

    The coefficients of a polynomial, the highest first: [p = c + p * w]. *)
Definition horner (coefficients : list double) (w : double) : double :=
  match coefficients with [] => zero | c :: cs => foldl (λ p c, add c (mul p w)) c cs end.
Definition erf_central : list double := [
  minus_literal "3.6444120640178196996e-21"; minus_literal "1.685059138182016589e-19";
   literal "1.2858480715256400167e-18"; literal "1.115787767802518096e-17"; minus_literal "1.333171662854620906e-16";
   literal "2.0972767875968561637e-17"; literal "6.6376381343583238325e-15";
   minus_literal "4.0545662729752068639e-14"; minus_literal "8.1519341976054721522e-14";
   literal "2.6335093153082322977e-12"; minus_literal "1.2975133253453532498e-11";
   minus_literal "5.4154120542946279317e-11"; literal "1.051212273321532285e-09";
   minus_literal "4.1126339803469836976e-09"; minus_literal "2.9070369957882005086e-08";
   literal "4.2347877827932403518e-07"; minus_literal "1.3654692000834678645e-06";
   minus_literal "1.3882523362786468719e-05"; literal "0.0001867342080340571352";
   minus_literal "0.00074070253416626697512"; minus_literal "0.0060336708714301490533";
   literal "0.24015818242558961693"; literal "1.6536545626831027356"].
Definition erf_middle : list double := [
  literal "2.2137376921775787049e-09"; literal "9.0756561938885390979e-08";
   minus_literal "2.7517406297064545428e-07"; literal "1.8239629214389227755e-08";
   literal "1.5027403968909827627e-06"; minus_literal "4.013867526981545969e-06";
   literal "2.9234449089955446044e-06"; literal "1.2475304481671778723e-05";
   minus_literal "4.7318229009055733981e-05"; literal "6.8284851459573175448e-05";
   literal "2.4031110387097893999e-05"; minus_literal "0.0003550375203628474796";
   literal "0.00095328937973738049703"; minus_literal "0.0016882755560235047313"; literal "0.0024914420961078508066";
   minus_literal "0.0037512085075692412107"; literal "0.005370914553590063617"; literal "1.0052589676941592334";
   literal "3.0838856104922207635"].
Definition erf_tail : list double := [
  minus_literal "2.7109920616438573243e-11"; minus_literal "2.5556418169965252055e-10";
   literal "1.5076572693500548083e-09"; minus_literal "3.7894654401267369937e-09";
   literal "7.6157012080783393804e-09"; minus_literal "1.4960026627149240478e-08";
   literal "2.9147953450901080826e-08"; minus_literal "6.7711997758452339498e-08";
   literal "2.2900482228026654717e-07"; minus_literal "9.9298272942317002539e-07";
   literal "4.5260625972231537039e-06"; minus_literal "1.9681778105531670567e-05";
   literal "7.5995277030017761139e-05"; minus_literal "0.00021503011930044477347";
   minus_literal "0.00013871931833623122026"; literal "1.0103004648645343977"; literal "4.8499064014085844221"].

Section libm.
Context (log erfc : double → double) (pow : double → double → double).

Definition erf_inv (x : double) : double :=
  let one := literal "1.0" in
  let w := neg (log (mul (sub one x) (add one x))) in
  let p :=
    if SFltb w (literal "6.250000") then horner erf_central (sub w (literal "3.125000"))
    else if SFltb w (literal "16.000000") then horner erf_middle (sub (sqrt w) (literal "3.250000"))
    else horner erf_tail (sub (sqrt w) (literal "5.000000")) in
  mul p x.
Definition erfc_inv (x : double) : double := erf_inv (sub (literal "1.0") x).
Definition normal_cdf (x : double) : double :=
  div (erfc (div (neg x) (sqrt (literal "2.0")))) (literal "2.0").
Definition normal_quantile (p : double) : outcome double :=
  if SFleb zero p && SFleb p (of_int 1) then
    Done (mul (neg (erfc_inv (mul (literal "2.0") p))) (sqrt (literal "2.0")))
  else Assert_failed.

(** ** The bootstrap *)
Record Estimate (D : Type) := mk_Estimate {
  point : D;
  lower_bound : D;
  upper_bound : D;
  confidence_interval : double
}.
Arguments mk_Estimate {D}.
Arguments point {D}.
Arguments lower_bound {D}.
Arguments upper_bound {D}.
Arguments confidence_interval {D}.

(** Also what becomes of the samples. *)
Definition bootstrap (confidence_level : double) (l resample : list double) (estimator : list double → double)
    : outcome (Estimate double * list double) :=
  let point := estimator l in
  let same := mk_Estimate point point point confidence_level in
  if decide (length l = 1%nat) then Done (same, l)
  else
    '(jack, l) ← jackknife estimator l;
    let jack_mean := mean jack in
    let '(sum_squares, sum_cubes) := foldl (λ '(sq, cb) x,
      let d := sub jack_mean x in let d2 := mul d d in let d3 := mul d2 d in (add sq d2, add cb d3)) (zero, zero) jack in
    let accel := div sum_cubes (mul (of_int 6) (pow sum_squares (literal "1.5"))) in
    let n := Z.of_nat (length resample) in
    let prob_n := div (of_int (Z.of_nat (length (List.filter (λ x, SFltb x point) resample)))) (of_int n) in
    if SFeqb prob_n zero then Done (same, l)
    else
      bias ← normal_quantile prob_n;
      z1 ← normal_quantile (div (sub (literal "1.") confidence_level) (literal "2."));
      let cumn x := r ← lround (mul (normal_cdf x) (of_int n)); Done (i32 r) in
      let a b := add bias (div b (sub (literal "1.") (mul accel b))) in
      let b1 := add bias z1 in
      let b2 := sub bias z1 in
      c1 ← cumn (a b1);
      c2 ← cumn (a b2);
      let lo := Z.max c1 0 in
      let hi := Z.min c2 (n - 1) in
      if decide (hi < 0) then Undefined
      else
        lower ← or_undefined (resample !! Z.to_nat lo);
        upper ← or_undefined (resample !! Z.to_nat hi);
        Done (mk_Estimate point lower upper confidence_level, l).

Definition outlier_variance (mean stddev : Estimate double) (n : Z) : outcome double :=
  let fn := of_int n in
  let sb := point stddev in
  let mn := div (point mean) fn in
  let mg_min := div mn (literal "2.") in
  let sg := fmin_ (div mg_min (literal "4.")) (div sb (sqrt fn)) in
  let sg2 := mul sg sg in
  let sb2 := mul sb sb in
  let c_max x :=
    let k := sub mn x in
    let d := mul k k in
    let nd := mul fn d in
    let k0 := mul (of_int (i32 (- n))) nd in
    let k1 := add (sub sb2 (mul fn sg2)) nd in
    let det := sub (mul k1 k1) (mul (mul (of_int 4) sg2) k0) in
    c ← to_integer 32 (div (mul (minus_literal "2.") k0) (add k1 (sqrt det)));
    Done (of_int c) in
  let var_out c := let nc := sub fn c in mul (div nc fn) (sub sb2 (mul nc sg2)) in
  c0 ← c_max (literal "0.");
  c1 ← c_max mg_min;
  Done (div (fmin_ (var_out (of_int 1)) (var_out (fmin_ c0 c1))) sb2).

Record bootstrap_analysis := mk_bootstrap_analysis {
  ba_mean : Estimate double;
  ba_standard_deviation : Estimate double;
  ba_outlier_variance : double
}.
(** The two estimates one after the other, on the same samples; each has a generator of its own. *)
Definition analyse_samples (mean_draws stddev_draws : nat → nat → nat) (confidence_level : double) (n_resamples : nat)
    (l : list double) : outcome (bootstrap_analysis * list double) :=
  let estimate draws f l := resampled ← resample draws n_resamples l f; bootstrap confidence_level l resampled f in
  '(mean_estimate, l) ← estimate mean_draws mean l;
  '(stddev_estimate, l) ← estimate stddev_draws standard_deviation l;
  v ← outlier_variance mean_estimate stddev_estimate (Z.of_nat (length l));
  Done (mk_bootstrap_analysis mean_estimate stddev_estimate v, l).

(** ** analyse

    Durations are counts of nanoseconds. *)
Record SampleAnalysis := mk_SampleAnalysis {
  sa_samples : list double;
  sa_mean : Estimate double;
  sa_standard_deviation : Estimate double;
  sa_outliers : OutlierClassification;
  sa_outlier_variance : double
}.
Definition analyse (mean_draws stddev_draws : nat → nat → nat) (no_analysis : bool) (confidence_interval : double)
    (resamples : nat) (samples : list double) : outcome SampleAnalysis :=
  if no_analysis then
    let m := div (foldl add zero samples) (of_int (Z.of_nat (length samples))) in
    Done (mk_SampleAnalysis samples (mk_Estimate m m m zero) (mk_Estimate zero zero zero zero) no_outliers zero)
  else
    '(analysis, samples) ← analyse_samples mean_draws stddev_draws confidence_interval resamples samples;
    outliers ← classify_outliers samples;
    Done (mk_SampleAnalysis samples (ba_mean analysis) (ba_standard_deviation analysis) outliers
            (ba_outlier_variance analysis)).
End libm.
Arguments mk_Estimate {D}.
Arguments point {D}.
Arguments lower_bound {D}.
Arguments upper_bound {D}.
Arguments confidence_interval {D}.

(** ** Measuring

    Code that may throw values of type [E], in a state from which the clock's next reading can be taken. *)
Section measuring.
Context {E S : Type}.
Context (now : code E S Z) (optimized_away_error : E).

Fixpoint repeat_ (k : nat) (i : Z) (fun_ : Z → code E S unit) : code E S unit :=
  match k with O => mret tt | Datatypes.S k => _ ← fun_ i; repeat_ k (i + 1) fun_ end.
Definition loop (k : Z) (fun_ : Z → code E S unit) : code E S unit := repeat_ (Z.to_nat k) 0 fun_.

Record Timing (R : Type) := mk_Timing { elapsed : Z; result : R; iterations : Z }.
Arguments mk_Timing {R}.
Arguments elapsed {R}.
Arguments result {R}.
Arguments iterations {R}.

Definition measure {R} (fun_ : code E S R) : code E S (Timing R) :=
  start ← now; r ← fun_; end_ ← now; mret (mk_Timing (end_ - start) r 1).

(** [ChronometerModel]: what the clock showed; [BenchmarkFunction]: with a chronometer of so many runs, or without. *)
Record ChronometerModel := mk_ChronometerModel { started : Z; finished : Z }.
Definition chronometer_measure (k : Z) (fun_ : Z → code E S unit) (m : ChronometerModel) : code E S ChronometerModel :=
  start ← now; _ ← loop k fun_; finish ← now; mret (mk_ChronometerModel start finish).
Inductive BenchmarkFunction :=
| Plain (fun_ : Z → code E S unit)
| Advanced (fun_ : Z → ChronometerModel → code E S ChronometerModel).
Definition call (f : BenchmarkFunction) (k : Z) (m : ChronometerModel) : code E S ChronometerModel :=
  match f with Plain fun_ => chronometer_measure k fun_ m | Advanced fun_ => fun_ k m end.
Definition new_meter : ChronometerModel := mk_ChronometerModel 0 0.

(** [measure_one] of a function of the iterations, and of one of a chronometer. *)
Definition measure_int {R} (fun_ : Z → code E S R) (iters : Z) : code E S (Timing R) := measure (fun_ iters).
Definition measure_meter (f : BenchmarkFunction) (iters : Z) : code E S (Timing unit) :=
  m ← call f iters new_meter; mret (mk_Timing (finished m - started m) tt iters).

(** [run_for_at_least]: the iterations are doubled; each round is a [measure_one]. *)
Fixpoint run_for_at_least {R} (fuel : nat) (how_long seed : Z) (measure_one : Z → code E S (Timing R))
    : code E S (Timing R) :=
  match fuel with
  | O => λ _, Undefined
  | Datatypes.S fuel =>
      if decide (seed < 2 ^ 30) then
        t ← measure_one seed;
        if decide (how_long ≤ elapsed t) then mret (mk_Timing (elapsed t) (result t) seed)
        else run_for_at_least fuel how_long (i32 (seed * 2)) measure_one
      else raise optimized_away_error
  end.
(** From 1 on, 31 rounds are the last. *)
Definition rounds : nat := 31.

(** ** The clock itself *)
Fixpoint readings (k : nat) : code E S (list Z) :=
  match k with O => mret [] | Datatypes.S k => t ← now; ts ← readings k; mret (t :: ts) end.
Fixpoint deltas (times : list Z) : list double :=
  match times with
  | a :: (b :: _) as times => of_int (b - a) :: deltas times
  | _ => []
  end.
Definition resolution (k : Z) : code E S (list double) := times ← readings (Z.to_nat (k + 1)); mret (deltas times).

Definition of_outcome {A} (o : outcome A) : code E S A := λ s,
  match o with Done a => Done (inr a, s) | Assert_failed => Assert_failed | Undefined => Undefined end.
Definition milliseconds (n : Z) : Z := n * 1000000.
Definition warmup_iterations : Z := 10000.
Definition warmup_time : Z := milliseconds 100.
Definition minimum_ticks : Z := 1000.
Definition warmup_seed : Z := 10000.
Definition clock_resolution_estimation_time : Z := milliseconds 500.
Definition clock_cost_estimation_time_limit : Z := milliseconds 1000.
Definition clock_cost_estimation_tick_limit : Z := 100000.
Definition clock_cost_estimation_time : Z := milliseconds 10.
Definition clock_cost_estimation_iterations : Z := 10000.

Record EnvironmentEstimate := mk_EnvironmentEstimate { ee_mean : double; ee_outliers : OutlierClassification }.
Record Environment := mk_Environment { clock_resolution : EnvironmentEstimate; clock_cost : EnvironmentEstimate }.
Definition warmup : code E S Z :=
  t ← run_for_at_least rounds warmup_time warmup_seed (measure_int resolution); mret (iterations t).
Definition estimate_clock_resolution (iterations : Z) : code E S EnvironmentEstimate :=
  t ← run_for_at_least rounds clock_resolution_estimation_time iterations (measure_int resolution);
  o ← of_outcome (classify_outliers (result t));
  mret (mk_EnvironmentEstimate (mean (result t)) o).
Definition time_clock (k : Z) : code E S Z :=
  t ← measure (loop k (λ _, _ ← now; mret tt)); mret (elapsed t).
Fixpoint generate_n {A} (n : nat) (g : code E S A) : code E S (list A) :=
  match n with O => mret [] | Datatypes.S n => x ← g; xs ← generate_n n g; mret (x :: xs) end.
Definition estimate_clock_cost (resolution : double) : code E S EnvironmentEstimate :=
  let time_limit := fmin_ (mul resolution (of_int clock_cost_estimation_tick_limit)) (of_int clock_cost_estimation_time_limit) in
  _ ← time_clock 1;
  r ← run_for_at_least rounds clock_cost_estimation_time clock_cost_estimation_iterations (measure_int time_clock);
  nsamples ← of_outcome (ceil_int (div time_limit (of_int (elapsed r))));
  times ← generate_n (Z.to_nat nsamples) (t ← time_clock (iterations r); mret (of_int (Z.quot t (iterations r))));
  o ← of_outcome (classify_outliers times);
  mret (mk_EnvironmentEstimate (mean times) o).
(** What the first call gives is kept. *)
Context (kept : code E S (option Environment)) (keep : Environment → code E S unit).
Definition measure_environment : code E S Environment :=
  env ← kept;
  match env with
  | Some env => mret env
  | None =>
      iters ← warmup;
      resolution ← estimate_clock_resolution iters;
      cost ← estimate_clock_cost (ee_mean resolution);
      let env := mk_Environment resolution cost in
      _ ← keep env; mret env
  end.

(** ** A benchmark *)
Record ExecutionPlan := mk_ExecutionPlan {
  iterations_per_sample : Z;
  estimated_duration : double;
  benchmark : BenchmarkFunction;
  plan_warmup_time : double;
  plan_warmup_iterations : Z
}.
Definition prepare (samples : Z) (env : Environment) (fun_ : BenchmarkFunction) : code E S ExecutionPlan :=
  let min_time := mul (ee_mean (clock_resolution env)) (of_int minimum_ticks) in
  let run_time := fmax_ min_time (of_int warmup_time) in
  how_long ← of_outcome (to_integer 64 run_time);
  test ← run_for_at_least rounds how_long 1 (measure_meter fun_);
  new_iters ← of_outcome (ceil_int (div (mul min_time (of_int (iterations test))) (of_int (elapsed test))));
  mret (mk_ExecutionPlan new_iters
          (of_int (i64 (i64 (Z.quot (elapsed test) (iterations test) * new_iters) * samples))) fun_ (of_int warmup_time)
          warmup_iterations).

Definition sample_once (plan : ExecutionPlan) (env : Environment) : code E S double :=
  m ← call (benchmark plan) (iterations_per_sample plan) new_meter;
  let sample_time := sub (of_int (finished m - started m)) (ee_mean (clock_cost env)) in
  let sample_time := if SFltb sample_time zero then zero else sample_time in
  mret (div sample_time (of_int (iterations_per_sample plan))).
Definition plan_run (samples : Z) (env : Environment) (plan : ExecutionPlan) : code E S (list double) :=
  how_long ← of_outcome (to_integer 64 (plan_warmup_time plan));
  _ ← run_for_at_least rounds how_long (plan_warmup_iterations plan) (measure_int (λ k, loop k (λ _, _ ← now; mret tt)));
  generate_n (Z.to_nat samples) (sample_once plan env).

(** What a reporter is told. *)
Record BenchmarkInfo := mk_BenchmarkInfo {
  bi_name : list byte;
  bi_estimatedDuration : double;
  bi_iterations : Z;
  bi_samples : Z;
  bi_resamples : Z;
  bi_clockResolution : double;
  bi_clockCost : double
}.
Inductive benchmark_event :=
| benchmarkPreparing (name : list byte)
| benchmarkStarting (info : BenchmarkInfo)
| benchmarkEnded (info : BenchmarkInfo) (analysis : SampleAnalysis)
| benchmarkFailed (error : list byte).

Section run.
Context (report : benchmark_event → code E S unit) (translate : E → E + list byte) (runtime_error : E).
Definition benchmarkErrorMsg : list byte := str "a benchmark failed to run successfully".

(** [CATCH_TRY { ... } CATCH_CATCH_ALL { ... }], with what is done to the exception. *)
Definition catching {A} (m : code E S A) (handle : E → code E S A) : code E S A := λ s,
  match m s with Done (inl e, s) => handle e s | o => o end.
Definition translated (e : E) : code E S (list byte) :=
  match translate e with inr text => mret text | inl e => raise e end.
Definition user_code {A} (fun_ : code E S A) : code E S A :=
  catching fun_ (λ e, text ← translated e; _ ← report (benchmarkFailed text); raise runtime_error).

Definition benchmark_run (samples resamples : Z) (analysed : list double → outcome SampleAnalysis) (name : list byte)
    (fun_ : BenchmarkFunction) : code E S unit :=
  env ← measure_environment;
  _ ← report (benchmarkPreparing name);
  catching
    (plan ← user_code (prepare samples env fun_);
     let info := mk_BenchmarkInfo name (estimated_duration plan) (iterations_per_sample plan) samples resamples
                   (ee_mean (clock_resolution env)) (ee_mean (clock_cost env)) in
     _ ← report (benchmarkStarting info);
     times ← user_code (plan_run samples env plan);
     analysis ← of_outcome (analysed times);
     report (benchmarkEnded info analysis))
    (λ e, text ← translated e; if decide (text = benchmarkErrorMsg) then mret tt else raise e).
End run.
End measuring.
Arguments mk_Timing {R}.
Arguments elapsed {R}.
Arguments result {R}.
Arguments iterations {R}.

(** * Measuring long enough *)
Section long_enough.
Context {E S R : Type} (optimized_away_error : E) (measure_one : Z → code E S (Timing R)) (how_long : Z).

(** Rounds that were too short, from one number of iterations and one state to others. *)
Inductive too_short : Z → S → Z → S → Prop :=
| no_round n s : too_short n s n s
| one_round n s t s' n' s'' : n < 2 ^ 30 → measure_one n s = Done (inr t, s') → elapsed t < how_long →
    too_short (n * 2) s' n' s'' → too_short n s n' s''.

Lemma run_for_at_least_rounds fuel seed s : (∀ n s, 0 < n → ∃ t s', measure_one n s = Done (inr t, s')) →
  0 < seed → 2 ^ 30 ≤ seed * 2 ^ (Z.of_nat fuel - 1) → (0 < fuel)%nat → ∃ n s1, too_short seed s n s1 ∧
  ((2 ^ 30 ≤ n ∧ run_for_at_least optimized_away_error fuel how_long seed measure_one s =
      Done (inl optimized_away_error, s1)) ∨
   ∃ t s', n < 2 ^ 30 ∧ measure_one n s1 = Done (inr t, s') ∧ how_long ≤ elapsed t ∧
     run_for_at_least optimized_away_error fuel how_long seed measure_one s =
       Done (inr (mk_Timing (elapsed t) (result t) n), s')).
Proof.
  intros Hm. revert seed s. induction fuel as [|fuel IH]; intros seed s Hseed Hf Hpos; [lia|].
  cbn [run_for_at_least]. case_decide as Hlt.
  - destruct (Hm seed s Hseed) as (t & s' & Ht).
    assert (∀ A (f : Timing R → code E S A), (t ← measure_one seed; f t) s = f t s') as Hbind
      by (intros; unfold mbind, code_bind; by rewrite Ht).
    rewrite Hbind. case_decide as Hlong.
    + exists seed, s. split; [constructor|]. right. by exists t, s'.
    + assert (0 < fuel)%nat as Hfuel.
      { destruct fuel; [|lia]. cbn in Hf. lia. }
      destruct (IH (seed * 2) s') as (n & s1 & Hts & Hres); [lia| |done|].
      { replace (Z.of_nat (Datatypes.S fuel) - 1) with (Z.of_nat fuel - 1 + 1) in Hf by lia.
        rewrite Z.pow_add_r in Hf by lia. lia. }
      rewrite i32_id by (unfold is_i32; lia). exists n, s1. split; [|exact Hres].
      eapply one_round; [done|exact Ht|lia|exact Hts].
  - exists seed, s. split; [constructor|]. left. split; [lia|done].
Qed.
End long_enough.

(** Property (termination): a measurement that does not throw is repeated with twice the iterations each time until
    it takes long enough, and the iterations of the first that does are the result; if none does below 2^30
    iterations the benchmark is taken to be optimised away.  Either way it ends after 31 rounds at most. *)
Theorem measured_long_enough {E S R} (optimized_away_error : E) (measure_one : Z → code E S (Timing R)) how_long seed s :
  (∀ n s, 0 < n → ∃ t s', measure_one n s = Done (inr t, s')) → 0 < seed →
  ∃ n s1, too_short measure_one how_long seed s n s1 ∧
  ((2 ^ 30 ≤ n ∧ run_for_at_least optimized_away_error rounds how_long seed measure_one s =
      Done (inl optimized_away_error, s1)) ∨
   ∃ t s', n < 2 ^ 30 ∧ measure_one n s1 = Done (inr t, s') ∧ how_long ≤ elapsed t ∧
     run_for_at_least optimized_away_error rounds how_long seed measure_one s =
       Done (inr (mk_Timing (elapsed t) (result t) n), s')).
Proof. intros Hm Hseed. apply run_for_at_least_rounds; [done|done|unfold rounds; lia|unfold rounds; lia]. Qed.

(** * Jackknife *)
Section jackknife.
Context {A : Type} (estimator : list A → double).

Fixpoint leave_out (before after : list A) : list double :=
  match after with [] => [] | y :: after => estimator (before ++ after) :: leave_out (before ++ [y]) after end.

(** What the samples are in the end: the last one is in front of the others. *)
Fixpoint rotated (x : A) (pre post : list A) : list A :=
  match post with [] => x :: pre | y :: post => rotated y (pre ++ [x]) post end.
Lemma rotated_eq post : ∀ x pre, ∃ l z, pre ++ x :: post = l ++ [z] ∧ rotated x pre post = z :: l.
Proof.
  induction post as [|y post IH]; intros x pre; cbn [rotated]; [by exists pre, x|].
  destruct (IH y (pre ++ [x])) as (l & z & Hl & Hr). exists l, z. by rewrite <-Hl, <-app_assoc.
Qed.

Lemma swap_front (x y : A) pre post : swap (Datatypes.S (length pre)) 0 (x :: pre ++ y :: post) = y :: pre ++ x :: post.
Proof.
  unfold swap.
  assert ((x :: pre ++ y :: post) !! Datatypes.S (length pre) = Some y) as -> by (by apply list_lookup_middle).
  change (y :: <[length pre := x]> (pre ++ y :: post) = y :: pre ++ x :: post).
  by rewrite insert_app_r_alt, Nat.sub_diag by done.
Qed.
Lemma jackknife_from_eq post : ∀ x pre results,
  jackknife_from estimator (length post) (Datatypes.S (length pre)) (x :: pre ++ post) results =
  (results ++ leave_out (pre ++ [x]) post, rotated x pre post).
Proof.
  induction post as [|y post IH]; intros x pre results; cbn [length jackknife_from leave_out rotated].
  - by rewrite !app_nil_r.
  - rewrite swap_front. cbv zeta. cbn [drop]. rewrite drop_0, cons_middle, app_assoc.
    replace (Datatypes.S (Datatypes.S (length pre))) with (Datatypes.S (length (pre ++ [x])))
      by (rewrite length_app; cbn; lia).
    by rewrite IH, <-app_assoc.
Qed.
Lemma leave_out_eq after : ∀ before, leave_out before after =
  (λ i, estimator (take i (before ++ after) ++ drop (Datatypes.S i) (before ++ after))) <$> seq (length before) (length after).
Proof.
  induction after as [|y after IH]; intros before; [done|]. cbn [leave_out length seq fmap list_fmap]. f_equal.
  - rewrite take_app_length, drop_app_ge by lia. by replace (Datatypes.S (length before) - length before)%nat with 1%nat by lia.
  - rewrite IH, <-app_assoc, length_app. cbn [app length]. by rewrite Nat.add_1_r.
Qed.

Lemma jackknife_eq x l : jackknife estimator (x :: l) = Done (leave_out [] (x :: l), rotated x [] l).
Proof. exact (f_equal Done (jackknife_from_eq l x [] [estimator l])). Qed.

Theorem jackknife_leaves_one_out (l : list A) : l ≠ [] → ∃ init last, l = init ++ [last] ∧
  jackknife estimator l =
    Done ((λ i, estimator (take i l ++ drop (Datatypes.S i) l)) <$> seq 0 (length l), last :: init).
Proof.
  destruct l as [|x l]; [done|]. intros _. destruct (rotated_eq l x []) as (init & last & Hl & Hr).
  exists init, last. split; [exact Hl|]. by rewrite jackknife_eq, Hr, leave_out_eq.
Qed.
End jackknife.

(** * The order of the samples

    Samples are durations divided by a number: neither NaN nor the zero below zero. *)
Definition sample_ok (x : double) : Prop := valid Double x ∧ isnan x = false ∧ x ≠ S754_zero true.
Definition below (x y : double) : Prop := rank Double x ≤ rank Double y.

Lemma rank_sample x y : sample_ok x → sample_ok y → rank Double x = rank Double y → x = y.
Proof.
  intros (Vx & Nx & Zx) (Vy & Ny & Zy) Hr. apply (eqb_rank Double) in Hr; [|done..].
  unfold SFeqb in Hr. destruct x as [[]|[]| |sx mx ex], y as [[]|[]| |sy my ey]; cbn in Hr;
    try done; try (by destruct sx); try (by destruct sy).
  destruct sx, sy; try done; destruct (Z.compare_spec ex ey) as [->|?|?]; try done; cbn in Hr;
    change (Pos.compare_cont Eq mx my) with (Pos.compare mx my) in Hr;
    destruct (Pos.compare_spec mx my) as [->|?|?]; done.
Qed.

Lemma insert_double_perm x l : insert_double x l ≡ₚ x :: l.
Proof.
  induction l as [|y l IH]; [done|]. cbn [insert_double]. destruct (SFltb y x); [|done].
  by rewrite IH, Permutation_swap.
Qed.
Lemma sort_doubles_perm l : sort_doubles l ≡ₚ l.
Proof. induction l as [|x l IH]; [done|]. cbn [sort_doubles]. by rewrite insert_double_perm, IH. Qed.

Lemma insert_double_sorted x l : sample_ok x → Forall sample_ok l → StronglySorted below l →
  StronglySorted below (insert_double x l).
Proof.
  intros Hx Hl Hs. induction Hs as [|y l Hs IH Hy]; [by repeat constructor|].
  apply Forall_cons_1 in Hl as [Hoy Hl]. cbn [insert_double].
  pose proof (ltb_rank Double y x (proj1 Hoy) (proj1 Hx) (proj1 (proj2 Hoy)) (proj1 (proj2 Hx))) as Hlt.
  destruct (SFltb y x).
  - constructor; [by apply IH|]. rewrite insert_double_perm. constructor; [|done]. unfold below. by apply Z.lt_le_incl, Hlt.
  - assert (below x y) as Hxy by (unfold below; destruct (Z.le_gt_cases (rank Double x) (rank Double y)) as [?|H]; [done|by apply Hlt in H]).
    constructor; [by constructor|]. constructor; [done|]. eapply Forall_impl; [|exact Hy].
    intros z Hz. unfold below in *. by etrans.
Qed.
Lemma sort_doubles_sorted l : Forall sample_ok l → StronglySorted below (sort_doubles l).
Proof.
  induction 1 as [|x l Hx Hl IH]; [constructor|]. cbn [sort_doubles]. apply insert_double_sorted; [done| |done].
  by rewrite sort_doubles_perm.
Qed.

(** Sorting forgets the order. *)
Lemma sort_doubles_permuted l l' : Forall sample_ok l → l ≡ₚ l' → sort_doubles l = sort_doubles l'.
Proof.
  intros Hl Hp. assert (Forall sample_ok l') as Hl' by (by rewrite <-Hp).
  apply (StronglySorted_unique_strong below).
  - intros x y Hx Hy ? ?. rewrite sort_doubles_perm in Hx, Hy. eapply list.Forall_forall in Hx; [|exact Hl].
    eapply list.Forall_forall in Hy; [|exact Hl']. apply rank_sample; [done|done|]. unfold below in *. lia.
  - by apply sort_doubles_sorted.
  - by apply sort_doubles_sorted.
  - by rewrite !sort_doubles_perm.
Qed.
Lemma quantile_permuted k q l l' : Forall sample_ok l → l ≡ₚ l' →
  weighted_average_quantile k q l = weighted_average_quantile k q l'.
Proof.
  intros Hl Hp. unfold weighted_average_quantile, nth_element. by rewrite (sort_doubles_permuted l l' Hl Hp), (Permutation_length Hp).
Qed.

Lemma classify_comm los lom him his o x y :
  classify los lom him his (classify los lom him his o x) y = classify los lom him his (classify los lom him his o y) x.
Proof.
  destruct o. unfold classify.
  repeat match goal with |- context [if ?b then _ else _] => destruct b end; f_equal; lia.
Qed.
Lemma classified_permuted los lom him his l l' : l ≡ₚ l' → ∀ o,
  foldl (classify los lom him his) o l = foldl (classify los lom him his) o l'.
Proof.
  induction 1 as [|x l l' Hp IH|x y l|l l1 l2 H1 IH1 H2 IH2]; intros o; cbn [foldl]; [done|apply IH| |].
  - by rewrite classify_comm.
  - by rewrite IH1.
Qed.
Lemma outliers_permuted l l' : Forall sample_ok l → l ≡ₚ l' → classify_outliers l = classify_outliers l'.
Proof.
  intros Hl Hp. unfold classify_outliers. rewrite !(quantile_permuted _ _ l l' Hl Hp).
  destruct (weighted_average_quantile 1 4 l') as [q1| |]; [|done..].
  destruct (weighted_average_quantile 3 4 l') as [q3| |]; [|done..]. cbn [mbind outcome_bind]. f_equal.
  by apply classified_permuted.
Qed.

(** * The analysis *)
Section analysed.
Context (log erfc : double → double) (pow : double → double → double).

Lemma done_inv {A B} (m : outcome A) (f : A → outcome B) b : m ≫= f = Done b → ∃ a, m = Done a ∧ f a = Done b.
Proof. destruct m; [eauto|done..]. Qed.

Lemma bootstrap_inv cl l rs f e l' : bootstrap log erfc pow cl l rs f = Done (e, l') → l' ≡ₚ l ∧ point e = f l.
Proof.
  unfold bootstrap. case_decide; [by intros [= <- <-]|].
  intros ([jack l1] & Hj & Hr)%done_inv. assert (l1 ≡ₚ l) as Hp.
  { unfold jackknife in Hj. case_decide as Hl; [done|]. destruct (jackknife_leaves_one_out f l Hl) as (i & z & -> & He).
    unfold jackknife in He. rewrite decide_False in He by done. rewrite He in Hj. injection Hj as _ <-.
    by rewrite Permutation_app_comm. }
  destruct (foldl _ _ _) as [sq cb]. case_match; [by injection Hr as <- <-|].
  apply done_inv in Hr as (bias & _ & (z1 & _ & (c1 & _ & (c2 & _ & Hr)%done_inv)%done_inv)%done_inv).
  case_decide; [done|]. apply done_inv in Hr as (lo & _ & (hi & _ & [= <- <-])%done_inv). done.
Qed.
Lemma analyse_samples_inv md sd cl n l b l' : analyse_samples log erfc pow md sd cl n l = Done (b, l') →
  l' ≡ₚ l ∧ point (ba_mean b) = mean l.
Proof.
  unfold analyse_samples. intros ([e1 l1] & (r1 & _ & [H1 Hpt]%bootstrap_inv)%done_inv & Hr)%done_inv.
  apply done_inv in Hr as ([e2 l2] & (r2 & _ & [H2 _]%bootstrap_inv)%done_inv & (v & _ & [= <- <-])%done_inv).
  split; [by rewrite H2|done].
Qed.

Lemma classified_counts los lom him his l : ∀ o, let o' := foldl (classify los lom him his) o l in
  samples_seen o' = samples_seen o + Z.of_nat (length l) ∧
  outliers_total o ≤ outliers_total o' ≤ outliers_total o + Z.of_nat (length l).
Proof.
  induction l as [|x l IH]; intros o; cbn [foldl length]; [lia|].
  destruct (IH (classify los lom him his o x)) as [Hn Ht]. cbv zeta. rewrite Hn.
  assert (samples_seen (classify los lom him his o x) = samples_seen o + 1 ∧
    outliers_total o ≤ outliers_total (classify los lom him his o x) ≤ outliers_total o + 1) as [H1 H2].
  { destruct o. unfold classify, outliers_total. repeat case_match; cbn; lia. }
  lia.
Qed.

(** C36 (safety): an analysis that is defined keeps all the samples, whatever order the jackknife leaves them
    in: its mean and its outliers are those of the samples as they were measured; each sample is seen once, and
    no more of them are outliers than there are. *)
Theorem analysis_of_all_samples md sd ci n samples a : Forall sample_ok samples →
  analyse log erfc pow md sd false ci n samples = Done a →
  sa_samples a ≡ₚ samples ∧ point (sa_mean a) = mean samples ∧ classify_outliers samples = Done (sa_outliers a) ∧
  samples_seen (sa_outliers a) = Z.of_nat (length samples) ∧
  0 ≤ outliers_total (sa_outliers a) ≤ samples_seen (sa_outliers a).
Proof.
  intros Hok ([b l] & [Hp Hpt]%analyse_samples_inv & (o & Ho & [= <-])%done_inv)%done_inv.
  assert (classify_outliers samples = Done o) as Hs by (rewrite <-Ho; by apply outliers_permuted).
  cbn [sa_samples sa_mean sa_outliers]. split_and!; [done|done|done|..]; unfold classify_outliers in Hs;
    apply done_inv in Hs as (q1 & _ & (q3 & _ & [= <-])%done_inv);
    destruct (classified_counts (sub q1 (mul (sub q3 q1) (literal "3."))) (sub q1 (mul (sub q3 q1) (literal "1.5")))
      (add q3 (mul (sub q3 q1) (literal "1.5"))) (add q3 (mul (sub q3 q1) (literal "3."))) samples no_outliers)
      as [Hn [Hlo Hhi]]; cbv zeta in *; unfold no_outliers, outliers_total in *; cbn in *; lia.
Qed.

(** Without samples, and where all of them are zero - a benchmark that takes no longer than reading the clock -
    the analysis is undefined: it takes an element of nothing, and makes an [int] of a NaN. *)
Lemma no_samples_undefined md sd ci n : analyse log erfc pow md sd false ci n [] = Undefined.
Proof. reflexivity. Qed.
Lemma zero_samples_undefined :
  analyse log erfc pow (λ i j, j) (λ i j, j) false (literal "0.95") 2 [zero; zero; zero] = Undefined.
Proof. vm_compute. reflexivity. Qed.
End analysed.

(** ** A benchmark that throws *)
Section failing.
Context {E S : Type} (now : code E S Z) (optimized_away_error : E) (kept : code E S (option Environment))
  (keep : Environment → code E S unit) (translate : E → E + list byte) (runtime_error : E).
Context (report : benchmark_event → code E S unit) (tell : benchmark_event → S → S).
Context (report_tells : ∀ ev s, report ev s = Done (inr tt, tell ev s)).

Theorem failed_benchmark_told samples resamples analysed name fun_ env s s1 s2 e text :
  translate runtime_error = inr benchmarkErrorMsg → translate e = inr text →
  measure_environment now optimized_away_error kept keep s = Done (inr env, s1) →
  prepare now optimized_away_error samples env fun_ (tell (benchmarkPreparing name) s1) = Done (inl e, s2) →
  benchmark_run now optimized_away_error kept keep report translate runtime_error samples resamples analysed name fun_ s =
    Done (inr tt, tell (benchmarkFailed text) s2).
Proof.
  intros Hr He Henv Hp. unfold benchmark_run, mbind, code_bind. rewrite Henv, report_tells.
  unfold catching, user_code, catching, translated. rewrite Hp, He. unfold mret, code_ret, mbind, code_bind.
  rewrite report_tells. unfold raise. by rewrite Hr, decide_True.
Qed.
End failing.

(** * Benchmarks on concrete data *)
Example literals : literal "0.24015818242558961693" = S754_finite false 8652610407054888 (-55) ∧
  literal "1.5" = S754_finite false 6755399441055744 (-52).
Proof. vm_compute. split; reflexivity. Qed.

(** A function that takes three ticks for each iteration, on a clock that moves a tick with every reading. *)
Definition ticking : code unit Z Z := λ s, Done (inr s, s + 1).
Definition three_ticks (k : Z) : code unit Z unit := λ s, Done (inr tt, s + 3 * k).
Example measured_ticks : run_for_at_least tt rounds 100 1 (measure_int ticking three_ticks) 0 =
  Done (inr (mk_Timing 193 tt 64), 395).
Proof. vm_compute. reflexivity. Qed.
Lemma measured_long_enough_witness : ∃ n s1,
  too_short (measure_int ticking three_ticks) 100 1 0 n s1 ∧
  ((2 ^ 30 ≤ n ∧ run_for_at_least tt rounds 100 1 (measure_int ticking three_ticks) 0 = Done (inl tt, s1)) ∨
   ∃ t s', n < 2 ^ 30 ∧ measure_int ticking three_ticks n s1 = Done (inr t, s') ∧ 100 ≤ elapsed t ∧
     run_for_at_least tt rounds 100 1 (measure_int ticking three_ticks) 0 = Done (inr (mk_Timing (elapsed t) (result t) n), s')).
Proof.
  apply (measured_long_enough tt (measure_int ticking three_ticks) 100 1 0); [|lia].
  intros n s _. eexists _, _. reflexivity.
Defined.

(** Crude stand-ins for the mathematical library. *)
Definition sample_log (x : double) : double := minus_literal "1".
Definition sample_erfc (x : double) : double := literal "1".
Definition sample_pow (x y : double) : double := mul x x.
Definition sample_times : list double := of_int <$> [3; 1; 2; 40; 2; 1].
Definition sample_analysis : outcome SampleAnalysis :=
  analyse sample_log sample_erfc sample_pow (λ i j, i + j)%nat (λ i j, i * j)%nat false (literal "0.95") 5 sample_times.
Example samples_turned : match sample_analysis with
  | Done a => Some (sa_samples a, sa_outliers a)
  | _ => None
  end = Some (of_int <$> [2; 1; 3; 1; 2; 40], mk_OutlierClassification 6 0 0 0 1).
Proof. vm_compute. reflexivity. Qed.

Lemma analysis_of_all_samples_witness : ∃ a, sample_analysis = Done a ∧ sa_samples a ≡ₚ sample_times ∧
  samples_seen (sa_outliers a) = 6.
Proof.
  destruct sample_analysis as [a| |] eqn:Ha; [|vm_compute in Ha; discriminate Ha..].
  destruct (analysis_of_all_samples sample_log sample_erfc sample_pow (λ i j, i + j)%nat (λ i j, i * j)%nat
    (literal "0.95") 5 sample_times a) as (Hp & _ & _ & Hs & _); [|exact Ha|].
  - repeat (constructor; [split; [vm_compute; reflexivity|split; [reflexivity|discriminate]]|]). constructor.
  - exists a. split; [reflexivity|]. split; [exact Hp|exact Hs].
Defined.
